(* ===== verification/_CoqProject ===== *)
-Q . S2P
Prelude.v
Bytes.v
Utf8.v
Script.v
Lbrycrd.v
TxOrder.v
Scheduler.v
SchedulerGraph.v
SchedulerProofs.v
SchedulerTheorems.v
Rows.v
Store.v
Datastore.v
StoreFacts.v
Schema.v
Keyed.v
Claims.v
Transactions.v
TransactionFacts.v
BlockSync.v
DemoWorld.v
WorkerPool.v
BlockProcessing.v
Jobs.v
ClaimTrie.v
ClaimTable.v
UpgradeManager.v
ClaimTrieTheorems.v
BlockSyncProofs.v
ClaimTheorems.v
TransactionTheorems.v
BlockFacts.v
BlockTheorems.v
Daemon.v
ProcessFacts.v
ChainFacts.v
DaemonTheorems.v
ChainValidation.v
ValueSync.v
ValueSyncTheorems.v
TransactionTable.v
MempoolSync.v
MempoolTheorems.v
UpgradeTheorems.v
ApiActions.v
Notifications.v
CertificateSync.v
ChainSync.v
ChainSyncFacts.v
ChainSyncTheorems.v
Columns.v
SchemaTheorems.v
Codes.v
Boiler.v
ModelTables.v
ModelFacts.v
ModelTheorems.v
Relations.v
ModelRelations.v
RelationTheorems.v
