(* ===== verification/Prelude.v ===== *)
(** * Chainquery: a verification library

    Chainquery follows the LBRY blockchain: it asks a lbrycrd node for one block after the
    other, stores blocks, transactions, inputs, outputs, addresses, claims, supports and
    purchases in MySQL, and keeps derived columns up to date with jobs beside the block worker.
    This library is a shallow embedding of that program in Rocq and the theorems that say what
    it guarantees.  Each file opens with the Go files it models; definitions carry the names of
    the Go functions.

    ** How the program is embedded

    - [Prelude]: a Go function is a function into [res] (a value, an error value, a panic) or,
      when it has effects, a state monad [M World] over it; [mtry] turns an error into a value,
      as [if err != nil] does.  Unsigned 64-bit integers are [Z] with [u64] where the code can
      wrap around.  [steps R m] says that [m] changes the state along the preorder [R] on every
      branch, errors and panics included; [triple] is total correctness.  [go_steps] derives
      the former from the text of a handler with the hints of the database [go].
    - [Bytes], [Utf8]: slices, hexadecimal text, runes.
    - [Rows], [Store], [Datastore]: the rows of [model/*.go], the statements the generated code
      issues with primary, unique and foreign keys and their cascades, and the gets and puts of
      [datastore/datastore.go].  [Faults] says which statement fails with which error; theorems
      hold for all faults unless they ask for a [Healthy] database.
    - The node ([Node]), the clock, codecs, hash functions, address encodings and protobuf
      decoders are classes of functions: code that is not in the repository.  What the theorems
      ask of them is said where they ask it ([DriverFaults], [CollationLaws], ...), and
      [DemoWorld] and the example modules instantiate them.

    ** The components

    - Reading the node: [Script] ([lbrycrd/script.go]), [Lbrycrd] (the rest of [lbrycrd/]).
    - Processing a transaction: [Claims] (claim scripts and metadata), [Transactions]
      ([ProcessTx]), [WorkerPool] (the goroutines of its inputs and outputs, their jobs in
      atomic pieces that interleave).  [Transactions] runs the jobs of a pool one after the
      other in an order that is an argument; [worker_pools_implement] says what holds of every
      interleaving, and that with a single worker it is one of those orders.
    - Processing a block: [Scheduler] (the dependency graph of a block's transactions and the
      coordinator's loop, with what workers, timers and the stopper do as the choices of each
      round), [BlockSync] (the same loop with [ProcessTx] as the worker), [BlockProcessing]
      (saving, linking, completing and deleting blocks, reorganisations, the start-up
      clean-up), which needs the synchronisation only through the class [TxSync] and its laws.
      [TxOrder] is the ordering of the legacy pipeline.
    - The daemon: [Daemon], a step relation whose program points are those of the ticker, the
      iteration, the block worker and the watchdog.
    - The jobs: [MempoolSync], [ClaimTrie], [CertificateSync], [ChainSync], [ChainValidation],
      [ValueSync], with their status rows in [Jobs].
    - Around it: [UpgradeManager], [ApiActions], [Notifications].
    - The generated row code ([model/*.go]) below the rows: [Boiler] is the template of a file
      over a [Table], with the text and the arguments of each statement and the maps of built
      statements that goroutines share; [Relations] the template of a foreign key, with rows as
      objects of a heap; [ModelTables] and [ModelRelations] list the fifteen tables and the
      twelve foreign keys with their instances.  sqlboiler, strmangle, the query builder and
      the driver are classes.  The rest of the library does not go through this part: in
      [Store] a statement is what it does to the tables.

    ** What the theorems show

    - Order and completeness of a block: [dependencies_first], [ordered_block_never_stalls],
      [scheduler_terminates] (a bound on the rounds, and a way for each round to end that does
      not need the stop signal), [scheduler_outcome] (the error of a run and where it came
      from), [scheduler_bounds] for every reachable state of the coordinator;
      [sync_refines_scheduler] (the workers' answers are those of [ProcessTx], run one after
      the other in the world) and [synced_block_processed_in_order] carry them to the
      database; [optimizeOrderToProcess_spec] for the legacy order.
    - Transactions and claims: [ProcessTx_complete], [worker_pools_implement],
      [cleanup_resets], [processClaimNameScript_stores], [UpdateClaimData_no_stale],
      [claim_scripts_roundtrip].
    - Blocks: [RunBlockProcessing_complete], [RunBlockProcessing_rollback] (no row of a failed
      block is left), [checkHandleReorg_spec] (only stale blocks go), [cleanupIncompleteHead_spec], [reorg_keeps_spent_marks].
    - The daemon: [blocks_in_order], [stored_chain_bounded], [watchdog_accurate] for every
      interleaving; [gap_is_permanent] and [wedged_for_good] are two ways it stops advancing.
    - The database: [columns_preserved] (the spent marks, the sources of inputs, keys and
      references stay valid in every state the program reaches), by way of [Columns], which
      says what the marks and sources are and that the statements of the transactions and of
      the chain sync keep them, of [Schema], which says once for all tables what the
      statements do to keys, and of [ProcessFacts] and [ChainSyncFacts], which carry what the
      statements respect to block processing and the chain sync for any relation on databases.
    - The jobs: [MempoolSync_keeps_chain], [processTxSet_spec], [align_one_spec],
      [coinbase_stops_alignment], [ChainSync_status_kept], [controlling_claim_spec],
      [CertificateSync_spec], [ValidateChainRange_spec], [channel_counts_spec],
      [transaction_values_spec].
    - Around it: [upgraded_once], [setClaimAddresses_spec], [ProcessBlocks_spec],
      [delivery_accounted], [ClaimEvent_spec].
    - The generated row code: [cache_transparent] (the string keys of the maps never confuse
      two statements, by the test of [Codes] on the column names), [arguments_match],
      [only_the_given_rows], [tables_consistent], [LoadChildren_spec] (eager loading);
      [RemoveParent_keeps_row] is a method that does not do what it says.

    ** Bounds and fuel

    Loops that are not structural run on fuel that is shown to be enough: [order_loop] on the
    number of transactions, [pages] and [spent_pass] on the number of rows, the chain sync walk
    on the distance to the highest block, the range of the API on its length.  The rounds of
    the scheduler and the steps of the daemon and of the pools are relations; their termination
    is a measure.  The limits of the code (100 blocks of a reorganisation, three attempts to
    delete a block, 1000 errors and claims, batches of 5000 and 15000) are kept as they are.

    ** Interleaving

    The statements of one call of [ProcessTx], of one job of a pool and of one job of the
    daemon run without interruption by others; the order of the calls is free.  [BlockLock]
    makes that exact between blocks, the memory pool and the alignment of a block; between two
    transactions of a block, or two inputs of a transaction, it leaves out the interleaving of
    single statements.  [WorkerPool] is the exception: there the jobs interleave piece by
    piece, and what it shows holds of those runs too; what [Transactions] says of the rows a
    transaction leaves is about jobs that do not overlap.  Random map iteration is a parameter
    or an arbitrary listing.

    ** Not modelled

    Logging, metrics, the texts the drivers and libraries put into errors, the HTTP and socket
    clients, signal handling, the tickers that start the jobs, stack dumps.  The goroutines of
    the legacy transaction pipeline, which nothing calls.  Of the generated code the where
    helpers, the getters, the variants of its methods that take the global executor or panic,
    and structs that embed a row.  The trigger that keeps
    [address.balance] when a [transaction_address] row is updated: the model has in that column
    what the Go code writes.  The commands, the configuration reader, the end-to-end harness,
    the swagger clients, the packed migrations, the wallet requests and [util/worker.go], which
    hold no logic of the program or are not used by it.  The free SQL of the API. *)
From stdpp Require Export base list gmap strings.
From Stdlib Require Export ZArith Lia ZifyBool Sorting.Sorted.
#[global] Set Default Goal Selector "!".
#[global] Open Scope Z_scope.

(** ** Go's three outcomes: a value, an error value, a panic *)

(** The errors the modelled packages create or classify.  [ErrMsg] is any error built from a
    message, [ErrPrefix] a wrapped error (the wrapping keeps the chain, so that a typed error
    is still found behind it). *)
Inductive error :=
| ErrMsg (msg : string)
| ErrPrefix (prefix : string) (err : error)
| ErrNoRows
| ErrMySQL (number : Z)
| ErrRPC (code : Z) (message : string)
| ErrMissingSourceOutput (prevoutTxID txID : string) (prevoutN blockHeight : Z)
| ErrNotClaimScript
| ErrDependencyGraphStalled (msg : string)
| ErrSchedulerInvariant (msg : string)
| ErrManualShutDown
| ErrRuntime (msg : string).

Inductive res (A : Type) :=
| Ok (a : A)
| Err (e : error)
| Panic (e : error).
Arguments Ok {A} a.
Arguments Err {A} e.
Arguments Panic {A} e.

Definition rbind {A B} (m : res A) (f : A -> res B) : res B :=
  match m with Ok a => f a | Err e => Err e | Panic e => Panic e end.

Definition rmap {A B} (f : A -> B) (m : res A) : res B := rbind m (fun a => Ok (f a)).

Definition is_Ok {A} (m : res A) : bool := match m with Ok _ => true | _ => false end.

Definition no_panic {A} (m : res A) : Prop := forall e, m <> Panic e.

Declare Scope go_scope.
Delimit Scope go_scope with go.
#[global] Open Scope go_scope.

Notation "'let?' p ':=' m 'in' k" := (rbind m (fun p => k))
  (at level 10, p strict pattern, m at level 100, k at level 200,
   format "'[v' 'let?'  p  ':='  m  'in' '/' k ']'") : go_scope.

(** [errors.As]-style search through a chain of wrapped errors. *)
Fixpoint unwrap (e : error) : error :=
  match e with ErrPrefix _ e' => unwrap e' | _ => e end.

(** ** State passing with errors: what a Go function with side effects does *)

Definition M (W A : Type) : Type := W -> res A * W.

Section Monad.
Context {W : Type}.

Definition mret {A} (a : A) : M W A := fun w => (Ok a, w).
Definition mlift {A} (r : res A) : M W A := fun w => (r, w).
Definition mfail {A} (e : error) : M W A := mlift (Err e).
Definition mpanic {A} (e : error) : M W A := mlift (Panic e).
Definition mbind {A B} (m : M W A) (f : A -> M W B) : M W B :=
  fun w => match m w with
           | (Ok a, w') => f a w'
           | (Err e, w') => (Err e, w')
           | (Panic e, w') => (Panic e, w')
           end.
Definition mget : M W W := fun w => (Ok w, w).
Definition mmodify (f : W -> W) : M W unit := fun w => (Ok tt, f w).

(** [v, err := f()] where the caller looks at [err] itself: the error becomes a value. *)
Definition mtry {A} (m : M W A) : M W (A + error) :=
  fun w => match m w with
           | (Ok a, w') => (Ok (inl a), w')
           | (Err e, w') => (Ok (inr e), w')
           | (Panic e, w') => (Panic e, w')
           end.

Definition mwhen (b : bool) (m : M W unit) : M W unit := if b then m else mret tt.

(** [for _, x := range l { if err := f(x); err != nil { return err } }] *)
Fixpoint mfor {A} (l : list A) (f : A -> M W unit) : M W unit :=
  match l with
  | [] => mret tt
  | x :: l' => mbind (f x) (fun _ => mfor l' f)
  end.

Fixpoint mfold {A B} (l : list A) (f : B -> A -> M W B) (b : B) : M W B :=
  match l with
  | [] => mret b
  | x :: l' => mbind (f b x) (mfold l' f)
  end.
End Monad.

Notation "'let*' p ':=' m 'in' k" := (mbind m (fun p => k))
  (at level 10, p strict pattern, m at level 100, k at level 200,
   format "'[v' 'let*'  p  ':='  m  'in' '/' k ']'") : go_scope.

(** ** Field update

    [r <| field := v |>], for records with an [Eta] instance that rebuilds a record from its
    fields: the update is the rebuilt record with the field's occurrence replaced. *)
Class Eta (R : Type) := eta : R -> R.
Class SetField {R T : Type} (field : R -> T) := set_field : T -> R -> R.

Ltac derive_set_field :=
  match goal with
  | |- @SetField ?R ?T ?field =>
      let v := fresh "v" in let r := fresh "r" in
      refine (fun (v : T) (r : R) => _);
      let e := eval hnf in (eta r) in
      match eval pattern (field r) in e with ?f _ => let b := eval cbv beta in (f v) in exact b end
  end.
#[export] Hint Extern 1 (SetField _) => derive_set_field : typeclass_instances.

Notation "r <| field := v |>" := (set_field (field := field) v r)
  (at level 12, left associativity, format "r  <| field  :=  v |>") : go_scope.

(** ** Effects of an operation, whatever its outcome

    [steps R m]: started in any state, [m] ends (with a value, an error or a panic) in a
    state related to it by [R].  With a preorder [R] this composes, so that one lemma per
    primitive gives the effect of a whole handler on every branch. *)
Definition steps {W A} (R : relation W) (m : M W A) : Prop := forall w, R w (snd (m w)).

(** Keeping an invariant is the special case of the preorder [keeps P]. *)
Definition keeps {W} (P : W -> Prop) : relation W := fun w w' => P w -> P w'.
#[export] Instance keeps_preorder {W} (P : W -> Prop) : PreOrder (keeps P).
Proof. split; unfold keeps; [intros w | intros w w' w'']; tauto. Qed.

(** Leaving a part of the state untouched is another one. *)
Definition same {W X} (f : W -> X) : relation W := fun w w' => f w = f w'.
#[export] Instance same_preorder {W X} (f : W -> X) : PreOrder (same f).
Proof. split; unfold same; [done | intros w w' w''; congruence]. Qed.

Section Steps.
Context {W : Type} (R : relation W) `{!PreOrder R}.

Lemma steps_ret {A} (a : A) : steps R (mret a).
Proof. intros w. cbn. reflexivity. Qed.
Lemma steps_lift {A} (r : res A) : steps R (mlift r).
Proof. intros w. cbn. reflexivity. Qed.
Lemma steps_fail {A} (e : error) : steps R (mfail (A:=A) e).
Proof. apply steps_lift. Qed.
Lemma steps_panic {A} (e : error) : steps R (mpanic (A:=A) e).
Proof. apply steps_lift. Qed.
Lemma steps_get : steps R mget.
Proof. intros w. cbn. reflexivity. Qed.
Lemma steps_modify f : (forall w, R w (f w)) -> steps R (mmodify f).
Proof. intros H w. apply H. Qed.
Lemma steps_bind {A B} (m : M W A) (f : A -> M W B) :
  steps R m -> (forall a, steps R (f a)) -> steps R (mbind m f).
Proof.
  intros Hm Hf w. unfold mbind. specialize (Hm w).
  destruct (m w) as [[a | e | e] w'] eqn:E; cbn in *; [| done..].
  etrans; [exact Hm | apply Hf].
Qed.
(** A bind whose continuation only has to respect [R] on the values that can come. *)
Lemma steps_bind_val {A B} (Q : A -> Prop) (m : M W A) (f : A -> M W B) :
  steps R m -> (forall w a w', m w = (Ok a, w') -> Q a) -> (forall a, Q a -> steps R (f a)) ->
  steps R (mbind m f).
Proof.
  intros Hm HQ Hf w. unfold mbind. specialize (Hm w).
  destruct (m w) as [[a | e | e] w'] eqn:E; cbn in *; [| done..].
  etrans; [exact Hm |]. eapply Hf, HQ, E.
Qed.
Lemma steps_try {A} (m : M W A) : steps R m -> steps R (mtry m).
Proof.
  intros Hm w. unfold mtry. specialize (Hm w). by destruct (m w) as [[a | e | e] w'].
Qed.
Lemma steps_when b (m : M W unit) : steps R m -> steps R (mwhen b m).
Proof. destruct b; [done | intros _; apply steps_ret]. Qed.
Lemma steps_for {A} (l : list A) f : (forall x, steps R (f x)) -> steps R (mfor l f).
Proof.
  intros Hf. induction l as [| x l IH]; cbn; [apply steps_ret |].
  apply steps_bind; [apply Hf | done].
Qed.
Lemma steps_fold {A B} (l : list A) (f : B -> A -> M W B) b :
  (forall b x, steps R (f b x)) -> steps R (mfold l f b).
Proof.
  intros Hf. revert b. induction l as [| x l IH]; intros b; cbn; [apply steps_ret |].
  apply steps_bind; [apply Hf | done].
Qed.
End Steps.

Create HintDb go discriminated.
Create Rewrite HintDb go.
#[export] Hint Resolve steps_ret steps_lift steps_fail steps_panic steps_get steps_try
  steps_when steps_for steps_fold steps_bind : go.
#[export] Hint Extern 0 (PreOrder _) => typeclasses eauto : go.

(** Reads the effect of a handler off its text: descends through binds and branches and
    closes the leaves with the lemmas of the [go] database. *)
Ltac go_preorder := try match goal with |- PreOrder _ => typeclasses eauto end.
Ltac go_steps :=
  repeat first
    [ progress intros
    | solve [auto with go]
    | apply steps_bind; go_preorder; [auto with go |]
    | apply steps_try; go_preorder | apply steps_for; go_preorder
    | apply steps_fold; go_preorder | apply steps_when; go_preorder
    | match goal with
      | |- steps _ (match ?x with _ => _ end) => destruct x
      end ].

(** ** Operations whose errors are values: they end with a value or a panic *)

Definition never_errs {W A} (m : M W A) : Prop := forall w e, (m w).1 <> Err e.

Lemma never_errs_ret {W A} (a : A) : never_errs (W:=W) (mret a).
Proof. by intros w e. Qed.
Lemma never_errs_try {W A} (m : M W A) : never_errs (mtry m).
Proof. intros w e. unfold mtry. by destruct (m w) as [[? | ? | ?] ?]. Qed.
Lemma never_errs_bind {W A B} (m : M W A) (f : A -> M W B) :
  never_errs m -> (forall a, never_errs (f a)) -> never_errs (mbind m f).
Proof.
  intros Hm Hf w e. unfold mbind. specialize (Hm w e).
  destruct (m w) as [[a | e' | e'] w']; cbn in *; [apply Hf | congruence | done].
Qed.
Lemma never_errs_fold {W A B} (l : list A) (f : B -> A -> M W B) b :
  (forall b x, never_errs (f b x)) -> never_errs (mfold l f b).
Proof.
  intros Hf. revert b. induction l as [| x l IH]; intros b; cbn; [apply never_errs_ret |].
  by apply never_errs_bind.
Qed.
#[export] Hint Resolve never_errs_ret never_errs_try never_errs_bind never_errs_fold : go.

(** ** What is known of the value of an operation that ends without an error *)

Definition yields {W A} (P : A -> Prop) (m : M W A) : Prop :=
  forall w a w', m w = (Ok a, w') -> P a.

Lemma yields_ret {W A} (P : A -> Prop) a : P a -> yields (W:=W) P (mret a).
Proof. by intros Ha w x w' [= <- _]. Qed.
Lemma yields_any {W A} (m : M W A) : yields (fun _ => True) m.
Proof. done. Qed.
Lemma yields_bind {W A B} (Q : A -> Prop) (P : B -> Prop) (m : M W A) f :
  yields Q m -> (forall a, Q a -> yields P (f a)) -> yields P (mbind m f).
Proof.
  intros Hm Hf w b w' E. unfold mbind in E. destruct (m w) as [[a | e | e] w1] eqn:Em; [| done..].
  eapply Hf; [by eapply Hm | exact E].
Qed.
Lemma yields_then {W A B} (P : B -> Prop) (m : M W A) f :
  (forall a, yields P (f a)) -> yields P (mbind m f).
Proof. intros Hf. eapply yields_bind; [apply yields_any | auto]. Qed.
Lemma yields_try {W A} (P : A + error -> Prop) (Q : A -> Prop) (m : M W A) :
  yields Q m -> (forall a, Q a -> P (inl a)) -> (forall e, P (inr e)) -> yields P (mtry m).
Proof.
  intros Hm Ha He w r w'. unfold mtry.
  destruct (m w) as [[a | e | e] w1] eqn:Em; intros [= <- _]; [| apply He].
  eapply Ha, Hm, Em.
Qed.

(** ** Total correctness of an operation

    From every state with [P] the operation ends without an error or a panic, with a value and
    a state related by [Q].  The loop rules take an invariant indexed by the elements done. *)
Definition triple {W A} (P : W -> Prop) (m : M W A) (Q : A -> W -> Prop) : Prop :=
  forall w, P w -> exists a w', m w = (Ok a, w') /\ Q a w'.

Section Triple.
Context {W : Type}.
Implicit Types P : W -> Prop.

Lemma triple_ret {A} P (a : A) (Q : A -> W -> Prop) :
  (forall w, P w -> Q a w) -> triple P (mret a) Q.
Proof. intros H w Hw. exists a, w. split; [done | by apply H]. Qed.
Lemma triple_lift {A} P (r : res A) (a : A) (Q : A -> W -> Prop) :
  r = Ok a -> (forall w, P w -> Q a w) -> triple P (mlift r) Q.
Proof. intros -> H. by apply triple_ret. Qed.
Lemma triple_modify P f (Q : unit -> W -> Prop) :
  (forall w, P w -> Q tt (f w)) -> triple P (mmodify f) Q.
Proof. intros H w Hw. exists tt, (f w). split; [done | by apply H]. Qed.
Lemma triple_bind {A B} P (m : M W A) (R : A -> W -> Prop) (f : A -> M W B) Q :
  triple P m R -> (forall a, triple (R a) (f a) Q) -> triple P (mbind m f) Q.
Proof.
  intros Hm Hf w Hw. destruct (Hm w Hw) as (a & w1 & E & HR).
  destruct (Hf a w1 HR) as (b & w2 & E2 & HQ). exists b, w2. split; [| exact HQ].
  unfold mbind. rewrite E. exact E2.
Qed.
Lemma triple_get {B} P (f : W -> M W B) Q :
  (forall w0, P w0 -> triple (eq w0) (f w0) Q) -> triple P (mbind mget f) Q.
Proof. intros H w Hw. apply (H w Hw w eq_refl). Qed.
Lemma triple_conseq {A} P P' (m : M W A) (Q Q' : A -> W -> Prop) :
  triple P m Q -> (forall w, P' w -> P w) -> (forall a w, Q a w -> Q' a w) -> triple P' m Q'.
Proof.
  intros Hm HP HQ w Hw. destruct (Hm w (HP w Hw)) as (a & w1 & E & H). eauto.
Qed.
Lemma triple_when P b (m : M W unit) Q :
  (b = true -> triple P m Q) -> (b = false -> forall w, P w -> Q tt w) ->
  triple P (mwhen b m) Q.
Proof. destruct b; cbn; intros H1 H2; [by apply H1 | apply triple_ret; by apply H2]. Qed.
Lemma triple_fold {A B} (l : list A) (f : B -> A -> M W B) b (I : list A -> B -> W -> Prop) :
  (forall pre x post b, l = pre ++ x :: post ->
     triple (I pre b) (f b x) (fun b' => I (pre ++ [x]) b')) ->
  triple (I [] b) (mfold l f b) (fun b' => I l b').
Proof.
  intros H.
  enough (Hgen : forall post pre b, l = pre ++ post ->
    triple (I pre b) (mfold post f b) (fun b' => I l b')) by (by apply Hgen).
  induction post as [| x post IH]; intros pre b' ->; cbn.
  - apply triple_ret. by rewrite app_nil_r.
  - eapply triple_bind; [by apply (H pre x post b') |]. intros b''.
    eapply triple_conseq; [apply (IH (pre ++ [x])); by rewrite <- app_assoc | done..].
Qed.
Lemma triple_for {A} (l : list A) (f : A -> M W unit) (I : list A -> W -> Prop) :
  (forall pre x post, l = pre ++ x :: post ->
     triple (I pre) (f x) (fun _ => I (pre ++ [x]))) ->
  triple (I []) (mfor l f) (fun _ => I l).
Proof.
  intros H.
  enough (Hgen : forall post pre, l = pre ++ post ->
    triple (I pre) (mfor post f) (fun _ => I l)) by (by apply Hgen).
  induction post as [| x post IH]; intros pre ->; cbn.
  - apply triple_ret. by rewrite app_nil_r.
  - eapply triple_bind; [by apply (H pre x post) |]. intros [].
    eapply triple_conseq; [apply (IH (pre ++ [x])); by rewrite <- app_assoc | done..].
Qed.

(** A loop whose steps keep [J], move along [R] and each establish a fact that [R] preserves. *)
Lemma mfor_establish {A} (J : W -> Prop) (R : relation W) `{!PreOrder R} (F : A -> W -> Prop)
  (l : list A) (f : A -> M W unit) :
  (forall x w w', F x w -> R w w' -> F x w') ->
  (forall x w, x ∈ l -> J w -> exists w', f x w = (Ok tt, w') /\ J w' /\ R w w' /\ F x w') ->
  forall w, J w ->
    exists w', mfor l f w = (Ok tt, w') /\ J w' /\ R w w' /\ forall x, x ∈ l -> F x w'.
Proof.
  intros Hst. induction l as [| x l IH]; intros Hstep w Hw.
  - exists w. split; [done | split; [done | split; [reflexivity | set_solver]]].
  - destruct (Hstep x w) as (w1 & E1 & HJ1 & HR1 & HF1); [by left | done |].
    destruct (IH (fun y v Hy => Hstep y v (list_elem_of_further _ _ _ Hy)) w1 HJ1)
      as (w2 & E2 & HJ2 & HR2 & HF2).
    exists w2. cbn. unfold mbind. rewrite E1. split; [done | split; [done |]].
    split; [by etrans |]. intros y [-> | Hy]%elem_of_cons; [by eapply Hst | by apply HF2].
Qed.
End Triple.

(** Inversion of a successful bind. *)
Lemma mbind_Ok {W A B} (m : M W A) (f : A -> M W B) w b w' :
  mbind m f w = (Ok b, w') -> exists a w1, m w = (Ok a, w1) /\ f a w1 = (Ok b, w').
Proof.
  unfold mbind. destruct (m w) as [[a | e | e] w1]; intros H; simplify_eq. eauto.
Qed.

Lemma rbind_Ok {A B} (m : res A) (f : A -> res B) b :
  rbind m f = Ok b -> exists a, m = Ok a /\ f a = Ok b.
Proof. destruct m; cbn; intros; simplify_eq; eauto. Qed.

(** Takes a successful run apart, bind after bind. *)
Ltac go_inv :=
  repeat match goal with
    | H : mbind _ _ _ = (Ok _, _) |- _ =>
        let a := fresh "a" in let w := fresh "w" in let H1 := fresh "Hrun" in
        apply mbind_Ok in H as (a & w & H1 & H)
    | H : rbind _ _ = Ok _ |- _ =>
        let a := fresh "a" in let H1 := fresh "Hrun" in
        apply rbind_Ok in H as (a & H1 & H)
    | H : mret _ _ = (Ok _, _) |- _ => unfold mret in H; simplify_eq
    | H : mlift _ _ = (Ok _, _) |- _ => unfold mlift in H; simplify_eq
    | H : mget _ = (Ok _, _) |- _ => unfold mget in H; simplify_eq
    | H : mmodify _ _ = (Ok _, _) |- _ => unfold mmodify in H; simplify_eq
    | H : mfail _ _ = (Ok _, _) |- _ => unfold mfail, mlift in H; simplify_eq
    | H : mpanic _ _ = (Ok _, _) |- _ => unfold mpanic, mlift in H; simplify_eq
    | H : Ok _ = Ok _ |- _ => simplify_eq
    end.

(** ** Machine integers *)

Definition u64 (z : Z) : Z := z mod 2 ^ 64.
Definition u32 (z : Z) : Z := z mod 2 ^ 32.

Lemma u64_small z : 0 <= z < 2 ^ 64 -> u64 z = z.
Proof. intros H. unfold u64. by apply Z.mod_small. Qed.
Lemma u64_range z : 0 <= u64 z < 2 ^ 64.
Proof. unfold u64. apply Z.mod_pos_bound. lia. Qed.

(** ** Stable insertion sort ([sort.Strings], [sort.SliceStable]) *)

Section Sort.
Context {A : Type} (leb : A -> A -> bool).

Fixpoint insert_by (x : A) (l : list A) : list A :=
  match l with
  | [] => [x]
  | y :: l' => if leb x y then x :: l else y :: insert_by x l'
  end.

Definition sort_by (l : list A) : list A := foldr insert_by [] l.

Lemma insert_by_perm x l : Permutation (insert_by x l) (x :: l).
Proof.
  induction l as [| y l IH]; cbn; [done |].
  destruct (leb x y); [done |]. rewrite IH. apply perm_swap.
Qed.
Lemma sort_by_perm l : Permutation (sort_by l) l.
Proof.
  unfold sort_by.
  induction l as [| x l IH]; cbn; [done |]. by rewrite insert_by_perm, IH.
Qed.

Lemma insert_by_sorted x l :
  (forall a b, leb a b = false -> leb b a = true) ->
  (forall a b c, leb a b = true -> leb b c = true -> leb a c = true) ->
  StronglySorted (fun a b => leb a b = true) l ->
  StronglySorted (fun a b => leb a b = true) (insert_by x l).
Proof.
  intros Htot Htr Hl. induction Hl as [| y l Hl IH Hy]; cbn; [by repeat constructor |].
  rewrite Forall_forall in Hy. destruct (leb x y) eqn:E; constructor; try done.
  - by constructor; [| rewrite Forall_forall].
  - rewrite Forall_forall. intros z [-> | Hz]%elem_of_cons; [done | by eapply Htr, Hy].
  - rewrite Forall_forall. intros z. rewrite insert_by_perm.
    intros [-> | Hz]%elem_of_cons; [by apply Htot | by apply Hy].
Qed.
Lemma sort_by_sorted l :
  (forall a b, leb a b = false -> leb b a = true) ->
  (forall a b c, leb a b = true -> leb b c = true -> leb a c = true) ->
  StronglySorted (fun a b => leb a b = true) (sort_by l).
Proof.
  intros Htot Htr. unfold sort_by.
  induction l as [| x l IH]; cbn; [constructor | by apply insert_by_sorted].
Qed.
End Sort.

Definition sort_strings : list string -> list string := sort_by String.leb.
Lemma sort_strings_perm l : Permutation (sort_strings l) l.
Proof. apply sort_by_perm. Qed.

(** Go compares strings byte by byte, as [String.leb] does. *)
Lemma ascii_compare_lt_trans a b c :
  Ascii.compare a b = Lt -> Ascii.compare b c = Lt -> Ascii.compare a c = Lt.
Proof. unfold Ascii.compare. rewrite !N.compare_lt_iff. lia. Qed.
Lemma ascii_compare_eq a b : Ascii.compare a b = Eq -> a = b.
Proof. apply Ascii.compare_eq_iff. Qed.
Lemma string_leb_trans a b c :
  String.leb a b = true -> String.leb b c = true -> String.leb a c = true.
Proof.
  unfold String.leb. revert b c.
  induction a as [| x a IH]; intros [| y b] [| z c]; cbn; try done.
  specialize (IH b c).
  destruct (Ascii.compare x y) eqn:Exy; try done.
  - apply ascii_compare_eq in Exy as ->. by destruct (Ascii.compare y z).
  - intros _. destruct (Ascii.compare y z) eqn:Eyz; try done.
    + apply ascii_compare_eq in Eyz as <-. by rewrite Exy.
    + by rewrite (ascii_compare_lt_trans x y z).
Qed.
Lemma string_leb_false a b : String.leb a b = false -> String.leb b a = true.
Proof. intros H. destruct (String.leb_total a b); congruence. Qed.

Definition strings_sorted : list string -> Prop :=
  StronglySorted (fun a b => String.leb a b = true).
Lemma sort_strings_sorted l : strings_sorted (sort_strings l).
Proof. apply sort_by_sorted; [apply string_leb_false | apply string_leb_trans]. Qed.

(** Sorting forgets the order of its argument. *)
Lemma sorted_strings_unique l k :
  strings_sorted l -> strings_sorted k -> Permutation l k -> l = k.
Proof.
  intros Hl. revert k. induction Hl as [| x l Hl IH Hx]; intros k Hk Hp.
  - by apply Permutation_nil in Hp.
  - destruct Hk as [| y k Hk Hy]; [by apply Permutation_sym, Permutation_nil in Hp |].
    rewrite Forall_forall in Hx, Hy. assert (x = y) as <-.
    { assert (Hyx : y ∈ x :: l) by (rewrite Hp; by left).
      assert (Hxy : x ∈ y :: k) by (rewrite <- Hp; by left).
      apply elem_of_cons in Hyx as [-> | Hyx]; [done |].
      apply elem_of_cons in Hxy as [-> | Hxy]; [done |].
      apply String.leb_antisym; auto. }
    f_equal. apply IH; [done |]. by apply Permutation_cons_inv in Hp.
Qed.
Lemma sort_strings_unique l k : Permutation l k -> sort_strings l = sort_strings k.
Proof.
  intros Hp. apply sorted_strings_unique; [apply sort_strings_sorted.. |].
  by rewrite !sort_strings_perm.
Qed.

(** ** Searching in lists *)

Lemma find_app_left {A} (f : A -> bool) l l' x :
  List.find f l = Some x -> List.find f (l ++ l') = Some x.
Proof. induction l as [| y l IH]; [done |]. cbn. destruct (f y); auto. Qed.

Lemma find_map {A B} (f : B -> bool) (g : A -> B) l :
  List.find f (map g l) = option_map g (List.find (fun x => f (g x)) l).
Proof. induction l as [| x l IH]; cbn; [done |]. by destruct (f (g x)). Qed.
Lemma find_ext {A} (f g : A -> bool) l : (forall x, f x = g x) -> List.find f l = List.find g l.
Proof. intros H. induction l as [| x l IH]; cbn; [done |]. by rewrite H, IH. Qed.

(** ** Counting in lists *)

Definition count_if {A} (f : A -> bool) (l : list A) : nat := length (List.filter f l).

Lemma count_if_cons {A} (f : A -> bool) x l :
  count_if f (x :: l) = ((if f x then 1 else 0) + count_if f l)%nat.
Proof. unfold count_if. cbn. by destruct (f x). Qed.
Lemma count_if_app {A} (f : A -> bool) l k :
  count_if f (l ++ k) = (count_if f l + count_if f k)%nat.
Proof. unfold count_if. by rewrite List.filter_app, length_app. Qed.
Lemma count_if_perm {A} (f : A -> bool) l k :
  Permutation l k -> count_if f l = count_if f k.
Proof.
  induction 1; rewrite ?count_if_cons; try lia.
Qed.
Lemma count_if_ext {A} (f g : A -> bool) l :
  (forall x, In x l -> f x = g x) -> count_if f l = count_if g l.
Proof.
  induction l as [| x l IH]; intros H; [done |].
  rewrite !count_if_cons, IH, (H x); cbn; auto. intros y Hy. apply H. by right.
Qed.
Lemma count_if_zero {A} (f : A -> bool) l :
  count_if f l = 0%nat <-> forall x, In x l -> f x = false.
Proof.
  induction l as [| x l IH]; [done |]. rewrite count_if_cons. cbn. split.
  - destruct (f x) eqn:E; intros H y; [lia |]. intros [-> | Hy]; [done |]. by apply IH.
  - intros H. rewrite (H x) by auto. cbn. apply IH. auto.
Qed.
Lemma count_if_split {A} (f g : A -> bool) l :
  count_if f l = (count_if (fun x => f x && g x) l + count_if (fun x => f x && negb (g x)) l)%nat.
Proof.
  induction l as [| x l IH]; [done |]. rewrite !count_if_cons, IH.
  destruct (f x), (g x); cbn; lia.
Qed.
Lemma count_if_In {A} (f : A -> bool) x l : In x l -> f x = true -> (0 < count_if f l)%nat.
Proof.
  intros Hx Hf. destruct (count_if f l) eqn:E; [| lia].
  rewrite count_if_zero in E. rewrite E in Hf by done. done.
Qed.

(** Counting in a concatenation over a list without repetitions in which only one element's
    part counts, or in which one element's part changes. *)
Lemma count_flat_map_one {A B} (f : B -> bool) (F : A -> list B) l t :
  NoDup l -> t ∈ l -> (forall p, p ∈ l -> p <> t -> count_if f (F p) = 0%nat) ->
  count_if f (flat_map F l) = count_if f (F t).
Proof.
  induction 1 as [| x l Hx Hnd IH]; intros Ht Hz; [by apply elem_of_nil in Ht |].
  change (flat_map F (x :: l)) with (F x ++ flat_map F l). rewrite count_if_app. apply elem_of_cons in Ht as [-> | Ht].
  - rewrite (proj2 (count_if_zero f (flat_map F l))); [lia |].
    intros y Hy. apply in_flat_map in Hy as (p & Hp & Hy). apply list_elem_of_In in Hp.
    assert (Hp0 : count_if f (F p) = 0%nat).
    { apply Hz; [by apply list_elem_of_further | by intros ->]. }
    by apply (proj1 (count_if_zero f (F p))).
  - rewrite (Hz x) by (set_solver || by intros ->). rewrite IH; [done | done |].
    intros p Hp. apply Hz. by apply list_elem_of_further.
Qed.

Lemma count_flat_map_change {A B} (f : B -> bool) (F G : A -> list B) l t d :
  NoDup l -> t ∈ l -> (forall p, p <> t -> G p = F p) ->
  count_if f (G t) = (count_if f (F t) + d)%nat ->
  count_if f (flat_map G l) = (count_if f (flat_map F l) + d)%nat.
Proof.
  induction 1 as [| x l Hx Hnd IH]; intros Ht Hne Hd; [by apply elem_of_nil in Ht |].
  change (flat_map F (x :: l)) with (F x ++ flat_map F l).
  change (flat_map G (x :: l)) with (G x ++ flat_map G l). rewrite !count_if_app. apply elem_of_cons in Ht as [-> | Ht].
  - rewrite Hd. assert (flat_map G l = flat_map F l) as ->; [| lia].
    clear - Hx Hne. induction l as [| y l IH]; [done |]. cbn.
    rewrite Hne, IH; [done | |]; set_solver.
  - rewrite (Hne x) by (by intros ->). rewrite IH by done. lia.
Qed.
#[export] Hint Rewrite @count_if_cons @count_if_app : go.

(** ** Searching *)

Lemma find_app {A} (f : A -> bool) l1 l2 :
  List.find f (l1 ++ l2) = match List.find f l1 with Some x => Some x | None => List.find f l2 end.
Proof. induction l1 as [| x l1 IH]; [done |]. cbn. by destruct (f x). Qed.

(** ** Filters, and lists on which a function is injective *)

Lemma filter_all {A} (f : A -> bool) l : (forall x, x ∈ l -> f x = true) -> List.filter f l = l.
Proof.
  induction l as [| x l IH]; intros H; cbn; [done |]. rewrite H by (by left). f_equal.
  apply IH. intros y Hy. apply H. by right.
Qed.
Lemma filter_filter {A} (f g : A -> bool) l :
  List.filter f (List.filter g l) = List.filter (fun x => g x && f x) l.
Proof.
  induction l as [| x l IH]; cbn; [done |]. destruct (g x); cbn; [| done].
  destruct (f x); by rewrite IH.
Qed.

Lemma fmap_inj {A B} (f : A -> B) l a b :
  NoDup (f <$> l) -> a ∈ l -> b ∈ l -> f a = f b -> a = b.
Proof.
  intros Hnd [i Hi]%list_elem_of_lookup [j Hj]%list_elem_of_lookup Heq.
  assert (i = j); [| congruence].
  eapply (NoDup_lookup _ i j (f a) Hnd); rewrite list_lookup_fmap; [by rewrite Hi |].
  by rewrite Hj, Heq.
Qed.
Lemma fmap_filter_nodup {A B} (f : A -> B) p l :
  NoDup (f <$> l) -> NoDup (f <$> List.filter p l).
Proof.
  induction l as [| x l IH]; [done |]. rewrite fmap_cons, NoDup_cons. intros [Hx Hnd].
  cbn. destruct (p x); [| auto]. rewrite fmap_cons, NoDup_cons. split; [| auto]. contradict Hx.
  apply list_elem_of_fmap in Hx as (y & -> & Hin%list_elem_of_In).
  apply list_elem_of_fmap_2, list_elem_of_In. by apply filter_In in Hin as [? _].
Qed.
