(* ===== verification/Bytes.v ===== *)
(** * Byte slices and hexadecimal text

    Go byte slices as lists of bytes, indexing and slicing with their run-time panics, the
    little-endian readers of [encoding/binary] and [encoding/hex], and the helpers of
    [util/utility.go].  Slices carry no spare capacity: the bound of a slice expression is the
    length.  Where the decoder behind [hex.DecodeString] leaves spare capacity the parsers panic
    all the same, one access later: each of them goes on to index the script at, or slice it
    from, a position past the out-of-range bound. *)
From Stdlib Require Export Strings.Byte.
From Stdlib Require Import Ascii.
From S2P Require Import Prelude.

#[export] Instance byte_eq_dec : EqDecision byte := Byte.byte_eq_dec.

(** ** Bytes as integers *)

Definition bz (b : byte) : Z := Z.of_N (Byte.to_N b).
Definition byte_of_Z (z : Z) : byte :=
  default x00 (Byte.of_N (Z.to_N (z mod 256))).

Lemma bz_range b : 0 <= bz b < 256.
Proof. unfold bz. pose proof (Byte.to_N_bounded b). lia. Qed.

Lemma byte_of_Z_bz b : byte_of_Z (bz b) = b.
Proof.
  unfold byte_of_Z. rewrite Z.mod_small by apply bz_range. unfold bz.
  by rewrite N2Z.id, Byte.of_to_N.
Qed.

Lemma bz_byte_of_Z z : bz (byte_of_Z z) = z mod 256.
Proof.
  unfold byte_of_Z, bz.
  assert (Hr : 0 <= z mod 256 < 256) by (apply Z.mod_pos_bound; lia).
  destruct (Byte.of_N (Z.to_N (z mod 256))) as [b |] eqn:E; cbn.
  - apply Byte.to_of_N in E. rewrite E. lia.
  - apply Byte.of_N_None_iff in E. lia.
Qed.

(** ** Indexing and slicing *)

Definition len {A} (s : list A) : Z := Z.of_nat (length s).

Definition index {A} (s : list A) (i : Z) : res A :=
  if (0 <=? i) && (i <? len s) then
    match s !! Z.to_nat i with
    | Some x => Ok x
    | None => Panic (ErrRuntime "index out of range")
    end
  else Panic (ErrRuntime "index out of range").

Definition slice {A} (s : list A) (lo hi : Z) : res (list A) :=
  if (0 <=? lo) && (lo <=? hi) && (hi <=? len s)
  then Ok (take (Z.to_nat (hi - lo)) (drop (Z.to_nat lo) s))
  else Panic (ErrRuntime "slice bounds out of range").

(** [s[lo:]] *)
Definition slice_from {A} (s : list A) (lo : Z) : res (list A) := slice s lo (len s).

Lemma index_Ok {A} (s : list A) i x :
  0 <= i -> s !! Z.to_nat i = Some x -> index s i = Ok x.
Proof.
  intros Hi Hx. unfold index, len. pose proof (lookup_lt_Some _ _ _ Hx).
  replace (0 <=? i) with true by lia. replace (i <? Z.of_nat (length s)) with true by lia.
  cbn. by rewrite Hx.
Qed.

Lemma index_cases {A} (s : list A) i :
  (exists x, s !! Z.to_nat i = Some x /\ 0 <= i < len s /\ index s i = Ok x) \/
  (~ (0 <= i < len s) /\ exists e, index s i = Panic e).
Proof.
  unfold index, len.
  destruct (Z.leb_spec 0 i), (Z.ltb_spec i (Z.of_nat (length s))); cbn;
    try (right; split; [lia | eauto]).
  destruct (lookup_lt_is_Some_2 s (Z.to_nat i)) as [x Hx]; [lia |].
  left. exists x. rewrite Hx. auto with lia.
Qed.

Lemma slice_mid {A} (a b c : list A) :
  slice (a ++ b ++ c) (len a) (len a + len b) = Ok b.
Proof.
  unfold slice, len. rewrite !length_app.
  replace (0 <=? Z.of_nat (length a)) with true by lia.
  replace (Z.of_nat (length a) <=? Z.of_nat (length a) + Z.of_nat (length b)) with true by lia.
  replace (Z.of_nat (length a) + Z.of_nat (length b) <=? _) with true by lia. cbn.
  rewrite Nat2Z.id, drop_app_length.
  replace (Z.to_nat _) with (length b) by lia. by rewrite take_app_length.
Qed.

Lemma slice_from_end {A} (a b : list A) : slice_from (a ++ b) (len a) = Ok b.
Proof.
  unfold slice_from. replace (len (a ++ b)) with (len a + len b)
    by (unfold len; rewrite length_app; lia).
  pose proof (slice_mid a b []) as H. by rewrite app_nil_r in H.
Qed.

Lemma index_mid {A} (a : list A) x c : index (a ++ x :: c) (len a) = Ok x.
Proof.
  apply index_Ok; unfold len; [lia |]. rewrite Nat2Z.id. by apply list_lookup_middle.
Qed.

Lemma len_app {A} (a b : list A) : len (a ++ b) = len a + len b.
Proof. unfold len. rewrite length_app. lia. Qed.
Lemma len_cons {A} (x : A) b : len (x :: b) = 1 + len b.
Proof. unfold len. cbn. lia. Qed.
Lemma len_nil {A} : len (@nil A) = 0.
Proof. done. Qed.
Lemma len_nonneg {A} (a : list A) : 0 <= len a.
Proof. unfold len. lia. Qed.
#[export] Hint Rewrite @len_app @len_cons @len_nil : go.

(** ** Little-endian integers of [encoding/binary] *)

Fixpoint le_uint (l : list byte) : Z :=
  match l with
  | [] => 0
  | b :: l' => bz b + 256 * le_uint l'
  end.

Fixpoint le_bytes (n : nat) (z : Z) : list byte :=
  match n with
  | O => []
  | S n' => byte_of_Z z :: le_bytes n' (z / 256)
  end.

(** [binary.LittleEndian.Uint16], [Uint32], [Uint64]: they read their width's bytes and panic
    on a shorter slice. *)
Definition le_read (width : nat) (b : list byte) : res Z :=
  if (width <=? length b)%nat then Ok (le_uint (take width b))
  else Panic (ErrRuntime "index out of range").

(** [binary.BigEndian.PutUint32] into four bytes. *)
Definition be_bytes4 (z : Z) : list byte := rev (le_bytes 4 (u32 z)).

Lemma length_le_bytes n z : length (le_bytes n z) = n.
Proof. revert z. induction n as [| n IH]; intros z; cbn; [done |]. by rewrite IH. Qed.

Lemma len_le_bytes n z : len (le_bytes n z) = Z.of_nat n.
Proof. unfold len. by rewrite length_le_bytes. Qed.
#[export] Hint Rewrite @len_le_bytes : go.

Lemma le_uint_bytes n z :
  0 <= z < 256 ^ Z.of_nat n -> le_uint (le_bytes n z) = z.
Proof.
  revert z. induction n as [| n IH]; intros z Hz; cbn [le_uint le_bytes]; [lia |].
  rewrite bz_byte_of_Z, IH; [pose proof (Z.div_mod z 256); lia |].
  rewrite Nat2Z.inj_succ, Z.pow_succ_r in Hz by lia. split.
  - apply Z.div_pos; lia.
  - apply Z.div_lt_upper_bound; lia.
Qed.

Lemma le_uint_range l : 0 <= le_uint l < 256 ^ len l.
Proof.
  unfold len. induction l as [| b l IH]; cbn [le_uint length]; [lia |].
  rewrite Nat2Z.inj_succ, Z.pow_succ_r by lia. pose proof (bz_range b). lia.
Qed.

Lemma le_read_bytes n z :
  0 <= z < 256 ^ Z.of_nat n -> le_read n (le_bytes n z) = Ok z.
Proof.
  intros Hz. unfold le_read. rewrite length_le_bytes, Nat.leb_refl.
  rewrite take_ge by (by rewrite length_le_bytes). by rewrite le_uint_bytes.
Qed.

(** ** [encoding/hex] *)

Definition hex_digit (n : Z) : ascii :=
  ascii_of_N (Z.to_N (if n <? 10 then 48 + n else 87 + n)).

Definition hex_value (c : ascii) : option Z :=
  let n := Z.of_N (N_of_ascii c) in
  if (48 <=? n) && (n <=? 57) then Some (n - 48)
  else if (97 <=? n) && (n <=? 102) then Some (n - 87)
  else if (65 <=? n) && (n <=? 70) then Some (n - 55)
  else None.

Fixpoint hex_encode (l : list byte) : string :=
  match l with
  | [] => EmptyString
  | b :: l' => String (hex_digit (bz b / 16)) (String (hex_digit (bz b mod 16)) (hex_encode l'))
  end.

Definition err_hex_byte : error := ErrMsg "encoding/hex: invalid byte".
Definition err_hex_length : error := ErrMsg "encoding/hex: odd length hex string".

Fixpoint hex_decode (s : string) : res (list byte) :=
  match s with
  | EmptyString => Ok []
  | String a EmptyString =>
      match hex_value a with None => Err err_hex_byte | Some _ => Err err_hex_length end
  | String a (String b s') =>
      match hex_value a, hex_value b with
      | Some x, Some y => let? l := hex_decode s' in Ok (byte_of_Z (16 * x + y) :: l)
      | _, _ => Err err_hex_byte
      end
  end.

Lemma hex_value_digit n : 0 <= n < 16 -> hex_value (hex_digit n) = Some n.
Proof.
  intros Hn.
  assert (Hall : forallb (fun k => bool_decide (hex_value (hex_digit k) = Some k))
                   (Z.of_nat <$> seq 0 16) = true) by reflexivity.
  rewrite forallb_forall in Hall.
  assert (Hin : In n (Z.of_nat <$> seq 0 16)).
  { apply list_elem_of_In, list_elem_of_fmap.
    exists (Z.to_nat n). split; [lia | apply elem_of_seq; lia]. }
  specialize (Hall n Hin). by apply bool_decide_eq_true in Hall.
Qed.

Lemma hex_decode_encode l : hex_decode (hex_encode l) = Ok l.
Proof.
  induction l as [| b l IH]; [done |]. cbn [hex_encode hex_decode].
  pose proof (bz_range b).
  rewrite !hex_value_digit by (split; [apply Z.div_pos || apply Z.mod_pos_bound; lia |
    apply Z.div_lt_upper_bound || apply Z.mod_pos_bound; lia]).
  rewrite IH. cbn. by rewrite <- Z.div_mod, byte_of_Z_bz by lia.
Qed.

Lemma length_hex_encode l : String.length (hex_encode l) = (2 * length l)%nat.
Proof. induction l as [| b l IH]; [done |]. cbn. rewrite IH. lia. Qed.

Lemma hex_decode_no_panic s : no_panic (hex_decode s).
Proof.
  assert (H : forall n s, (String.length s <= n)%nat -> no_panic (hex_decode s)); [| by eapply H].
  clear s. induction n as [| n IH]; intros [| a [| b s]] Hl e; cbn in *; try done; try lia.
  - destruct (hex_value a); discriminate.
  - destruct (hex_value a), (hex_value b); try discriminate.
    specialize (IH s ltac:(lia)). destruct (hex_decode s) eqn:E; cbn; try discriminate.
    exfalso. by eapply IH.
Qed.

(** ** [util/utility.go] *)

(** [Min] *)
Definition Min (x y : Z) : Z := if x <? y then x else y.

Lemma Min_spec x y : Min x y = Z.min x y.
Proof. unfold Min. destruct (Z.ltb_spec x y); lia. Qed.

(** The loop of [ReverseBytes]: two cursors walk towards each other, [r] starts as zeros. *)
Fixpoint reverse_loop (fuel : nat) (b r : list byte) (left right : Z) : list byte :=
  match fuel with
  | O => r
  | S fuel' =>
      if left <? right then
        let l := Z.to_nat left in
        let h := Z.to_nat right in
        let r' := <[h := default x00 (b !! l)]> (<[l := default x00 (b !! h)]> r) in
        reverse_loop fuel' b r' (left + 1) (right - 1)
      else r
  end.

Definition ReverseBytes (b : list byte) : list byte :=
  reverse_loop (length b) b (replicate (length b) x00) 0 (len b - 1).

(** What position [i] of the result holds: the mirrored byte, except that the middle byte of
    an odd-length slice is never written and stays zero. *)
Definition reverse_at (b : list byte) (i : nat) : byte :=
  if decide (2 * i + 1 = length b)%nat then x00
  else default x00 (b !! (length b - 1 - i)%nat).

Lemma reverse_loop_spec fuel b r left right :
  length r = length b ->
  0 <= left -> right = len b - 1 - left ->
  right - left < Z.of_nat fuel ->
  (forall i, (i < length b)%nat ->
     r !! i = Some (if decide (Z.of_nat i < left \/ right < Z.of_nat i) then reverse_at b i
                    else x00)) ->
  forall i, (i < length b)%nat -> reverse_loop fuel b r left right !! i = Some (reverse_at b i).
Proof.
  unfold len. revert r left right.
  induction fuel as [| fuel IH]; intros r left right Hlen Hl Hright Hf Hr i Hi; cbn [reverse_loop].
  - rewrite Hr by done. case_decide; [done |].
    unfold reverse_at. rewrite decide_True by lia. done.
  - destruct (Z.ltb_spec left right) as [Hlt | Hge].
    + apply IH; rewrite ?length_insert; try lia. clear i Hi. intros i Hi.
      destruct (decide (i = Z.to_nat right)) as [-> | Hnr].
      { rewrite list_lookup_insert_eq by (rewrite length_insert; lia).
        rewrite decide_True by lia. unfold reverse_at. rewrite decide_False by lia.
        do 3 f_equal. lia. }
      rewrite list_lookup_insert_ne by done.
      destruct (decide (i = Z.to_nat left)) as [-> | Hnl].
      { rewrite list_lookup_insert_eq by lia. rewrite decide_True by lia.
        unfold reverse_at. rewrite decide_False by lia. do 3 f_equal. lia. }
      rewrite list_lookup_insert_ne by done. rewrite Hr by done.
      repeat case_decide; try done; lia.
    + rewrite Hr by done. case_decide; [done |].
      unfold reverse_at. rewrite decide_True by lia. done.
Qed.

Lemma length_reverse_loop fuel b r left right :
  length (reverse_loop fuel b r left right) = length r.
Proof.
  revert r left right. induction fuel as [| fuel IH]; intros; cbn; [done |].
  destruct (left <? right); [| done]. by rewrite IH, !length_insert.
Qed.

Lemma length_ReverseBytes b : length (ReverseBytes b) = length b.
Proof. unfold ReverseBytes. by rewrite length_reverse_loop, length_replicate. Qed.

Lemma ReverseBytes_lookup b i :
  (i < length b)%nat -> ReverseBytes b !! i = Some (reverse_at b i).
Proof.
  unfold ReverseBytes. intros Hi.
  apply reverse_loop_spec; rewrite ?length_replicate; unfold len; try lia.
  clear i Hi. intros i Hi. rewrite lookup_replicate_2 by done. case_decide; [lia | done].
Qed.

Lemma ReverseBytes_even b : Nat.Even (length b) -> ReverseBytes b = reverse b.
Proof.
  intros [k Hk]. apply list_eq_same_length with (n := length b);
    [by rewrite length_reverse | by rewrite length_ReverseBytes |].
  intros i x y Hi Hx Hy. rewrite ReverseBytes_lookup in Hx by lia.
  rewrite reverse_lookup in Hy by done. unfold reverse_at in Hx.
  rewrite decide_False in Hx by lia.
  replace (length b - 1 - i)%nat with (length b - S i)%nat in Hx by lia.
  rewrite Hy in Hx. cbn in Hx. congruence.
Qed.

Lemma ReverseBytes_involutive b :
  Nat.Even (length b) -> ReverseBytes (ReverseBytes b) = b.
Proof.
  intros H. rewrite (ReverseBytes_even b) by done.
  rewrite ReverseBytes_even by (by rewrite length_reverse). apply reverse_involutive.
Qed.

(** [ReverseBytes] keeps the length of every slice and mirrors every position, except the
    middle position of an odd-length slice, which its two-cursor loop never writes and which
    stays 0; so on even lengths (hashes, claim ids) it is exact reversal and its own inverse. *)
Theorem ReverseBytes_spec b :
  length (ReverseBytes b) = length b /\
  (forall i, (i < length b)%nat ->
     ReverseBytes b !! i =
       Some (if decide (2 * i + 1 = length b)%nat then x00
             else default x00 (b !! (length b - 1 - i)%nat))) /\
  (Nat.even (length b) = true ->
     ReverseBytes b = reverse b /\ ReverseBytes (ReverseBytes b) = b).
Proof.
  split; [apply length_ReverseBytes | split].
  - intros i Hi. by apply ReverseBytes_lookup.
  - intros H%Nat.even_spec. split; [by apply ReverseBytes_even | by apply ReverseBytes_involutive].
Qed.

Lemma ReverseBytes_spec_witness :
  ReverseBytes [x01; x02; x03] = [x03; x00; x01] /\
  ReverseBytes (ReverseBytes [x01; x02]) = [x01; x02].
Proof.
  split; [reflexivity |].
  apply (proj2 (proj2 (proj2 (ReverseBytes_spec [x01; x02])) eq_refl)).
Defined.
