(* ===== verification/Utf8.v ===== *)
(** * Go's UTF-8 strings

    [\[\]rune(s)], [string(runes)] and [utf8.ValidString] of the Go runtime and standard
    library, on strings as byte sequences: an ill-formed byte decodes to the replacement rune
    with width one. *)
From Stdlib Require Import Ascii.
From S2P Require Import Prelude Bytes.

Definition RuneError : Z := 0xFFFD.

(** The bounds of the second byte and the width for each leading byte of a longer sequence. *)
Definition utf8_lead (b : Z) : option (nat * Z * Z) :=
  if (0xC2 <=? b) && (b <=? 0xDF) then Some (2%nat, 0x80, 0xBF)
  else if b =? 0xE0 then Some (3%nat, 0xA0, 0xBF)
  else if b =? 0xED then Some (3%nat, 0x80, 0x9F)
  else if (0xE1 <=? b) && (b <=? 0xEF) then Some (3%nat, 0x80, 0xBF)
  else if b =? 0xF0 then Some (4%nat, 0x90, 0xBF)
  else if (0xF1 <=? b) && (b <=? 0xF3) then Some (4%nat, 0x80, 0xBF)
  else if b =? 0xF4 then Some (4%nat, 0x80, 0x8F)
  else None.

Definition is_cont (b : Z) : bool := (0x80 <=? b) && (b <=? 0xBF).

(** The rune at the head of the bytes and its width; [None] in place of the rune when the
    bytes are ill-formed (then the width is one). *)
Definition decode_rune (l : list byte) : option Z * nat :=
  match l with
  | [] => (None, 0%nat)
  | b0 :: l1 =>
      let b := bz b0 in
      if b <? 0x80 then (Some b, 1%nat)
      else
        match utf8_lead b, l1 with
        | Some (w, lo, hi), b1 :: l2 =>
            if negb ((lo <=? bz b1) && (bz b1 <=? hi)) then (None, 1%nat)
            else
              match w, l2 with
              | 2%nat, _ => (Some (Z.land b 0x1F * 64 + Z.land (bz b1) 0x3F), 2%nat)
              | 3%nat, b2 :: _ =>
                  if is_cont (bz b2) then
                    (Some ((Z.land b 0x0F * 64 + Z.land (bz b1) 0x3F) * 64 +
                             Z.land (bz b2) 0x3F), 3%nat)
                  else (None, 1%nat)
              | 4%nat, b2 :: b3 :: _ =>
                  if is_cont (bz b2) && is_cont (bz b3) then
                    (Some (((Z.land b 0x07 * 64 + Z.land (bz b1) 0x3F) * 64 +
                             Z.land (bz b2) 0x3F) * 64 + Z.land (bz b3) 0x3F), 4%nat)
                  else (None, 1%nat)
              | _, _ => (None, 1%nat)
              end
        | _, _ => (None, 1%nat)
        end
  end.

(** All the runes; the fuel is the number of bytes, every step consumes at least one. *)
Fixpoint runes_aux (fuel : nat) (l : list byte) : list (option Z) :=
  match fuel, l with
  | S fuel', _ :: _ =>
      let (r, w) := decode_rune l in r :: runes_aux fuel' (drop (Nat.max 1 w) l)
  | _, _ => []
  end.

(** [\[\]rune(s)] *)
Definition runes (s : string) : list Z :=
  let l := String.list_byte_of_string s in
  map (default RuneError) (runes_aux (length l) l).

(** [utf8.ValidString] *)
Definition ValidString (s : string) : bool :=
  let l := String.list_byte_of_string s in
  forallb (fun r => match r with Some _ => true | None => false end) (runes_aux (length l) l).

Definition encode_rune (r : Z) : list byte :=
  let cont (k : Z) := byte_of_Z (0x80 + Z.land (Z.shiftr r k) 0x3F) in
  if r <? 0x80 then [byte_of_Z r]
  else if r <? 0x800 then [byte_of_Z (0xC0 + Z.shiftr r 6); cont 0]
  else if r <? 0x10000 then [byte_of_Z (0xE0 + Z.shiftr r 12); cont 6; cont 0]
  else [byte_of_Z (0xF0 + Z.shiftr r 18); cont 12; cont 6; cont 0].

(** [string(runes)] *)
Definition string_of_runes (l : list Z) : string :=
  String.string_of_list_byte (flat_map encode_rune l).

Lemma length_runes_aux fuel l : (length (runes_aux fuel l) <= fuel)%nat.
Proof.
  revert l. induction fuel as [| fuel IH]; intros [| b l]; cbn [runes_aux length]; try lia.
  destruct (decode_rune (b :: l)) as [r w]. cbn [length].
  specialize (IH (drop (Nat.max 1 w) (b :: l))). lia.
Qed.

Lemma length_runes s : (length (runes s) <= String.length s)%nat.
Proof.
  unfold runes. rewrite length_map. etrans; [apply length_runes_aux |].
  unfold String.list_byte_of_string. rewrite length_map.
  induction s as [| c s IH]; cbn in *; lia.
Qed.

(** ** Encoding and decoding *)

(** The Unicode scalar values. *)
Definition scalar (r : Z) : Prop := 0 <= r < 0xD800 \/ 0xE000 <= r < 0x110000.

Lemma land_low x n : 0 <= n -> Z.land x (2 ^ n - 1) = x mod 2 ^ n.
Proof. intros Hn. rewrite <- Z.land_ones by lia. by rewrite Z.ones_equiv, Z.sub_1_r. Qed.
Lemma land_3F x : Z.land x 0x3F = x mod 64. Proof. by apply (land_low x 6). Qed.
Lemma land_1F x : Z.land x 0x1F = x mod 32. Proof. by apply (land_low x 5). Qed.
Lemma land_0F x : Z.land x 0x0F = x mod 16. Proof. by apply (land_low x 4). Qed.
Lemma land_07 x : Z.land x 0x07 = x mod 8. Proof. by apply (land_low x 3). Qed.
Hint Rewrite land_3F land_1F land_0F land_07 bz_byte_of_Z Z.shiftr_div_pow2 using lia : utf8.

(** Decides the comparisons of the goal. *)
Ltac zdecide :=
  repeat match goal with
    | |- context [?a <=? ?b] => destruct (Z.leb_spec a b); try lia
    | |- context [?a <? ?b] => destruct (Z.ltb_spec a b); try lia
    | |- context [?a =? ?b] => destruct (Z.eqb_spec a b); try lia
    end; cbn [andb negb].

Lemma decode_encode_1 r l : 0 <= r < 0x80 -> decode_rune (byte_of_Z r :: l) = (Some r, 1%nat).
Proof.
  intros Hr. unfold decode_rune. rewrite bz_byte_of_Z, Z.mod_small by lia. by zdecide.
Qed.

Lemma decode_encode_2 q1 q0 l :
  2 <= q1 < 32 -> 0 <= q0 < 64 ->
  decode_rune (byte_of_Z (0xC0 + q1) :: byte_of_Z (0x80 + q0) :: l) = (Some (q1 * 64 + q0), 2%nat).
Proof.
  intros H1 H0. unfold decode_rune. rewrite !bz_byte_of_Z, !Z.mod_small by lia.
  unfold utf8_lead. do 3 zdecide. rewrite land_1F, land_3F.
  do 2 f_equal. Z.to_euclidean_division_equations; lia.
Qed.

Lemma decode_encode_3 q2 q1 q0 l :
  0 <= q2 < 16 -> 0 <= q1 < 64 -> 0 <= q0 < 64 ->
  (q2 = 0 -> 32 <= q1) -> (q2 = 13 -> q1 < 32) ->
  decode_rune (byte_of_Z (0xE0 + q2) :: byte_of_Z (0x80 + q1) :: byte_of_Z (0x80 + q0) :: l) =
    (Some ((q2 * 64 + q1) * 64 + q0), 3%nat).
Proof.
  intros H2 H1 H0 Hlow Hsur. unfold decode_rune, is_cont.
  rewrite !bz_byte_of_Z, !Z.mod_small by lia.
  unfold utf8_lead. do 3 zdecide; rewrite land_0F, !land_3F; do 2 f_equal;
    Z.to_euclidean_division_equations; lia.
Qed.

Lemma decode_encode_4 q3 q2 q1 q0 l :
  0 <= q3 <= 4 -> 0 <= q2 < 64 -> 0 <= q1 < 64 -> 0 <= q0 < 64 ->
  (q3 = 0 -> 16 <= q2) -> (q3 = 4 -> q2 < 16) ->
  decode_rune (byte_of_Z (0xF0 + q3) :: byte_of_Z (0x80 + q2) :: byte_of_Z (0x80 + q1) ::
    byte_of_Z (0x80 + q0) :: l) =
    (Some (((q3 * 64 + q2) * 64 + q1) * 64 + q0), 4%nat).
Proof.
  intros H3 H2 H1 H0 Hlow Hhigh. unfold decode_rune, is_cont.
  rewrite !bz_byte_of_Z, !Z.mod_small by lia.
  unfold utf8_lead. do 3 zdecide; rewrite land_07, !land_3F; do 2 f_equal;
    Z.to_euclidean_division_equations; lia.
Qed.

(** An encoded scalar value decodes to itself, whatever follows. *)
Lemma decode_encode_rune r l :
  scalar r -> decode_rune (encode_rune r ++ l) = (Some r, length (encode_rune r)).
Proof.
  intros Hr. unfold encode_rune, scalar in *.
  rewrite !land_3F, !Z.shiftr_div_pow2 by lia. cbv beta.
  change (2 ^ 0) with 1. change (2 ^ 6) with 64. change (2 ^ 12) with 4096. change (2 ^ 18) with 262144.
  zdecide; cbn [app length].
  - apply decode_encode_1. lia.
  - rewrite decode_encode_2; [do 2 f_equal | ..]; Z.to_euclidean_division_equations; lia.
  - rewrite decode_encode_3; [do 2 f_equal | ..]; Z.to_euclidean_division_equations; lia.
  - rewrite decode_encode_4; [do 2 f_equal | ..]; Z.to_euclidean_division_equations; lia.
Qed.

(** Splits on the range of the leading byte. *)
Ltac zlead := repeat match goal with
    | |- context [if (?a <=? ?b) && (?c <=? ?d) then _ else _] =>
       destruct (Z.leb_spec a b); cbn [andb]; [destruct (Z.leb_spec c d) |]; try lia
    | |- context [if ?a =? ?b then _ else _] => destruct (Z.eqb_spec a b)
  end.
(** Checks the range of the next byte of the sequence; takes it first. *)
Ltac zcont :=
  match goal with
  | |- context [(?lo <=? bz ?b) && (bz ?b <=? ?hi)] =>
      pose proof (bz_range b);
      destruct (Z.leb_spec lo (bz b)); cbn [andb negb]; [| done];
      destruct (Z.leb_spec (bz b) hi); cbn [andb negb]; [| done]
  end.
Ltac znext l := destruct l as [| ? l]; [done |]; zcont.

(** What is decoded is a scalar value. *)
Lemma decode_rune_scalar l r w : decode_rune l = (Some r, w) -> scalar r.
Proof.
  destruct l as [| b0 l]; [done |]. unfold decode_rune, is_cont, scalar.
  pose proof (bz_range b0).
  destruct (Z.ltb_spec (bz b0) 0x80); [intros [= <- _]; lia |].
  unfold utf8_lead. zlead; try done; znext l.
  all: first [ intros [= <- _]
             | znext l; intros [= <- _]
             | destruct l as [| ? l]; [done |]; znext l; zcont; intros [= <- _] ].
  all: rewrite ?land_3F, ?land_1F, ?land_0F, ?land_07.
  all: Z.to_euclidean_division_equations; lia.
Qed.

Lemma runes_aux_scalar fuel l : Forall scalar (default RuneError <$> runes_aux fuel l).
Proof.
  revert l. induction fuel as [| fuel IH]; intros [| b l]; cbn [runes_aux]; [constructor.. |].
  destruct (decode_rune (b :: l)) as [[r |] w] eqn:E; cbn [fmap list_fmap]; constructor; cbn;
    [by eapply decode_rune_scalar | apply IH | | apply IH].
  unfold scalar, RuneError. lia.
Qed.

Lemma runes_scalar s : Forall scalar (runes s).
Proof. apply runes_aux_scalar. Qed.

Lemma encode_rune_length r : (0 < length (encode_rune r))%nat.
Proof. unfold encode_rune. repeat case_match; cbn; lia. Qed.

Lemma runes_aux_encode fuel l :
  Forall scalar l -> (length (flat_map encode_rune l) <= fuel)%nat ->
  runes_aux fuel (flat_map encode_rune l) = Some <$> l.
Proof.
  intros Hl. revert fuel. induction Hl as [| r l Hr Hl IH]; intros fuel Hf; [by destruct fuel |].
  cbn [flat_map] in *. rewrite length_app in Hf. pose proof (encode_rune_length r) as Hpos.
  destruct fuel as [| fuel]; [lia |].
  pose proof (decode_encode_rune r (flat_map encode_rune l) Hr) as Hd.
  destruct (encode_rune r ++ flat_map encode_rune l) as [| b bs] eqn:E.
  { apply app_nil in E as [E _]. by rewrite E in Hpos. }
  cbn [runes_aux]. rewrite Hd, <- E. cbn [fmap list_fmap]. f_equal.
  rewrite Nat.max_r by lia. rewrite drop_app_length. apply IH. lia.
Qed.

(** Decoding the encoding of scalar values gives them back, and the encoding is valid. *)
Lemma runes_aux_string l :
  Forall scalar l ->
  let bytes := String.list_byte_of_string (string_of_runes l) in
  runes_aux (length bytes) bytes = Some <$> l.
Proof.
  intros Hl bytes. unfold bytes, string_of_runes.
  rewrite String.list_byte_of_string_of_list_byte. by apply runes_aux_encode.
Qed.

Lemma runes_string_of_runes l : Forall scalar l -> runes (string_of_runes l) = l.
Proof.
  intros Hl. unfold runes. rewrite runes_aux_string by done.
  rewrite <- list_fmap_compose. by rewrite list_fmap_id.
Qed.

Lemma ValidString_string_of_runes l : Forall scalar l -> ValidString (string_of_runes l) = true.
Proof.
  intros Hl. unfold ValidString. rewrite runes_aux_string by done.
  by induction l as [| r l IH]; [| inversion Hl; subst; apply IH].
Qed.
