(* ===== verification/Script.v ===== *)
(** * Claim, purchase and payment scripts ([lbrycrd/script.go])

    The recognisers and parsers of output scripts, as functions on byte lists that return a
    value, an error or a panic exactly where the Go code does; the address functions over the
    network parameters; and the compact-size reader.  [push_data] is the canonical script
    encoding the parsers are checked against. *)
From S2P Require Import Prelude Bytes.

(** ** Opcodes and script types *)

Definition opClaimName : Z := 0xb5.
Definition opSupportClaim : Z := 0xb6.
Definition opUpdateClaim : Z := 0xb7.
Definition opReturn : Z := 0x6a.
Definition purchase : Z := 0x50.
Definition opDup : Z := 0x76.
Definition opChecksig : Z := 0xac.
Definition op2drop : Z := 0x6d.
Definition opEqualverify : Z := 0x88.
Definition opHash160 : Z := 0xa9.
Definition opPushdata1 : Z := 0x4c.
Definition opPushdata2 : Z := 0x4d.
Definition opPushdata4 : Z := 0x4e.

Definition p2SH : string := "scripthash".
Definition p2PK : string := "pubkey".
Definition p2PKH : string := "pubkeyhash".
Definition p2WPKH : string := "witness_v0_keyhash".
Definition p2WSH : string := "witness_v0_scripthash".
Definition NonStandard : string := "nonstandard".
Definition NullData : string := "nulldata".

(** ** Network parameters *)

Record Params := {
  PubKeyHashAddrID : Z;
  ScriptHashAddrID : Z;
  PrivateKeyID : Z;
  Bech32HRPSegwit : string;
}.

Definition mainNetParams : Params :=
  {| PubKeyHashAddrID := 85; ScriptHashAddrID := 122; PrivateKeyID := 0x1c;
     Bech32HRPSegwit := "lbc" |}.
Definition testNetParams : Params :=
  {| PubKeyHashAddrID := 111; ScriptHashAddrID := 196; PrivateKeyID := 0x1c;
     Bech32HRPSegwit := "tlbc" |}.
Definition regTestNetParams : Params :=
  {| PubKeyHashAddrID := 111; ScriptHashAddrID := 196; PrivateKeyID := 0x1c;
     Bech32HRPSegwit := "rlbc" |}.

Definition paramsMap : gmap string Params :=
  {[ "lbrycrd_main" := mainNetParams;
     "lbrycrd_testnet" := testNetParams;
     "lbrycrd_regtest" := regTestNetParams ]}.

(** [GetChainParams]; the chain name is the global [BlockChainName]. *)
Definition GetChainParams (BlockChainName : string) : res Params :=
  match paramsMap !! BlockChainName with
  | Some p => Ok p
  | None => Err (ErrMsg "unknown chain name")
  end.

(** ** Recognisers *)

(** [script[0] == a || script[0] == b || script[0] == c]: indexing panics on an empty script. *)
Definition IsClaimScript (script : list byte) : res bool :=
  let? b := index script 0 in
  Ok ((bz b =? opSupportClaim) || (bz b =? opClaimName) || (bz b =? opUpdateClaim)).

Definition first_byte_is (op : Z) (script : list byte) : bool :=
  match script with b :: _ => bz b =? op | [] => false end.

Definition IsClaimNameScript : list byte -> bool := first_byte_is opClaimName.
Definition IsClaimSupportScript : list byte -> bool := first_byte_is opSupportClaim.
Definition IsClaimUpdateScript : list byte -> bool := first_byte_is opUpdateClaim.

(** ** Parsers *)

(** The length byte of a name with its [OP_PUSHDATA1] form.  [too_long] is what the caller
    does with a longer push: [ParseClaimNameScript] panics, the other two return an error. *)
Definition read_name (too_long : res (Z * Z)) (script : list byte) : res (string * Z) :=
  let? b1 := index script 1 in
  let nameBytesToRead := bz b1 in
  let? (nameBytesToRead, nameStart) :=
    (if nameBytesToRead =? opPushdata1 then let? b2 := index script 2 in Ok (bz b2, 3)
     else if opPushdata1 <? nameBytesToRead then too_long
     else Ok (nameBytesToRead, 2)) in
  let nameEnd := nameStart + nameBytesToRead in
  let? name := slice script nameStart nameEnd in
  Ok (String.string_of_list_byte name, nameEnd).

(** The claim id of a support or an update: one length byte, then the reversed hash. *)
Definition read_claimid (script : list byte) (nameEnd : Z) : res (string * Z) :=
  let? b := index script nameEnd in
  let claimidBytesToRead := bz b in
  let claimidStart := nameEnd + 1 in
  let claimidEnd := claimidStart + claimidBytesToRead in
  let? raw := slice script claimidStart claimidEnd in
  Ok (hex_encode (ReverseBytes raw), claimidEnd).

(** A pushed value at [pos] with its three long forms: the value and where it ends. *)
Definition read_value (script : list byte) (pos : Z) : res (list byte * Z) :=
  let? b := index script pos in
  let dataPushType := bz b in
  let? (valueBytesToRead, valueStart) :=
    (if dataPushType =? opPushdata1 then
       let? c := index script (pos + 1) in Ok (bz c, pos + 2)
     else if dataPushType =? opPushdata2 then
       let valueStart := pos + 3 in
       let? raw := slice script (pos + 1) valueStart in
       let? n := le_read 2 raw in Ok (n, valueStart)
     else if dataPushType =? opPushdata4 then
       let valueStart := pos + 5 in
       let? raw := slice script (pos + 1) valueStart in
       let? n := le_read 4 raw in Ok (n, valueStart)
     else Ok (dataPushType, pos + 1)) in
  let valueEnd := valueStart + valueBytesToRead in
  let? value := slice script valueStart valueEnd in
  Ok (value, valueEnd).

Definition err_bytes_to_read : error := ErrMsg "Bytes to read is more than next byte! ".
Definition err_update_bytes_to_read : error :=
  ErrMsg "ParseClaimUpdateScript: Bytes to read is more than next byte! ".

Definition ParseClaimNameScript (script : list byte) : res (string * list byte * list byte) :=
  let? (name, nameEnd) := read_name (Panic err_bytes_to_read) script in
  let? (value, valueEnd) := read_value script nameEnd in
  let pksStart := valueEnd + 2 in
  let? pubkeyscript := slice_from script pksStart in
  Ok (name, value, pubkeyscript).

Definition ParseClaimSupportScript (script : list byte)
  : res (string * string * list byte * list byte) :=
  let? (name, nameEnd) := read_name (Err err_bytes_to_read) script in
  let? (claimid, claimidEnd) := read_claimid script nameEnd in
  let? b := index script claimidEnd in
  let? (value, pksStart) :=
    (if bz b =? op2drop then Ok ([], claimidEnd + 2)
     else let? (value, valueEnd) := read_value script claimidEnd in Ok (value, valueEnd + 2)) in
  let? pubkeyscript := slice_from script pksStart in
  Ok (name, claimid, value, pubkeyscript).

Definition ParseClaimUpdateScript (script : list byte)
  : res (string * string * list byte * list byte) :=
  let? (name, nameEnd) :=
    read_name (Err err_update_bytes_to_read) script in
  let? (claimid, claimidEnd) := read_claimid script nameEnd in
  let? (value, valueEnd) := read_value script claimidEnd in
  let pksStart := valueEnd + 2 in
  let? pubkeyscript := slice_from script pksStart in
  Ok (name, claimid, value, pubkeyscript).

Definition GetPubKeyScriptFromClaimPKS (script : list byte) : res (list byte) :=
  let? is_claim := IsClaimScript script in
  if is_claim then
    if IsClaimNameScript script then
      let? (_, _, pks) := ParseClaimNameScript script in Ok pks
    else if IsClaimUpdateScript script then
      let? (_, _, _, pks) := ParseClaimUpdateScript script in Ok pks
    else if IsClaimSupportScript script then
      let? (_, _, _, pks) := ParseClaimSupportScript script in Ok pks
    else Ok []
  else Err ErrNotClaimScript.

(** ** Data scripts and purchases *)

Definition parseDataScript (script : list byte) : res (list byte) :=
  if len script <=? 1 then Err (ErrMsg "there is no script to parse")
  else
    let? b0 := index script 0 in
    if negb (bz b0 =? opReturn) then
      Err (ErrMsg "the first byte of script must be an OP_RETURN to quality as un-spendable data")
    else
      let? b1 := index script 1 in
      let dataBytesToRead := bz b1 in
      if negb (len script - dataBytesToRead - 2 =? 0) then
        Err (ErrMsg "supposed to have other number of bytes to read")
      else slice_from script 2.

(** The protobuf decoder of a purchase, from the lbryio/types module: the claim hash of the
    message, or an error. *)
Class PurchaseCodec := { unmarshal_purchase : list byte -> option (list byte) }.

Section Purchase.
Context `{PurchaseCodec}.

Definition ParsePurchaseScript (script : list byte) : res (list byte) :=
  let? data := parseDataScript script in
  let? b := index data 0 in
  if negb (bz b =? purchase) then
    Err (ErrMsg "the first byte must be 'P'(0x50) to be a purchase script")
  else
    let? body := slice_from data 1 in
    match unmarshal_purchase body with
    | Some claimHash => Ok claimHash
    | None => Err (ErrMsg "proto: cannot parse invalid wire-format data")
    end.

Definition IsPurchaseScript (script : list byte) : res bool :=
  if 2 <? len script then
    let? b0 := index script 0 in
    let? b2 := index script 2 in
    if (bz b0 =? opReturn) && (bz b2 =? purchase) then
      match ParsePurchaseScript script with
      | Ok _ => Ok true
      | Err _ => Ok false
      | Panic e => Panic e
      end
    else Ok false
  else Ok false.
End Purchase.

(** ** Payment scripts and addresses *)

Definition isPayToScriptHashScript (script : list byte) : bool :=
  first_byte_is opUpdateClaim script.

Definition isPayToPublicKey (script : list byte) : res bool :=
  let? last := index script (len script - 1) in
  if negb (bz last =? opChecksig) then Ok false
  else
    let? last2 := index script (len script - 2) in
    if negb (bz last2 =? opEqualverify) then Ok false
    else let? first := index script 0 in Ok (negb (bz first =? opDup)).

Definition isPayToPublicKeyHashScript (script : list byte) : res bool :=
  if negb (0 <? len script) then Ok false
  else
    let? b0 := index script 0 in
    if negb (bz b0 =? opDup) then Ok false
    else let? b1 := index script 1 in Ok (bz b1 =? opHash160).

(** The btcd and btcutil functions on addresses, each with the text of the address it builds. *)
Class AddressCodec := {
  IsPayToWitnessPubKeyHash : list byte -> bool;
  IsPayToWitnessScriptHash : list byte -> bool;
  ExtractPkScriptAddrs : list byte -> Params -> list string;
  NewAddressPubKey : list byte -> Params -> res string;
  NewAddressPubKeyHash : list byte -> Params -> res string;
  NewAddressScriptHashFromHash : list byte -> Params -> res string;
  NewAddressWitnessPubKeyHash : list byte -> Params -> res string;
  NewAddressWitnessScriptHash : list byte -> Params -> res string;
}.

Section Addresses.
Context `{AddressCodec} (BlockChainName : string).

Definition getPublicKeyScriptType (script : list byte) : res string :=
  let? pk := isPayToPublicKey script in
  if pk then Ok p2PK
  else
    let? pkh := isPayToPublicKeyHashScript script in
    if pkh then Ok p2PKH
    else if isPayToScriptHashScript script then Ok p2SH
    else if IsPayToWitnessPubKeyHash script then Ok p2WPKH
    else if IsPayToWitnessScriptHash script then Ok p2WSH
    else Ok NonStandard.

(** [GetAddressFromPublicKeyScript]: the first address btcd extracts, or the empty string. *)
Definition GetAddressFromPublicKeyScript (script : list byte) : string :=
  match GetChainParams BlockChainName with
  | Ok chainParams =>
      match ExtractPkScriptAddrs script chainParams with
      | [] => ""
      | address :: _ => address
      end
  | _ => ""
  end.

(** The common shape of the five [getAddressFrom...] functions. *)
Definition address_from_hex (mk : list byte -> Params -> res string) (hexstring : string)
  : res string :=
  let? hexstringBytes := hex_decode hexstring in
  let? chainParams := GetChainParams BlockChainName in
  mk hexstringBytes chainParams.

Definition getAddressFromP2PK : string -> res string := address_from_hex NewAddressPubKey.
Definition getAddressFromP2PKH : string -> res string := address_from_hex NewAddressPubKeyHash.
Definition getAddressFromP2SH : string -> res string :=
  address_from_hex NewAddressScriptHashFromHash.
Definition getAddressFromP2WPKH : string -> res string :=
  address_from_hex NewAddressWitnessPubKeyHash.
Definition getAddressFromP2WSH : string -> res string :=
  address_from_hex NewAddressWitnessScriptHash.
End Addresses.

(** ** Compact sizes *)

(** [bytes.Buffer.Read] into a zeroed slice of [n > 0] bytes: the end-of-file error on an empty
    buffer, otherwise what is there, without an error when that is less than [n]. *)
Definition buffer_read (n : nat) (bs : list byte) : res (list byte * list byte) :=
  match bs with
  | [] => Err (ErrMsg "EOF")
  | _ => Ok (take n bs ++ replicate (n - length bs) x00, drop n bs)
  end.

Definition readBytes (toRead : nat) (bs : list byte) : res (list byte * list byte) :=
  buffer_read toRead bs.

Definition readUint32 (bs : list byte) : res (Z * list byte * list byte) :=
  let? (buf, bs') := readBytes 4 bs in
  let? v := le_read 4 buf in
  Ok (v, buf, bs').

(** The value, the bytes read and the rest of the buffer. *)
Definition readCompactSize (bs : list byte) : res (Z * list byte * list byte) :=
  let? (bSize, bs1) := buffer_read 1 bs in
  let readBuf := bSize in
  let? b := index bSize 0 in
  let size := bz b in
  if size <? 253 then Ok (size, readBuf, bs1)
  else if size =? 253 then
    let? (buf, bs2) := buffer_read 2 bs1 in
    let? v := le_read 2 buf in
    Ok (v, readBuf ++ buf, bs2)
  else if size =? 254 then
    let? (v, buf, bs2) := readUint32 bs1 in
    Ok (v, readBuf ++ buf, bs2)
  else if size =? 255 then
    (* the eight bytes are allocated and never read *)
    let buf := replicate 8 x00 in
    let? v := le_read 8 buf in
    Ok (v, readBuf ++ buf, bs1)
  else Err (ErrMsg "size is greater than 255").

(** ** The canonical encoding of pushed data, the parsers' specification *)

Definition push_data (d : list byte) : list byte :=
  if len d <? opPushdata1 then byte_of_Z (len d) :: d
  else if len d <? 2 ^ 8 then x4c :: byte_of_Z (len d) :: d
  else if len d <? 2 ^ 16 then x4d :: le_bytes 2 (len d) ++ d
  else x4e :: le_bytes 4 (len d) ++ d.

Definition claim_name_script (name value pks : list byte) : list byte :=
  [xb5] ++ push_data name ++ push_data value ++ [x6d; x75] ++ pks.
Definition claim_update_script (name hash value pks : list byte) : list byte :=
  [xb7] ++ push_data name ++ push_data hash ++ push_data value ++ [x6d; x6d] ++ pks.
Definition claim_support_script (name hash : list byte) (value : option (list byte))
  (pks : list byte) : list byte :=
  [xb6] ++ push_data name ++ push_data hash ++
  match value with
  | None => [x6d; x75] ++ pks
  | Some v => push_data v ++ [x6d; x6d] ++ pks
  end.
Definition purchase_script (message : list byte) : list byte :=
  [x6a; byte_of_Z (1 + len message); x50] ++ message.

Definition compact_size (n : Z) : list byte :=
  if n <? 253 then [byte_of_Z n]
  else if n <? 2 ^ 16 then xfd :: le_bytes 2 n
  else xfe :: le_bytes 4 n.

(** ** Lemmas *)

Lemma bz_byte_of_Z_small z : 0 <= z < 256 -> bz (byte_of_Z z) = z.
Proof. intros H. rewrite bz_byte_of_Z. by apply Z.mod_small. Qed.

Lemma slice_at {A} (s a b c : list A) lo hi :
  s = a ++ b ++ c -> lo = len a -> hi = len a + len b -> slice s lo hi = Ok b.
Proof. intros -> -> ->. apply slice_mid. Qed.

Lemma index_at {A} (s a : list A) x c i :
  s = a ++ x :: c -> i = len a -> index s i = Ok x.
Proof. intros -> ->. apply index_mid. Qed.

(** Discharges the two side conditions of [slice_at] and [index_at]. *)
Ltac locate :=
  rewrite <- ?app_assoc; cbn [app]; first [reflexivity | autorewrite with go; lia].
Ltac take_slice l d r := erewrite (slice_at _ l d r); [| locate ..]; cbn [rbind].
Ltac take_byte l := erewrite (index_at _ l); [| locate ..]; cbn [rbind].

Lemma len_push_data d :
  len (push_data d) =
    len d + (if len d <? opPushdata1 then 1 else if len d <? 2 ^ 8 then 2
             else if len d <? 2 ^ 16 then 3 else 5).
Proof. unfold push_data. repeat case_match; autorewrite with go; lia. Qed.

(** Reading a name back from a canonical push right after the opcode byte. *)
Lemma read_name_push err op name post :
  len name < 256 ->
  read_name err ([op] ++ push_data name ++ post) =
    Ok (String.string_of_list_byte name, 1 + len (push_data name)).
Proof.
  intros Hlen. pose proof (len_nonneg name).
  unfold read_name. rewrite len_push_data. unfold push_data.
  replace (len name <? 2 ^ 8) with true by lia. unfold opPushdata1.
  destruct (Z.ltb_spec (len name) 76).
  - take_byte [op]. rewrite bz_byte_of_Z_small by lia.
    replace (len name =? 76) with false by lia. replace (76 <? len name) with false by lia.
    cbn [rbind]. take_slice [op; byte_of_Z (len name)] name post. do 2 f_equal. lia.
  - take_byte [op]. replace (bz x4c =? 76) with true by reflexivity.
    take_byte [op; x4c]. rewrite bz_byte_of_Z_small by lia.
    take_slice [op; x4c; byte_of_Z (len name)] name post. do 2 f_equal. lia.
Qed.

(** Reading a value back from a canonical push at any position. *)
Lemma read_value_push pre value post :
  len value < 2 ^ 32 ->
  read_value (pre ++ push_data value ++ post) (len pre) =
    Ok (value, len pre + len (push_data value)).
Proof.
  intros Hlen. pose proof (len_nonneg value).
  unfold read_value. rewrite len_push_data. unfold push_data, opPushdata1, opPushdata2, opPushdata4.
  destruct (Z.ltb_spec (len value) 76); [| destruct (Z.ltb_spec (len value) (2 ^ 8));
    [| destruct (Z.ltb_spec (len value) (2 ^ 16))]]; take_byte pre.
  - rewrite bz_byte_of_Z_small by lia.
    replace (len value =? 76) with false by lia. replace (len value =? 77) with false by lia.
    replace (len value =? 78) with false by lia. cbn [rbind].
    take_slice (pre ++ [byte_of_Z (len value)]) value post. do 2 f_equal. lia.
  - replace (bz x4c =? 76) with true by reflexivity.
    take_byte (pre ++ [x4c]). rewrite bz_byte_of_Z_small by lia.
    take_slice (pre ++ [x4c; byte_of_Z (len value)]) value post. do 2 f_equal. lia.
  - replace (bz x4d =? 76) with false by reflexivity.
    replace (bz x4d =? 77) with true by reflexivity.
    take_slice (pre ++ [x4d]) (le_bytes 2 (len value)) (value ++ post).
    rewrite le_read_bytes by lia. cbn [rbind].
    take_slice (pre ++ [x4d] ++ le_bytes 2 (len value)) value post. do 2 f_equal. lia.
  - replace (bz x4e =? 76) with false by reflexivity.
    replace (bz x4e =? 77) with false by reflexivity.
    replace (bz x4e =? 78) with true by reflexivity.
    take_slice (pre ++ [x4e]) (le_bytes 4 (len value)) (value ++ post).
    rewrite le_read_bytes by lia. cbn [rbind].
    take_slice (pre ++ [x4e] ++ le_bytes 4 (len value)) value post. do 2 f_equal. lia.
Qed.

Lemma read_claimid_push pre hash post :
  len hash < 76 ->
  read_claimid (pre ++ push_data hash ++ post) (len pre) =
    Ok (hex_encode (ReverseBytes hash), len pre + len (push_data hash)).
Proof.
  intros Hlen. pose proof (len_nonneg hash).
  unfold read_claimid. rewrite len_push_data. unfold push_data, opPushdata1.
  replace (len hash <? 76) with true by lia.
  take_byte pre. rewrite bz_byte_of_Z_small by lia.
  take_slice (pre ++ [byte_of_Z (len hash)]) hash post. do 2 f_equal. lia.
Qed.

(** The tail of a script after its last push: two dropped opcodes, then the payment script. *)
Lemma pks_after_two (pre : list byte) a b pks at_ :
  at_ = len pre + 2 -> slice_from (pre ++ [a; b] ++ pks) at_ = Ok pks.
Proof.
  intros ->. rewrite app_assoc.
  replace (len pre + 2) with (len (pre ++ [a; b])) by (autorewrite with go; lia).
  apply slice_from_end.
Qed.

Lemma ParseClaimNameScript_canonical name value pks :
  len name < 256 -> len value < 2 ^ 32 ->
  ParseClaimNameScript (claim_name_script name value pks) =
    Ok (String.string_of_list_byte name, value, pks).
Proof.
  intros Hn Hv. unfold ParseClaimNameScript, claim_name_script.
  rewrite read_name_push by done. cbn [rbind].
  pose proof (read_value_push ([xb5] ++ push_data name) value ([x6d; x75] ++ pks) Hv) as Hval.
  rewrite <- !app_assoc, len_app in Hval. change (len [xb5]) with 1 in Hval.
  rewrite Hval. cbn [rbind]. rewrite !app_assoc, <- (app_assoc _ _ pks).
  rewrite pks_after_two; [done |]. autorewrite with go. lia.
Qed.

Lemma ParseClaimUpdateScript_canonical name hash value pks :
  len name < 256 -> len hash < 76 -> len value < 2 ^ 32 ->
  ParseClaimUpdateScript (claim_update_script name hash value pks) =
    Ok (String.string_of_list_byte name, hex_encode (ReverseBytes hash), value, pks).
Proof.
  intros Hn Hh Hv. unfold ParseClaimUpdateScript, claim_update_script.
  rewrite read_name_push by done. cbn [rbind].
  pose proof (read_claimid_push ([xb7] ++ push_data name) hash
    (push_data value ++ [x6d; x6d] ++ pks) Hh) as Hid.
  rewrite <- !app_assoc, len_app in Hid. change (len [xb7]) with 1 in Hid.
  rewrite Hid. cbn [rbind].
  pose proof (read_value_push ([xb7] ++ push_data name ++ push_data hash) value
    ([x6d; x6d] ++ pks) Hv) as Hval.
  rewrite <- !app_assoc, !len_app in Hval. change (len [xb7]) with 1 in Hval.
  rewrite Z.add_assoc in Hval. rewrite Hval. cbn [rbind].
  rewrite !app_assoc, <- (app_assoc _ _ pks).
  rewrite pks_after_two; [done |]. autorewrite with go. lia.
Qed.

Lemma push_data_first d : len d < 76 -> exists b, push_data d = b :: d /\ bz b = len d.
Proof.
  intros H. pose proof (len_nonneg d). exists (byte_of_Z (len d)). split.
  - unfold push_data, opPushdata1. by replace (len d <? 76) with true by lia.
  - apply bz_byte_of_Z_small. lia.
Qed.

Lemma push_data_not_2drop d : exists b l, push_data d = b :: l /\ bz b <> op2drop.
Proof.
  pose proof (len_nonneg d). unfold push_data, opPushdata1, op2drop.
  repeat case_match; eexists _, _; (split; [reflexivity |]); try discriminate.
  rewrite bz_byte_of_Z_small; lia.
Qed.

Lemma ParseClaimSupportScript_canonical name hash value pks :
  len name < 256 -> len hash < 76 -> len (default [] value) < 2 ^ 32 ->
  ParseClaimSupportScript (claim_support_script name hash value pks) =
    Ok (String.string_of_list_byte name, hex_encode (ReverseBytes hash), default [] value, pks).
Proof.
  intros Hn Hh Hv. unfold ParseClaimSupportScript, claim_support_script.
  rewrite read_name_push by done. cbn [rbind].
  set (post := match value with None => _ | Some _ => _ end).
  pose proof (read_claimid_push ([xb6] ++ push_data name) hash post Hh) as Hid.
  rewrite <- !app_assoc, len_app in Hid. change (len [xb6]) with 1 in Hid.
  rewrite Hid. cbn [rbind]. subst post. destruct value as [v |]; cbn [default] in *.
  - destruct (push_data_not_2drop v) as (b & l & Hpush & Hb).
    erewrite (index_at _ ([xb6] ++ push_data name ++ push_data hash) b);
      [| rewrite Hpush; locate | locate]. cbn [rbind].
    replace (bz b =? op2drop) with false by lia.
    pose proof (read_value_push ([xb6] ++ push_data name ++ push_data hash) v
      ([x6d; x6d] ++ pks) Hv) as Hval.
    rewrite <- !app_assoc, !len_app in Hval. change (len [xb6]) with 1 in Hval.
    rewrite Z.add_assoc in Hval. rewrite Hval. cbn [rbind].
    rewrite !app_assoc, <- (app_assoc _ _ pks).
    rewrite pks_after_two; [done |]. autorewrite with go. lia.
  - take_byte ([xb6] ++ push_data name ++ push_data hash).
    replace (bz x6d =? op2drop) with true by reflexivity. cbn [rbind].
    rewrite !app_assoc, <- (app_assoc _ _ pks).
    rewrite pks_after_two; [done |]. autorewrite with go. lia.
Qed.

(** A name too long for one length byte is pushed with [OP_PUSHDATA2] or [OP_PUSHDATA4]. *)
Lemma read_name_long (panics : bool) e op name post :
  256 <= len name < 2 ^ 32 ->
  read_name (if panics then Panic e else Err e) ([op] ++ push_data name ++ post) =
    if panics then Panic e else Err e.
Proof.
  intros H. unfold read_name, push_data, opPushdata1.
  replace (len name <? 76) with false by lia. replace (len name <? 2 ^ 8) with false by lia.
  destruct (len name <? 2 ^ 16); take_byte [op].
  - replace (bz x4d =? 76) with false by reflexivity.
    replace (76 <? bz x4d) with true by reflexivity. by destruct panics.
  - replace (bz x4e =? 76) with false by reflexivity.
    replace (76 <? bz x4e) with true by reflexivity. by destruct panics.
Qed.

(** A data script with a one-byte length that matches its length. *)
Lemma parseDataScript_Ok script data :
  parseDataScript script = Ok data <->
  exists b0 b1, script = b0 :: b1 :: data /\ bz b0 = opReturn /\ bz b1 = len data.
Proof.
  unfold parseDataScript. split.
  - destruct script as [| b0 [| b1 rest]]; [discriminate.. |].
    replace (len (b0 :: b1 :: rest) <=? 1) with false by (autorewrite with go; pose proof (len_nonneg rest); lia).
    take_byte (@nil byte). destruct (bz b0 =? opReturn) eqn:E0; cbn [negb]; [| discriminate].
    take_byte [b0]. autorewrite with go.
    destruct (1 + (1 + len rest) - bz b1 - 2 =? 0) eqn:E1; cbn [negb]; [| discriminate].
    unfold slice_from. rewrite (slice_at _ [b0; b1] rest []);
      [| by rewrite app_nil_r | done | autorewrite with go; lia].
    intros H. injection H as <-. exists b0, b1. auto with lia.
  - intros (b0 & b1 & -> & H0 & H1). pose proof (len_nonneg data).
    replace (len (b0 :: b1 :: data) <=? 1) with false by (autorewrite with go; lia).
    take_byte (@nil byte). replace (bz b0 =? opReturn) with true by lia. cbn [negb].
    take_byte [b0]. autorewrite with go.
    replace (1 + (1 + len data) - bz b1 - 2 =? 0) with true by lia. cbn [negb].
    unfold slice_from. rewrite (slice_at _ [b0; b1] data []);
      [done | by rewrite app_nil_r | done | autorewrite with go; lia].
Qed.

Lemma parseDataScript_cases script :
  (exists data, parseDataScript script = Ok data) \/ (exists e, parseDataScript script = Err e).
Proof.
  unfold parseDataScript. destruct script as [| b0 [| b1 rest]]; [right; cbn; eauto.. |].
  replace (len (b0 :: b1 :: rest) <=? 1) with false by (autorewrite with go; pose proof (len_nonneg rest); lia).
  take_byte (@nil byte). destruct (bz b0 =? opReturn); cbn [negb]; [| eauto].
  take_byte [b0]. destruct (len (b0 :: b1 :: rest) - bz b1 - 2 =? 0); cbn [negb]; [| eauto].
  unfold slice_from. erewrite (slice_at _ [b0; b1] rest []);
    [eauto | by rewrite app_nil_r | done | autorewrite with go; lia].
Qed.

Section PurchaseLemmas.
Context `{PurchaseCodec}.

Lemma ParsePurchaseScript_Ok script hash :
  ParsePurchaseScript script = Ok hash <->
  exists b0 b1 b2 message, script = b0 :: b1 :: b2 :: message /\
    bz b0 = opReturn /\ bz b1 = 1 + len message /\ bz b2 = purchase /\
    unmarshal_purchase message = Some hash.
Proof.
  unfold ParsePurchaseScript. split.
  - intros Hp. apply rbind_Ok in Hp as (data & Hd & Hp).
    apply parseDataScript_Ok in Hd as (b0 & b1 & -> & H0 & H1).
    apply rbind_Ok in Hp as (b2 & Hb & Hp).
    destruct data as [| b2' message]; [discriminate |].
    cbn in Hb. injection Hb as <-.
    destruct (bz b2' =? purchase) eqn:E2; cbn [negb] in Hp; [| discriminate].
    apply rbind_Ok in Hp as (body & Hs & Hp).
    unfold slice_from in Hs. rewrite (slice_at _ [b2'] message []) in Hs;
      [| by rewrite app_nil_r | done | autorewrite with go; lia].
    injection Hs as <-. destruct (unmarshal_purchase message) eqn:E; [| discriminate].
    injection Hp as <-. exists b0, b1, b2', message. autorewrite with go in H1. auto with lia.
  - intros (b0 & b1 & b2 & message & -> & H0 & H1 & H2 & Hu).
    rewrite (proj2 (parseDataScript_Ok _ (b2 :: message)))
      by (exists b0, b1; autorewrite with go; auto).
    cbn [rbind]. take_byte (@nil byte). rewrite H2, Z.eqb_refl. cbn [negb].
    unfold slice_from. rewrite (slice_at _ [b2] message []);
      [| by rewrite app_nil_r | done | autorewrite with go; lia].
    cbn [rbind]. by rewrite Hu.
Qed.

Lemma ParsePurchaseScript_long script :
  2 < len script -> no_panic (ParsePurchaseScript script).
Proof.
  intros Hlen e. unfold ParsePurchaseScript.
  destruct (parseDataScript_cases script) as [[data Hd] | [e' Hd]]; rewrite Hd; [| discriminate].
  apply parseDataScript_Ok in Hd as (b0 & b1 & -> & _ & _). cbn [rbind].
  destruct data as [| b2 message]; [autorewrite with go in Hlen; lia |].
  take_byte (@nil byte). destruct (bz b2 =? purchase); cbn [negb]; [| discriminate].
  unfold slice_from. rewrite (slice_at _ [b2] message []);
    [| by rewrite app_nil_r | done | autorewrite with go; lia].
  cbn [rbind]. destruct (unmarshal_purchase message); discriminate.
Qed.

Lemma IsPurchaseScript_cases script :
  (IsPurchaseScript script = Ok true /\ exists hash, ParsePurchaseScript script = Ok hash) \/
  (IsPurchaseScript script = Ok false /\ forall hash, ParsePurchaseScript script <> Ok hash).
Proof.
  unfold IsPurchaseScript. destruct (Z.ltb_spec 2 (len script)) as [Hlen | Hlen].
  2: { right. split; [done |]. intros hash Hp.
    apply ParsePurchaseScript_Ok in Hp as (b0 & b1 & b2 & m & -> & _).
    autorewrite with go in Hlen. pose proof (len_nonneg m). lia. }
  pose proof (ParsePurchaseScript_long script Hlen) as Hnp.
  destruct script as [| b0 [| b1 [| b2 message]]];
    [by (autorewrite with go in Hlen; lia).. |].
  take_byte (@nil byte). take_byte [b0; b1].
  destruct ((bz b0 =? opReturn) && (bz b2 =? purchase)) eqn:E.
  - destruct (ParsePurchaseScript _) as [hash | e | e] eqn:Hp; [left; eauto | right; split; [done | discriminate] |].
    exfalso. by eapply Hnp.
  - right. split; [done |]. intros hash Hp.
    apply ParsePurchaseScript_Ok in Hp as (c0 & c1 & c2 & m & Heq & H0 & _ & H2 & _).
    simplify_eq. lia.
Qed.
End PurchaseLemmas.

Lemma buffer_read_app n d rest :
  length d = S (pred n) -> length d = n -> buffer_read n (d ++ rest) = Ok (d, rest).
Proof.
  intros Hne <-. unfold buffer_read. destruct d as [| b d]; [done |].
  change (match (b :: d) ++ rest with [] => _ | _ => ?x end) with x.
  rewrite take_app_length, drop_app_length, length_app.
  replace (_ - _)%nat with 0%nat by lia. by rewrite app_nil_r.
Qed.

(** ** Properties *)

(** C28: the claim parsers invert the canonical script encoding: for every name of at most 255
    bytes, 20-byte claim hash and value below 4 GiB, parsing a claim, update or support script
    gives back the name, the claim id (the hash reversed, in hexadecimal), the value and the
    payment script. *)
Theorem claim_scripts_roundtrip name hash value pks :
  len name < 256 -> len hash = 20 -> len value < 2 ^ 32 ->
  ParseClaimNameScript (claim_name_script name value pks) =
    Ok (String.string_of_list_byte name, value, pks) /\
  ParseClaimUpdateScript (claim_update_script name hash value pks) =
    Ok (String.string_of_list_byte name, hex_encode (reverse hash), value, pks) /\
  ParseClaimSupportScript (claim_support_script name hash (Some value) pks) =
    Ok (String.string_of_list_byte name, hex_encode (reverse hash), value, pks) /\
  ParseClaimSupportScript (claim_support_script name hash None pks) =
    Ok (String.string_of_list_byte name, hex_encode (reverse hash), [], pks).
Proof.
  intros Hn Hh Hv.
  rewrite <- (ReverseBytes_even hash) by (exists 10%nat; unfold len in Hh; lia).
  rewrite ParseClaimNameScript_canonical, ParseClaimUpdateScript_canonical by lia.
  by rewrite !ParseClaimSupportScript_canonical by (cbn; unfold len in *; cbn; lia).
Qed.

Lemma claim_scripts_roundtrip_witness :
  ParseClaimUpdateScript (claim_update_script [x61; x62] (replicate 19 x01 ++ [x0f]) [x00; x0a] [x76; xa9]) =
    Ok ("ab"%string, hex_encode ([x0f] ++ replicate 19 x01), [x00; x0a], [x76; xa9]).
Proof.
  apply (claim_scripts_roundtrip [x61; x62] (replicate 19 x01 ++ [x0f]) [x00; x0a] [x76; xa9]);
    vm_compute; reflexivity.
Defined.

(** The payment script used for addresses is the tail of the claim script, for each of the
    three kinds of claim script; any other non-empty script is the error [ErrNotClaimScript],
    and only the empty script panics before the parsers run. *)
Theorem GetPubKeyScriptFromClaimPKS_spec name hash value pks :
  len name < 256 -> len hash < 76 -> len value < 2 ^ 32 ->
  GetPubKeyScriptFromClaimPKS (claim_name_script name value pks) = Ok pks /\
  GetPubKeyScriptFromClaimPKS (claim_update_script name hash value pks) = Ok pks /\
  GetPubKeyScriptFromClaimPKS (claim_support_script name hash (Some value) pks) = Ok pks /\
  (forall b script, bz b <> opClaimName -> bz b <> opUpdateClaim -> bz b <> opSupportClaim ->
     GetPubKeyScriptFromClaimPKS (b :: script) = Err ErrNotClaimScript) /\
  (exists e, GetPubKeyScriptFromClaimPKS [] = Panic e).
Proof.
  intros Hn Hh Hv. repeat split.
  - unfold GetPubKeyScriptFromClaimPKS. change (IsClaimScript _) with (Ok true). cbn [rbind].
    change (IsClaimNameScript _) with true. cbn iota.
    by rewrite ParseClaimNameScript_canonical.
  - unfold GetPubKeyScriptFromClaimPKS. change (IsClaimScript _) with (Ok true). cbn [rbind].
    change (IsClaimNameScript _) with false. change (IsClaimUpdateScript _) with true. cbn iota.
    by rewrite ParseClaimUpdateScript_canonical.
  - unfold GetPubKeyScriptFromClaimPKS. change (IsClaimScript _) with (Ok true). cbn [rbind].
    change (IsClaimNameScript _) with false. change (IsClaimUpdateScript _) with false.
    change (IsClaimSupportScript _) with true. cbn iota.
    by rewrite ParseClaimSupportScript_canonical.
  - intros b script H1 H2 H3. unfold GetPubKeyScriptFromClaimPKS, IsClaimScript.
    take_byte (@nil byte). replace (bz b =? opSupportClaim) with false by lia.
    replace (bz b =? opClaimName) with false by lia.
    by replace (bz b =? opUpdateClaim) with false by lia.
  - eexists. reflexivity.
Qed.

Lemma GetPubKeyScriptFromClaimPKS_spec_witness :
  GetPubKeyScriptFromClaimPKS (claim_name_script [x61] [x00; x0a] [x76; xa9]) = Ok [x76; xa9].
Proof.
  apply (GetPubKeyScriptFromClaimPKS_spec [x61] [] [x00; x0a] [x76; xa9]); vm_compute; reflexivity.
Defined.

(** A claim name that needs a two- or four-byte length is refused by all three parsers, but
    not alike: [ParseClaimNameScript] panics where the update and support parsers return an
    error. *)
Theorem long_name_refused name rest :
  256 <= len name < 2 ^ 32 ->
  ParseClaimNameScript ([xb5] ++ push_data name ++ rest) = Panic err_bytes_to_read /\
  ParseClaimSupportScript ([xb6] ++ push_data name ++ rest) = Err err_bytes_to_read /\
  ParseClaimUpdateScript ([xb7] ++ push_data name ++ rest) =
    Err (err_update_bytes_to_read).
Proof.
  intros H. unfold ParseClaimNameScript, ParseClaimSupportScript, ParseClaimUpdateScript.
  pose proof (read_name_long true err_bytes_to_read xb5 name rest H) as ->.
  pose proof (read_name_long false err_bytes_to_read xb6 name rest H) as ->.
  by pose proof (read_name_long false (err_update_bytes_to_read)
    xb7 name rest H) as ->.
Qed.

Lemma long_name_refused_witness :
  ParseClaimNameScript ([xb5] ++ push_data (replicate 300 x61) ++ [x00]) = Panic err_bytes_to_read.
Proof. apply (long_name_refused (replicate 300 x61) [x00]). vm_compute. split; congruence. Defined.

(** C39: [IsPurchaseScript] never panics, whatever bytes it is given, and it accepts exactly the
    scripts [OP_RETURN, length, 'P', message] whose length byte matches and whose message
    decodes. *)
Theorem IsPurchaseScript_exact `{PurchaseCodec} script :
  (exists b, IsPurchaseScript script = Ok b) /\
  (IsPurchaseScript script = Ok true <->
   exists message hash, script = purchase_script message /\ len message < 255 /\
     unmarshal_purchase message = Some hash).
Proof.
  split.
  { destruct (IsPurchaseScript_cases script) as [[-> _] | [-> _]]; eauto. }
  split.
  - intros Ht. destruct (IsPurchaseScript_cases script) as [[_ [hash Hp]] | [Hf _]];
      [| congruence].
    apply ParsePurchaseScript_Ok in Hp as (b0 & b1 & b2 & message & -> & H0 & H1 & H2 & Hu).
    exists message, hash. pose proof (bz_range b1). split; [| split; [lia | done]].
    unfold purchase_script. rewrite <- H1, byte_of_Z_bz.
    rewrite <- (byte_of_Z_bz b0), <- (byte_of_Z_bz b2), H0, H2. done.
  - intros (message & hash & -> & Hlen & Hu).
    destruct (IsPurchaseScript_cases (purchase_script message)) as [[-> _] | [_ Hno]]; [done |].
    exfalso. apply (Hno hash), ParsePurchaseScript_Ok.
    exists x6a, (byte_of_Z (1 + len message)), x50, message.
    pose proof (len_nonneg message). repeat split; [| done].
    apply bz_byte_of_Z_small. lia.
Qed.

(** [readCompactSize] reads back every compact size below 2^32 and leaves the rest of the
    buffer, but an eight-byte size always reads as 0 and leaves its eight bytes in the buffer,
    because the branch never reads them. *)
Theorem readCompactSize_spec n rest :
  0 <= n < 2 ^ 32 ->
  readCompactSize (compact_size n ++ rest) = Ok (n, compact_size n, rest) /\
  readCompactSize (xff :: le_bytes 8 n ++ rest) =
    Ok (0, xff :: replicate 8 x00, le_bytes 8 n ++ rest).
Proof.
  intros Hn. split; [| done]. unfold compact_size.
  destruct (Z.ltb_spec n 253); [| destruct (Z.ltb_spec n (2 ^ 16))].
  - unfold readCompactSize.
    rewrite (buffer_read_app 1 [byte_of_Z n]) by done. cbn [rbind].
    take_byte (@nil byte). rewrite bz_byte_of_Z_small by lia.
    by replace (n <? 253) with true by lia.
  - unfold readCompactSize.
    change ((xfd :: le_bytes 2 n) ++ rest) with ([xfd] ++ (le_bytes 2 n ++ rest)).
    rewrite (buffer_read_app 1 [xfd]) by done. cbn [rbind].
    change (index [xfd] 0) with (Ok xfd). cbn [rbind].
    change (bz xfd <? 253) with false. change (bz xfd =? 253) with true. cbn iota.
    rewrite (buffer_read_app 2 (le_bytes 2 n)) by done. cbn [rbind].
    by rewrite le_read_bytes by lia.
  - unfold readCompactSize, readUint32, readBytes.
    change ((xfe :: le_bytes 4 n) ++ rest) with ([xfe] ++ (le_bytes 4 n ++ rest)).
    rewrite (buffer_read_app 1 [xfe]) by done. cbn [rbind].
    change (index [xfe] 0) with (Ok xfe). cbn [rbind].
    change (bz xfe <? 253) with false. change (bz xfe =? 253) with false.
    change (bz xfe =? 254) with true. cbn iota.
    rewrite (buffer_read_app 4 (le_bytes 4 n)) by done. cbn [rbind].
    by rewrite le_read_bytes by lia.
Qed.

Lemma readCompactSize_spec_witness :
  readCompactSize (compact_size 515 ++ [x07]) = Ok (515, [xfd; x03; x02], [x07]).
Proof. apply (readCompactSize_spec 515 [x07]). lia. Defined.
