(* ===== verification/Lbrycrd.v ===== *)
(** * The node: its records and the JSON-RPC client ([lbrycrd/reponse.go], [lbrycrd/client.go],
      [lbrycrd/request.go], [lbrycrd/blockchain.go])

    The records the node answers with, the decoding rules of the client, one RPC exchange as a
    function of what the transport answers, and the claim id of an outpoint.  [net/url],
    [net/http], [encoding/json], the decimal library and the hash functions are parameters. *)
From Stdlib Require Import Ascii Floats.SpecFloat.
From S2P Require Import Prelude Bytes.

(** ** 64-bit floats

    IEEE doubles as the Standard Library's executable specification floats. *)

Definition float64 : Type := spec_float.
Definition f64_zero : float64 := S754_zero false.
Definition f64_add : float64 -> float64 -> float64 := SFadd 53 1024.
Definition f64_sub : float64 -> float64 -> float64 := SFsub 53 1024.
Definition f64_mul : float64 -> float64 -> float64 := SFmul 53 1024.
Definition f64_eqb : float64 -> float64 -> bool := SFeqb.
Definition f64_ltb : float64 -> float64 -> bool := SFltb.

(** [float64(i)]: the nearest double. *)
Definition f64_of_Z (z : Z) : float64 := binary_normalize 53 1024 z 0 false.

(** Truncation towards zero, the integer part of a finite double. *)
Definition f64_trunc (f : float64) : Z :=
  match f with
  | S754_finite s m e =>
      let v := if 0 <=? e then Z.pos m * 2 ^ e else Z.pos m / 2 ^ (- e) in
      if s then - v else v
  | _ => 0
  end.

#[export] Instance float64_eq_dec : EqDecision float64.
Proof. intros x y. unfold Decision. repeat decide equality. Defined.

(** ** Records of the node ([reponse.go]) *)

(** [btcjson.ScriptPubKeyResult] and [btcjson.ScriptSig] *)
Record ScriptPubKeyResult := {
  spk_Asm : string;
  spk_Hex : string;
  spk_ReqSigs : Z;
  spk_Type : string;
  spk_Addresses : list string;
}.
Record ScriptSig := { sig_Asm : string; sig_Hex : string }.

Record Vin := {
  vin_Coinbase : string;
  vin_TxID : string;
  vin_Vout : Z;
  vin_ScriptSig : option ScriptSig;
  vin_Sequence : Z;
  vin_Witness : list string;
}.

Record Vout := {
  vout_Value : float64;
  vout_N : Z;
  vout_ScriptPubKey : ScriptPubKeyResult;
}.

Record TxRawResult := {
  tx_Txid : string;
  tx_Hash : string;
  tx_Version : Z;
  tx_Size : Z;
  tx_Vsize : Z;
  tx_Weight : Z;
  tx_LockTime : Z;
  tx_Vin : list Vin;
  tx_Vout : list Vout;
  tx_Hex : string;
  tx_BlockHash : string;
  tx_Confirmations : Z;
  tx_Time : Z;
  tx_Blocktime : Z;
}.

(** [GetBlockResponse] lists transaction ids, [GetBlockVerboseResponse] whole transactions; the
    other fields are the same. *)
Record BlockResponse (T : Type) := {
  blk_Hash : string;
  blk_Confirmations : Z;
  blk_StrippedSize : Z;
  blk_Size : Z;
  blk_Weight : Z;
  blk_Height : Z;
  blk_Version : Z;
  blk_VersionHex : string;
  blk_MerkleRoot : string;
  blk_NameClaimRoot : string;
  blk_Tx : list T;
  blk_Time : Z;
  blk_MedianTime : Z;
  blk_Nonce : Z;
  blk_Bits : string;
  blk_Difficulty : float64;
  blk_ChainWork : string;
  blk_NTx : Z;
  blk_PreviousBlockHash : string;
  blk_NextBlockHash : string;
}.
Arguments blk_Hash {T}. Arguments blk_Confirmations {T}. Arguments blk_StrippedSize {T}.
Arguments blk_Size {T}. Arguments blk_Weight {T}. Arguments blk_Height {T}.
Arguments blk_Version {T}. Arguments blk_VersionHex {T}. Arguments blk_MerkleRoot {T}.
Arguments blk_NameClaimRoot {T}. Arguments blk_Tx {T}. Arguments blk_Time {T}.
Arguments blk_MedianTime {T}. Arguments blk_Nonce {T}. Arguments blk_Bits {T}.
Arguments blk_Difficulty {T}. Arguments blk_ChainWork {T}. Arguments blk_NTx {T}.
Arguments blk_PreviousBlockHash {T}. Arguments blk_NextBlockHash {T}.

Definition GetBlockResponse : Type := BlockResponse string.
Definition GetBlockVerboseResponse : Type := BlockResponse TxRawResult.

(** [Support], as [getclaimsforname] lists it. *)
Record TrieSupport := {
  sup_Address : string;
  sup_TxID : string;
  sup_N : Z;
  sup_Height : Z;
  sup_ValidAtHeight : Z;
  sup_Amount : Z;
}.

(** [Claim], as [getclaimsforname] lists it. *)
Record TrieClaim := {
  tc_Name : string;
  tc_Value : string;
  tc_Address : string;
  tc_ClaimID : string;
  tc_TxID : string;
  tc_N : Z;
  tc_Height : Z;
  tc_ValidAtHeight : Z;
  tc_Amount : Z;
  tc_EffectiveAmount : Z;
  tc_PendingAmount : Z;
  tc_Supports : list TrieSupport;
  tc_Bid : Z;
  tc_Sequence : Z;
}.

Record ClaimsForNameResult := {
  cfn_NormalizedName : string;
  cfn_Claims : list TrieClaim;
  cfn_LastTakeOverHeight : Z;
  cfn_SupportsWithoutClaim : list TrieSupport;
}.

(** ** Decoding ([client.go]) *)

(** A JSON value as [encoding/json] leaves it in an [interface{}] with [UseNumber]. *)
Inductive json :=
| JNull
| JBool (b : bool)
| JNumber (text : string)
| JString (s : string)
| JArray (l : list json)
| JObject (fields : list (string * json)).

(** [strconv.ParseInt(s, 10, 64)], behind [json.Number.Int64] *)
Fixpoint parse_digits (acc : Z) (s : string) : option Z :=
  match s with
  | EmptyString => Some acc
  | String c s' =>
      let n := Z.of_N (Ascii.N_of_ascii c) - 48 in
      if (0 <=? n) && (n <=? 9) then parse_digits (10 * acc + n) s' else None
  end.

Definition ParseInt64 (s : string) : res Z :=
  let err := ErrMsg "strconv.ParseInt: parsing" in
  let in_range (z : Z) := (- 2 ^ 63 <=? z) && (z <? 2 ^ 63) in
  let digits (sign : Z) (ds : string) :=
    match ds with
    | EmptyString => Err err
    | _ => match parse_digits 0 ds with
           | Some z => if in_range (sign * z) then Ok (sign * z) else Err err
           | None => Err err
           end
    end in
  match s with
  | String "-"%char ds => digits (-1) ds
  | String "+"%char ds => digits 1 ds
  | _ => digits 1 s
  end.

(** What a decode hook hands to mapstructure. *)
Inductive decoded :=
| DJson (j : json)
| DUint64 (z : Z)
| DBytes (b : list byte)
| DDecimal (d : Z * Z).

Definition decodeInt (data : json) : res decoded :=
  match data with
  | JNumber n =>
      let? val := ParseInt64 n in
      if val <? 0 then Err (ErrMsg "must be unsigned int") else Ok (DUint64 val)
  | _ => Ok (DJson data)
  end.

Definition decodeBytes (data : json) : res decoded :=
  match data with
  | JString s => Ok (DBytes (String.list_byte_of_string s))
  | _ => Ok (DJson data)
  end.

(** shopspring/decimal: a decimal is an integer with a power of ten. *)
Class Decimals := {
  decimal_NewFromString : string -> res (Z * Z);
  decimal_NewFromFloat : float64 -> Z * Z;
  decimal_IntPart : Z * Z -> Z;
  ParseFloat64 : string -> res float64;
}.

(** The types [fixDecodeProto] looks up in [decodeMap]. *)
Inductive dest_type := TUint64 | TByteSlice | TDecimal | TOther.

Section Decode.
Context `{Decimals}.

Definition decodeFloat (data : json) : res decoded :=
  match data with
  | JNumber n => let? val := ParseFloat64 n in Ok (DDecimal (decimal_NewFromFloat val))
  | JString s => let? d := decimal_NewFromString s in Ok (DDecimal d)
  | _ => Ok (DJson data)
  end.

Definition decodeMap (dest : dest_type) : option (json -> res decoded) :=
  match dest with
  | TUint64 => Some decodeInt
  | TByteSlice => Some decodeBytes
  | TDecimal => Some decodeFloat
  | TOther => None
  end.

Definition fixDecodeProto (dest : dest_type) (data : json) : res decoded :=
  match decodeMap dest with
  | Some f => f data
  | None => Ok (DJson data)
  end.

Definition decodeNumber (data : json) : res (Z * Z) :=
  match data with
  | JNumber n => decimal_NewFromString n
  | JString s => decimal_NewFromString s
  | JNull => decimal_NewFromString "0"
  | _ => Err (ErrMsg "unexpected number type ")
  end.
End Decode.

(** ** One RPC exchange ([client.go]) *)

Definition rpcTransportDeadlineDivisor : Z := 2.
Definition Second : Z := 10 ^ 9.

(** Durations are nanoseconds. *)
Definition rpcTransportTimeout (timeout : Z) : Z :=
  if timeout <=? 0 then 0
  else if timeout <? Second then timeout
  else Z.quot timeout rpcTransportDeadlineDivisor.

(** [url.URL], the parts the client reads; the user part is absent or a name with an optional
    password. *)
Record URL := {
  url_Scheme : string;
  url_User : option (string * option string);
  url_Host : string;
  url_Path : string;
  url_RawQuery : string;
}.

Record rpcRequest := {
  rq_Jsonrpc : string;
  rq_Method : string;
  rq_Params : list string;
  rq_ID : Z;
}.

Record rpcResponse := {
  rp_Result : string;
  rp_Error : option (Z * string);
}.

(** [net/url], [net/http] and [encoding/json].  [http_post] is given the client's timeout, the
    address, the credentials and the body, and answers with the status and the body, which may
    itself fail to arrive. *)
Class Transport := {
  url_Parse : string -> res URL;
  url_String : URL -> string;
  json_Marshal : rpcRequest -> res string;
  http_post : Z -> string -> string * string -> string -> res (Z * res string);
  json_UnmarshalResponse : string -> option rpcResponse;
  json_Decode : string -> res json;
}.

Section Client.
Context `{Transport} (LBRYcrdURL : string) (DefaultClientTimeout : Z).

Definition rpcEndpoint : res (string * string * string) :=
  let? parsedURL := url_Parse LBRYcrdURL in
  match url_User parsedURL with
  | None => Err (ErrMsg "no userinfo")
  | Some (username, password) =>
      let scheme := url_Scheme parsedURL in
      let? scheme :=
        (if bool_decide (scheme = "rpc") then Ok "http"
         else if bool_decide (scheme = "http") || bool_decide (scheme = "https") then Ok scheme
         else Err (ErrMsg "unsupported lbrycrd URL scheme")) in
      if bool_decide (url_Host parsedURL = "") then Err (ErrMsg "missing lbrycrd host")
      else
        let endpoint :=
          {| url_Scheme := scheme; url_User := None; url_Host := url_Host parsedURL;
             url_Path := url_Path parsedURL; url_RawQuery := url_RawQuery parsedURL |} in
        Ok (url_String endpoint, username, default "" password)
  end.

(** The counter [rpcID] is the state: it is incremented once the endpoint is known. *)
Definition rawRequest (command : string) (params : list string) : M Z string :=
  if bool_decide (command = "") then mfail (ErrMsg "no method")
  else
    let* (endpoint, username, password) := mlift rpcEndpoint in
    let* _ := mmodify (fun rpcID => u64 (rpcID + 1)) in
    let* id := mget in
    let payload :=
      {| rq_Jsonrpc := "1.0"; rq_Method := command; rq_Params := params; rq_ID := id |} in
    let* body := mlift (json_Marshal payload) in
    let* (status, responseBody) :=
      mlift (http_post DefaultClientTimeout endpoint (username, password) body) in
    let* responseBody := mlift responseBody in
    if (status <? 200) || (300 <=? status) then mfail (ErrMsg "status code")
    else
      match json_UnmarshalResponse responseBody with
      | None => mfail (ErrMsg "status code")
      | Some rpcResp =>
          match rp_Error rpcResp with
          | Some (code, message) => mfail (ErrRPC code message)
          | None => mret (rp_Result rpcResp)
          end
      end.

(** The parameters come with the outcome of marshalling each of them. *)
Definition callNoDecode (command : string) (params : list (res string)) : M Z json :=
  let* encodedParams := mfold params (fun acc p => let* e := mlift p in mret (acc ++ [e])) [] in
  let* encodedRes := rawRequest command encodedParams in
  mlift (json_Decode encodedRes).

(** ** Requests ([request.go]) *)

(** [rawresponse.(string)] panics on any other JSON value. *)
Definition GetBlockHash_rpc (i : res string) : M Z string :=
  let* rawresponse := callNoDecode "getblockhash" [i] in
  match rawresponse with
  | JString value => mret value
  | _ => mpanic (ErrRuntime "interface conversion: interface {} is not string")
  end.

Definition GetBlockCount_rpc `{Decimals} : M Z Z :=
  let* rawresponse := callNoDecode "getblockcount" [] in
  let* value := mlift (decodeNumber rawresponse) in
  mret (u64 (decimal_IntPart value)).

Definition ClaimName_rpc (name hexValue amount : res string) : M Z string :=
  let* rawresponse := callNoDecode "claimname" [name; hexValue; amount] in
  match rawresponse with
  | JString value => mret value
  | _ => mfail (ErrMsg "response is not a string")
  end.
End Client.

(** ** Claim ids ([blockchain.go]) *)

Class Hashes := {
  sha256 : list byte -> list byte;
  ripemd160 : list byte -> list byte;
}.

Definition ClaimIDFromOutpoint `{Hashes} (txid : string) (nout : Z) : res string :=
  let? txidBytes := hex_decode txid in
  let txidBytes := ReverseBytes txidBytes in
  let noutBytes := be_bytes4 nout in
  Ok (hex_encode (ReverseBytes (ripemd160 (sha256 (txidBytes ++ noutBytes))))).
