(* ===== verification/TxOrder.v ===== *)
(** * The order of a block's transactions in the legacy pipeline
      ([optimizeOrderToProcess] of [daemon/processing/block.go])

    The function sorts the transactions of a block so that each comes after those it spends,
    taking the least id whenever there is a choice.  Go's random iteration over a map is the
    argument [range], any listing of the keys; pointers are options.
    [optimizeOrderToProcess_spec] says that the loop ends, that its order is the greedy
    topological one, and that the fall-back is taken for the blocks that have no order. *)
From S2P Require Import Prelude Lbrycrd.

Section Order.
Context (txMap : gmap string TxRawResult).

Definition graph : Type := gmap string (list string) * gmap string Z.

(** A map index: the zero value when the key is missing. *)
Definition degree (inDegree : gmap string Z) (txID : string) : Z := default 0 (inDegree !! txID).
Definition child_list (children : gmap string (list string)) (txID : string) : list string :=
  default [] (children !! txID).

(** The ids come from the keys of the map, so that there is always a transaction. *)
Definition vins_of (txID : string) : list Vin := from_option tx_Vin [] (txMap !! txID).

Definition count_vin (txID : string) (g : graph) (vin : Vin) : graph :=
  match txMap !! vin_TxID vin with
  | None => g
  | Some _ =>
      (<[vin_TxID vin := child_list g.1 (vin_TxID vin) ++ [txID]]> g.1,
       <[txID := degree g.2 txID + 1]> g.2)
  end.

Definition count_tx (g : graph) (txID : string) : graph :=
  fold_left (count_vin txID) (vins_of txID) g.

Definition build_graph (range txIDs : list string) : graph :=
  let inDegree := fold_left (fun m txID => <[txID := 0]> m) range ∅ in
  let '(children, inDegree) := fold_left count_tx txIDs (∅, inDegree) in
  (sort_strings <$> children, inDegree).

(** One turn of the inner loop. *)
Definition release_child (s : gmap string Z * list string) (childID : string)
    : gmap string Z * list string :=
  let d := degree s.1 childID - 1 in
  (<[childID := d]> s.1, if d =? 0 then sort_strings (s.2 ++ [childID]) else s.2).

Fixpoint order_loop (fuel : nat) (children : gmap string (list string))
    (inDegree : gmap string Z) (ready : list string) (orderedTx : list (option TxRawResult))
    : option (list (option TxRawResult)) :=
  match ready with
  | [] => Some orderedTx
  | txID :: ready =>
      match fuel with
      | O => None
      | S fuel =>
          let '(inDegree, ready) :=
            fold_left release_child (child_list children txID) (inDegree, ready) in
          order_loop fuel children inDegree ready (orderedTx ++ [txMap !! txID])
      end
  end.

(** A round takes an id out of [ready] and an id enters it once. *)
Definition optimizeOrderToProcess (range : list string)
    : option (list (option TxRawResult) * bool) :=
  let txIDs := sort_strings range in
  let '(children, inDegree) := build_graph range txIDs in
  let ready := List.filter (fun txID => degree inDegree txID =? 0) txIDs in
  match order_loop (size txMap) children inDegree ready [] with
  | None => None
  | Some orderedTx =>
      if negb (length orderedTx =? size txMap)%nat
      then Some (map (fun txID => txMap !! txID) txIDs, false)
      else Some (orderedTx, true)
  end.
End Order.

(** ** The graph *)

Section Proofs.
Context (txMap : gmap string TxRawResult).

(** The transactions of the block that [txID] spends, once per input. *)
Definition parents (txID : string) : list string :=
  List.filter (fun p => bool_decide (is_Some (txMap !! p))) (map vin_TxID (vins_of txMap txID)).

Definition same_id (x y : string) : bool := bool_decide (x = y).

Lemma same_id_refl x : same_id x x = true.
Proof. unfold same_id. by rewrite bool_decide_true. Qed.
Lemma same_id_ne x y : x <> y -> same_id x y = false.
Proof. intros H. unfold same_id. by rewrite bool_decide_false. Qed.
Lemma degree_insert m x d y :
  degree (<[x := d]> m) y = if same_id x y then d else degree m y.
Proof.
  unfold degree, same_id. case_bool_decide; subst; [by rewrite lookup_insert_eq | by rewrite lookup_insert_ne].
Qed.
Lemma child_list_insert m x l y :
  child_list (<[x := l]> m) y = if same_id x y then l else child_list m y.
Proof.
  unfold child_list, same_id.
  case_bool_decide; subst; [by rewrite lookup_insert_eq | by rewrite lookup_insert_ne].
Qed.

Lemma count_vins_spec t vins g t' x :
  let ps := List.filter (fun p => bool_decide (is_Some (txMap !! p))) (map vin_TxID vins) in
  let g' := fold_left (count_vin txMap t) vins g in
  degree g'.2 t' = degree g.2 t' + (if same_id t t' then Z.of_nat (length ps) else 0) /\
  count_if (same_id t') (child_list g'.1 x) =
    (count_if (same_id t') (child_list g.1 x) + if same_id t t' then count_if (same_id x) ps else 0)%nat.
Proof.
  revert g. induction vins as [| v vins IH]; intros g; cbn -[same_id count_if].
  { destruct (same_id t t'); cbn; split; lia. }
  destruct (IH (count_vin txMap t g v)) as [Hd Hc]. cbn zeta in Hd, Hc. rewrite Hd, Hc.
  unfold count_vin. destruct (txMap !! vin_TxID v) as [tx |] eqn:E.
  - rewrite (bool_decide_true (is_Some (Some tx))) by eauto.
    cbn -[same_id count_if]. rewrite degree_insert, child_list_insert, count_if_cons.
    unfold same_id in *. repeat case_bool_decide; subst; try congruence;
      rewrite ?count_if_app, ?count_if_cons; cbn; rewrite ?bool_decide_true by done;
      rewrite ?bool_decide_false by done; cbn; split; lia.
  - rewrite bool_decide_false by (intros [? ?]; done). done.
Qed.

Lemma count_txs_spec ids g t x :
  NoDup ids ->
  let g' := fold_left (count_tx txMap) ids g in
  degree g'.2 t = degree g.2 t + (if bool_decide (t ∈ ids) then Z.of_nat (length (parents t)) else 0) /\
  count_if (same_id t) (child_list g'.1 x) =
    (count_if (same_id t) (child_list g.1 x) +
     if bool_decide (t ∈ ids) then count_if (same_id x) (parents t) else 0)%nat.
Proof.
  intros Hnd. revert g. induction Hnd as [| y ids Hy Hnd IH]; intros g; cbn -[same_id count_if].
  { rewrite bool_decide_false by set_solver. split; lia. }
  destruct (IH (count_tx txMap g y)) as [Hd Hc]. cbn zeta in Hd, Hc. rewrite Hd, Hc.
  destruct (count_vins_spec y (vins_of txMap y) g t x) as [Hd' Hc'].
  cbn zeta in Hd', Hc'. unfold count_tx. rewrite Hd', Hc'. fold (parents y).
  destruct (decide (y = t)) as [-> | Hne].
  - rewrite same_id_refl, (bool_decide_false (t ∈ ids)) by done.
    rewrite bool_decide_true by (by left). split; lia.
  - rewrite same_id_ne by done.
    rewrite (bool_decide_ext (t ∈ y :: ids) (t ∈ ids)) by set_solver. split; lia.
Qed.

Lemma init_degrees (range : list string) (m : gmap string Z) t :
  fold_left (fun m txID => <[txID := 0]> m) range m !! t =
  if bool_decide (t ∈ range) then Some 0 else m !! t.
Proof.
  revert m. induction range as [| x range IH]; intros m; cbn; [done |].
  rewrite IH. destruct (decide (t = x)) as [-> | Hne].
  - rewrite (bool_decide_true (x ∈ x :: range)) by (by left).
    rewrite lookup_insert_eq. by case_bool_decide.
  - rewrite lookup_insert_ne by done.
    by rewrite (bool_decide_ext (t ∈ x :: range) (t ∈ range)) by set_solver.
Qed.

(** What the loop starts from. *)
Lemma build_graph_spec range ids :
  NoDup ids ->
  let '(children, inDegree) := build_graph txMap range ids in
  (forall t, t ∈ ids -> degree inDegree t = Z.of_nat (length (parents t))) /\
  (forall t x, count_if (same_id t) (child_list children x) =
     if bool_decide (t ∈ ids) then count_if (same_id x) (parents t) else 0%nat).
Proof.
  intros Hnd. unfold build_graph.
  destruct (fold_left (count_tx txMap) ids _) as [children inDegree] eqn:E.
  pose proof (fun t x => count_txs_spec ids
    (∅, fold_left (fun m txID => <[txID := 0]> m) range ∅) t x Hnd) as H.
  cbn zeta in H. rewrite E in H. cbn [fst snd] in H. split.
  - intros t Ht. destruct (H t t) as [Hd _]. rewrite Hd, bool_decide_true by done.
    unfold degree. rewrite init_degrees, lookup_empty. destruct (bool_decide (t ∈ range)); cbn; lia.
  - intros t x. destruct (H t x) as [_ Hc].
    unfold child_list in *. rewrite lookup_empty in Hc. cbn in Hc. rewrite <- Hc, lookup_fmap.
    destruct (children !! x) as [l |]; [| done]. apply (count_if_perm _ (sort_strings l) l), sort_strings_perm.
Qed.

(** ** The loops *)

(** The spent transactions of [t] that are not in the order yet. *)
Definition pending (out : list string) (t : string) : nat :=
  count_if (fun p => negb (bool_decide (p ∈ out))) (parents t).

Lemma pending_zero out t : pending out t = 0%nat <-> parents t ⊆ out.
Proof.
  unfold pending. rewrite count_if_zero. split.
  - intros H p Hp. apply list_elem_of_In, H in Hp. by case_bool_decide.
  - intros H p Hp%list_elem_of_In%H. by rewrite bool_decide_true.
Qed.
Lemma pending_snoc out x t :
  x ∉ out -> pending out t = (pending (out ++ [x]) t + count_if (same_id x) (parents t))%nat.
Proof.
  intros Hx. unfold pending. induction (parents t) as [| p ps IH]; [done |].
  rewrite !count_if_cons, IH. unfold same_id. rewrite (bool_decide_ext (p ∈ out ++ [x]) (p ∈ out \/ x = p)) by set_solver.
  repeat case_bool_decide; cbn; subst; try lia; tauto.
Qed.

Section Loops.
Context (ids : list string) (children : gmap string (list string)).
Hypothesis ids_nodup : NoDup ids.
Hypothesis children_count : forall t x,
  count_if (same_id t) (child_list children x) =
  if bool_decide (t ∈ ids) then count_if (same_id x) (parents t) else 0%nat.

(** Between two decrements: [out] is the order so far, [todo] the children still to release,
    and exactly the ids of degree 0 are in the order or ready, the least one first. *)
Record loop_ok (todo out : list string) (inDegree : gmap string Z) (ready : list string) : Prop := {
  loop_degree : forall t, t ∈ ids ->
    degree inDegree t = Z.of_nat (pending out t + count_if (same_id t) todo);
  loop_nodup : NoDup (out ++ ready);
  loop_ids : out ++ ready ⊆ ids;
  loop_sorted : strings_sorted ready;
  loop_zero : forall t, t ∈ ids -> (t ∈ out ++ ready <-> degree inDegree t = 0);
}.

Lemma release_child_ok todo out inDegree ready c :
  c ∈ ids -> loop_ok (c :: todo) out inDegree ready ->
  loop_ok todo out (release_child (inDegree, ready) c).1 (release_child (inDegree, ready) c).2.
Proof.
  intros Hc [Hd Hnd Hi Hs Hz]. unfold release_child. cbn [fst snd].
  pose proof (Hd c Hc) as Hdc. rewrite count_if_cons, same_id_refl in Hdc.
  assert (Hnew : c ∉ out ++ ready) by (rewrite Hz by done; lia).
  assert (Hdeg : forall t, t ∈ ids -> degree (<[c:=degree inDegree c - 1]> inDegree) t =
    Z.of_nat (pending out t + count_if (same_id t) todo)).
  { intros t Ht. rewrite degree_insert. destruct (decide (c = t)) as [-> | Hne].
    - rewrite same_id_refl. lia.
    - rewrite same_id_ne, Hd, count_if_cons, same_id_ne by done. done. }
  assert (Hother : forall t, t <> c -> degree (<[c:=degree inDegree c - 1]> inDegree) t = degree inDegree t).
  { intros t Ht. rewrite degree_insert. by rewrite same_id_ne. }
  destruct (Z.eqb_spec (degree inDegree c - 1) 0) as [E0 | E0].
  - assert (Hp : Permutation (out ++ sort_strings (ready ++ [c])) (c :: out ++ ready)).
    { rewrite sort_strings_perm, app_assoc. by rewrite Permutation_app_comm. }
    split; [done | | | apply sort_strings_sorted |].
    + rewrite Hp. by constructor.
    + intros t. rewrite Hp. intros [-> | Ht]%elem_of_cons; auto.
    + intros t Ht. rewrite Hp, elem_of_cons. destruct (decide (t = c)) as [-> | Hne].
      * rewrite degree_insert, same_id_refl. tauto.
      * rewrite Hother, <- Hz by done. tauto.
  - split; [done.. |]. intros t Ht. destruct (decide (t = c)) as [-> | Hne].
    + rewrite degree_insert, same_id_refl. tauto.
    + rewrite Hother by done. auto.
Qed.

Lemma release_children_ok todo out inDegree ready :
  todo ⊆ ids -> loop_ok todo out inDegree ready ->
  let s := fold_left release_child todo (inDegree, ready) in loop_ok [] out s.1 s.2.
Proof.
  revert inDegree ready. induction todo as [| c todo IH]; intros inDegree ready Hin Hok; [done |].
  cbn. apply release_child_ok in Hok; [| set_solver].
  destruct (release_child (inDegree, ready) c) as [inDegree' ready'].
  apply IH; [set_solver | done].
Qed.

Lemma child_in_ids x : child_list children x ⊆ ids.
Proof.
  intros c Hc%list_elem_of_In. pose proof (children_count c x) as H. case_bool_decide; [done |].
  apply (count_if_zero _ (child_list children x)) with (x := c) in H; [| done].
  by rewrite same_id_refl in H.
Qed.

(** Taking the first ready id. *)
Lemma take_ready_ok out inDegree x ready :
  loop_ok [] out inDegree (x :: ready) ->
  loop_ok (child_list children x) (out ++ [x]) inDegree ready /\
  parents x ⊆ out /\
  forall y, y ∈ ids -> y ∉ out -> parents y ⊆ out -> String.leb x y = true.
Proof.
  intros [Hd Hnd Hi Hs Hz].
  assert (Hx : x ∈ ids) by (apply Hi; set_solver).
  assert (Hxo : x ∉ out) by (apply NoDup_app in Hnd as (_ & H & _); set_solver).
  assert (Hzero : forall t, t ∈ ids -> degree inDegree t = 0 <-> parents t ⊆ out).
  { intros t Ht. rewrite <- pending_zero, Hd by done. unfold count_if. cbn. lia. }
  split; [split | split].
  - intros t Ht. rewrite Hd, (pending_snoc out x), children_count, bool_decide_true by done.
    unfold count_if at 2. cbn. lia.
  - by rewrite <- app_assoc.
  - by rewrite <- app_assoc.
  - by apply StronglySorted_inv in Hs as [? _].
  - intros t Ht. rewrite <- app_assoc. by apply Hz.
  - apply Hzero, Hz; set_solver.
  - intros y Hy Hyo Hp. apply Hzero, Hz in Hp; [| done..].
    apply elem_of_app in Hp as [? | [-> | Hp]%elem_of_cons]; [done | |].
    { by destruct (String.leb_total x x). }
    apply StronglySorted_inv in Hs as [_ Hs]. rewrite Forall_forall in Hs. auto.
Qed.

(** Each id comes after those it spends, and is the least that could come where it does. *)
Definition greedy_in (out : list string) : Prop :=
  forall pre x post, out = pre ++ x :: post ->
    parents x ⊆ pre /\
    forall y, y ∈ ids -> y ∉ pre -> parents y ⊆ pre -> String.leb x y = true.

Lemma greedy_snoc out x :
  greedy_in out -> parents x ⊆ out ->
  (forall y, y ∈ ids -> y ∉ out -> parents y ⊆ out -> String.leb x y = true) ->
  greedy_in (out ++ [x]).
Proof.
  intros Hg Hp Hl pre y post Heq.
  destruct post as [| z post _] using rev_ind.
  - apply app_inj_tail in Heq as [-> ->]. by split.
  - change (y :: post ++ [z]) with ((y :: post) ++ [z]) in Heq.
    rewrite app_assoc in Heq. apply app_inj_tail in Heq as [-> _]. by eapply Hg.
Qed.

Lemma order_loop_spec fuel out inDegree ready :
  loop_ok [] out inDegree ready -> greedy_in out -> (length ids <= length out + fuel)%nat ->
  exists out', order_loop txMap fuel children inDegree ready (map (fun id => txMap !! id) out) =
      Some (map (fun id => txMap !! id) out') /\
    NoDup out' /\ out' ⊆ ids /\ greedy_in out' /\
    forall t, t ∈ ids -> parents t ⊆ out' -> t ∈ out'.
Proof.
  revert out inDegree ready.
  induction fuel as [| fuel IH]; intros out inDegree [| x ready] Hok Hg Hf; cbn.
  2, 4: shelve.
  1, 2: destruct Hok as [Hd Hnd Hi _ Hz]; rewrite app_nil_r in *; exists out;
    split; [done | split; [done | split; [done | split; [done |]]]]; intros t Ht Hp;
    apply Hz; [done |]; rewrite Hd by done; apply pending_zero in Hp; rewrite Hp; done.
  Unshelve.
  - exfalso. destruct Hok as [_ Hnd Hi _ _].
    apply NoDup_submseteq, submseteq_length in Hi; [| done].
    rewrite length_app in Hi. cbn in Hi. lia.
  - apply take_ready_ok in Hok as (Hok & Hp & Hl).
    apply release_children_ok in Hok; [| apply child_in_ids]. cbn zeta in Hok.
    destruct (fold_left release_child _ _) as [inDegree' ready'].
    destruct (IH (out ++ [x]) inDegree' ready') as (out' & E & H); [done | by apply greedy_snoc | |].
    { rewrite length_app. cbn. lia. }
    exists out'. by rewrite map_app in E.
Qed.
End Loops.

(** ** Orders of the whole block *)

(** [l] lists each transaction after those it spends. *)
Definition parents_first (l : list string) : Prop :=
  forall pre x post, l = pre ++ x :: post -> parents x ⊆ pre.

(** Transactions that each wait for another of them. *)
Definition stuck (l : list string) : Prop :=
  exists t, t ∈ l /\ forall t, t ∈ l -> exists p, p ∈ parents t /\ p ∈ l.

Lemma stuck_no_order l s : s ⊆ l -> stuck s -> ~ parents_first l.
Proof.
  intros Hs (t & Ht & Hst) Hl.
  enough (Hno : forall pre post x, l = pre ++ post -> x ∈ pre -> x ∉ s).
  { eapply (Hno l [] t); [by rewrite app_nil_r | by apply Hs | done]. }
  induction pre as [| y pre IH] using rev_ind; intros post x E Hx Hxs; [by apply elem_of_nil in Hx |].
  rewrite <- app_assoc in E. apply elem_of_app in Hx as [Hx | ->%list_elem_of_singleton].
  - by eapply (IH ([y] ++ post)).
  - destruct (Hst y Hxs) as (p & Hp & Hps). apply (Hl pre y post E) in Hp.
    by eapply (IH ([y] ++ post)).
Qed.

Definition greedy (l : list string) : Prop :=
  forall pre x post, l = pre ++ x :: post ->
    parents x ⊆ pre /\ forall y, y ∈ post -> parents y ⊆ pre -> String.leb x y = true.

Lemma greedy_in_all ids l : NoDup l -> l ⊆ ids -> greedy_in ids l -> greedy l.
Proof.
  intros Hnd Hl Hg pre x post E. destruct (Hg pre x post E) as [Hp Hm]. split; [done |].
  intros y Hy Hyp. apply Hm; [| | done].
  - apply Hl. set_solver.
  - intros Hpre. subst l. apply NoDup_app in Hnd as (_ & H & _). set_solver.
Qed.

Lemma build_graph_range range range' ids :
  Permutation range range' -> build_graph txMap range ids = build_graph txMap range' ids.
Proof.
  intros Hp. unfold build_graph.
  assert (fold_left (fun m txID => <[txID := 0]> m) range ∅ =
          fold_left (fun m txID => <[txID := 0]> m) range' (∅ : gmap string Z)) as ->; [| done].
  apply map_eq. intros t. rewrite !init_degrees.
  by rewrite (bool_decide_ext (t ∈ range) (t ∈ range')) by (by rewrite Hp).
Qed.
Lemma optimizeOrderToProcess_range range range' :
  Permutation range range' ->
  optimizeOrderToProcess txMap range = optimizeOrderToProcess txMap range'.
Proof.
  intros Hp. unfold optimizeOrderToProcess.
  by rewrite (sort_strings_unique range range'), (build_graph_range range range') by done.
Qed.

(** The run on a listing of the keys. *)
Lemma optimizeOrderToProcess_run range :
  Permutation range (map_to_list txMap).*1 ->
  exists out, NoDup out /\ out ⊆ range /\ greedy_in range out /\
    (forall t, t ∈ range -> parents t ⊆ out -> t ∈ out) /\
    optimizeOrderToProcess txMap range =
      Some (if negb (length out =? length range)%nat
            then (map (fun id => txMap !! id) (sort_strings range), false)
            else (map (fun id => txMap !! id) out, true)).
Proof.
  intros Hp. set (ids := sort_strings range).
  assert (Hids : Permutation ids range) by apply sort_strings_perm.
  assert (Hnd : NoDup ids) by (rewrite Hids, Hp; apply NoDup_fst_map_to_list).
  assert (Hsize : size txMap = length range).
  { by rewrite Hp, length_fmap, length_map_to_list. }
  pose proof (build_graph_spec range ids Hnd) as Hg. unfold optimizeOrderToProcess. fold ids.
  destruct (build_graph txMap range ids) as [children inDegree]. destruct Hg as [Hd Hc].
  set (ready := List.filter _ ids).
  assert (Hready : forall t, t ∈ ready <-> t ∈ ids /\ degree inDegree t = 0).
  { intros t. rewrite !list_elem_of_In. unfold ready. rewrite filter_In, Z.eqb_eq. done. }
  destruct (order_loop_spec ids children Hnd Hc (size txMap) [] inDegree ready)
    as (out & E & Hno & Hin & Hgr & Hst).
  { split.
    - intros t Ht. rewrite Hd by done. unfold pending, count_if at 2. cbn.
      assert (H : forall l, count_if (fun p : string => negb (bool_decide (p ∈ []))) l = length l).
      { intros l. induction l as [| p l IH]; [done |]. rewrite count_if_cons, IH.
        by rewrite bool_decide_false by set_solver. }
      rewrite H. lia.
    - cbn. by apply NoDup_ListNoDup, List.NoDup_filter, NoDup_ListNoDup.
    - intros t Ht. by apply Hready in Ht as [? _].
    - unfold ready. pose proof (sort_strings_sorted range) as Hs. fold ids in Hs. clear - Hs.
      induction Hs as [| x l Hs IH Hx]; cbn; [constructor |].
      destruct (_ =? 0); [| done]. constructor; [done |]. rewrite Forall_forall in *.
      intros y Hy%list_elem_of_In. apply filter_In in Hy as [Hy%list_elem_of_In _]. auto.
    - intros t Ht. cbn. rewrite Hready. tauto. }
  { intros pre x post Hnil. by destruct pre. }
  { cbn. rewrite Hids. lia. }
  change (map (fun id => txMap !! id) []) with (@nil (option TxRawResult)) in E.
  exists out. split; [done |]. rewrite E, length_map, Hsize.
  assert (Hsub : forall t, t ∈ ids <-> t ∈ range) by (intros t; by rewrite Hids).
  split; [intros t Ht; by apply Hsub, Hin |]. split.
  - intros pre x post Heq. destruct (Hgr pre x post Heq) as [? Hl]. split; [done |].
    intros y Hy. by apply Hl, Hsub.
  - split; [intros t Ht; by apply Hst, Hsub |]. by destruct (negb _).
Qed.

Lemma parents_keys t : parents t ⊆ (map_to_list txMap).*1.
Proof.
  intros p Hp%list_elem_of_In. unfold parents in Hp. apply filter_In in Hp as [_ Hp].
  case_bool_decide as Hs; [| done]. destruct Hs as [tx Htx].
  apply list_elem_of_fmap. exists (p, tx). split; [done |]. by apply elem_of_map_to_list.
Qed.

(** What a finished loop left out is stuck. *)
Lemma left_out_stuck range out :
  NoDup range -> NoDup out -> out ⊆ range -> length out <> length range ->
  (forall t, t ∈ range -> parents t ⊆ out -> t ∈ out) -> (forall t, parents t ⊆ range) ->
  exists s, s ⊆ range /\ stuck s.
Proof.
  intros Hndr Hndo Hin Hlen Hst Hk. exists (filter (fun t => t ∉ out) range).
  split; [intros t Ht; by apply list_elem_of_filter in Ht as [_ ?] |].
  destruct (decide (Exists (fun t => t ∉ out) range)) as [Hex | Hno].
  - apply Exists_exists in Hex as (t & Ht & Hto).
    exists t. split; [by apply list_elem_of_filter |].
    intros u [Huo Hu]%list_elem_of_filter.
    destruct (decide (Exists (fun p => p ∉ out) (parents u))) as [Hp | Hp].
    + apply Exists_exists in Hp as (p & Hp & Hpo).
      exists p. split; [done |]. apply list_elem_of_filter. split; [done | by apply (Hk u)].
    + exfalso. apply Huo, Hst; [done |]. intros p Hpu. apply dec_stable. intros Hpo.
      apply Hp, Exists_exists. eauto.
  - exfalso. apply Hlen, Nat.le_antisymm.
    + by apply submseteq_length, NoDup_submseteq.
    + apply submseteq_length, NoDup_submseteq; [done |]. intros t Ht. apply dec_stable.
      intros Hto. apply Hno, Exists_exists. eauto.
Qed.

(** C32: [optimizeOrderToProcess] always returns, with the same result for every order in which
    Go may range over the map, and lists every transaction of the block once.  It reports
    success exactly for the blocks whose transactions can be ordered after those they spend;
    its order is then such an order, with the least id wherever several could come next.
    Otherwise the transactions come sorted by id and some of them each spend another. *)
Theorem optimizeOrderToProcess_spec range :
  Permutation range (map_to_list txMap).*1 ->
  exists ids ok,
    (forall range', Permutation range range' ->
       optimizeOrderToProcess txMap range' = Some (map (fun id => txMap !! id) ids, ok)) /\
    Permutation ids range /\
    (ok = true <-> exists l, Permutation l range /\ parents_first l) /\
    (ok = true -> greedy ids) /\
    (ok = false -> strings_sorted ids /\ exists s, s ⊆ range /\ stuck s).
Proof.
  intros Hp. destruct (optimizeOrderToProcess_run range Hp) as (out & Hnd & Hin & Hgr & Hst & E).
  assert (Hr : forall range', Permutation range range' ->
    optimizeOrderToProcess txMap range' = optimizeOrderToProcess txMap range).
  { intros range' H. by rewrite <- (optimizeOrderToProcess_range range range' H). }
  destruct (Nat.eqb_spec (length out) (length range)) as [El | El]; cbn in E.
  - exists out, true.
    assert (Hperm : Permutation out range).
    { apply submseteq_length_Permutation; [by apply NoDup_submseteq | lia]. }
    assert (Hgreedy : greedy out) by (by eapply greedy_in_all).
    split; [intros range' H; by rewrite Hr | split; [done | split; [| done]]].
    split; [intros _ | done]. exists out. split; [done |]. intros pre x post Heq. by eapply Hgreedy.
  - exists (sort_strings range), false.
    split; [intros range' H; by rewrite Hr | split; [apply sort_strings_perm |]].
    destruct (left_out_stuck range out) as (s & Hs & Hst'); [by rewrite Hp; apply NoDup_fst_map_to_list | done..| |].
    { intros t p Hpt. rewrite Hp. by apply (parents_keys t). }
    split; [| split; [done | intros _; split; [apply sort_strings_sorted | by exists s]]].
    split; [done |]. intros (l & Hl & Hpf). exfalso. eapply (stuck_no_order l s); [| done..].
    intros t Ht. rewrite Hl. auto.
Qed.
End Proofs.

(** ** The blocks of the program's tests, and a witness *)

Definition order_tx (txID : string) (spends : list string) : TxRawResult := {|
  tx_Txid := txID; tx_Hash := txID; tx_Version := 1; tx_Size := 0; tx_Vsize := 0;
  tx_Weight := 0; tx_LockTime := 0;
  tx_Vin := map (fun p => {| vin_Coinbase := ""; vin_TxID := p; vin_Vout := 0;
    vin_ScriptSig := None; vin_Sequence := 0; vin_Witness := [] |}) spends;
  tx_Vout := []; tx_Hex := ""; tx_BlockHash := ""; tx_Confirmations := 0; tx_Time := 0;
  tx_Blocktime := 0 |}.

Definition family : gmap string TxRawResult :=
  list_to_map [("grandchild", order_tx "grandchild" ["child"; "child"]);
    ("child", order_tx "child" ["parent"; "elsewhere"]); ("parent", order_tx "parent" []);
    ("aunt", order_tx "aunt" [])].

Example order_of_family :
  optimizeOrderToProcess family ["grandchild"; "child"; "parent"; "aunt"] =
    Some (map Some [order_tx "aunt" []; order_tx "parent" [];
      order_tx "child" ["parent"; "elsewhere"]; order_tx "grandchild" ["child"; "child"]], true).
Proof. vm_compute. reflexivity. Qed.

Example order_of_cycle :
  optimizeOrderToProcess
    (<["b" := order_tx "b" ["a"]]> {["a" := order_tx "a" ["b"]]}) ["b"; "a"] =
    Some (map Some [order_tx "a" ["b"]; order_tx "b" ["a"]], false).
Proof. vm_compute. reflexivity. Qed.

Lemma optimizeOrderToProcess_spec_witness :
  exists ids, optimizeOrderToProcess family (map_to_list family).*1 =
      Some (map (fun id => family !! id) ids, true) /\ greedy family ids.
Proof.
  destruct (optimizeOrderToProcess_spec family (map_to_list family).*1)
    as (ids & ok & Hr & _ & _ & Hg & _); [reflexivity |].
  exists ids. specialize (Hr _ (Permutation_refl _)).
  destruct ok; [split; [exact Hr | by apply Hg] | vm_compute in Hr; discriminate].
Defined.
