(* ===== verification/Scheduler.v ===== *)
(** * Dependency-aware transaction processing ([daemon/processing/block_scheduler.go],
      [daemon/processing/errors.go])

    The transactions of a block form a graph: an edge says that a child must wait for its
    parent.  The graph is built by state passing over [blockTxGraph]; the coordinator's loop is
    an executable step on the coordinator's state, driven by a choice that says what the other
    goroutines and the stopper do in that round; [sched_step] is the relation of all such
    rounds.  [SchedulerProofs] holds the invariants and theorems. *)
From stdpp Require Import pretty.
From S2P Require Import Prelude Bytes Script Lbrycrd.

(** ** Errors ([errors.go]) *)

Definition MissingSourceOutputError_Error (prevoutTxID txID : string) (prevoutN blockHeight : Z)
  : string :=
  if negb (bool_decide (txID = "")) || (0 <? blockHeight) then
    "missing source output for " +:+ prevoutTxID +:+ ":" +:+ pretty prevoutN +:+
    " while processing tx " +:+ txID +:+ " in block " +:+ pretty blockHeight
  else "Missing source output for " +:+ prevoutTxID +:+ ":" +:+ pretty prevoutN.

(** [err.Error()] *)
Fixpoint Error (e : error) : string :=
  match e with
  | ErrMsg msg => msg
  | ErrPrefix prefix err => prefix +:+ ": " +:+ Error err
  | ErrNoRows => "sql: no rows in result set"
  | ErrMySQL number => "Error " +:+ pretty number
  | ErrRPC code message => pretty code +:+ ": " +:+ message
  | ErrMissingSourceOutput p t n h => MissingSourceOutputError_Error p t n h
  | ErrNotClaimScript => "Script is not a claim script!"
  | ErrDependencyGraphStalled msg => "dependency graph stalled: " +:+ msg
  | ErrSchedulerInvariant msg => "scheduler invariant violation: " +:+ msg
  | ErrManualShutDown => "Daemon stopped manually!"
  | ErrRuntime msg => "runtime error: " +:+ msg
  end.

Definition enrichMissingSourceOutput (err : error) (txID : string) (blockHeight : Z) : error :=
  match unwrap err with
  | ErrMissingSourceOutput prevoutTxID _ prevoutN _ =>
      ErrMissingSourceOutput prevoutTxID txID prevoutN blockHeight
  | _ => err
  end.

(** The prevout transaction and index of a missing source output. *)
Definition missingSourceOutputFromError (err : error) : option (string * Z) :=
  match unwrap err with
  | ErrMissingSourceOutput prevoutTxID _ prevoutN _ => Some (prevoutTxID, prevoutN)
  | _ => None
  end.

Definition mysqlErrorLockWaitTimeout : Z := 1205.
Definition mysqlErrorDeadlock : Z := 1213.

Definition isRetryableStorageError (err : error) : bool :=
  match unwrap err with
  | ErrMySQL number => (number =? mysqlErrorLockWaitTimeout) || (number =? mysqlErrorDeadlock)
  | _ => false
  end.

Definition isRetryableScheduledTxError (err : error) : bool := isRetryableStorageError err.

(** ** The graph *)

Definition dependencyReasonUTXO : string := "utxo".
Definition dependencyReasonClaim : string := "claim".

Record blockTxDependency := { parent : string; child : string; reason : string }.

#[export] Instance blockTxDependency_eq_dec : EqDecision blockTxDependency.
Proof. solve_decision. Defined.
#[export] Instance blockTxDependency_countable : Countable blockTxDependency.
Proof.
  by refine (inj_countable' (fun e => (parent e, child e, reason e))
    (fun t => {| parent := t.1.1; child := t.1.2; reason := t.2 |}) _); intros [].
Defined.

Record blockTxGraph := mkGraph {
  txByID : gmap string TxRawResult;
  children : gmap string (list blockTxDependency);
  unresolved : gmap string Z;
  completed : gset string;
  attempts : gmap string Z;
  edgeSet : gset blockTxDependency;
  order : list string;
  ready : list string;
}.

(** [graph.children\[p\]] and [graph.unresolved\[t\]]: a missing key reads as the zero value. *)
Definition children_of (g : blockTxGraph) (p : string) : list blockTxDependency :=
  default [] (children g !! p).
Definition unresolved_of (g : blockTxGraph) (t : string) : Z := default 0 (unresolved g !! t).
Definition attempts_of (g : blockTxGraph) (t : string) : Z := default 0 (attempts g !! t).

Definition set_children f g :=
  mkGraph (txByID g) (f (children g)) (unresolved g) (completed g) (attempts g) (edgeSet g)
    (order g) (ready g).
Definition set_unresolved f g :=
  mkGraph (txByID g) (children g) (f (unresolved g)) (completed g) (attempts g) (edgeSet g)
    (order g) (ready g).
Definition set_completed f g :=
  mkGraph (txByID g) (children g) (unresolved g) (f (completed g)) (attempts g) (edgeSet g)
    (order g) (ready g).
Definition set_attempts f g :=
  mkGraph (txByID g) (children g) (unresolved g) (completed g) (f (attempts g)) (edgeSet g)
    (order g) (ready g).
Definition set_edgeSet f g :=
  mkGraph (txByID g) (children g) (unresolved g) (completed g) (attempts g) (f (edgeSet g))
    (order g) (ready g).
Definition set_ready f g :=
  mkGraph (txByID g) (children g) (unresolved g) (completed g) (attempts g) (edgeSet g)
    (order g) (f (ready g)).

Record claimGraphEvent := { claimID : string; writer : bool; reader : bool }.

(** The slice may hold nil pointers, which are skipped. *)
Definition newBlockTxGraph (orderedTxs : list (option TxRawResult))
  (txs : gmap string TxRawResult) : blockTxGraph :=
  foldl (fun g tx =>
    match tx with
    | None => g
    | Some tx =>
        mkGraph (txByID g) (children g) (<[tx_Txid tx := 0]> (unresolved g)) (completed g)
          (attempts g) (edgeSet g) (order g ++ [tx_Txid tx]) (ready g)
    end) (mkGraph txs ∅ ∅ ∅ ∅ ∅ [] []) orderedTxs.

Definition addDependency (parent child reason : string) (graph : blockTxGraph) : blockTxGraph :=
  if bool_decide (parent = "") || bool_decide (child = "") || bool_decide (parent = child)
  then graph
  else
    let edge := {| parent := parent; child := child; reason := reason |} in
    if bool_decide (edge ∈ edgeSet graph) then graph
    else
      let graph := set_edgeSet (fun s => {[edge]} ∪ s) graph in
      let graph := set_children <[parent := children_of graph parent ++ [edge]]> graph in
      set_unresolved <[child := unresolved_of graph child + 1]> graph.

(** [tx := graph.txByID\[txID\]] followed by a field access: a nil dereference when absent. *)
Definition tx_of (g : blockTxGraph) (txID : string) : res TxRawResult :=
  match txByID g !! txID with
  | Some tx => Ok tx
  | None => Panic (ErrRuntime "invalid memory address or nil pointer dereference")
  end.

Definition addUTXODependencies : M blockTxGraph unit :=
  let* g := mget in
  mfor (order g) (fun txID =>
    let* tx := mlift (tx_of g txID) in
    mfor (tx_Vin tx) (fun vin =>
      mwhen (bool_decide (is_Some (txByID g !! vin_TxID vin)))
        (mmodify (addDependency (vin_TxID vin) txID dependencyReasonUTXO)))).

Section ClaimEvents.
Context `{Hashes, PurchaseCodec}.

(** The body of [claimGraphEventsForVout] before its deferred [recover]. *)
Definition claimGraphEventsForVout_body (tx : TxRawResult) (vout : Vout)
  : res (list claimGraphEvent) :=
  match hex_decode (spk_Hex (vout_ScriptPubKey vout)) with
  | Ok script =>
      if len script =? 0 then Ok []
      else if IsClaimNameScript script then
        match ParseClaimNameScript script with
        | Ok _ =>
            match ClaimIDFromOutpoint (tx_Txid tx) (vout_N vout) with
            | Ok claimID => Ok [{| claimID := claimID; writer := true; reader := false |}]
            | Err _ => Ok []
            | Panic e => Panic e
            end
        | Err _ => Ok []
        | Panic e => Panic e
        end
      else if IsClaimUpdateScript script then
        match ParseClaimUpdateScript script with
        | Ok (_, claimID, _, _) =>
            Ok [{| claimID := claimID; writer := true; reader := false |}]
        | Err _ => Ok []
        | Panic e => Panic e
        end
      else if IsClaimSupportScript script then
        match ParseClaimSupportScript script with
        | Ok (_, claimID, _, _) =>
            Ok [{| claimID := claimID; writer := false; reader := true |}]
        | Err _ => Ok []
        | Panic e => Panic e
        end
      else
        let? is_purchase := IsPurchaseScript script in
        if is_purchase then
          match ParsePurchaseScript script with
          | Ok claimHash =>
              Ok [{| claimID := hex_encode (ReverseBytes claimHash);
                     writer := false; reader := true |}]
          | Err _ => Ok []
          | Panic e => Panic e
          end
        else Ok []
  | Err _ => Ok []
  | Panic e => Panic e
  end.

Definition claimGraphEventsForVout (tx : TxRawResult) (vout : Vout) : list claimGraphEvent :=
  match claimGraphEventsForVout_body tx vout with
  | Ok events => events
  | _ => []
  end.

Definition claimGraphEvents (tx : TxRawResult) : list claimGraphEvent :=
  flat_map (claimGraphEventsForVout tx) (tx_Vout tx).

(** The two maps of [addClaimDependencies]: per claim, its latest writer and the readers since. *)
Record claimTracker := {
  latestWriter : gmap string string;
  waitingReaders : gmap string (list string);
}.

Definition waiting_of (tr : claimTracker) (c : string) : list string :=
  default [] (waitingReaders tr !! c).

(** [if previousWriter := latestWriter\[id\]; previousWriter != "" { addDependency }] *)
Definition add_previous_writer (tr : claimTracker) (c txID : string) : M blockTxGraph unit :=
  let previousWriter := default "" (latestWriter tr !! c) in
  mwhen (negb (bool_decide (previousWriter = "")))
    (mmodify (addDependency previousWriter txID dependencyReasonClaim)).

Definition add_claim_event (txID : string) (tr : claimTracker) (event : claimGraphEvent)
  : M blockTxGraph claimTracker :=
  let c := claimID event in
  if writer event then
    let* _ := add_previous_writer tr c txID in
    let* _ := mfor (waiting_of tr c) (fun readerTxID =>
      mmodify (addDependency readerTxID txID dependencyReasonClaim)) in
    mret {| latestWriter := <[c := txID]> (latestWriter tr);
            waitingReaders := delete c (waitingReaders tr) |}
  else if reader event then
    let* _ := add_previous_writer tr c txID in
    mret {| latestWriter := latestWriter tr;
            waitingReaders := <[c := waiting_of tr c ++ [txID]]> (waitingReaders tr) |}
  else mret tr.

Definition addClaimDependencies : M blockTxGraph unit :=
  let* g := mget in
  let* _ := mfold (order g) (fun tr txID =>
    let* tx := mlift (tx_of g txID) in
    mfold (claimGraphEvents tx) (add_claim_event txID) tr)
    {| latestWriter := ∅; waitingReaders := ∅ |} in
  mret tt.

(** The position of each transaction; with a repeated id the last position counts. *)
Definition orderIndex (order : list string) : gmap string Z :=
  foldl (fun m p => <[p.2 := Z.of_nat p.1]> m) ∅ (imap pair order).

(** [less] is negated into the order the stable sort needs: [x] stays before [y] unless
    [y < x]. *)
Definition dependency_less (idx : gmap string Z) (left right : blockTxDependency) : bool :=
  let l := default 0 (idx !! child left) in
  let r := default 0 (idx !! child right) in
  if negb (l =? r) then l <? r else String.ltb (reason left) (reason right).

Definition sortChildren (g : blockTxGraph) : blockTxGraph :=
  let idx := orderIndex (order g) in
  set_children (fmap (sort_by (fun x y => negb (dependency_less idx y x)))) g.

Definition buildDependencies : M blockTxGraph unit :=
  let* _ := addUTXODependencies in
  let* _ := addClaimDependencies in
  let* _ := mmodify sortChildren in
  let* g := mget in
  let* _ := mfor (order g) (fun txID =>
    mwhen (unresolved_of g txID =? 0) (mmodify (set_ready (fun r => r ++ [txID])))) in
  let* g := mget in
  if (len (ready g) =? 0) && (0 <? len (order g)) then
    mfail (ErrDependencyGraphStalled "no ready transactions")
  else mret tt.
End ClaimEvents.

(** ** The coordinator *)

(** [transaction.go] *)
Record txToProcess := {
  job_tx : TxRawResult;
  job_blockTime : Z;
  job_blockHeight : Z;
  job_failcount : Z;
}.
Record txProcessResult := {
  result_tx : TxRawResult;
  result_blockTime : Z;
  result_blockHeight : Z;
  result_err : option error;
  result_failcount : Z;
}.

(** What a worker answers for a job, given what [processTx] returned. *)
Definition runScheduledTxWorker (job : txToProcess) (err : option error) : txProcessResult :=
  {| result_tx := job_tx job; result_blockTime := job_blockTime job;
     result_blockHeight := job_blockHeight job; result_err := err;
     result_failcount := job_failcount job + 1 |}.

(** The local variables of [runBlockTxScheduler], with the jobs its workers hold and the retries
    whose timers run. *)
Record coordinator := mkCoordinator {
  graph : blockTxGraph;
  inflight : list txToProcess;
  retrying : list string;
  active : Z;
  ncompleted : Z;
  pendingRetries : Z;
  terminalErr : option error;
}.

Definition on_graph (f : blockTxGraph -> blockTxGraph) (s : coordinator) : coordinator :=
  mkCoordinator (f (graph s)) (inflight s) (retrying s) (active s) (ncompleted s)
    (pendingRetries s) (terminalErr s).
Definition on_inflight f s :=
  mkCoordinator (graph s) (f (inflight s)) (retrying s) (active s) (ncompleted s)
    (pendingRetries s) (terminalErr s).
Definition on_retrying f s :=
  mkCoordinator (graph s) (inflight s) (f (retrying s)) (active s) (ncompleted s)
    (pendingRetries s) (terminalErr s).
Definition add_active d s :=
  mkCoordinator (graph s) (inflight s) (retrying s) (active s + d) (ncompleted s)
    (pendingRetries s) (terminalErr s).
Definition add_completed d s :=
  mkCoordinator (graph s) (inflight s) (retrying s) (active s) (ncompleted s + d)
    (pendingRetries s) (terminalErr s).
Definition add_pending d s :=
  mkCoordinator (graph s) (inflight s) (retrying s) (active s) (ncompleted s)
    (pendingRetries s + d) (terminalErr s).
Definition set_terminal e s :=
  mkCoordinator (graph s) (inflight s) (retrying s) (active s) (ncompleted s)
    (pendingRetries s) (Some e).

(** What the rest of the program does in one round of the loop: how the dispatcher's checks of
    the stopper turn out, in order (exhausted: not stopped), and which channel is ready. *)
Inductive sched_event :=
| EvResult (i : nat) (err : option error) (stopped : bool)
| EvRetry (i : nat)
| EvStop.
Record choice := { ch_stops : list bool; ch_event : sched_event }.

(** [Blocked]: the chosen event cannot happen, no such job is running. *)
Inductive flow := Continue | Break | Blocked.

Section Coordinator.
Context (MaxParallelTxProcessing MaxFailures blockTime blockHeight : Z).

(** The number of jobs handed to workers, and the error.  A transaction popped when the
    stopper wins over the send is lost. *)
Fixpoint dispatchReadyTransactions (capacity : nat) (stops : list bool)
  : M coordinator (Z * option error) :=
  match capacity with
  | O => mret (0, None)
  | S capacity' =>
      let* s := mget in
      match ready (graph s) with
      | [] => mret (0, None)
      | txID :: rest =>
          if default false (head stops) then mret (0, Some ErrManualShutDown)
          else
            let* _ := mmodify (on_graph (set_ready (fun _ => rest))) in
            let* tx := mlift (tx_of (graph s) txID) in
            let job :=
              {| job_tx := tx; job_blockTime := blockTime; job_blockHeight := blockHeight;
                 job_failcount := attempts_of (graph s) txID |} in
            if default false (head (tail stops)) then mret (0, Some ErrManualShutDown)
            else
              let* _ := mmodify (on_inflight (fun l => l ++ [job])) in
              let* (dispatched, err) :=
                dispatchReadyTransactions capacity' (tail (tail stops)) in
              mret (1 + dispatched, err)
      end
  end.

Definition release_edge (graph : blockTxGraph) (edge : blockTxDependency) : blockTxGraph :=
  let graph := set_unresolved <[child edge := unresolved_of graph (child edge) - 1]> graph in
  if unresolved_of graph (child edge) =? 0 then set_ready (fun r => r ++ [child edge]) graph
  else graph.

Definition releaseChildren (txID : string) (graph : blockTxGraph) : blockTxGraph :=
  foldl release_edge graph (children_of graph txID).

(** The error is a value: [None] is a scheduled retry. *)
Definition handleScheduledTxError (result : txProcessResult) (err : error)
  : M coordinator (option error) :=
  let txID := tx_Txid (result_tx result) in
  let* _ := mmodify (on_graph (set_attempts <[txID := result_failcount result]>)) in
  let* s := mget in
  match missingSourceOutputFromError err with
  | Some (prevoutTxID, prevoutN) =>
      if bool_decide (is_Some (txByID (graph s) !! prevoutTxID)) then
        mret (Some (ErrSchedulerInvariant
          ("same-block source output " +:+ prevoutTxID +:+ ":" +:+ pretty prevoutN +:+
           " missing while processing " +:+ txID +:+ " at block " +:+
           pretty (result_blockHeight result))))
      else mret (Some err)
  | None =>
      if negb (isRetryableScheduledTxError err) then mret (Some err)
      else if MaxFailures <? result_failcount result then
        mret (Some (ErrPrefix
          ("transaction " +:+ txID +:+ " failed more than " +:+ pretty MaxFailures +:+ " times")
          err))
      else
        let* _ := mmodify (on_retrying (fun l => l ++ [txID])) in
        mret None
  end.

(** [case result := <-results] *)
Definition receive_result (result : txProcessResult) (stopped : bool) : M coordinator unit :=
  let* _ := mmodify (add_active (-1)) in
  if stopped then mmodify (set_terminal ErrManualShutDown)
  else
    match result_err result with
    | Some e =>
        let* err := handleScheduledTxError result e in
        match err with
        | Some err => mmodify (set_terminal err)
        | None => mmodify (add_pending 1)
        end
    | None =>
        let txID := tx_Txid (result_tx result) in
        let* _ := mmodify (add_completed 1) in
        let* _ := mmodify (on_graph (set_completed (fun c => {[txID]} ∪ c))) in
        mmodify (on_graph (releaseChildren txID))
    end.

(** Takes the [i]-th running job out of the workers' hands, if there is one. *)
Definition take_job (i : nat) : M coordinator (option txToProcess) :=
  let* s := mget in
  match inflight s !! i with
  | None => mret None
  | Some job => let* _ := mmodify (on_inflight (fun l => delete i l)) in mret (Some job)
  end.

(** The [select] of the loop. *)
Definition select_event (ev : sched_event) : M coordinator flow :=
  match ev with
  | EvResult i err stopped =>
      let* job := take_job i in
      match job with
      | None => mret Blocked
      | Some job =>
          let* _ := receive_result (runScheduledTxWorker job err) stopped in mret Continue
      end
  | EvRetry i =>
      let* s := mget in
      match retrying s !! i with
      | None => mret Blocked
      | Some txID =>
          let* _ := mmodify (on_retrying (fun l => delete i l)) in
          let* _ := mmodify (add_pending (-1)) in
          let* _ := mmodify (on_graph (set_ready (fun r => r ++ [txID]))) in
          mret Continue
      end
  | EvStop => let* _ := mmodify (set_terminal ErrManualShutDown) in mret Continue
  end.

(** [<-results; active--; continue] *)
Definition drain_result (ev : sched_event) : M coordinator flow :=
  match ev with
  | EvResult i _ _ =>
      let* job := take_job i in
      match job with
      | None => mret Blocked
      | Some _ => let* _ := mmodify (add_active (-1)) in mret Continue
      end
  | _ => mret Blocked
  end.

Definition dispatch_phase (workerCount : Z) (stops : list bool) : M coordinator unit :=
  let* s := mget in
  match terminalErr s with
  | Some _ => mret tt
  | None =>
      let* (dispatched, err) :=
        dispatchReadyTransactions (Z.to_nat (workerCount - active s)) stops in
      let* _ := match err with Some e => mmodify (set_terminal e) | None => mret tt end in
      mmodify (add_active dispatched)
  end.

Definition stalled_error (s : coordinator) : error :=
  ErrDependencyGraphStalled (pretty (ncompleted s) +:+ " completed of " +:+
    pretty (len (order (graph s))) +:+ " transactions").

Definition settle_phase (ev : sched_event) : M coordinator flow :=
  let* s := mget in
  match terminalErr s with
  | Some _ => if active s =? 0 then mret Break else drain_result ev
  | None =>
      if (active s =? 0) && (len (ready (graph s)) =? 0) && (pendingRetries s =? 0) then
        let* _ := mmodify (set_terminal (stalled_error s)) in mret Break
      else select_event ev
  end.

(** One round of [for completed < len(graph.order)]. *)
Definition loop_body (workerCount : Z) (c : choice) : M coordinator flow :=
  let* _ := dispatch_phase workerCount (ch_stops c) in
  settle_phase (ch_event c).

Definition loop_condition (s : coordinator) : bool := ncompleted s <? len (order (graph s)).

Definition worker_count (g : blockTxGraph) : Z :=
  let workerCount := Min (len (order g)) MaxParallelTxProcessing in
  if workerCount <? 1 then 1 else workerCount.

Definition init_coordinator (g : blockTxGraph) : coordinator :=
  mkCoordinator g [] [] 0 0 0 None.

(** The loop under a list of choices; [None] when they end before the loop does. *)
Fixpoint scheduler_loop (workerCount : Z) (cs : list choice) (s : coordinator)
  : option (res coordinator) :=
  if negb (loop_condition s) then Some (Ok s)
  else
    match cs with
    | [] => None
    | c :: cs' =>
        match loop_body workerCount c s with
        | (Ok Continue, s') => scheduler_loop workerCount cs' s'
        | (Ok Break, s') => Some (Ok s')
        | (Ok Blocked, _) => None
        | (Err e, _) => Some (Err e)
        | (Panic e, _) => Some (Panic e)
        end
    end.

(** The end of [runBlockTxScheduler]; [cleanup] is [cleanupAbortedBlockTransactions] on the
    database of that moment. *)
Definition finish_block (cleanup : list string -> option error) (s : coordinator) : res unit :=
  match terminalErr s with
  | Some e =>
      match cleanup (order (graph s)) with
      | Some cleanupErr => Err (ErrPrefix (Error e) cleanupErr)
      | None => Err e
      end
  | None => Ok tt
  end.

Definition runBlockTxScheduler (cleanup : list string -> option error) (cs : list choice)
  (g : blockTxGraph) : option (res unit) :=
  if len (order g) =? 0 then Some (Ok tt)
  else
    match scheduler_loop (worker_count g) cs (init_coordinator g) with
    | Some r => Some (rbind r (finish_block cleanup))
    | None => None
    end.

(** Every round the program can take. *)
Inductive sched_step (workerCount : Z) : coordinator -> coordinator -> Prop :=
| sched_round c s s' :
    loop_condition s = true ->
    loop_body workerCount c s = (Ok Continue, s') ->
    sched_step workerCount s s'.
End Coordinator.

(** ** Fetching the block's transactions *)

(** [fetchBlockRawTransactions]: the state of the collecting loop.  A result carries its job's
    index; the workers answer in any order. *)
Record txFetchResult := {
  fetch_tx : TxRawResult;
  fetch_err : option error;
  fetch_index : nat;
}.

Inductive fetch_event := FetchResult (r : txFetchResult) | FetchStop.

Definition fetched : Type := (list (option TxRawResult) * gmap string TxRawResult)%type.

(** [None]: the arrivals end before [remaining] reaches 0. *)
Fixpoint collect_fetches (remaining : nat) (evs : list fetch_event) (acc : fetched)
  : option (res fetched) :=
  match remaining with
  | O => Some (Ok acc)
  | S remaining' =>
      match evs with
      | [] => None
      | FetchStop :: _ => Some (Err ErrManualShutDown)
      | FetchResult r :: evs' =>
          match fetch_err r with
          | Some e => Some (Err e)
          | None =>
              collect_fetches remaining' evs'
                (<[fetch_index r := Some (fetch_tx r)]> acc.1,
                 <[tx_Txid (fetch_tx r) := fetch_tx r]> acc.2)
          end
      end
  end.

Definition fetchBlockRawTransactions (txIDs : list string) (evs : list fetch_event)
  : option (res fetched) :=
  collect_fetches (length txIDs) evs (replicate (length txIDs) None, ∅).

(** What the workers can answer for the jobs [queueTxFetchJobs] queues: one result per index,
    the node's answer for that transaction id, in any order. *)
Definition fetch_results_of (node : string -> TxRawResult) (txIDs : list string)
  : list fetch_event :=
  imap (fun i txID =>
    FetchResult {| fetch_tx := node txID; fetch_err := None; fetch_index := i |}) txIDs.

(** [syncTransactionsDependencyAware] up to the scheduler. *)
Definition prepare_block `{Hashes, PurchaseCodec} (f : fetched) : res blockTxGraph :=
  match buildDependencies (newBlockTxGraph f.1 f.2) with
  | (Ok _, g) => Ok g
  | (Err e, _) => Err e
  | (Panic e, _) => Panic e
  end.

Definition syncTransactionsDependencyAware `{Hashes, PurchaseCodec}
  (MaxParallelTxProcessing MaxFailures : Z) (txIDs : list string) (blockTime blockHeight : Z)
  (cleanup : list string -> option error) (evs : list fetch_event) (cs : list choice)
  : option (res unit) :=
  match fetchBlockRawTransactions txIDs evs with
  | None => None
  | Some (Err e) => Some (Err e)
  | Some (Panic e) => Some (Panic e)
  | Some (Ok f) =>
      match prepare_block f with
      | Ok g =>
          runBlockTxScheduler MaxParallelTxProcessing MaxFailures blockTime blockHeight
            cleanup cs g
      | Err e => Some (Err e)
      | Panic e => Some (Panic e)
      end
  end.
