(* ===== verification/SchedulerGraph.v ===== *)
(** * The dependency graph of a block: invariants of its construction

    [graph_wf] is what every graph built by [buildDependencies] satisfies: edges connect
    transactions of the block, the [children] lists and the [edgeSet] agree, and [unresolved]
    counts the edges into a transaction.  [build_spec] adds what the edges mean: a spending
    transaction depends on the transaction it spends, and two transactions that touch the same
    claim, one of them writing it, are connected by a path in block order. *)
From S2P Require Import Prelude Bytes Script Lbrycrd Scheduler.

(** ** Edges *)

Definition edges (g : blockTxGraph) : list blockTxDependency :=
  flat_map (children_of g) (order g).

Definition into (t : string) (e : blockTxDependency) : bool := bool_decide (child e = t).

(** Edges into [t] whose parent is not in [done]. *)
Definition pending_into (done : gset string) (t : string) (e : blockTxDependency) : bool :=
  into t e && negb (bool_decide (parent e ∈ done)).

(** One dependency: [p] is a parent of [c] in the graph. *)
Definition depends (g : blockTxGraph) (p c : string) : Prop :=
  exists r, {| parent := p; child := c; reason := r |} ∈ edgeSet g.

Record graph_wf (g : blockTxGraph) : Prop := {
  wf_nodup : NoDup (order g);
  wf_tx : forall t, t ∈ order g -> exists tx, txByID g !! t = Some tx /\ tx_Txid tx = t;
  wf_dom : forall t, is_Some (txByID g !! t) -> t ∈ order g;
  wf_edge : forall p e, e ∈ children_of g p ->
    parent e = p /\ p ∈ order g /\ child e ∈ order g /\ e ∈ edgeSet g;
  wf_set : forall e, e ∈ edgeSet g -> e ∈ children_of g (parent e);
}.

(** [unresolved] counts the edges from transactions that are not completed. *)
Definition counts_ok (g : blockTxGraph) : Prop :=
  forall t, t ∈ order g ->
    unresolved_of g t = Z.of_nat (count_if (pending_into (completed g) t) (edges g)).

Lemma pending_into_empty t e : pending_into ∅ t e = into t e.
Proof.
  unfold pending_into. rewrite bool_decide_false by set_solver. apply andb_true_r.
Qed.

Lemma in_edges g e : graph_wf g -> In e (edges g) <-> e ∈ edgeSet g.
Proof.
  intros Hwf. unfold edges. rewrite in_flat_map. setoid_rewrite <- list_elem_of_In. split.
  - intros (p & Hp & He). by apply (wf_edge g Hwf) in He as (_ & _ & _ & ?).
  - intros He. apply (wf_set g Hwf) in He as Hc.
    apply (wf_edge g Hwf) in Hc as Hc'. exists (parent e). naive_solver.
Qed.

(** Well-formedness looks at four of the fields only. *)
Lemma graph_wf_ext g g' :
  order g' = order g -> txByID g' = txByID g -> children g' = children g ->
  edgeSet g' = edgeSet g -> graph_wf g -> graph_wf g'.
Proof.
  intros Ho Ht Hc He [H1 H2 H3 H4 H5].
  split; unfold children_of; rewrite ?Ho, ?Ht, ?Hc, ?He; assumption.
Qed.

(** A transaction without unresolved dependencies has all its parents completed. *)
Lemma resolved_parents g p c :
  graph_wf g -> counts_ok g -> unresolved_of g c = 0 -> depends g p c -> p ∈ completed g.
Proof.
  intros Hwf Hc H0 [r He]. destruct (decide (p ∈ completed g)) as [| Hn]; [done | exfalso].
  pose proof (wf_set g Hwf _ He) as Hch. apply (wf_edge g Hwf) in Hch as (_ & _ & Ho & _).
  rewrite Hc in H0 by done.
  assert (count_if (pending_into (completed g) c) (edges g) = 0)%nat as Hz by lia.
  rewrite count_if_zero in Hz. specialize (Hz _ (proj2 (in_edges g _ Hwf) He)).
  unfold pending_into, into in Hz. cbn in Hz.
  rewrite bool_decide_true in Hz by done. by rewrite bool_decide_false in Hz.
Qed.

(** Completing [t] resolves exactly the edges out of [t]. *)
Lemma complete_counts g t x :
  graph_wf g -> t ∈ order g -> t ∉ completed g ->
  (count_if (pending_into (completed g) x) (edges g) =
   count_if (pending_into ({[t]} ∪ completed g) x) (edges g) +
   count_if (into x) (children_of g t))%nat.
Proof.
  intros Hwf Ht Hn.
  rewrite (count_if_split _ (fun e => bool_decide (parent e = t))), Nat.add_comm. f_equal.
  - apply count_if_ext. intros e _. unfold pending_into.
    repeat case_bool_decide; set_solver || by rewrite ?andb_true_r, ?andb_false_r.
  - unfold edges. rewrite (count_flat_map_one _ _ _ t (wf_nodup g Hwf) Ht).
    + apply count_if_ext. intros e He%list_elem_of_In.
      apply (wf_edge g Hwf) in He as (Hp & _). unfold pending_into. rewrite Hp.
      rewrite bool_decide_false by done. rewrite bool_decide_true by done.
      by rewrite !andb_true_r.
    + intros p Hp Hne. apply count_if_zero. intros e He%list_elem_of_In.
      apply (wf_edge g Hwf) in He as (-> & _). rewrite (bool_decide_false (p = t)) by done.
      apply andb_false_r.
Qed.

(** ** Adding a dependency *)

Definition graph_inv (g : blockTxGraph) : Prop := graph_wf g /\ counts_ok g /\ completed g = ∅.

(** What construction leaves alone. *)
Definition same_txs : relation blockTxGraph := fun g g' =>
  order g' = order g /\ txByID g' = txByID g /\ ready g' = ready g /\
  attempts g' = attempts g /\ completed g' = completed g.
#[export] Instance same_txs_preorder : PreOrder same_txs.
Proof. split; unfold same_txs; [done | intros ???; intuition congruence]. Qed.

Lemma addDependency_same p c r g : same_txs g (addDependency p c r g).
Proof. unfold addDependency. destruct (_ || _); [done |]. by case_bool_decide. Qed.

Lemma addDependency_edges p c r g :
  edgeSet (addDependency p c r g) =
  (if bool_decide (p = "") || bool_decide (c = "") || bool_decide (p = c) then ∅
   else {[ {| parent := p; child := c; reason := r |} ]}) ∪ edgeSet g.
Proof.
  unfold addDependency. destruct (_ || _); [set_solver |].
  case_bool_decide; cbn; set_solver.
Qed.

Lemma addDependency_new p c r g :
  let edge := {| parent := p; child := c; reason := r |} in
  edge ∉ edgeSet g -> p <> "" -> c <> "" -> p <> c ->
  addDependency p c r g =
    set_unresolved <[c := unresolved_of g c + 1]>
      (set_children <[p := children_of g p ++ [edge]]> (set_edgeSet (fun s => {[edge]} ∪ s) g)).
Proof.
  intros edge He Hp Hc Hpc. unfold addDependency.
  rewrite !bool_decide_false by done. cbn [orb]. done.
Qed.

Lemma graph_inv_add_new p c r g :
  let edge := {| parent := p; child := c; reason := r |} in
  graph_inv g -> p ∈ order g -> c ∈ order g -> edge ∉ edgeSet g ->
  graph_inv (set_unresolved <[c := unresolved_of g c + 1]>
    (set_children <[p := children_of g p ++ [edge]]> (set_edgeSet (fun s => {[edge]} ∪ s) g))).
Proof.
  intros edge (Hwf & Hcnt & Hcomp) Hp Hc Hnew. set (g' := set_unresolved _ _).
  assert (Hch : forall q, children_of g' q =
    if decide (q = p) then children_of g p ++ [edge] else children_of g q).
  { intros q. unfold children_of at 1. cbn. rewrite lookup_insert.
    destruct (decide (p = q)) as [-> | Hq]; [by rewrite decide_True | by rewrite decide_False]. }
  split; [| split; [| done]].
  - split; [exact (wf_nodup g Hwf) | exact (wf_tx g Hwf) | exact (wf_dom g Hwf) | |].
    + intros q e. rewrite Hch. case_decide as Hq; [subst q | intros He].
      * rewrite elem_of_app, list_elem_of_singleton. intros [He | ->]; cbn; [| set_solver].
        apply (wf_edge g Hwf) in He. set_solver.
      * apply (wf_edge g Hwf) in He. cbn. set_solver.
    + intros e. cbn. rewrite elem_of_union, elem_of_singleton, Hch. intros [-> | He].
      * cbn. rewrite decide_True by done. set_solver.
      * apply (wf_set g Hwf) in He. case_decide as Hq; [| done]. rewrite <- Hq. set_solver.
  - intros t Ht. unfold unresolved_of at 1. cbn [set_unresolved unresolved].
    change (completed g') with (completed g).
    assert (count_if (pending_into (completed g) t) (edges g') =
      count_if (pending_into (completed g) t) (edges g) + if decide (t = c) then 1 else 0)%nat
      as ->.
    { unfold edges. apply count_flat_map_change with (t := p); [by apply wf_nodup | done | |].
      - intros q Hq. rewrite Hch. by rewrite decide_False.
      - rewrite Hch, decide_True by done. rewrite count_if_app, count_if_cons. f_equal.
        rewrite Hcomp, pending_into_empty. unfold into. cbn.
        repeat case_decide; repeat case_bool_decide; congruence || done. }
    cbn. rewrite lookup_insert. specialize (Hcnt t Ht). unfold unresolved_of in Hcnt.
    repeat case_decide; subst; cbn; try congruence; unfold unresolved_of; lia.
Qed.

Lemma addDependency_inv p c r g :
  graph_inv g -> p ∈ order g -> c ∈ order g -> graph_inv (addDependency p c r g).
Proof.
  intros Hinv Hp Hc. unfold addDependency. destruct (_ || _); [done |].
  case_bool_decide as He; [done |]. exact (graph_inv_add_new p c r g Hinv Hp Hc He).
Qed.

(** ** The graph of a block's transactions *)

(** What the fetching phase hands over for the transactions [txs] of a block. *)
Definition block_fetched (txs : list TxRawResult) : fetched :=
  (Some <$> txs, list_to_map ((fun tx => (tx_Txid tx, tx)) <$> txs)).

Definition block_ids (txs : list TxRawResult) : list string := tx_Txid <$> txs.

Definition before (l : list string) (u v : string) : Prop :=
  exists i j, l !! i = Some u /\ l !! j = Some v /\ (i < j)%nat.

Lemma before_split l pre u v post : l = pre ++ v :: post -> u ∈ pre -> before l u v.
Proof.
  intros -> [i Hi]%list_elem_of_lookup. exists i, (length pre).
  pose proof (lookup_lt_Some _ _ _ Hi). rewrite lookup_app_l by done.
  rewrite list_lookup_middle by done. auto.
Qed.

Lemma newBlockTxGraph_fold txs m ord un cs ats es rd :
  foldl (fun g tx =>
    match tx with
    | None => g
    | Some tx =>
        mkGraph (txByID g) (children g) (<[tx_Txid tx := 0]> (unresolved g)) (completed g)
          (attempts g) (edgeSet g) (order g ++ [tx_Txid tx]) (ready g)
    end) (mkGraph m ∅ un cs ats es ord rd) (Some <$> txs) =
  mkGraph m ∅ (foldl (fun u tx => <[tx_Txid tx := 0]> u) un txs) cs ats es
    (ord ++ block_ids txs) rd.
Proof.
  revert ord un. induction txs as [| tx txs IH]; intros ord un; cbn; [by rewrite app_nil_r |].
  rewrite IH. by rewrite <- app_assoc.
Qed.

Lemma foldl_zero txs (un : gmap string Z) t :
  default 0 (un !! t) = 0 ->
  default 0 (foldl (fun u tx => <[tx_Txid tx := 0]> u) un txs !! t) = 0.
Proof.
  revert un. induction txs as [| tx txs IH]; intros un H; cbn; [done |].
  apply IH. rewrite lookup_insert. by case_decide.
Qed.

Lemma newBlockTxGraph_eq txs :
  newBlockTxGraph (block_fetched txs).1 (block_fetched txs).2 =
  mkGraph (block_fetched txs).2 ∅ (foldl (fun u tx => <[tx_Txid tx := 0]> u) ∅ txs)
    ∅ ∅ ∅ (block_ids txs) [].
Proof. unfold newBlockTxGraph. cbn [fst block_fetched]. by rewrite newBlockTxGraph_fold. Qed.

Lemma block_lookup txs t tx :
  NoDup (block_ids txs) ->
  (block_fetched txs).2 !! t = Some tx <-> tx ∈ txs /\ tx_Txid tx = t.
Proof.
  intros Hnd. cbn. rewrite <- elem_of_list_to_map.
  - rewrite list_elem_of_fmap. naive_solver.
  - by rewrite <- list_fmap_compose.
Qed.

Lemma newBlockTxGraph_inv txs :
  NoDup (block_ids txs) ->
  graph_inv (newBlockTxGraph (block_fetched txs).1 (block_fetched txs).2).
Proof.
  intros Hnd. rewrite newBlockTxGraph_eq. split; [split |]; cbn [order txByID edgeSet].
  - done.
  - intros t (tx & -> & Htx)%list_elem_of_fmap. exists tx. rewrite block_lookup; done.
  - intros t [tx Htx]. apply block_lookup in Htx as [Htx <-]; [| done].
    by apply list_elem_of_fmap_2.
  - intros p e. cbn. unfold children_of. cbn. rewrite lookup_empty. cbn. set_solver.
  - set_solver.
  - split; [| done]. intros t Ht. unfold unresolved_of. cbn [unresolved completed].
    rewrite foldl_zero by done.
    rewrite (proj2 (count_if_zero _ _)); [done |]. intros e He. exfalso.
    unfold edges in He. apply in_flat_map in He as (p & _ & He).
    unfold children_of in He. cbn in He. by rewrite lookup_empty in He.
Qed.

(** [c] spends an output of [p]. *)
Definition spends (txs : gmap string TxRawResult) (p c : string) : Prop :=
  exists tx vin, txs !! c = Some tx /\ vin ∈ tx_Vin tx /\ vin_TxID vin = p /\
    is_Some (txs !! p).

(** ** The two phases *)

Section Build.
Context `{Hashes, PurchaseCodec} (g0 : blockTxGraph).
Context (Hg0 : graph_inv g0) (Hne : "" ∉ order g0).

(** Every edge is there for a reason the source gives: a spent output, or block order. *)
Definition justified (p c : string) : Prop :=
  p <> c /\ (spends (txByID g0) p c \/ before (order g0) p c).

Definition build_inv (g : blockTxGraph) : Prop :=
  graph_inv g /\ same_txs g0 g /\ forall p c, depends g p c -> justified p c.

Definition grows : relation blockTxGraph := fun g g' => edgeSet g ⊆ edgeSet g'.
#[local] Instance grows_preorder : PreOrder grows.
Proof. split; unfold grows; [intros g | intros ???]; set_solver. Qed.

Lemma depends_grows g g' p c : depends g p c -> grows g g' -> depends g' p c.
Proof. intros [r Hr] Hg. exists r. by apply Hg. Qed.

Lemma build_inv_base : edgeSet g0 = ∅ -> build_inv g0.
Proof. intros He. split; [exact Hg0 | split; [reflexivity |]]. intros p c [r Hr]. set_solver. Qed.

(** One [addDependency] between transactions of the block, the parent being a real reason. *)
Lemma add_step g p c r :
  build_inv g -> p ∈ order g0 -> c ∈ order g0 -> (p <> c -> justified p c) ->
  let g' := addDependency p c r g in
  build_inv g' /\ grows g g' /\ (p = c \/ depends g' p c).
Proof.
  intros (Hinv & Hsame & Hj) Hp Hc Hpc g'.
  assert (Ho : order g = order g0) by apply Hsame.
  pose proof (addDependency_edges p c r g) as He. fold g' in He.
  rewrite (bool_decide_false (p = "")) in He by (intros ->; done).
  rewrite (bool_decide_false (c = "")) in He by (intros ->; done). cbn [orb] in He.
  split; [split; [| split] |].
  - apply addDependency_inv; [done | congruence..].
  - etrans; [exact Hsame | apply addDependency_same].
  - intros p' c' [r' Hr']. rewrite He in Hr'. case_bool_decide.
    + apply Hj. exists r'. set_solver.
    + apply elem_of_union in Hr' as [Hr' | Hr']; [| apply Hj; by exists r'].
      apply elem_of_singleton in Hr'. simplify_eq. by apply Hpc.
  - split; [unfold grows; set_solver |]. destruct (decide (p = c)); [by left | right].
    exists r. rewrite He, bool_decide_false by done. set_solver.
Qed.

Definition utxo_done (t : string) (g : blockTxGraph) : Prop :=
  forall p, spends (txByID g0) p t -> p = t \/ depends g p t.

Lemma addUTXODependencies_spec g :
  build_inv g ->
  exists g', addUTXODependencies g = (Ok tt, g') /\ build_inv g' /\ grows g g' /\
    forall t, t ∈ order g0 -> utxo_done t g'.
Proof.
  intros Hg. unfold addUTXODependencies, mbind at 1. cbn [mget].
  assert (Ho : order g = order g0) by apply Hg.
  assert (Ht : txByID g = txByID g0) by apply Hg.
  rewrite Ho. apply mfor_establish; [exact _ | | | done].
  { intros t w w' Hd Hgr p Hp. destruct (Hd p Hp); [by left | right].
    by eapply depends_grows. }
  clear Hg. intros t w Hto Hw.
  destruct (wf_tx g0 (proj1 Hg0) t Hto) as (tx & Htx & _).
  assert (Hwt : txByID w = txByID g0) by apply Hw.
  unfold mbind, mlift. unfold tx_of. rewrite Ht, Htx.
  destruct (mfor_establish build_inv grows
    (fun vin w => is_Some (txByID g0 !! vin_TxID vin) ->
       vin_TxID vin = t \/ depends w (vin_TxID vin) t)
    (tx_Vin tx) (fun vin => mwhen (bool_decide (is_Some (txByID g0 !! vin_TxID vin)))
        (mmodify (addDependency (vin_TxID vin) t dependencyReasonUTXO)))) with (w := w)
    as (w' & E & Hw' & Hgr & Hall); [| | done |].
  - intros vin v v' Hd Hgr Hs. destruct (Hd Hs); [by left | right]. by eapply depends_grows.
  - intros vin v Hvin Hv. case_bool_decide as Hs; cbn.
    + destruct (add_step v (vin_TxID vin) t dependencyReasonUTXO) as (Hb & Hgr & Hd);
        [done | by apply (wf_dom g0 (proj1 Hg0)) | done | |].
      * intros Hpc. split; [done |]. left. by exists tx, vin.
      * eexists. split; [reflexivity |]. auto.
    + exists v. split; [done | split; [done | split; [reflexivity | done]]].
  - rewrite E. exists w'. split; [done | split; [done | split; [done |]]].
    intros p (tx' & vin & Htx' & Hvin & <- & Hs). rewrite Htx in Htx'. simplify_eq.
    by apply Hall.
Qed.

(** *** Claims: the tracker's invariant over the events seen so far *)

Definition path (g : blockTxGraph) : relation string := rtc (depends g).

Lemma path_grows g g' u v : path g u v -> grows g g' -> path g' u v.
Proof.
  intros Hp Hg. induction Hp as [| x y z Hxy _ IH]; [apply rtc_refl |].
  eapply rtc_l; [| exact IH]. by eapply depends_grows.
Qed.

Lemma step_path g p c : p = c \/ depends g p c -> path g p c.
Proof. intros [-> | Hd]; [apply rtc_refl | by apply rtc_once]. Qed.

Definition conflict (e1 e2 : claimGraphEvent) : Prop :=
  claimID e1 = claimID e2 /\
  ((writer e1 = true /\ (writer e2 = true \/ reader e2 = true)) \/
   (reader e1 = true /\ writer e2 = true)).

#[local] Notation seen := (list (string * claimGraphEvent)).

(** Who reaches whom: earlier writers reach the latest writer, earlier readers reach it or wait,
    and the latest writer reaches the waiting readers. *)
Record reach_inv (L : seen) (tr : claimTracker) (g : blockTxGraph) : Prop := {
  ri_writers : forall u ev, (u, ev) ∈ L -> writer ev = true ->
    exists w, latestWriter tr !! claimID ev = Some w /\ path g u w;
  ri_readers : forall u ev, (u, ev) ∈ L -> reader ev = true -> writer ev = false ->
    u ∈ waiting_of tr (claimID ev) \/
    exists w, latestWriter tr !! claimID ev = Some w /\ path g u w;
  ri_fresh : forall c u w, u ∈ waiting_of tr c -> latestWriter tr !! c = Some w -> path g w u;
  ri_pairs : forall i j u v e1 e2, L !! i = Some (u, e1) -> L !! j = Some (v, e2) ->
    (i < j)%nat -> conflict e1 e2 -> path g u v;
}.

Record tracker_inv (L : seen) (tr : claimTracker) (g : blockTxGraph) : Prop := {
  ti_build : build_inv g;
  ti_latest : forall c w, latestWriter tr !! c = Some w -> w ∈ L.*1;
  ti_waiting : forall c u, u ∈ waiting_of tr c -> u ∈ L.*1;
  ti_reach : reach_inv L tr g;
}.

Lemma reach_inv_grows L tr g g' : reach_inv L tr g -> grows g g' -> reach_inv L tr g'.
Proof.
  intros [Hw Hr Hf Hp] Hg. split; intros.
  - destruct (Hw u ev) as (w & ? & ?); [done..|]. exists w. eauto using path_grows.
  - destruct (Hr u ev) as [? | (w & ? & ?)]; [done.. | by left |].
    right. exists w. eauto using path_grows.
  - eauto using path_grows.
  - eapply path_grows; [by eapply (Hp i j) | done].
Qed.

(** All transactions seen so far are [t] or come before it. *)
Definition seen_before (L : seen) (t : string) : Prop :=
  forall u, u ∈ L.*1 -> u ∈ order g0 /\ (u = t \/ before (order g0) u t).

Lemma add_seen_edge L t u g :
  build_inv g -> seen_before L t -> t ∈ order g0 -> u ∈ L.*1 ->
  let g' := addDependency u t dependencyReasonClaim g in
  build_inv g' /\ grows g g' /\ path g' u t.
Proof.
  intros Hb Hs Ht Hu g'. destruct (Hs u Hu) as [Huo Hbef].
  destruct (add_step g u t dependencyReasonClaim) as (Hb' & Hg & Hd); [done..| |].
  - intros Hne'. split; [done |]. right. by destruct Hbef.
  - split; [done | split; [done | by apply step_path]].
Qed.

Lemma add_previous_writer_spec L tr c t g :
  tracker_inv L tr g -> seen_before L t -> t ∈ order g0 ->
  exists g', add_previous_writer tr c t g = (Ok tt, g') /\ build_inv g' /\ grows g g' /\
    forall w, latestWriter tr !! c = Some w -> path g' w t.
Proof.
  intros Hti Hs Ht. unfold add_previous_writer.
  destruct (latestWriter tr !! c) as [w |] eqn:Ew; cbn [default].
  - pose proof (ti_latest _ _ _ Hti c w Ew) as HwL.
    destruct (add_seen_edge L t w g) as (Hb & Hg & Hp); [apply Hti | done..|].
    rewrite (bool_decide_false (w = "")).
    + eexists. split; [reflexivity |]. split; [done | split; [done |]].
      intros w' [= <-]. done.
    + intros ->. by apply Hne, (Hs "").
  - cbn. exists g. split; [done |]. split; [apply Hti | split; [reflexivity | done]].
Qed.

Lemma add_waiting_readers_spec L tr c t g :
  build_inv g -> (forall u, u ∈ waiting_of tr c -> u ∈ L.*1) -> seen_before L t ->
  t ∈ order g0 ->
  exists g', mfor (waiting_of tr c) (fun readerTxID =>
      mmodify (addDependency readerTxID t dependencyReasonClaim)) g = (Ok tt, g') /\
    build_inv g' /\ grows g g' /\ forall u, u ∈ waiting_of tr c -> path g' u t.
Proof.
  intros Hb Hw Hs Ht.
  apply (mfor_establish build_inv grows (fun u w => path w u t)); [| | done].
  - intros x w w' Hp Hg. by eapply path_grows.
  - intros u w Hu Hbw. eexists. split; [reflexivity |].
    by apply (add_seen_edge L); auto.
Qed.

Lemma reach_snoc L tr tr' t ev g :
  (forall u e, (u, e) ∈ L -> conflict e ev -> path g u t) ->
  reach_inv L tr g ->
  (forall u e, (u, e) ∈ L ++ [(t, ev)] -> writer e = true ->
     exists w, latestWriter tr' !! claimID e = Some w /\ path g u w) ->
  (forall u e, (u, e) ∈ L ++ [(t, ev)] -> reader e = true -> writer e = false ->
     u ∈ waiting_of tr' (claimID e) \/
     exists w, latestWriter tr' !! claimID e = Some w /\ path g u w) ->
  (forall c u w, u ∈ waiting_of tr' c -> latestWriter tr' !! c = Some w -> path g w u) ->
  reach_inv (L ++ [(t, ev)]) tr' g.
Proof.
  intros Hlast Hri Hw Hr Hf. split; [done..|].
  intros i j u v e1 e2 Hi Hj Hij Hc.
  destruct (decide (j < length L)%nat) as [Hj' | Hj'].
  - rewrite lookup_app_l in Hi, Hj by lia. by eapply (ri_pairs _ _ _ Hri i j).
  - pose proof (lookup_lt_Some _ _ _ Hj) as Hlt. rewrite length_app in Hlt. cbn in Hlt.
    assert (j = length L) as -> by lia.
    rewrite list_lookup_middle in Hj by done. simplify_eq.
    rewrite lookup_app_l in Hi by lia. eapply Hlast; [by eapply list_elem_of_lookup_2 | done].
Qed.

Lemma waiting_delete tr c c' lw :
  waiting_of {| latestWriter := lw; waitingReaders := delete c (waitingReaders tr) |} c' =
  if decide (c = c') then [] else waiting_of tr c'.
Proof. unfold waiting_of. cbn. rewrite lookup_delete. by case_decide. Qed.

Lemma waiting_insert tr c c' l lw :
  waiting_of {| latestWriter := lw; waitingReaders := <[c := l]> (waitingReaders tr) |} c' =
  if decide (c = c') then l else waiting_of tr c'.
Proof. unfold waiting_of. cbn. rewrite lookup_insert. by case_decide. Qed.

Lemma elem_snoc {A} (l : list A) x y : x ∈ l ++ [y] <-> x ∈ l \/ x = y.
Proof. by rewrite elem_of_app, list_elem_of_singleton. Qed.

Lemma writer_event_reach L tr t ev g :
  reach_inv L tr g -> writer ev = true ->
  (forall w, latestWriter tr !! claimID ev = Some w -> path g w t) ->
  (forall u, u ∈ waiting_of tr (claimID ev) -> path g u t) ->
  reach_inv (L ++ [(t, ev)])
    {| latestWriter := <[claimID ev := t]> (latestWriter tr);
       waitingReaders := delete (claimID ev) (waitingReaders tr) |} g.
Proof.
  intros Hri Hev Hw Hr.
  assert (Hall : forall u e, (u, e) ∈ L -> claimID e = claimID ev ->
    writer e = true \/ reader e = true -> path g u t).
  { intros u e Hu Hc Hk. destruct (writer e) eqn:Ee.
    - destruct (ri_writers _ _ _ Hri u e) as (w & Hl & Hp); [done..|].
      rewrite Hc in Hl. etrans; [exact Hp | by apply Hw].
    - destruct Hk as [| Hk]; [done |].
      destruct (ri_readers _ _ _ Hri u e) as [Hu' | (w & Hl & Hp)]; [done.. | |];
        rewrite Hc in *; [by apply Hr |]. etrans; [exact Hp | by apply Hw]. }
  apply (reach_snoc L tr); [| done | | |]; cbn [latestWriter].
  - intros u e Hu [Hc Hk]. eapply Hall; [done..|]. naive_solver.
  - intros u e [Hu | [= -> ->]]%elem_snoc Hwe.
    + rewrite lookup_insert. case_decide as Hc; [exists t; eauto |].
      by apply (ri_writers _ _ _ Hri).
    + rewrite lookup_insert_eq. exists t. split; [done | apply rtc_refl].
  - intros u e [Hu | [= -> ->]]%elem_snoc Hre Hwe; [| congruence].
    rewrite waiting_delete, lookup_insert. case_decide as Hc.
    + right. exists t. eauto.
    + by apply (ri_readers _ _ _ Hri).
  - intros c u w. rewrite waiting_delete, lookup_insert. case_decide as Hc; [set_solver |].
    apply (ri_fresh _ _ _ Hri).
Qed.

Lemma reader_event_reach L tr t ev g :
  reach_inv L tr g -> writer ev = false -> reader ev = true ->
  (forall w, latestWriter tr !! claimID ev = Some w -> path g w t) ->
  reach_inv (L ++ [(t, ev)])
    {| latestWriter := latestWriter tr;
       waitingReaders :=
         <[claimID ev := waiting_of tr (claimID ev) ++ [t]]> (waitingReaders tr) |} g.
Proof.
  intros Hri Hev Hre Hw.
  apply (reach_snoc L tr); [| done | | |]; cbn [latestWriter].
  - intros u e Hu [Hc [[Hwe _] | [_ ?]]]; [| congruence].
    destruct (ri_writers _ _ _ Hri u e) as (w & Hl & Hp); [done..|].
    rewrite Hc in Hl. etrans; [exact Hp | by apply Hw].
  - intros u e [Hu | [= -> ->]]%elem_snoc Hwe; [| congruence].
    by apply (ri_writers _ _ _ Hri).
  - intros u e [Hu | [= -> ->]]%elem_snoc Hre' Hwe; rewrite waiting_insert.
    + destruct (ri_readers _ _ _ Hri u e) as [Hu' | ?]; [done.. | left | by right].
      case_decide as Hc; [rewrite Hc; set_solver | done].
    + left. rewrite decide_True by done. set_solver.
  - intros c u w. rewrite waiting_insert. case_decide as Hc; [| apply (ri_fresh _ _ _ Hri)].
    subst c. rewrite elem_snoc. intros [Hu | ->]; [by apply (ri_fresh _ _ _ Hri) | apply Hw].
Qed.

Lemma add_claim_event_spec L t tr ev g :
  tracker_inv L tr g -> seen_before L t -> t ∈ order g0 ->
  exists tr' g', add_claim_event t tr ev g = (Ok tr', g') /\
    tracker_inv (L ++ [(t, ev)]) tr' g' /\ grows g g'.
Proof.
  intros Hti Hs Ht. unfold add_claim_event.
  destruct (add_previous_writer_spec L tr (claimID ev) t g) as (g1 & E1 & Hb1 & Hg1 & Hp1);
    [done..|].
  pose proof (reach_inv_grows _ _ _ _ (ti_reach _ _ _ Hti) Hg1) as Hri1.
  assert (HL : (L ++ [(t, ev)]).*1 = L.*1 ++ [t]) by (by rewrite fmap_app).
  destruct (writer ev) eqn:Ew; [| destruct (reader ev) eqn:Er].
  - destruct (add_waiting_readers_spec L tr (claimID ev) t g1) as (g2 & E2 & Hb2 & Hg2 & Hp2);
      [done | apply (ti_waiting _ _ _ Hti) | done..|].
    unfold mbind. rewrite E1, E2. eexists _, g2. split; [reflexivity |].
    split; [split | by etrans].
    + done.
    + intros c w. cbn. rewrite lookup_insert, HL, elem_snoc. case_decide; [naive_solver |].
      intros Hl. left. by apply (ti_latest _ _ _ Hti c).
    + intros c u. rewrite waiting_delete, HL, elem_snoc. case_decide; [set_solver |].
      intros Hl. left. by apply (ti_waiting _ _ _ Hti c).
    + apply writer_event_reach; [by eapply reach_inv_grows | done | | done].
      intros w Hw. eapply path_grows; [by apply Hp1 | done].
  - unfold mbind. rewrite E1. eexists _, g1. split; [reflexivity |].
    split; [split | done].
    + done.
    + intros c w Hl. rewrite HL, elem_snoc. left. by apply (ti_latest _ _ _ Hti c).
    + intros c u. rewrite waiting_insert, HL, elem_snoc. case_decide as Hc.
      * rewrite elem_snoc. intros [Hu | ->]; [left | by right].
        by apply (ti_waiting _ _ _ Hti (claimID ev)).
      * intros Hl. left. by apply (ti_waiting _ _ _ Hti c).
    + by apply reader_event_reach.
  - exists tr, g. split; [done | split; [split | reflexivity]].
    + apply Hti.
    + intros c w Hl. rewrite HL, elem_snoc. left. by apply (ti_latest _ _ _ Hti c).
    + intros c u Hl. rewrite HL, elem_snoc. left. by apply (ti_waiting _ _ _ Hti c).
    + pose proof (ti_reach _ _ _ Hti) as Hri. apply (reach_snoc L tr); [| done | | | apply Hri].
      * intros u e _ (_ & [(_ & [? | ?]) | [_ ?]]); congruence.
      * intros u e [Hu | [= -> ->]]%elem_snoc ?; [by apply (ri_writers _ _ _ Hri) | congruence].
      * intros u e [Hu | [= -> ->]]%elem_snoc ??; [by apply (ri_readers _ _ _ Hri) | congruence].
Qed.

(** The claim events of the block, in block order and output order. *)
Definition events_of (t : string) : seen :=
  match txByID g0 !! t with Some tx => pair t <$> claimGraphEvents tx | None => [] end.
Definition events_upto (l : list string) : seen := flat_map events_of l.

Lemma events_of_fst t u : u ∈ (events_of t).*1 -> u = t.
Proof.
  unfold events_of. destruct (txByID g0 !! t); [| by intros ?%elem_of_nil].
  rewrite <- list_fmap_compose. by intros (? & -> & _)%list_elem_of_fmap.
Qed.

Lemma events_upto_fst l u : u ∈ (events_upto l).*1 -> u ∈ l.
Proof.
  induction l as [| t l IH]; cbn; [by intros ?%elem_of_nil |].
  rewrite fmap_app, elem_of_app. intros [->%events_of_fst | Hu]; [by left | right; auto].
Qed.

Lemma events_upto_snoc l t : events_upto (l ++ [t]) = events_upto l ++ events_of t.
Proof. unfold events_upto. rewrite flat_map_app. cbn. by rewrite app_nil_r. Qed.

Lemma add_tx_events_spec pre t post tx tr g :
  order g0 = pre ++ t :: post -> txByID g0 !! t = Some tx ->
  tracker_inv (events_upto pre) tr g ->
  exists tr' g', mfold (claimGraphEvents tx) (add_claim_event t) tr g = (Ok tr', g') /\
    tracker_inv (events_upto (pre ++ [t])) tr' g' /\ grows g g'.
Proof.
  intros Ho Htx Hti.
  assert (Ht : t ∈ order g0) by (rewrite Ho; set_solver).
  destruct (triple_fold (claimGraphEvents tx) (add_claim_event t) tr
    (fun evs tr w => tracker_inv (events_upto pre ++ (pair t <$> evs)) tr w /\ grows g w))
    with (w := g) as (tr' & g' & E & Hti' & Hg).
  - intros evs ev evs' tr1 _ w [Hw Hgw].
    destruct (add_claim_event_spec (events_upto pre ++ (pair t <$> evs)) t tr1 ev w)
      as (tr2 & g2 & E2 & Hti2 & Hg2); [done | | done |].
    + intros u. rewrite fmap_app, elem_of_app, <- list_fmap_compose.
      intros [Hu%events_upto_fst | (? & -> & _)%list_elem_of_fmap]; [| cbn; auto].
      split; [rewrite Ho; set_solver |]. right. by eapply before_split.
    + exists tr2, g2. split; [done |]. split; [| by etrans].
      rewrite fmap_app, app_assoc. done.
  - cbn. by rewrite app_nil_r.
  - exists tr', g'. split; [done |]. split; [| done].
    rewrite events_upto_snoc. unfold events_of. by rewrite Htx.
Qed.

Lemma tracker_inv_start g :
  build_inv g -> tracker_inv [] {| latestWriter := ∅; waitingReaders := ∅ |} g.
Proof.
  intros Hb. split; [done | | | split].
  - intros c w. cbn. by rewrite lookup_empty.
  - intros c u. unfold waiting_of. cbn. by rewrite lookup_empty.
  - by intros u ev ?%elem_of_nil.
  - by intros u ev ?%elem_of_nil.
  - intros c u w _. cbn. by rewrite lookup_empty.
  - intros i j u v e1 e2 Hi. by rewrite lookup_nil in Hi.
Qed.

Lemma addClaimDependencies_spec g :
  build_inv g ->
  exists g', addClaimDependencies g = (Ok tt, g') /\ build_inv g' /\ grows g g' /\
    forall i j u v e1 e2,
      events_upto (order g0) !! i = Some (u, e1) -> events_upto (order g0) !! j = Some (v, e2) ->
      (i < j)%nat -> conflict e1 e2 -> path g' u v.
Proof.
  intros Hb. unfold addClaimDependencies, mbind at 1. cbn [mget].
  assert (Ho : order g = order g0) by apply Hb.
  assert (Hx : txByID g = txByID g0) by apply Hb.
  destruct (triple_fold (order g)
    (fun tr txID => let* tx := mlift (tx_of g txID) in
       mfold (claimGraphEvents tx) (add_claim_event txID) tr)
    {| latestWriter := ∅; waitingReaders := ∅ |}
    (fun pre tr w => tracker_inv (events_upto pre) tr w /\ grows g w))
    with (w := g) as (tr' & g' & E & Hti & Hg).
  - intros pre t post tr Hpre w [Hw Hgw].
    destruct (wf_tx g0 (proj1 Hg0) t) as (tx & Htx & _).
    { rewrite <- Ho, Hpre. set_solver. }
    destruct (add_tx_events_spec pre t post tx tr w) as (tr2 & g2 & E2 & Hti2 & Hg2);
      [congruence | done | done |].
    exists tr2, g2. unfold mbind, mlift, tx_of. rewrite Hx, Htx.
    split; [done | split; [done | by etrans]].
  - split; [by apply tracker_inv_start | reflexivity].
  - exists g'. unfold mbind at 1. rewrite E. split; [done | split; [apply Hti | split; [done |]]].
    rewrite <- Ho. apply Hti.
Qed.
End Build.

(** ** Sorting the children and the ready list *)

Lemma children_of_sort g p :
  Permutation (children_of (sortChildren g) p) (children_of g p).
Proof.
  unfold sortChildren, children_of. cbn. rewrite lookup_fmap.
  destruct (children g !! p); cbn; [apply sort_by_perm | done].
Qed.

Lemma count_edges_sort f g :
  count_if f (edges (sortChildren g)) = count_if f (edges g).
Proof.
  unfold edges. change (order (sortChildren g)) with (order g). apply count_if_perm.
  induction (order g) as [| p l IH]; cbn; [done |].
  apply Permutation_app; [apply children_of_sort | done].
Qed.

Lemma sortChildren_inv g : graph_inv g -> graph_inv (sortChildren g).
Proof.
  intros (Hwf & Hc & He). split; [split | split; [| done]].
  - exact (wf_nodup g Hwf).
  - exact (wf_tx g Hwf).
  - exact (wf_dom g Hwf).
  - intros p e. rewrite children_of_sort. apply (wf_edge g Hwf).
  - intros e Hin. rewrite children_of_sort. by apply (wf_set g Hwf).
  - intros t Ht. rewrite count_edges_sort. by apply Hc.
Qed.

Definition ready_list (g : blockTxGraph) : list string :=
  List.filter (fun t => unresolved_of g t =? 0) (order g).

Lemma ready_loop_spec g l w :
  mfor l (fun txID => mwhen (unresolved_of g txID =? 0)
    (mmodify (set_ready (fun r => r ++ [txID])))) w =
  (Ok tt, set_ready (fun r => r ++ List.filter (fun t => unresolved_of g t =? 0) l) w).
Proof.
  revert w. induction l as [| t l IH]; intros w; cbn.
  - destruct w. unfold set_ready. cbn. by rewrite app_nil_r.
  - unfold mbind. destruct (unresolved_of g t =? 0); cbn; rewrite IH; [| done].
    unfold set_ready. cbn. by rewrite <- app_assoc.
Qed.

(** ** What a built graph is *)

Section Built.
Context `{Hashes, PurchaseCodec} (txs : list TxRawResult).

Definition block_map : gmap string TxRawResult := (block_fetched txs).2.
Definition block_events : list (string * claimGraphEvent) :=
  flat_map (fun tx => pair (tx_Txid tx) <$> claimGraphEvents tx) txs.

Record built (g : blockTxGraph) : Prop := {
  bt_inv : graph_inv g;
  bt_attempts : attempts g = ∅;
  bt_order : order g = block_ids txs;
  bt_map : txByID g = block_map;
  bt_ready : ready g = ready_list g;
  bt_spends : forall p c, spends block_map p c -> p = c \/ depends g p c;
  bt_claims : forall i j u v e1 e2,
    block_events !! i = Some (u, e1) -> block_events !! j = Some (v, e2) ->
    (i < j)%nat -> conflict e1 e2 -> path g u v;
  bt_justified : forall p c, depends g p c ->
    p <> c /\ (spends block_map p c \/ before (block_ids txs) p c);
}.

Context (Hnd : NoDup (block_ids txs)) (Hne : "" ∉ block_ids txs).

Lemma events_upto_block l :
  l ⊆ txs ->
  events_upto (newBlockTxGraph (block_fetched txs).1 (block_fetched txs).2) (block_ids l) =
  flat_map (fun tx => pair (tx_Txid tx) <$> claimGraphEvents tx) l.
Proof.
  unfold events_upto, events_of. rewrite newBlockTxGraph_eq. cbn [txByID].
  induction l as [| tx l IH]; intros Hl; [done |]. cbn [block_ids fmap list_fmap flat_map].
  rewrite (proj2 (block_lookup txs (tx_Txid tx) tx Hnd)) by set_solver.
  f_equal. apply IH. set_solver.
Qed.

Lemma build_spec :
  exists g, built g /\
    prepare_block (block_fetched txs) =
      (if (len (ready g) =? 0) && (0 <? len (order g))
       then Err (ErrDependencyGraphStalled "no ready transactions") else Ok g).
Proof.
  unfold prepare_block.
  set (g0 := newBlockTxGraph (block_fetched txs).1 (block_fetched txs).2).
  pose proof (newBlockTxGraph_inv txs Hnd) as Hg0. fold g0 in Hg0.
  pose proof (newBlockTxGraph_eq txs) as Heq. fold g0 in Heq.
  assert (Ho0 : order g0 = block_ids txs) by (by rewrite Heq).
  assert (Hne0 : "" ∉ order g0) by congruence.
  destruct (addUTXODependencies_spec g0 Hg0 Hne0 g0) as (g1 & E1 & Hb1 & Hgr1 & Hu1).
  { apply build_inv_base; [done.. | by rewrite Heq]. }
  destruct (addClaimDependencies_spec g0 Hg0 Hne0 g1 Hb1) as (g2 & E2 & Hb2 & Hgr2 & Hc2).
  unfold buildDependencies, mbind. rewrite E1, E2. cbn [mmodify mget]. rewrite ready_loop_spec.
  cbn [mmodify mget]. set (g3 := set_ready _ (sortChildren g2)).
  destruct Hb2 as (Hi2 & Hs2 & Hj2).
  pose proof (sortChildren_inv g2 Hi2) as Hi3.
  destruct Hs2 as (Hso & Hst & Hsr & Hsa & Hsc).
  exists g3. split; [split |].
  - destruct Hi3 as (Hwf3 & Hrest). split; [| exact Hrest].
    by apply (graph_wf_ext (sortChildren g2)).
  - change (attempts g3) with (attempts g2). by rewrite Hsa, Heq.
  - change (order g3) with (order g2). congruence.
  - change (txByID g3) with (txByID g2). by rewrite Hst, Heq.
  - change (ready g2 ++ ready_list (sortChildren g2) = ready_list (sortChildren g2)).
    by rewrite Hsr, Heq.
  - intros p c Hsp. assert (spends (txByID g0) p c) as Hsp' by (by rewrite Heq).
    destruct (Hu1 c) with (p := p) as [-> | Hd]; [| done | by left |].
    + destruct Hsp' as (tx & vin & Htx & _). by apply (wf_dom g0 (proj1 Hg0)).
    + right. exact (depends_grows g1 g2 p c Hd Hgr2).
  - intros i j u v e1 e2 Hi Hj Hij Hcf. eapply (Hc2 i j u v e1 e2); [| | done..].
    all: by rewrite Ho0, events_upto_block.
  - intros p c Hd. destruct (Hj2 p c Hd) as [Hpc [Hsp | Hbf]]; (split; [done |]); [left | right].
    + by rewrite Heq in Hsp.
    + by rewrite Ho0 in Hbf.
  - fold g3. by destruct ((len (ready g3) =? 0) && _).
Qed.
End Built.
