(* ===== verification/SchedulerProofs.v ===== *)
(** * The block scheduler's coordinator: invariants and theorems

    [core] relates a graph to the list of transactions that are live (ready, with a worker, or
    waiting for a retry); [sched_inv] adds the coordinator's counters.  Every round of the loop
    preserves it ([loop_body_inv]); the theorems at the end of the file follow for all
    reachable states. *)
From stdpp Require Import pretty.
From S2P Require Import Prelude Bytes Script Lbrycrd Scheduler SchedulerGraph.

(** ** Live transactions *)

Record core (g : blockTxGraph) (L : list string) (covering : Prop) : Prop := {
  c_wf : graph_wf g;
  c_counts : counts_ok g;
  c_done : forall t, t ∈ completed g -> t ∈ order g /\ unresolved_of g t = 0;
  c_nodup : NoDup L;
  c_live : forall t, t ∈ L -> t ∈ order g /\ t ∉ completed g /\ unresolved_of g t = 0;
  c_cover : covering -> forall t, t ∈ order g -> unresolved_of g t = 0 ->
    t ∈ completed g \/ t ∈ L;
}.

Lemma core_perm g L L' P : Permutation L L' -> core g L P -> core g L' P.
Proof.
  intros Hp [H1 H2 H3 H4 H5 H6]. split; [done.. | by rewrite <- Hp | |].
  - intros t. rewrite <- Hp. apply H5.
  - intros HP t. rewrite <- Hp. by apply H6.
Qed.

(** A live transaction given up: what is left is no longer all that is ready. *)
Lemma core_drop g t L P (Q : Prop) : core g (t :: L) P -> (Q -> False) -> core g L Q.
Proof.
  intros [H1 H2 H3 H4 H5 H6] HQ. split; [done.. | by apply NoDup_cons in H4 as [_ ?] | |].
  - intros u Hu. apply H5. by right.
  - intros HQ'. by destruct HQ.
Qed.

Lemma core_weaken g L P (Q : Prop) : core g L P -> (Q -> P) -> core g L Q.
Proof. intros [H1 H2 H3 H4 H5 H6] HQ. split; auto. Qed.

(** The invariant does not look at [ready] or [attempts]. *)
Lemma core_ext g g' L P :
  order g' = order g -> txByID g' = txByID g -> children g' = children g ->
  edgeSet g' = edgeSet g -> unresolved g' = unresolved g -> completed g' = completed g ->
  core g L P -> core g' L P.
Proof.
  intros Ho Ht Hc He Hu Hd [H1 H2 H3 H4 H5 H6].
  split; unfold counts_ok, unresolved_of, edges, children_of; rewrite ?Ho, ?Hu, ?Hd, ?Hc;
    [by eapply graph_wf_ext | assumption..].
Qed.

Lemma core_parents g L P p c :
  core g L P -> c ∈ L -> depends g p c -> p ∈ completed g.
Proof.
  intros Hc HL Hd. apply (c_live _ _ _ Hc) in HL as (_ & _ & H0).
  by eapply resolved_parents; [apply Hc | apply Hc | |].
Qed.

(** Completed transactions and live ones have all their ancestors completed. *)
Lemma core_ancestors g L P u v :
  core g L P -> path g u v -> u <> v -> v ∈ L \/ v ∈ completed g -> u ∈ completed g.
Proof.
  intros Hc Hp. revert v Hp.
  refine (rtc_ind_r (fun v => u <> v -> v ∈ L \/ v ∈ completed g -> u ∈ completed g) u _ _);
    [done |].
  intros w v Huw Hwv IH Hne Hv.
  assert (Hw : w ∈ completed g).
  { destruct Hv as [Hv | Hv]; [by eapply core_parents |].
    apply (c_done _ _ _ Hc) in Hv as [_ H0].
    eapply resolved_parents; [apply Hc | apply Hc | exact H0 | done]. }
  destruct (decide (u = w)) as [-> | Hne']; [done | auto].
Qed.

(** ** Releasing the children of a completed transaction *)

Lemma release_fold (X : gset string) (rest : string -> nat) l g :
  (forall e, e ∈ l -> child e ∈ X) ->
  (forall x, x ∈ X -> unresolved_of g x = Z.of_nat (rest x + count_if (into x) l)) ->
  let g' := foldl release_edge g l in
  (forall x, x ∈ X -> unresolved_of g' x = Z.of_nat (rest x)) /\
  exists new, ready g' = ready g ++ new /\ NoDup new /\
    (forall x, x ∈ new <-> x ∈ X /\ rest x = 0%nat /\ (0 < count_if (into x) l)%nat) /\
    order g' = order g /\ txByID g' = txByID g /\ children g' = children g /\
    edgeSet g' = edgeSet g /\ completed g' = completed g /\ attempts g' = attempts g.
Proof.
  revert g. induction l as [| e l IH]; intros g Hin Hun; cbn [foldl].
  - split.
    + intros x Hx. rewrite Hun by done. f_equal. apply Nat.add_0_r.
    + exists []. rewrite app_nil_r. split; [done | split; [apply NoDup_nil_2 | split; [| done]]].
      intros x. cbn. split; [set_solver | lia].
  - set (c := child e). assert (Hc : c ∈ X) by (apply Hin; by left).
    set (g1 := release_edge g e).
    assert (Hun1 : forall x, x ∈ X ->
      unresolved_of g1 x = Z.of_nat (rest x + count_if (into x) l)).
    { intros x Hx. specialize (Hun x Hx). rewrite count_if_cons in Hun. unfold into at 1 in Hun.
      unfold g1, release_edge. fold c in Hun |- *.
      assert (unresolved_of (set_unresolved <[c := unresolved_of g c - 1]> g) x =
        unresolved_of g x - if decide (c = x) then 1 else 0) as Heq.
      { unfold unresolved_of at 1. cbn. rewrite lookup_insert.
        destruct (decide (c = x)) as [<- | _]; [reflexivity |]. unfold unresolved_of. lia. }
      destruct (_ =? 0).
      - change (unresolved_of (set_unresolved <[c := unresolved_of g c - 1]> g) x =
          Z.of_nat (rest x + count_if (into x) l)).
        rewrite Heq, Hun. case_bool_decide; case_decide; try done; lia.
      - rewrite Heq, Hun. case_bool_decide; case_decide; try done; lia. }
    assert (Hr1 : ready g1 = ready g ++
      (if decide (rest c = 0 /\ count_if (into c) l = 0)%nat then [c] else [])).
    { pose proof (Hun1 c Hc) as Hc1. unfold g1, release_edge in *. fold c in Hc1 |- *.
      set (g' := set_unresolved _ g) in *.
      destruct (Z.eqb_spec (unresolved_of g' c) 0) as [E | E].
      - change (unresolved_of g' c = Z.of_nat (rest c + count_if (into c) l)) in Hc1.
        rewrite decide_True by lia. done.
      - rewrite decide_False by lia. by rewrite app_nil_r. }
    destruct (IH g1) as (Hres & new & Hnew & Hnd & Hiff & Ho & Ht & Hch & He & Hd & Ha);
      [intros e' He'; apply Hin; by right | done |].
    split; [done |].
    assert (Hkeep : order g1 = order g /\ txByID g1 = txByID g /\ children g1 = children g /\
      edgeSet g1 = edgeSet g /\ completed g1 = completed g /\ attempts g1 = attempts g)
      by (unfold g1, release_edge; by destruct (_ =? 0)).
    destruct Hkeep as (Ho1 & Ht1 & Hch1 & He1 & Hd1 & Ha1).
    exists ((if decide (rest c = 0 /\ count_if (into c) l = 0)%nat then [c] else []) ++ new).
    split; [rewrite Hnew, Hr1; by rewrite <- app_assoc |].
    split; [| split; [| repeat split; congruence]].
    + case_decide as Hcz; [| done]. cbn. apply NoDup_cons. split; [| done].
      rewrite Hiff. lia.
    + intros x. rewrite elem_of_app, Hiff, count_if_cons.
      change (into x e) with (bool_decide (c = x)).
      destruct (decide (c = x)) as [<- | Hcx].
      * rewrite bool_decide_true by done. case_decide as Hcz; set_unfold; naive_solver lia.
      * rewrite bool_decide_false by done. case_decide as Hcz; set_unfold; naive_solver lia.
Qed.

Lemma core_complete g t L P :
  core g (t :: L) P ->
  let g' := releaseChildren t (set_completed (fun c => {[t]} ∪ c) g) in
  exists new, ready g' = ready g ++ new /\ core g' (L ++ new) P /\
    order g' = order g /\ txByID g' = txByID g /\ edgeSet g' = edgeSet g /\
    attempts g' = attempts g /\ completed g' = {[t]} ∪ completed g /\
    (forall x, x ∈ new -> x ∈ order g /\ unresolved_of g x <> 0) /\
    (forall x, x ∈ order g -> unresolved_of g' x <> 0 -> unresolved_of g x <> 0).
Proof.
  intros Hc. set (g1 := set_completed _ g).
  destruct (c_live _ _ _ Hc t) as (Hto & Htd & Ht0); [by left |].
  pose proof (c_wf _ _ _ Hc) as Hwf.
  set (rest := fun x => count_if (pending_into ({[t]} ∪ completed g) x) (edges g)).
  assert (Hsum : forall x, x ∈ order g -> unresolved_of g x =
    Z.of_nat (rest x + count_if (into x) (children_of g t))).
  { intros x Hx. rewrite (c_counts _ _ _ Hc x Hx). f_equal. by apply complete_counts. }
  destruct (release_fold (list_to_set (order g)) rest (children_of g t) g1)
    as (Hres & new & Hr & Hnd & Hiff & Ho & Htx & Hch & He & Hd & Ha).
  { intros e Hin. apply elem_of_list_to_set. by apply (wf_edge g Hwf) in Hin as (_ & _ & ? & _). }
  { intros x Hx%elem_of_list_to_set. by apply Hsum. }
  set (g' := releaseChildren t g1). change (foldl release_edge g1 (children_of g t)) with g' in *.
  change (order g1) with (order g) in *. change (ready g1) with (ready g) in *.
  setoid_rewrite elem_of_list_to_set in Hres. setoid_rewrite elem_of_list_to_set in Hiff.
  exists new. split; [done |].
  assert (Hmono : forall x, x ∈ order g -> unresolved_of g x = 0 -> unresolved_of g' x = 0).
  { intros x Hx H0. rewrite Hres by done. rewrite Hsum in H0 by done. lia. }
  assert (Hnew : forall x, x ∈ new -> unresolved_of g x <> 0).
  { intros x (Hx & _ & Hpos)%Hiff. rewrite Hsum by done. lia. }
  pose proof (c_nodup _ _ _ Hc) as [HtL HL]%NoDup_cons.
  split; [| do 5 (split; [done |]); split; [| auto];
    intros x Hx; split; [by apply Hiff in Hx as [? _] | by apply Hnew]].
  assert (Hde : forall x, x ∈ completed g' <-> x = t \/ x ∈ completed g)
    by (intros x; rewrite Hd; cbn; set_solver).
  split.
  - by apply (graph_wf_ext g).
  - intros x Hx. rewrite Ho in Hx. rewrite Hres by done. unfold edges, children_of.
    rewrite Hd, Ho, Hch. done.
  - intros x Hx%Hde. rewrite Ho. destruct Hx as [-> | Hx]; [by split; auto |].
    destruct (c_done _ _ _ Hc x Hx). auto.
  - apply NoDup_app. split; [done | split; [| done]]. intros x HxL Hxn%Hnew.
    destruct (c_live _ _ _ Hc x) as (_ & _ & H0); [by right |]. done.
  - intros x [HxL | Hxn]%elem_of_app; rewrite Ho, Hde.
    + destruct (c_live _ _ _ Hc x) as (Hxo & Hxd & H0); [by right |].
      split; [done | split; [| by apply Hmono]]. intros [-> | ?]; done.
    + pose proof (Hnew x Hxn) as Hn0. apply Hiff in Hxn as (Hxo & Hxr & _).
      split; [done | split; [| rewrite Hres by done; lia]].
      intros [-> | Hxc]; [done |]. by apply (c_done _ _ _ Hc) in Hxc as [_ ?].
  - intros HP x Hx H0. rewrite Ho in Hx. rewrite Hres in H0 by done. rewrite Hde, elem_of_app.
    destruct (decide (unresolved_of g x = 0)) as [H0' | Hn0].
    + destruct (c_cover _ _ _ Hc HP x Hx H0') as [? | [-> | ?]%elem_of_cons]; auto.
    + right. right. apply Hiff. rewrite Hsum in Hn0 by done. split; [done |]. lia.
Qed.

(** ** The coordinator's invariant *)

Definition job_id (j : txToProcess) : string := tx_Txid (job_tx j).

Definition live (s : coordinator) : list string :=
  ready (graph s) ++ (job_id <$> inflight s) ++ retrying s.

(** The frame of every round: the block and its edges stay as they were built. *)
Definition same_block (s s' : coordinator) : Prop :=
  order (graph s') = order (graph s) /\ txByID (graph s') = txByID (graph s) /\
  edgeSet (graph s') = edgeSet (graph s) /\ completed (graph s) ⊆ completed (graph s').

#[export] Instance same_block_preorder : PreOrder same_block.
Proof.
  split; unfold same_block; [done |].
  intros s1 s2 s3 (H1 & H2 & H3 & H4) (H5 & H6 & H7 & H8).
  repeat split; [congruence.. | set_solver].
Qed.

(** Sums over a block's transactions. *)
Definition sumZ (f : string -> Z) (l : list string) : Z := foldr (fun x acc => f x + acc) 0 l.

Lemma sumZ_cons f x l : sumZ f (x :: l) = f x + sumZ f l.
Proof. done. Qed.

Lemma sumZ_ext f f' l : (forall x, x ∈ l -> f x = f' x) -> sumZ f l = sumZ f' l.
Proof.
  induction l as [| x l IH]; intros H; [done |]. rewrite !sumZ_cons.
  rewrite (H x), IH by set_solver. done.
Qed.

Lemma sumZ_change f f' l t d :
  NoDup l -> t ∈ l -> (forall x, x ∈ l -> x <> t -> f' x = f x) -> f' t = f t + d ->
  sumZ f' l = sumZ f l + d.
Proof.
  induction 1 as [| x l Hx Hnd IH]; intros Ht Hne Hd; [by apply elem_of_nil in Ht |].
  rewrite !sumZ_cons. apply elem_of_cons in Ht as [-> | Ht].
  - rewrite Hd, (sumZ_ext f' f l); [lia |]. intros y Hy. apply Hne; [by right |]. by intros ->.
  - rewrite IH; [| done | | done]; [| intros y Hy; apply Hne; by right].
    rewrite (Hne x); [lia | by left | by intros ->].
Qed.

Lemma sumZ_le f c l : (forall x, x ∈ l -> f x <= c) -> sumZ f l <= len l * c.
Proof.
  induction l as [| x l IH]; intros H; [done |]. rewrite sumZ_cons, len_cons. specialize (IH ltac:(set_solver)). specialize (H x ltac:(set_solver)). lia.
Qed.

Section Coordinator.
Context (MaxFailures blockTime blockHeight : Z) (HMF : 0 <= MaxFailures).

#[local] Notation dispatchReady := (dispatchReadyTransactions blockTime blockHeight).
#[local] Notation body := (loop_body MaxFailures blockTime blockHeight).

(** Attempts never exceed the bound, and a worker's job carries the attempts made so far. *)
Record attempts_inv (s : coordinator) : Prop := {
  at_bound : forall t, 0 <= attempts_of (graph s) t <= MaxFailures + 1;
  at_live : forall t, t ∈ live s -> attempts_of (graph s) t <= MaxFailures;
  at_blocked : forall t, t ∈ order (graph s) -> unresolved_of (graph s) t <> 0 ->
    attempts_of (graph s) t <= MaxFailures;
  at_job : forall j, j ∈ inflight s ->
    job_failcount j = attempts_of (graph s) (job_id j) /\
    txByID (graph s) !! job_id j = Some (job_tx j);
}.

Record sched_inv (s : coordinator) : Prop := {
  si_core : core (graph s) (live s) (terminalErr s = None);
  si_attempts : attempts_inv s;
  si_active : active s = len (inflight s);
  si_pending : pendingRetries s = len (retrying s);
  si_ncompleted : ncompleted s = Z.of_nat (size (completed (graph s)));
}.

Lemma sched_inv_init g :
  graph_inv g -> attempts g = ∅ -> ready g = ready_list g -> sched_inv (init_coordinator g).
Proof.
  intros (Hwf & Hc & Hd) Ha Hr. split; [| | done | done |].
  - unfold live. cbn. rewrite app_nil_r. split; [done | done | | | |].
    + rewrite Hd. set_solver.
    + rewrite Hr. unfold ready_list.
      pose proof (wf_nodup g Hwf) as Hn. apply NoDup_ListNoDup in Hn.
      apply NoDup_ListNoDup, List.NoDup_filter, Hn.
    + intros t. rewrite Hr, Hd. unfold ready_list.
      rewrite list_elem_of_In, filter_In, <- list_elem_of_In. set_unfold. naive_solver lia.
    + intros _ t Ht H0. right. rewrite Hr. unfold ready_list.
      rewrite list_elem_of_In, filter_In, <- list_elem_of_In. split; [done | lia].
  - split; cbn; unfold attempts_of; rewrite ?Ha.
    + intros t. rewrite lookup_empty. cbn. lia.
    + intros t _. rewrite lookup_empty. cbn. lia.
    + intros t _ _. rewrite lookup_empty. cbn. lia.
    + set_solver.
  - cbn. rewrite Hd, size_empty. done.
Qed.

(** ** Dispatch *)

Definition make_job (g : blockTxGraph) (tx : TxRawResult) : txToProcess :=
  {| job_tx := tx; job_blockTime := blockTime; job_blockHeight := blockHeight;
     job_failcount := attempts_of g (tx_Txid tx) |}.

Lemma no_jobs g r s :
  on_inflight (fun l => l ++ (make_job g <$> [])) (on_graph (set_ready (fun _ => r)) s) =
  on_graph (set_ready (fun _ => r)) s.
Proof. destruct s. unfold on_inflight, on_graph. cbn. by rewrite app_nil_r. Qed.
Lemma ready_id s : on_graph (set_ready (fun _ => ready (graph s))) s = s.
Proof. by destruct s as [[] ? ? ? ? ? ?]. Qed.

(** The effect of the dispatcher: it hands over a prefix of the ready list in order; only when
    it reports the stop may one more transaction be gone from the list. *)
Lemma dispatch_spec cap stops s :
  graph_wf (graph s) -> (forall t, t ∈ ready (graph s) -> t ∈ order (graph s)) ->
  exists txs lost rest err,
    let s' := on_inflight (fun l => l ++ (make_job (graph s) <$> txs))
                (on_graph (set_ready (fun _ => rest)) s) in
    dispatchReady cap stops s = (Ok (len txs, err), s') /\
    ready (graph s) = (tx_Txid <$> txs) ++ lost ++ rest /\
    (forall tx, tx ∈ txs -> txByID (graph s) !! tx_Txid tx = Some tx) /\
    (length txs <= cap)%nat /\
    (err = None -> lost = [] /\ (length txs = cap \/ rest = [])) /\
    (err = None \/ err = Some ErrManualShutDown).
Proof.
  revert stops s. induction cap as [| cap IH]; intros stops s Hwf Hord; cbn [dispatchReadyTransactions].
  - exists [], [], (ready (graph s)), None. cbv zeta. rewrite no_jobs, ready_id.
    split; [done | split; [done | split; [by intros ? ?%elem_of_nil |]]]. cbn. auto.
  - unfold mbind at 1. cbn [mget]. pose proof (ready_id s) as Hself.
    destruct (ready (graph s)) as [| t rest] eqn:Er.
    + exists [], [], [], None. cbv zeta. rewrite no_jobs, Hself.
      split; [done | split; [done | split; [by intros ? ?%elem_of_nil |]]]. cbn. auto with lia.
    + destruct (default false (head stops)).
      { exists [], [], (t :: rest), (Some ErrManualShutDown). cbv zeta.
        rewrite no_jobs, Hself. split; [done |].
        split; [done | split; [set_solver | split; [cbn; lia | split; [done | by right]]]]. }
      destruct (wf_tx _ Hwf t) as (tx & Htx & Hid); [apply Hord; by left |].
      unfold mbind at 1. cbn [mmodify]. unfold mbind at 1, mlift, tx_of. rewrite Htx.
      destruct (default false (head (tail stops))).
      { exists [], [t], rest, (Some ErrManualShutDown). cbv zeta.
        rewrite no_jobs. split; [done |].
        split; [done | split; [set_solver | split; [cbn; lia | split; [done | by right]]]]. }
      unfold mbind at 1. cbn [mmodify].
      set (s1 := on_inflight _ _).
      destruct (IH (tail (tail stops)) s1) as (txs & lost & rest' & err & E & Hr & Htxs & Hl & He & He').
      { by apply (graph_wf_ext (graph s)). }
      { intros u Hu. apply Hord. cbn in Hu. by right. }
      exists (tx :: txs), lost, rest', err. unfold mbind. rewrite E. split.
      { unfold mret. f_equal; [rewrite len_cons; do 2 f_equal; lia |].
        unfold s1, on_inflight, on_graph, make_job. cbn. rewrite Hid.
        unfold set_ready. cbn. rewrite <- app_assoc. done. }
      cbn in Hr |- *. rewrite Hid. split; [by rewrite Hr |]. split.
      { intros tx' [-> | Hin]%elem_of_cons; [congruence | by apply Htxs]. }
      split; [lia |]. split; [| done]. intros Hn. destruct (He Hn) as [-> [? | ?]]; auto with lia.
Qed.

Lemma core_drop_list g l L P (Q : Prop) :
  core g (l ++ L) P -> (Q -> P) -> (Q -> l = []) -> core g L Q.
Proof.
  intros Hc HQ Hl. destruct l as [| x l]; [by eapply core_weaken |].
  assert (HF : Q -> False) by (intros HQ'; by specialize (Hl HQ')). clear Hl HQ.
  revert x P Hc. induction l as [| y l IH]; intros x P Hc; cbn in Hc.
  - by eapply core_drop.
  - eapply (IH y False). by eapply core_drop.
Qed.

Lemma dispatch_phase_inv wc stops s :
  sched_inv s ->
  exists s', dispatch_phase blockTime blockHeight wc stops s = (Ok tt, s') /\ sched_inv s' /\
    same_block s s' /\ completed (graph s') = completed (graph s) /\
    attempts (graph s') = attempts (graph s) /\ retrying s' = retrying s /\
    (active s <= wc -> active s' <= wc) /\
    (terminalErr s' = None -> terminalErr s = None /\
       (0 < wc -> active s' = 0 -> ready (graph s') = [])) /\
    (forall e, terminalErr s' = Some e -> terminalErr s = Some e \/ e = ErrManualShutDown).
Proof.
  intros Hinv. unfold dispatch_phase, mbind at 1. cbn [mget].
  destruct (terminalErr s) as [e |] eqn:Et.
  { exists s. split; [done | split; [done | split; [reflexivity |]]].
    rewrite Et. do 4 (split; [done |]). split; [done | by auto]. }
  destruct Hinv as [Hc [Hb Hl Hk Hj] Ha Hp Hn].
  destruct (dispatch_spec (Z.to_nat (wc - active s)) stops s) as
    (txs & lost & rest & err & E & Hr & Htx & Hcap & Herr & Herr'); [apply Hc | |].
  { intros t Ht. apply (c_live _ _ _ Hc t). unfold live. set_solver. }
  cbv zeta in E. set (s1 := on_inflight _ _) in E.
  set (s2 := match err with Some e => set_terminal e s1 | None => s1 end).
  exists (add_active (len txs) s2). unfold mbind. rewrite E.
  assert (E2 : (match err with Some e => mmodify (set_terminal e) | None => mret tt end) s1 =
    (Ok tt, s2)) by (by destruct err).
  rewrite E2. split; [done |].
  assert (Hids : job_id <$> (make_job (graph s) <$> txs) = tx_Txid <$> txs).
  { rewrite <- list_fmap_compose. by apply list_fmap_ext. }
  assert (Hperm : Permutation (live s) (lost ++ live s1)).
  { unfold live, s1. cbn. rewrite Hr, fmap_app, Hids. solve_Permutation. }
  assert (Hs2 : graph s2 = graph s1 /\ inflight s2 = inflight s1 /\ retrying s2 = retrying s1 /\
    active s2 = active s1 /\ ncompleted s2 = ncompleted s1 /\
    pendingRetries s2 = pendingRetries s1) by (unfold s2; by destruct err).
  destruct Hs2 as (Hg2 & Hi2 & Hr2 & Ha2 & Hn2 & Hp2).
  assert (Hlive2 : live (add_active (len txs) s2) = live s1)
    by (unfold live; cbn; by rewrite Hg2, Hi2, Hr2).
  assert (Hterm : terminalErr s2 = err) by (unfold s2; destruct err; [done | exact Et]).
  split; [split |].
  - rewrite Hlive2. cbn. rewrite Hg2, Hterm.
    apply (core_ext (graph s)); [done.. |].
    eapply core_drop_list; [by eapply core_perm | done |]. intros Hnone. by apply Herr.
  - assert (Hsub : forall t, t ∈ live s1 -> t ∈ live s)
      by (intros t Ht; rewrite Hperm; set_solver).
    split; cbn; rewrite ?Hg2, ?Hi2; [exact Hb | | exact Hk |].
    + intros t. rewrite Hlive2. intros Ht. by apply Hl, Hsub.
    + intros j [Hj' | (tx & -> & Hin)%list_elem_of_fmap]%elem_of_app; [by apply Hj |].
      split; [done | by apply Htx].
  - cbn. rewrite Ha2, Hi2. cbn. rewrite Ha, len_app. unfold len. by rewrite length_fmap.
  - cbn. by rewrite Hp2, Hr2.
  - cbn. by rewrite Hn2, Hg2.
  - split; [unfold same_block; cbn; by rewrite Hg2 |].
    cbn. rewrite Hg2, Hr2, Ha2, Hterm. do 3 (split; [done |]). split.
    { intros Hle. cbn. unfold len. lia. }
    split; [| intros e ->; right; by destruct Herr' as [? | [= ->]]].
    intros Hnone. split; [done |]. intros Hwc H0. destruct (Herr Hnone) as [_ [Hfull | ->]]; [| done].
    cbn in H0. unfold len in *. rewrite Ha in *. lia.
Qed.

(** ** One event *)

Section Job.
Context (s : coordinator) (i : nat) (job : txToProcess).
Context (Hinv : sched_inv s) (Hjob : inflight s !! i = Some job).

Definition taken : coordinator := on_inflight (fun l => delete i l) s.

Lemma taken_live : Permutation (live s) (job_id job :: live taken).
Proof.
  unfold live, taken. cbn.
  rewrite (delete_Permutation (inflight s) i job Hjob) at 1. cbn. solve_Permutation.
Qed.

Lemma taken_core : core (graph s) (job_id job :: live taken) (terminalErr s = None).
Proof. eapply core_perm; [apply taken_live | apply Hinv]. Qed.

Lemma taken_not_live : job_id job ∉ live taken.
Proof. pose proof (c_nodup _ _ _ taken_core) as Hn. by apply NoDup_cons in Hn as [? _]. Qed.

Lemma taken_sub t : t ∈ live taken -> t ∈ live s.
Proof. intros Ht. rewrite taken_live. by right. Qed.

Lemma taken_jobs j : j ∈ inflight taken -> j ∈ inflight s /\ job_id j <> job_id job.
Proof.
  cbn. intros Hj. split.
  - rewrite (delete_Permutation (inflight s) i job Hjob). by right.
  - intros Heq. apply taken_not_live. rewrite <- Heq. unfold live. cbn.
    rewrite !elem_of_app. right. left. by apply list_elem_of_fmap_2.
Qed.

Lemma taken_active : active s - 1 = len (inflight taken).
Proof.
  rewrite (si_active s Hinv). cbn. unfold len.
  rewrite (Permutation_length (delete_Permutation (inflight s) i job Hjob)). cbn. lia.
Qed.

Lemma job_bound : job_failcount job <= MaxFailures /\ job_failcount job = attempts_of (graph s) (job_id job).
Proof.
  pose proof (at_job s (si_attempts s Hinv) job) as [-> _]; [by eapply list_elem_of_lookup_2 |].
  split; [| done]. apply (at_live s (si_attempts s Hinv)). rewrite taken_live. by left.
Qed.

(** The result is an error that ends the block, or is dropped: [g'] may count the attempt. *)
Lemma giveup_inv g' e :
  (g' = graph s \/ g' = set_attempts <[job_id job := job_failcount job + 1]> (graph s)) ->
  sched_inv (mkCoordinator g' (inflight taken) (retrying s) (active s - 1) (ncompleted s)
    (pendingRetries s) (Some e)).
Proof.
  intros Hg. set (s' := mkCoordinator _ _ _ _ _ _ _).
  assert (Hat : forall t, t <> job_id job -> attempts_of g' t = attempts_of (graph s) t).
  { intros t Hne. destruct Hg as [-> | ->]; [done |]. unfold attempts_of. cbn.
    by rewrite lookup_insert_ne. }
  assert (Hsame : order g' = order (graph s) /\ txByID g' = txByID (graph s) /\
    children g' = children (graph s) /\ edgeSet g' = edgeSet (graph s) /\
    unresolved g' = unresolved (graph s) /\ completed g' = completed (graph s) /\
    ready g' = ready (graph s)) by (by destruct Hg as [-> | ->]).
  destruct Hsame as (H1 & H2 & H3 & H4 & H5 & H6 & H7).
  assert (Hlive : live s' = live taken) by (unfold live; cbn; by rewrite H7).
  split; rewrite ?Hlive.
  - apply (core_ext (graph s)); [done.. |]. eapply core_drop; [apply taken_core | done].
  - destruct (si_attempts s Hinv) as [Hb Hl Hk Hj]. destruct job_bound as [Hjb Hje].
    split; cbn.
    + intros t. destruct (decide (t = job_id job)) as [-> | Hne]; [| by rewrite Hat].
      destruct Hg as [-> | ->]; [apply Hb |]. unfold attempts_of. cbn.
      rewrite lookup_insert_eq. cbn. pose proof (Hb (job_id job)). lia.
    + intros t Hin. rewrite Hlive in Hin. rewrite Hat; [by apply Hl, taken_sub |].
      intros ->. by apply taken_not_live.
    + intros t Hto Hun. unfold unresolved_of in Hun. rewrite H5 in Hun. rewrite H1 in Hto.
      rewrite Hat; [by apply Hk |]. intros ->.
      destruct (c_live _ _ _ taken_core (job_id job)) as (_ & _ & H0); [by left |]. done.
    + intros j [Hjs Hne]%taken_jobs. rewrite Hat, H2 by done. by apply Hj.
  - apply taken_active.
  - apply Hinv.
  - cbn. rewrite H6. apply Hinv.
Qed.

(** The result is a retryable error within the bound. *)
Lemma retry_inv :
  job_failcount job + 1 <= MaxFailures ->
  sched_inv (mkCoordinator
    (set_attempts <[job_id job := job_failcount job + 1]> (graph s)) (inflight taken)
    (retrying s ++ [job_id job]) (active s - 1) (ncompleted s) (pendingRetries s + 1)
    (terminalErr s)).
Proof.
  intros Hle. set (s' := mkCoordinator _ _ _ _ _ _ _).
  assert (Hlive : Permutation (live s') (job_id job :: live taken))
    by (unfold live; cbn; solve_Permutation).
  assert (Hat : forall t, t <> job_id job -> attempts_of (graph s') t = attempts_of (graph s) t)
    by (intros t Hne; unfold attempts_of; cbn; by rewrite lookup_insert_ne).
  assert (Hat' : attempts_of (graph s') (job_id job) = job_failcount job + 1)
    by (unfold attempts_of; cbn; by rewrite lookup_insert_eq).
  destruct (si_attempts s Hinv) as [Hb Hl Hk Hj]. destruct job_bound as [_ Hje].
  pose proof (Hb (job_id job)) as Hb0.
  split.
  - eapply core_perm; [symmetry; exact Hlive |]. apply (core_ext (graph s)); [done.. | apply taken_core].
  - split.
    + intros t. destruct (decide (t = job_id job)) as [-> | Hne]; [lia | by rewrite Hat].
    + intros t. rewrite Hlive. intros [-> | Hin]%elem_of_cons; [lia |].
      destruct (decide (t = job_id job)) as [-> | Hne]; [lia |].
      rewrite Hat by done. by apply Hl, taken_sub.
    + intros t Hto Hun. destruct (decide (t = job_id job)) as [-> | Hne]; [lia |].
      rewrite Hat by done. by apply Hk.
    + intros j [Hjs Hne]%taken_jobs. rewrite Hat by done. by apply Hj.
  - apply taken_active.
  - cbn. rewrite len_app, (si_pending s Hinv). done.
  - apply Hinv.
Qed.

(** The transaction was processed. *)
Lemma success_inv :
  let g' := releaseChildren (job_id job) (set_completed (fun c => {[job_id job]} ∪ c) (graph s)) in
  let s' := mkCoordinator g' (inflight taken) (retrying s) (active s - 1) (ncompleted s + 1)
              (pendingRetries s) (terminalErr s) in
  sched_inv s' /\ same_block s s' /\ attempts g' = attempts (graph s) /\
  completed g' = {[job_id job]} ∪ completed (graph s) /\ job_id job ∉ completed (graph s) /\
  job_id job ∈ order (graph s).
Proof.
  intros g' s'.
  destruct (core_complete _ _ _ _ taken_core) as (new & Hr & Hc & Ho & Ht & He & Ha & Hd & Hnew & Hun).
  fold g' in Hr, Hc, Ho, Ht, He, Ha, Hd, Hun.
  assert (Hlive : Permutation (live s') (live taken ++ new))
    by (unfold live; cbn; rewrite Hr; solve_Permutation).
  destruct (c_live _ _ _ taken_core (job_id job)) as (Hjo & Hjd & _); [by left |].
  destruct (si_attempts s Hinv) as [Hb Hl Hk Hj].
  split; [split | split; [split; [done | split; [done | split; [done | cbn; set_solver]]] |
    done]].
  - eapply core_perm; [symmetry; exact Hlive | exact Hc].
  - split.
    + intros t. unfold attempts_of. cbn. rewrite Ha. apply Hb.
    + intros t. rewrite Hlive. unfold attempts_of. cbn. rewrite Ha.
      intros [Hin | Hin]%elem_of_app; [by apply Hl, taken_sub |].
      destruct (Hnew t Hin). by apply Hk.
    + intros t Hto Hu. unfold attempts_of. cbn. rewrite Ha. cbn in Hto. rewrite Ho in Hto.
      apply Hk; [done | by apply Hun].
    + intros j [Hjs Hne]%taken_jobs. unfold attempts_of. cbn. rewrite Ha, Ht. by apply Hj.
  - apply taken_active.
  - apply Hinv.
  - cbn. rewrite Hd, size_union, size_singleton, (si_ncompleted s Hinv) by set_solver. lia.
Qed.
End Job.

(** ** The measure that every round decreases

    A transaction that still has to run costs two rounds per attempt left and one to finish,
    and one more while its retry timer runs; once the block is given up only the results of
    the running workers are awaited. *)
Definition spent_on (g : blockTxGraph) (t : string) : Z :=
  if decide (t ∈ completed g) then 2 * (MaxFailures + 1) + 1 else 2 * attempts_of g t.
Definition cost (s : coordinator) : Z :=
  len (order (graph s)) * (2 * (MaxFailures + 1) + 1) -
  sumZ (spent_on (graph s)) (order (graph s)) + len (retrying s).
Definition measure (wc : Z) (s : coordinator) : Z :=
  match terminalErr s with None => cost s + wc + 1 | Some _ => active s end.

Lemma cost_nonneg s : sched_inv s -> 0 <= cost s.
Proof.
  intros Hinv. unfold cost. pose proof (len_nonneg (retrying s)).
  enough (sumZ (spent_on (graph s)) (order (graph s)) <=
    len (order (graph s)) * (2 * (MaxFailures + 1) + 1)) by lia.
  apply sumZ_le. intros t Ht. unfold spent_on. case_decide as Hd; [lia |].
  pose proof (at_bound s (si_attempts s Hinv) t). lia.
Qed.

(** What one event does, if it can happen. *)
Definition event_ok (wc : Z) (s : coordinator) (out : res flow * coordinator) : Prop :=
  out.1 = Ok Blocked \/
  out.1 = Ok Continue /\ sched_inv out.2 /\ same_block s out.2 /\ active out.2 <= active s /\
  measure wc out.2 < measure wc s.

Lemma event_ok_intro wc s s' :
  sched_inv s' -> same_block s s' -> active s' <= active s -> measure wc s' < measure wc s ->
  event_ok wc s (Ok Continue, s').
Proof. intros. right. auto. Qed.

Lemma spent_change s s' t d (Hnd : NoDup (order (graph s))) :
  order (graph s') = order (graph s) -> t ∈ order (graph s) ->
  (forall x, x <> t -> spent_on (graph s') x = spent_on (graph s) x) ->
  spent_on (graph s') t = spent_on (graph s) t + d ->
  cost s' = cost s - d + (len (retrying s') - len (retrying s)).
Proof.
  intros Ho Ht Hne Hd. unfold cost. rewrite Ho.
  rewrite (sumZ_change (spent_on (graph s)) (spent_on (graph s')) _ t d) by auto. lia.
Qed.

Lemma select_result_eq i err stopped s job :
  inflight s !! i = Some job ->
  select_event MaxFailures (EvResult i err stopped) s =
  match receive_result MaxFailures (runScheduledTxWorker job err) stopped (taken s i) with
  | (Ok _, s') => (Ok Continue, s')
  | (Err e, s') => (Err e, s')
  | (Panic e, s') => (Panic e, s')
  end.
Proof.
  intros Hjob. unfold select_event, take_job, mbind at 1. unfold mbind at 1. cbn [mget].
  rewrite Hjob. done.
Qed.

Section Result.
Context (wc : Z) (s : coordinator) (i : nat) (job : txToProcess).
Context (Hinv : sched_inv s) (Hnone : terminalErr s = None) (Hwc : active s <= wc).
Context (Hjob : inflight s !! i = Some job).

Lemma giveup_event g' e :
  (g' = graph s \/ g' = set_attempts <[job_id job := job_failcount job + 1]> (graph s)) ->
  event_ok wc s (Ok Continue, mkCoordinator g' (inflight (taken s i)) (retrying s)
    (active s - 1) (ncompleted s) (pendingRetries s) (Some e)).
Proof.
  intros Hg. apply event_ok_intro.
  - by apply (giveup_inv s i job).
  - by destruct Hg as [-> | ->].
  - cbn. lia.
  - unfold measure. rewrite Hnone. cbn. pose proof (cost_nonneg s Hinv). lia.
Qed.

Lemma retry_event :
  job_failcount job + 1 <= MaxFailures ->
  event_ok wc s (Ok Continue, mkCoordinator
    (set_attempts <[job_id job := job_failcount job + 1]> (graph s)) (inflight (taken s i))
    (retrying s ++ [job_id job]) (active s - 1) (ncompleted s) (pendingRetries s + 1)
    (terminalErr s)).
Proof.
  intros Hle. apply event_ok_intro; [by apply (retry_inv s i job) | done | cbn; lia |].
  unfold measure. cbn [terminalErr]. rewrite Hnone.
  destruct (c_live _ _ _ (taken_core s i job Hinv Hjob) (job_id job)) as (Hjo & Hjd & _);
    [by left |].
  destruct (job_bound s i job Hinv Hjob) as [_ Hje].
  rewrite (spent_change s _ (job_id job) 2 (wf_nodup _ (c_wf _ _ _ (si_core s Hinv)))).
  - cbn [retrying]. rewrite len_app, len_cons. unfold len. cbn. lia.
  - done.
  - done.
  - intros x Hx. unfold spent_on. cbn. case_decide; [done |]. unfold attempts_of. cbn.
    by rewrite lookup_insert_ne.
  - unfold spent_on. cbn. rewrite !decide_False by done. unfold attempts_of at 1. cbn.
    rewrite lookup_insert_eq. cbn. lia.
Qed.

Lemma success_event :
  event_ok wc s (Ok Continue, mkCoordinator
    (releaseChildren (job_id job) (set_completed (fun c => {[job_id job]} ∪ c) (graph s)))
    (inflight (taken s i)) (retrying s) (active s - 1) (ncompleted s + 1)
    (pendingRetries s) (terminalErr s)).
Proof.
  destruct (success_inv s i job Hinv Hjob) as (Hs & Hsame & Ha & Hd & Hjd & Hjo).
  apply event_ok_intro; [exact Hs | exact Hsame | cbn; lia |].
  unfold measure. cbn [terminalErr]. rewrite Hnone.
  rewrite (spent_change s _ (job_id job)
    (2 * (MaxFailures + 1) + 1 - 2 * attempts_of (graph s) (job_id job))
    (wf_nodup _ (c_wf _ _ _ (si_core s Hinv)))).
  - cbn [retrying]. destruct (job_bound s i job Hinv Hjob). lia.
  - apply Hsame.
  - done.
  - intros x Hx. unfold spent_on, attempts_of. cbn [graph]. rewrite Hd, Ha.
    repeat case_decide; done || set_solver.
  - unfold spent_on. cbn [graph]. rewrite Hd. rewrite decide_True by set_solver.
    rewrite decide_False by done. lia.
Qed.

Lemma result_event err stopped :
  event_ok wc s (select_event MaxFailures (EvResult i err stopped) s).
Proof.
  rewrite (select_result_eq i err stopped s job Hjob).
  unfold receive_result, mbind at 1. cbn [mmodify]. destruct stopped.
  { apply giveup_event. by left. }
  unfold runScheduledTxWorker. cbn [result_err result_tx].
  destruct err as [e |]; [| apply success_event].
  unfold handleScheduledTxError. cbn [result_tx result_failcount result_blockHeight].
  change (tx_Txid (job_tx job)) with (job_id job).
  unfold mbind, mget, mmodify, mret.
  destruct (missingSourceOutputFromError e) as [[p n] |].
  - case_bool_decide; apply giveup_event; by right.
  - destruct (negb (isRetryableScheduledTxError e)); [apply giveup_event; by right |].
    destruct (Z.ltb_spec MaxFailures (job_failcount job + 1)) as [Hlt | Hle];
      [apply giveup_event; by right |]. by apply retry_event.
Qed.
End Result.

Lemma retry_ready_event wc s i :
  sched_inv s -> terminalErr s = None ->
  event_ok wc s (select_event MaxFailures (EvRetry i) s).
Proof.
  intros Hinv Hnone. unfold select_event, mbind at 1. cbn [mget].
  destruct (retrying s !! i) as [t |] eqn:Ht; [| by left].
  apply event_ok_intro.
  - destruct Hinv as [Hc [Hb Hl Hk Hj] Ha Hp Hn].
    pose proof (delete_Permutation (retrying s) i t Ht) as Hperm.
    set (s' := mkCoordinator (set_ready (fun r => r ++ [t]) (graph s)) (inflight s)
      (delete i (retrying s)) (active s) (ncompleted s) (pendingRetries s + -1) (terminalErr s)).
    change (sched_inv s').
    assert (Hlive : Permutation (live s) (live s')).
    { unfold live, s'. cbn. rewrite Hperm at 1. solve_Permutation. }
    split; [| split | done | | done].
    + eapply core_perm; [exact Hlive |]. by apply (core_ext (graph s)).
    + exact Hb.
    + intros u Hu. rewrite <- Hlive in Hu. by apply Hl.
    + exact Hk.
    + exact Hj.
    + cbn. rewrite Hp. unfold len. rewrite (Permutation_length Hperm). cbn. lia.
  - done.
  - cbn. lia.
  - pose proof (Permutation_length (delete_Permutation (retrying s) i t Ht)) as Hlen.
    unfold measure, on_graph, add_pending, on_retrying. cbn [terminalErr]. rewrite Hnone.
    unfold cost. cbn [graph retrying].
    change (sumZ (spent_on (set_ready (fun r => r ++ [t]) (graph s)))
      (order (set_ready (fun r => r ++ [t]) (graph s)))) with
      (sumZ (spent_on (graph s)) (order (graph s))).
    change (order (set_ready (fun r => r ++ [t]) (graph s))) with (order (graph s)).
    unfold len. cbn [length] in Hlen. lia.
Qed.

Lemma stop_event wc s :
  sched_inv s -> terminalErr s = None -> active s <= wc ->
  event_ok wc s (select_event MaxFailures EvStop s).
Proof.
  intros Hinv Hnone Hwc. apply event_ok_intro.
  - destruct Hinv as [Hc [Hb Hl Hk Hj] Ha Hp Hn]. split; [by eapply core_weaken | | done..].
    by split.
  - done.
  - cbn. lia.
  - unfold measure. cbn. rewrite Hnone. pose proof (cost_nonneg s Hinv). lia.
Qed.

Lemma select_event_ok wc ev s :
  sched_inv s -> terminalErr s = None -> active s <= wc ->
  event_ok wc s (select_event MaxFailures ev s).
Proof.
  intros Hinv Hnone Hwc. destruct ev as [i err stopped | i |].
  - destruct (inflight s !! i) as [job |] eqn:Hjob; [by eapply result_event |].
    left. unfold select_event, take_job, mbind at 1. unfold mbind at 1. cbn [mget].
    by rewrite Hjob.
  - by apply retry_ready_event.
  - by apply stop_event.
Qed.

Lemma drain_ok wc ev s :
  sched_inv s -> terminalErr s <> None -> event_ok wc s (drain_result ev s).
Proof.
  intros Hinv Hterm. destruct ev as [i err stopped | i |]; [| by left..].
  unfold drain_result, take_job, mbind at 1. unfold mbind at 1. cbn [mget].
  destruct (inflight s !! i) as [job |] eqn:Hjob; [| by left].
  destruct (terminalErr s) as [e |] eqn:He; [| done].
  apply event_ok_intro; [| done | cbn; lia | unfold measure; cbn; rewrite He; lia].
  pose proof (giveup_inv s i job Hinv Hjob (graph s) e (or_introl eq_refl)) as Hg.
  unfold taken, on_inflight in Hg. unfold add_active, on_inflight. cbn in Hg |- *. by rewrite He.
Qed.

(** The loop's stall check. *)
Definition stalled (s : coordinator) : bool :=
  (active s =? 0) && (len (ready (graph s)) =? 0) && (pendingRetries s =? 0).

(** One whole round. *)
Lemma loop_body_inv wc c s :
  sched_inv s -> active s <= wc ->
  exists s1, dispatch_phase blockTime blockHeight wc (ch_stops c) s = (Ok tt, s1) /\
    sched_inv s1 /\ same_block s s1 /\ completed (graph s1) = completed (graph s) /\
    ncompleted s1 = ncompleted s /\
    (forall e, terminalErr s1 = Some e -> terminalErr s = Some e \/ e = ErrManualShutDown) /\
    ((exists s', body wc c s = (Ok Blocked, s')) \/
     (exists s', body wc c s = (Ok Continue, s') /\ sched_inv s' /\ same_block s s' /\
        active s' <= wc /\ measure wc s' < measure wc s) \/
     (exists e s', body wc c s = (Ok Break, s') /\ terminalErr s' = Some e /\
        graph s' = graph s1 /\ active s1 = 0 /\
        (terminalErr s1 = Some e \/ terminalErr s1 = None /\ stalled s1 = true))).
Proof.
  intros Hinv Hwc.
  destruct (dispatch_phase_inv wc (ch_stops c) s Hinv) as
    (s1 & E & Hinv1 & Hsame & Hd & Ha & Hr & Hact & Hnone & Hterm).
  specialize (Hact Hwc).
  exists s1. split; [done |]. split; [done |]. split; [done |]. split; [done |]. split.
  { rewrite (si_ncompleted s1 Hinv1), (si_ncompleted s Hinv). by rewrite Hd. }
  split; [done |].
  assert (Hm : measure wc s1 <= measure wc s).
  { unfold measure. destruct (terminalErr s1) as [e |] eqn:E1.
    - destruct (terminalErr s) as [e' |] eqn:E0.
      + unfold dispatch_phase, mbind in E. cbn [mget] in E. rewrite E0 in E.
        unfold mret in E. simplify_eq. lia.
      + pose proof (cost_nonneg s Hinv). lia.
    - destruct (Hnone eq_refl) as [-> _]. unfold cost.
      destruct Hsame as (-> & _). rewrite Hr.
      rewrite (sumZ_ext (spent_on (graph s1)) (spent_on (graph s))); [lia |].
      intros x _. unfold spent_on, attempts_of. by rewrite Hd, Ha. }
  unfold loop_body. unfold mbind. rewrite E. unfold settle_phase, mbind at 1 3 5. cbn [mget].
  assert (Hev : forall out, event_ok wc s1 out ->
    (exists s', out = (Ok Blocked, s')) \/
    (exists s', out = (Ok Continue, s') /\ sched_inv s' /\ same_block s s' /\
       active s' <= wc /\ measure wc s' < measure wc s)).
  { intros [r s'] [Hb | (Hb & Hi & Hs & Hle & Hlt)]; cbn in *; subst r.
    - left. by exists s'.
    - right. exists s'. split; [done |]. split; [done |]. split; [by etrans |]. lia. }
  fold (stalled s1).
  destruct (terminalErr s1) as [e |] eqn:E1.
  - destruct (Z.eqb_spec (active s1) 0) as [H0 | H0].
    + right. right. exists e, s1. split; [done |]. split; [exact E1 |]. auto.
    + assert (Ht1 : terminalErr s1 <> None) by congruence.
      destruct (Hev _ (drain_ok wc (ch_event c) s1 Hinv1 Ht1)) as [? | ?]; auto.
  - destruct (stalled s1) eqn:Est.
    + right. right. exists (stalled_error s1). eexists. split; [reflexivity |].
      split; [done |]. split; [done |]. split; [unfold stalled in Est; lia | by right].
    + destruct (Hev _ (select_event_ok wc (ch_event c) s1 Hinv1 E1 Hact)) as [? | ?]; auto.
Qed.
(** A result of a running job is always received. *)
Lemma receive_result_Ok r stopped s : exists s', receive_result MaxFailures r stopped s = (Ok tt, s').
Proof.
  unfold receive_result, handleScheduledTxError, mbind, mget, mret, mmodify.
  destruct stopped; [eauto |]. destruct (result_err r); [| eauto].
  destruct (missingSourceOutputFromError _) as [[p n] |]; [case_bool_decide; eauto |].
  destruct (negb _); [eauto |]. destruct (_ <? _); eauto.
Qed.

(** After the dispatch a round ends without the stopper: there is nothing to wait for, or a
    worker holds a job, or a timer runs. *)
Lemma settle_progress s :
  sched_inv s -> (terminalErr s = None -> active s = 0 -> ready (graph s) = []) ->
  (exists s', forall ev, settle_phase MaxFailures ev s = (Ok Break, s')) \/
  (exists i, forall err stopped, exists s',
     settle_phase MaxFailures (EvResult i err stopped) s = (Ok Continue, s')) \/
  (exists i s', settle_phase MaxFailures (EvRetry i) s = (Ok Continue, s')).
Proof.
  intros Hi Hready. unfold settle_phase, mbind at 1 3 5. cbn [mget].
  destruct (Z.eqb_spec (active s) 0) as [Ha | Ha]; cycle 1.
  - (* a worker holds a job *)
    rewrite (si_active _ Hi) in Ha. destruct (inflight s) as [| job l] eqn:El; [done |].
    cbn [andb]. right. left. exists 0%nat. intros err stopped.
    destruct (terminalErr s).
    + unfold drain_result, take_job, mbind. cbn [mget]. rewrite ?El. by eexists.
    + rewrite (select_result_eq 0 err stopped s job) by (by rewrite El).
      destruct (receive_result_Ok (runScheduledTxWorker job err) stopped (taken s 0)) as [s' ->].
      by eexists.
  - destruct (terminalErr s) as [e |] eqn:Et; [left; eexists; intros ev; done |].
    rewrite (Hready eq_refl Ha). cbn [len length Z.of_nat Z.eqb andb].
    destruct (Z.eqb_spec (pendingRetries s) 0) as [Hp | Hp]; [left; eexists; intros ev; done |].
    rewrite (si_pending _ Hi) in Hp. destruct (retrying s) as [| t l] eqn:El; [done |].
    right. right. exists 0%nat. unfold select_event, mbind. cbn [mget]. rewrite andb_false_r.
    cbn. rewrite El. by eexists.
Qed.
End Coordinator.

(** ** Reachable states of a block's run *)

Section Run.
Context `{Hashes, PurchaseCodec}.
Context (MaxParallelTxProcessing MaxFailures blockTime blockHeight : Z) (HMF : 0 <= MaxFailures).
Context (txs : list TxRawResult) (g : blockTxGraph) (Hbuilt : built txs g).

#[local] Notation wc := (worker_count MaxParallelTxProcessing g).
#[local] Notation step := (sched_step MaxFailures blockTime blockHeight wc).
#[local] Notation body := (loop_body MaxFailures blockTime blockHeight wc).

Lemma worker_count_pos : 1 <= wc.
Proof. unfold worker_count. destruct (Z.ltb_spec (Min (len (order g)) MaxParallelTxProcessing) 1); lia. Qed.

Record run_inv (s : coordinator) : Prop := {
  ru_inv : sched_inv MaxFailures s;
  ru_block : same_block (init_coordinator g) s;
  ru_active : active s <= wc;
}.

Lemma run_inv_init : run_inv (init_coordinator g).
Proof.
  split; [| reflexivity | cbn; pose proof worker_count_pos; lia].
  by apply sched_inv_init; [| apply Hbuilt..].
Qed.

Lemma run_inv_step s s' :
  run_inv s -> step s s' -> run_inv s' /\ measure MaxFailures wc s' < measure MaxFailures wc s.
Proof.
  intros [Hi Hb Ha] Hstep. destruct Hstep as [c s s' Hc Hbody].
  destruct (loop_body_inv MaxFailures blockTime blockHeight HMF wc c s Hi Ha) as
    (s0 & _ & _ & _ & _ & _ & _ & [(s3 & E) | [(s3 & E & Hi' & Hb' & Ha' & Hm) | (e & s3 & E & _)]]);
    rewrite E in Hbody; simplify_eq.
  split; [| done]. split; [done | by etrans | done].
Qed.

Lemma run_inv_reachable s : rtc step (init_coordinator g) s -> run_inv s.
Proof.
  revert s. refine (rtc_ind_r run_inv _ run_inv_init _).
  intros s1 s2 _ Hstep Hi. by apply (run_inv_step s1).
Qed.

Lemma run_order s : run_inv s -> order (graph s) = block_ids txs.
Proof. intros Hr. rewrite <- (bt_order _ _ Hbuilt). apply (ru_block s Hr). Qed.

Lemma run_depends s p c : run_inv s -> depends (graph s) p c <-> depends g p c.
Proof.
  intros Hr. unfold depends. destruct (ru_block s Hr) as (_ & _ & He & _). rewrite He. done.
Qed.

Lemma run_path s p c : run_inv s -> path g p c -> path (graph s) p c.
Proof.
  intros Hr. unfold path. apply rtc_subrel. intros x y. by apply run_depends.
Qed.

(** All the ancestors of a transaction that a worker holds are completed. *)
Lemma run_ancestors s job u :
  run_inv s -> job ∈ inflight s -> path g u (job_id job) -> u <> job_id job ->
  u ∈ completed (graph s).
Proof.
  intros Hr Hj Hp Hne. eapply (core_ancestors _ _ _ u (job_id job)).
  - apply (ru_inv s Hr).
  - by apply run_path.
  - done.
  - left. unfold live. rewrite !elem_of_app. right. left. by apply list_elem_of_fmap_2.
Qed.

(** The number of completed transactions is the size of the block exactly when all are. *)
Lemma run_all_completed s :
  run_inv s -> loop_condition s = false -> completed (graph s) = list_to_set (block_ids txs).
Proof.
  intros Hr Hc. pose proof (ru_inv s Hr) as Hi. pose proof (run_order s Hr) as Ho.
  assert (Hsub : completed (graph s) ⊆ list_to_set (block_ids txs)).
  { intros t Ht. apply (c_done _ _ _ (si_core _ _ Hi)) in Ht as [Ht _].
    rewrite Ho in Ht. set_solver. }
  apply set_subseteq_size_eq; [done |].
  rewrite size_list_to_set.
  - unfold loop_condition in Hc. rewrite (si_ncompleted _ _ Hi), Ho in Hc. unfold len in Hc. lia.
  - rewrite <- Ho. apply (wf_nodup _ (c_wf _ _ _ (si_core _ _ Hi))).
Qed.

(** How the executable loop ends, in terms of reachable states. *)
Lemma scheduler_loop_end cs s r :
  rtc step (init_coordinator g) s ->
  scheduler_loop MaxFailures blockTime blockHeight wc cs s = Some r ->
  exists s0 s', r = Ok s' /\ rtc step (init_coordinator g) s0 /\
    ((s' = s0 /\ loop_condition s0 = false) \/
     (loop_condition s0 = true /\ exists c, body c s0 = (Ok Break, s'))).
Proof.
  revert s. induction cs as [| c cs IH]; intros s Hs; cbn [scheduler_loop];
    destruct (loop_condition s) eqn:Hc; cbn [negb]; intros E; simplify_eq.
  - exists s, s. auto.
  - pose proof (run_inv_reachable s Hs) as [Hi Hb Ha].
    destruct (loop_body_inv MaxFailures blockTime blockHeight HMF wc c s Hi Ha) as
      (s1 & _ & _ & _ & _ & _ & _ & [(s3 & E3) | [(s3 & E3 & _) | (e & s3 & E3 & _)]]);
      rewrite E3 in E; simplify_eq.
    + apply (IH s3); [| done]. eapply rtc_r; [done |]. by econstructor.
    + exists s, s3. split; [done |]. split; [done |]. right. split; [done |]. by exists c.
  - exists s, s. auto.
Qed.

(** ** Results of the workers, and the errors a run ends with *)

(** The results the coordinator has had from its workers in a run with the choices [cs]: each
    with the job that was answered. *)
Fixpoint answered (workers : Z) (cs : list choice) (s : coordinator)
  : list (txToProcess * option error) :=
  if negb (loop_condition s) then []
  else
    match cs with
    | [] => []
    | c :: cs' =>
        let s1 := (dispatch_phase blockTime blockHeight workers (ch_stops c) s).2 in
        let here :=
          match ch_event c with
          | EvResult i err _ =>
              match inflight s1 !! i with Some job => [(job, err)] | None => [] end
          | _ => []
          end in
        match loop_body MaxFailures blockTime blockHeight workers c s with
        | (Ok Continue, s') => here ++ answered workers cs' s'
        | _ => here
        end
    end.

(** The error a job's error ends the block with. *)
Inductive gives_up (job : txToProcess) : error -> error -> Prop :=
| source_in_block err p n :
    missingSourceOutputFromError err = Some (p, n) -> p ∈ block_ids txs ->
    gives_up job err (ErrSchedulerInvariant
      ("same-block source output " +:+ p +:+ ":" +:+ pretty n +:+
       " missing while processing " +:+ job_id job +:+ " at block " +:+
       pretty (job_blockHeight job)))
| source_missing err p n :
    missingSourceOutputFromError err = Some (p, n) -> p ∉ block_ids txs -> gives_up job err err
| not_retried err :
    missingSourceOutputFromError err = None -> isRetryableScheduledTxError err = false ->
    gives_up job err err
| retried_too_often err :
    missingSourceOutputFromError err = None -> isRetryableScheduledTxError err = true ->
    MaxFailures < job_failcount job + 1 ->
    gives_up job err (ErrPrefix
      ("transaction " +:+ job_id job +:+ " failed more than " +:+ pretty MaxFailures +:+ " times")
      err).

Lemma settle_error ev s r s' e :
  NoDup (block_ids txs) -> txByID (graph s) = txByID g ->
  settle_phase MaxFailures ev s = (r, s') -> terminalErr s' = Some e ->
  terminalErr s = Some e \/ e = ErrManualShutDown \/ (r = Ok Break /\ e = stalled_error s') \/
  exists i job err, ev = EvResult i (Some err) false /\ inflight s !! i = Some job /\
    gives_up job err e.
Proof.
  intros Hnd Hm. unfold settle_phase, mbind at 1. cbn [mget].
  destruct (terminalErr s) as [e0 |] eqn:Et.
  { intros E He. left. rewrite <- Et. revert E. destruct (active s =? 0); [by intros [= _ <-] |].
    unfold drain_result, take_job, mbind, mget, mret, mmodify.
    destruct ev; try (by intros [= _ <-]). destruct (inflight s !! i); intros [= _ <-]; cbn in *;
      congruence. }
  destruct (_ && _ && _).
  { intros [= <- <-] [= <-]. right. right. left. done. }
  destruct ev as [i err stopped | i |]; cycle 1.
  { unfold select_event, mbind, mget, mret, mmodify.
    destruct (retrying s !! i); intros [= _ <-]; cbn; rewrite Et; congruence. }
  { intros [= _ <-] [= <-]. auto. }
  destruct (inflight s !! i) as [job |] eqn:Ej; cycle 1.
  { unfold select_event, take_job, mbind, mget, mret. rewrite Ej. intros [= _ <-]. congruence. }
  rewrite (select_result_eq MaxFailures i err stopped s job Ej).
  unfold receive_result, mbind at 1. cbn [mmodify]. destruct stopped.
  { intros [= _ <-] [= <-]. auto. }
  destruct err as [err |]; cbn [result_err runScheduledTxWorker]; cycle 1.
  { unfold mbind, mmodify. intros [= _ <-]. cbn. congruence. }
  unfold handleScheduledTxError, mbind, mget, mret, mmodify.
  cbn [result_tx result_failcount result_blockHeight].
  change (tx_Txid (job_tx job)) with (job_id job). cbn [graph on_graph add_active txByID set_attempts].
  assert (Hb : forall p, bool_decide (is_Some (txByID (graph (taken s i)) !! p)) = true <->
    p ∈ block_ids txs).
  { intros p. change (graph (taken s i)) with (graph s). rewrite Hm, (bt_map _ _ Hbuilt), bool_decide_eq_true.
    split.
    - intros [tx [Hin <-]%block_lookup]; [by apply list_elem_of_fmap_2 | done].
    - intros (tx & -> & Hin)%list_elem_of_fmap. exists tx. by apply block_lookup. }
  intros E He. right. right. right. exists i, job, err. split; [done | split; [done |]].
  destruct (missingSourceOutputFromError err) as [[p n] |] eqn:Em.
  - case_bool_decide as Hin; simplify_eq/=.
    + eapply source_in_block; [done |]. apply Hb. by apply bool_decide_eq_true.
    + eapply source_missing; [done |]. rewrite <- Hb. by rewrite bool_decide_eq_true.
  - destruct (isRetryableScheduledTxError err) eqn:Er; cbn [negb] in E.
    + cbn [result_failcount runScheduledTxWorker] in E.
      destruct (Z.ltb_spec MaxFailures (job_failcount job + 1)) as [Hlt | Hle]; simplify_eq/=.
      by apply retried_too_often.
    + simplify_eq/=. by apply not_retried.
Qed.

(** Where the error comes from that a run ends with: it was recorded before, the stopper was
    seen, the stall check fired, or a worker answered an error that ends the block. *)
Lemma scheduler_loop_error cs s s' e :
  NoDup (block_ids txs) -> rtc step (init_coordinator g) s ->
  scheduler_loop MaxFailures blockTime blockHeight wc cs s = Some (Ok s') ->
  terminalErr s' = Some e ->
  terminalErr s = Some e \/ e = ErrManualShutDown \/ e = stalled_error s' \/
  exists job err, (job, Some err) ∈ answered wc cs s /\ gives_up job err e.
Proof.
  intros Hnd. revert s. induction cs as [| c cs IH]; intros s Hs; cbn [scheduler_loop answered];
    destruct (loop_condition s) eqn:Hc; cbn [negb]; intros E He; simplify_eq; auto.
  pose proof (run_inv_reachable s Hs) as [Hi Hb Ha].
  destruct (loop_body_inv MaxFailures blockTime blockHeight HMF wc c s Hi Ha) as
    (s1 & Ed & _ & Hb1 & _ & _ & Ht1 & _). rewrite Ed. cbn [snd].
  destruct (body c s) as [[f | e0 | e0] s3] eqn:Eb; [| by simplify_eq ..].
  assert (Hset : settle_phase MaxFailures (ch_event c) s1 = (Ok f, s3))
    by (revert Eb; unfold loop_body, mbind at 1; by rewrite Ed).
  assert (Hm : txByID (graph s1) = txByID g).
  { destruct (Hb) as (_ & Hm & _), Hb1 as (_ & Hm1 & _). by rewrite Hm1, Hm. }
  assert (Hstep : terminalErr s3 = Some e -> terminalErr s = Some e \/ e = ErrManualShutDown \/
    (f = Break /\ e = stalled_error s3) \/
    exists job err, (job, Some err) ∈ (match ch_event c with
      | EvResult i err _ =>
          match inflight s1 !! i with Some job => [(job, err)] | None => [] end
      | _ => [] end) /\ gives_up job err e).
  { intros He3. destruct (settle_error _ _ _ _ _ Hnd Hm Hset He3) as
      [H1 | [H1 | [[[= ->] H1] | (i & job & err & Hev & Hj & Hg)]]]; auto.
    - destruct (Ht1 _ H1); auto.
    - right. right. right. exists job, err. rewrite Hev, Hj. split; [by left | done]. }
  destruct f; [| | done].
  - destruct (IH s3) as [H1 | [H1 | [H1 | (job & err & Hj & Hg)]]]; auto.
    + eapply rtc_r; [done |]. by econstructor.
    + destruct (Hstep H1) as [? | [? | [[? ?] | (job & err & Hj & Hg)]]]; auto; [done |].
      right. right. right. exists job, err. rewrite elem_of_app. auto.
    + right. right. right. exists job, err. rewrite elem_of_app. auto.
  - simplify_eq. destruct (Hstep He) as [? | [? | [[? ?] | ?]]]; auto.
Qed.

(** In block order every transaction only depends on earlier ones: the first one that is not
    completed has nothing to wait for. *)
Definition forward : Prop := forall p c, depends g p c -> before (block_ids txs) p c.

Lemma first_missing (P : string -> Prop) `{!forall x, Decision (P x)} (l : list string) :
  ~ (forall x, x ∈ l -> P x) ->
  exists i x, l !! i = Some x /\ ~ P x /\ forall j y, (j < i)%nat -> l !! j = Some y -> P y.
Proof.
  induction l as [| x l IH]; intros Hn; [exfalso; apply Hn; set_solver |].
  destruct (decide (P x)) as [Hx | Hx].
  - destruct IH as (i & y & Hy & Hny & Hall).
    + intros Hall. apply Hn. intros y [-> | Hy]%elem_of_cons; auto.
    + exists (S i), y. split; [done | split; [done |]].
      intros [| j] z Hj Hz; cbn in Hz; [congruence |]. apply (Hall j z); [lia | done].
  - exists 0%nat, x. split; [done | split; [done |]]. intros j y Hj. lia.
Qed.

Lemma not_stalled s :
  forward -> run_inv s -> loop_condition s = true -> terminalErr s = None -> stalled s = false.
Proof.
  intros Hfwd Hr Hc Hnone. destruct (stalled s) eqn:Hst; [exfalso | done].
  pose proof (ru_inv s Hr) as Hi. pose proof (run_order s Hr) as Ho.
  assert (Hlive : live s = []).
  { unfold stalled in Hst. rewrite (si_active _ _ Hi), (si_pending _ _ Hi) in Hst.
    unfold live. unfold len in Hst.
    destruct (inflight s), (retrying s), (ready (graph s)); cbn in Hst; done || lia. }
  destruct (first_missing (fun t => t ∈ completed (graph s)) (block_ids txs)) as
    (i & t & Ht & Hnt & Hbefore).
  { intros Hall. unfold loop_condition in Hc. rewrite (si_ncompleted _ _ Hi), Ho in Hc.
    assert (Hsub : list_to_set (block_ids txs) ⊆ completed (graph s)) by set_solver.
    apply subseteq_size in Hsub. rewrite size_list_to_set in Hsub; [unfold len in Hc; lia |].
    rewrite <- Ho. apply (wf_nodup _ (c_wf _ _ _ (si_core _ _ Hi))). }
  assert (Hto : t ∈ order (graph s)) by (rewrite Ho; by eapply list_elem_of_lookup_2).
  destruct (c_cover _ _ _ (si_core _ _ Hi) Hnone t Hto) as [? | Hl]; [| done |].
  - rewrite (c_counts _ _ _ (si_core _ _ Hi) t Hto).
    enough (count_if (pending_into (completed (graph s)) t) (edges (graph s)) = 0%nat) by lia.
    apply count_if_zero. intros e He%in_edges; [| apply (si_core _ _ Hi)].
    unfold pending_into, into. case_bool_decide as Hct; [| done]. cbn.
    apply negb_false_iff, bool_decide_eq_true. subst t.
    assert (Hd : depends g (parent e) (child e)).
    { apply (run_depends s); [done |]. exists (reason e). by destruct e. }
    apply Hfwd in Hd as (a & b & Ha & Hb & Hab).
    assert (b = i) as ->.
    { eapply NoDup_lookup; [| done..]. rewrite <- Ho.
      apply (wf_nodup _ (c_wf _ _ _ (si_core _ _ Hi))). }
    by eapply Hbefore.
  - rewrite Hlive in Hl. by apply elem_of_nil in Hl.
Qed.
End Run.

(** ** Blocks *)

(** A block's transactions: their ids are distinct and not empty. *)
Definition valid_block (txs : list TxRawResult) : Prop :=
  NoDup (block_ids txs) /\ "" ∉ block_ids txs.

(** The chain's rule for blocks: a transaction spends only outputs of itself or of earlier
    transactions of its block. *)
Definition topological (txs : list TxRawResult) : Prop :=
  forall i j tx ptx vin, txs !! i = Some tx -> txs !! j = Some ptx -> vin ∈ tx_Vin tx ->
    vin_TxID vin = tx_Txid ptx -> (j <= i)%nat.

Lemma prepare_block_built `{Hashes, PurchaseCodec} txs g :
  valid_block txs -> prepare_block (block_fetched txs) = Ok g -> built txs g.
Proof.
  intros [Hnd Hne] Hp. destruct (build_spec txs Hnd Hne) as (g' & Hb & E).
  rewrite Hp in E. destruct (_ && _); by simplify_eq.
Qed.

Lemma before_irrefl l x : NoDup l -> ~ before l x x.
Proof.
  intros Hnd (i & j & Hi & Hj & Hij). assert (i = j) by (by eapply NoDup_lookup). lia.
Qed.

Lemma topological_forward `{Hashes, PurchaseCodec} txs g :
  valid_block txs -> topological txs -> built txs g -> forward txs g.
Proof.
  intros [Hnd Hne] Htop Hb p c Hd.
  destruct (bt_justified _ _ Hb p c Hd) as
    [Hpc [(tx & vin & Htx & Hvin & Hp & [ptx Hptx]) | ?]]; [| done].
  apply block_lookup in Htx as [[i Hi]%list_elem_of_lookup Hid]; [| done].
  apply block_lookup in Hptx as [[j Hj]%list_elem_of_lookup Hpid]; [| done].
  assert (Hle : (j <= i)%nat) by (eapply (Htop i j); [done..|]; congruence).
  exists j, i. unfold block_ids. rewrite !list_lookup_fmap, Hi, Hj. cbn.
  split; [congruence | split; [congruence |]].
  destruct (decide (i = j)) as [<- | Hne']; [| lia].
  rewrite Hi in Hj. congruence.
Qed.
