(* ===== verification/SchedulerTheorems.v ===== *)
(** * The block scheduler: what it guarantees

    The theorems about [runBlockTxScheduler] and the fetching phase, for every state the
    coordinator can reach whatever the workers, the retry timers and the stopper do. *)
From S2P Require Import Prelude Bytes Script Lbrycrd Scheduler SchedulerGraph SchedulerProofs.

Section Theorems.
Context `{Hashes, PurchaseCodec}.
Context (MaxParallelTxProcessing MaxFailures blockTime blockHeight : Z).

#[local] Notation step g :=
  (sched_step MaxFailures blockTime blockHeight (worker_count MaxParallelTxProcessing g)).
#[local] Notation body g :=
  (loop_body MaxFailures blockTime blockHeight (worker_count MaxParallelTxProcessing g)).

(** C3: dependencies are respected.  Whenever a worker holds a transaction of a valid block,
    that transaction is not completed, no other worker holds it, every other transaction of
    the block whose output it spends is completed, and so is every transaction that conflicts
    with it on a claim (one of the two writes the claim) and comes before it in block order. *)
Theorem dependencies_first txs g s job :
  0 <= MaxFailures -> valid_block txs -> prepare_block (block_fetched txs) = Ok g ->
  rtc (step g) (init_coordinator g) s -> job ∈ inflight s ->
  job_id job ∉ completed (graph s) /\
  NoDup (job_id <$> inflight s) /\
  (forall vin, vin ∈ tx_Vin (job_tx job) -> vin_TxID vin ∈ block_ids txs ->
     vin_TxID vin <> job_id job -> vin_TxID vin ∈ completed (graph s)) /\
  (forall i j u e1 e2, block_events txs !! i = Some (u, e1) ->
     block_events txs !! j = Some (job_id job, e2) -> (i < j)%nat -> conflict e1 e2 ->
     u <> job_id job -> u ∈ completed (graph s)).
Proof.
  intros HMF Hv Hp Hreach Hj. pose proof (prepare_block_built txs g Hv Hp) as Hb.
  pose proof (run_inv_reachable MaxParallelTxProcessing MaxFailures blockTime blockHeight HMF
    txs g Hb s Hreach) as Hr.
  pose proof (ru_inv _ _ _ _ Hr) as Hi. pose proof (si_core _ _ Hi) as Hc.
  assert (Hl : job_id job ∈ live s).
  { unfold live. rewrite !elem_of_app. right. left. by apply list_elem_of_fmap_2. }
  destruct (c_live _ _ _ Hc _ Hl) as (Ho & Hd & _).
  split; [done | split; [| split]].
  - pose proof (c_nodup _ _ _ Hc) as Hn. unfold live in Hn.
    apply NoDup_app in Hn as (_ & _ & Hn). by apply NoDup_app in Hn as (Hn & _).
  - intros vin Hvin Hin Hne.
    destruct (at_job _ _ (si_attempts _ _ Hi) job Hj) as [_ Htx].
    destruct (ru_block _ _ _ _ Hr) as (_ & Htm & _). rewrite Htm in Htx. cbn in Htx.
    rewrite (bt_map _ _ Hb) in Htx.
    assert (Hsp : spends (block_map txs) (vin_TxID vin) (job_id job)).
    { exists (job_tx job), vin. split; [done | split; [done | split; [done |]]].
      apply list_elem_of_fmap in Hin as (ptx & Hid & Hptx). exists ptx.
      apply block_lookup; [apply Hv | done]. }
    destruct (bt_spends _ _ Hb _ _ Hsp) as [? | Hdep]; [done |].
    eapply run_ancestors; [done | done | by apply rtc_once | done].
  - intros i j u e1 e2 Hi1 Hj2 Hij Hcf Hne.
    eapply run_ancestors; [done | done | | done].
    by eapply (bt_claims _ _ Hb).
Qed.

(** C4: a block in chain order never stalls.  Its graph is built, and whenever the loop breaks
    off, it is because an error was already recorded or the stopper was seen: the stall check
    never fires. *)
Theorem ordered_block_never_stalls txs :
  0 <= MaxFailures -> valid_block txs -> topological txs ->
  exists g, prepare_block (block_fetched txs) = Ok g /\
    forall s c s', rtc (step g) (init_coordinator g) s -> loop_condition s = true ->
      body g c s = (Ok Break, s') ->
      exists e, terminalErr s' = Some e /\ (terminalErr s = Some e \/ e = ErrManualShutDown).
Proof.
  intros HMF Hv Htop. destruct (build_spec txs (proj1 Hv) (proj2 Hv)) as (g & Hb & E).
  pose proof (topological_forward txs g Hv Htop Hb) as Hfwd.
  assert (Hinit : forall s, run_inv MaxParallelTxProcessing MaxFailures g s ->
    loop_condition s = true -> terminalErr s = None -> stalled s = false)
    by (intros; by eapply not_stalled).
  exists g. split.
  - rewrite E. destruct (0 <? len (order g)) eqn:Ho; [| by rewrite andb_false_r].
    rewrite andb_true_r.
    specialize (Hinit (init_coordinator g) (run_inv_init _ _ HMF _ _ Hb)).
    unfold loop_condition, stalled in Hinit. cbn in Hinit.
    rewrite andb_true_r in Hinit. by rewrite Hinit.
  - intros s c s' Hreach Hc Hbody.
    pose proof (run_inv_reachable MaxParallelTxProcessing MaxFailures blockTime blockHeight HMF
      txs g Hb s Hreach) as [Hi Hblk Ha].
    destruct (loop_body_inv MaxFailures blockTime blockHeight HMF _ c s Hi Ha) as
      (s1 & Ed & Hi1 & Hs1 & Hd1 & Hn1 & Ht1 &
       [(s3 & E3) | [(s3 & E3 & _) | (e & s3 & E3 & He & _ & Ha1 & Hcase)]]);
      rewrite E3 in Hbody; simplify_eq.
    exists e. split; [done |]. destruct Hcase as [Ht | [Hnone Hst]]; [by apply Ht1 |].
    exfalso. rewrite (Hinit s1) in Hst; [done | | | done].
    + split; [done | by etrans | rewrite Ha1; pose proof (worker_count_pos MaxParallelTxProcessing g); lia].
    + unfold loop_condition in *. destruct Hs1 as (Ho1 & _). by rewrite Hn1, Ho1.
Qed.

(** C25: the coordinator terminates and never waits for nothing.  A run of a valid block has at
    most [n * (2 * MaxFailures + 3) + workers + 1] rounds.  And in every reachable state with
    transactions left, whatever the stopper does during dispatch, the round does not depend on
    the stopper to end: it breaks out of the loop at once, or some worker holds a job and
    whatever it answers ends the round, or some retry timer runs and its expiry does. *)
Theorem scheduler_terminates txs g :
  0 <= MaxFailures -> valid_block txs -> prepare_block (block_fetched txs) = Ok g ->
  (forall k s, nsteps (step g) k (init_coordinator g) s ->
     Z.of_nat k <= len txs * (2 * MaxFailures + 3) +
       worker_count MaxParallelTxProcessing g + 1) /\
  (forall s stops, rtc (step g) (init_coordinator g) s -> loop_condition s = true ->
     let round ev := body g {| ch_stops := stops; ch_event := ev |} s in
     (exists s', forall ev, round ev = (Ok Break, s')) \/
     (exists i, forall err stopped, exists s', round (EvResult i err stopped) = (Ok Continue, s')) \/
     (exists i s', round (EvRetry i) = (Ok Continue, s'))).
Proof.
  intros HMF Hv Hp. pose proof (prepare_block_built txs g Hv Hp) as Hb.
  pose proof (run_inv_init MaxParallelTxProcessing MaxFailures HMF txs g Hb) as Hinit. split.
  - assert (Hgen : forall k s s', run_inv MaxParallelTxProcessing MaxFailures g s ->
      nsteps (step g) k s s' ->
      run_inv MaxParallelTxProcessing MaxFailures g s' /\
      Z.of_nat k + measure MaxFailures (worker_count MaxParallelTxProcessing g) s' <=
      measure MaxFailures (worker_count MaxParallelTxProcessing g) s).
    { intros k. induction k as [| k IH]; intros s s' Hr Hn; inversion Hn; subst; [split; [done | lia] |].
      destruct (run_inv_step MaxParallelTxProcessing MaxFailures blockTime blockHeight HMF g s y)
        as [Hr' Hm]; [done.. |].
      destruct (IH y s' Hr') as [Hr'' Hm']; [done |]. split; [done | lia]. }
    intros k s Hn. destruct (Hgen k _ s Hinit Hn) as [Hr Hm].
    assert (Hpos : 0 <= measure MaxFailures (worker_count MaxParallelTxProcessing g) s).
    { unfold measure. pose proof (cost_nonneg MaxFailures s (ru_inv _ _ _ _ Hr)).
      pose proof (worker_count_pos MaxParallelTxProcessing g).
      rewrite (si_active _ _ (ru_inv _ _ _ _ Hr)). unfold len. destruct (terminalErr s); lia. }
    unfold measure at 2 in Hm. cbn [terminalErr init_coordinator] in Hm.
    assert (Hz : sumZ (spent_on MaxFailures g) (order g) = 0).
    { rewrite (sumZ_ext _ (fun _ => 0)); [by induction (order g) |].
      intros x _. unfold spent_on, attempts_of. destruct (bt_inv _ _ Hb) as (_ & _ & ->).
      rewrite decide_False by set_solver. by rewrite (bt_attempts _ _ Hb), lookup_empty. }
    unfold cost in Hm. cbn [graph retrying init_coordinator] in Hm. rewrite Hz in Hm.
    rewrite (bt_order _ _ Hb) in Hm. unfold len, block_ids in *. rewrite length_fmap in Hm.
    cbn [length] in Hm. lia.
  - intros s stops Hreach Hc.
    pose proof (run_inv_reachable MaxParallelTxProcessing MaxFailures blockTime blockHeight HMF
      txs g Hb s Hreach) as [Hi Hblk Ha].
    destruct (dispatch_phase_inv MaxFailures blockTime blockHeight HMF
      (worker_count MaxParallelTxProcessing g) stops s Hi) as
      (s1 & E & Hi1 & Hs1 & _ & _ & _ & _ & Hnone & _).
    unfold loop_body, mbind. cbn [ch_stops ch_event]. rewrite E.
    assert (Hprog : terminalErr s1 = None -> active s1 = 0 -> ready (graph s1) = []).
    { intros Ht H0'. apply (proj2 (Hnone Ht)); [| done].
      pose proof (worker_count_pos MaxParallelTxProcessing g). lia. }
    exact (settle_progress MaxFailures s1 Hi1 Hprog).
Qed.

(** C26: how a run ends.  It never panics.  The loop ends in a state [s]: when it recorded no
    error the run succeeds, and then every transaction of the block is completed; when it
    recorded [e0] the run returns [e0], prefixed to the clean-up's error if the clean-up of all
    the block's transactions fails.  And [e0] is the manual shutdown, the stall found in [s],
    or what one of the errors that a worker answered in this very run ends the block with
    ([gives_up]: itself, unless the missing source is in the block or a retryable error came
    once too often). *)
Theorem scheduler_outcome txs g cleanup cs r :
  0 <= MaxFailures -> valid_block txs -> prepare_block (block_fetched txs) = Ok g ->
  runBlockTxScheduler MaxParallelTxProcessing MaxFailures blockTime blockHeight cleanup cs g =
    Some r ->
  exists s, scheduler_loop MaxFailures blockTime blockHeight
      (worker_count MaxParallelTxProcessing g) cs (init_coordinator g) = Some (Ok s) /\
    match terminalErr s with
    | None => r = Ok tt /\ completed (graph s) = list_to_set (block_ids txs) /\
        ncompleted s = len txs
    | Some e0 =>
        r = Err (match cleanup (block_ids txs) with
                 | Some cleanupErr => ErrPrefix (Error e0) cleanupErr
                 | None => e0
                 end) /\
        (e0 = ErrManualShutDown \/ e0 = stalled_error s \/
         exists job err,
           (job, Some err) ∈ answered MaxFailures blockTime blockHeight
             (worker_count MaxParallelTxProcessing g) cs (init_coordinator g) /\
           gives_up MaxFailures txs job err e0)
    end.
Proof.
  intros HMF Hv Hp. pose proof (prepare_block_built txs g Hv Hp) as Hb.
  unfold runBlockTxScheduler.
  assert (Hlen : len (order g) = len txs)
    by (unfold len; by rewrite (bt_order _ _ Hb); unfold block_ids; rewrite length_fmap).
  destruct (Z.eqb_spec (len (order g)) 0) as [Hz | Hz].
  { intros [= <-]. exists (init_coordinator g).
    assert (Hc : loop_condition (init_coordinator g) = false)
      by (unfold loop_condition; cbn; by rewrite Hz).
    rewrite Hlen in Hz. unfold len in Hz. destruct txs; [| cbn in Hz; lia].
    split; [destruct cs; cbn; by rewrite Hc |]. cbn.
    destruct (bt_inv _ _ Hb) as (_ & _ & ->). done. }
  destruct (scheduler_loop _ _ _ _ _ _) as [r' |] eqn:E; intros Heq; simplify_eq.
  destruct (scheduler_loop_end MaxParallelTxProcessing MaxFailures blockTime blockHeight HMF
    txs g Hb cs _ r' (rtc_refl _ _) E) as (s0 & s' & -> & Hreach & Hend).
  exists s'. split; [done |].
  pose proof (run_inv_reachable MaxParallelTxProcessing MaxFailures blockTime blockHeight HMF
    txs g Hb s0 Hreach) as Hr.
  pose proof (run_order MaxParallelTxProcessing MaxFailures txs g Hb s0 Hr) as Ho.
  assert (Hends : order (graph s') = block_ids txs /\
    (terminalErr s' = None -> s' = s0 /\ loop_condition s0 = false)).
  { destruct Hend as [[-> Hc] | [Hc [c Hbody]]]; [done |].
    destruct Hr as [Hi Hblk Ha].
    destruct (loop_body_inv MaxFailures blockTime blockHeight HMF _ c s0 Hi Ha) as
      (s1 & _ & _ & (Ho1 & _) & _ & _ & _ &
       [(s3 & E3) | [(s3 & E3 & _) | (e0 & s3 & E3 & He & Hg & _)]]);
      rewrite E3 in Hbody; simplify_eq.
    split; [by rewrite Hg, Ho1 | congruence]. }
  destruct Hends as [Hos Hnone]. cbn [rbind]. unfold finish_block.
  destruct (terminalErr s') as [e0 |] eqn:Et.
  - split; [rewrite Hos; by destruct (cleanup (block_ids txs)) |].
    by destruct (scheduler_loop_error MaxParallelTxProcessing MaxFailures blockTime blockHeight
      HMF txs g Hb cs _ s' e0 (proj1 Hv) (rtc_refl _ _) E Et) as [? | ?].
  - destruct (Hnone eq_refl) as [-> Hc].
    pose proof (run_all_completed _ _ HMF txs g Hb s0 Hr Hc) as Hall.
    split; [done | split; [done |]].
    rewrite (si_ncompleted _ _ (ru_inv _ _ _ _ Hr)), Hall, size_list_to_set by apply Hv.
    unfold len, block_ids. by rewrite length_fmap.
Qed.

(** C27: the coordinator's bookkeeping is exact in every reachable state: [active] counts the
    jobs the workers hold and never exceeds the worker count, which is at most
    [MaxParallelTxProcessing] (or one); [pendingRetries] counts the running timers; [completed]
    counts the completed transactions; and no transaction is attempted more than
    [MaxFailures + 1] times. *)
Theorem scheduler_bounds txs g s :
  0 <= MaxFailures -> valid_block txs -> prepare_block (block_fetched txs) = Ok g ->
  rtc (step g) (init_coordinator g) s ->
  active s = len (inflight s) /\ active s <= Z.max 1 MaxParallelTxProcessing /\
  pendingRetries s = len (retrying s) /\
  ncompleted s = Z.of_nat (size (completed (graph s))) /\
  (forall t, 0 <= attempts_of (graph s) t <= MaxFailures + 1) /\
  (forall job, job ∈ inflight s -> job_failcount job <= MaxFailures).
Proof.
  intros HMF Hv Hp Hreach. pose proof (prepare_block_built txs g Hv Hp) as Hb.
  pose proof (run_inv_reachable MaxParallelTxProcessing MaxFailures blockTime blockHeight HMF
    txs g Hb s Hreach) as [Hi Hblk Ha].
  split; [apply Hi | split; [| split; [apply Hi | split; [apply Hi | split; [apply Hi |]]]]].
  - etrans; [exact Ha |]. unfold worker_count. rewrite Min_spec.
    destruct (Z.ltb_spec (Z.min (len (order g)) MaxParallelTxProcessing) 1); lia.
  - intros job [i Hjob]%list_elem_of_lookup.
    by apply (job_bound MaxFailures s i job).
Qed.
End Theorems.

(** ** Fetching *)

Section Fetch.
Context (node : string -> TxRawResult) (txIDs : list string).

Definition put_slot (l : list (option TxRawResult)) (ev : fetch_event) :=
  match ev with
  | FetchResult r => <[fetch_index r := Some (fetch_tx r)]> l
  | FetchStop => l
  end.
Definition put_tx (m : gmap string TxRawResult) (ev : fetch_event) :=
  match ev with
  | FetchResult r => <[tx_Txid (fetch_tx r) := fetch_tx r]> m
  | FetchStop => m
  end.
Definition index_of (ev : fetch_event) : nat :=
  match ev with FetchResult r => fetch_index r | FetchStop => 0%nat end.
Definition id_of (ev : fetch_event) : string :=
  match ev with FetchResult r => tx_Txid (fetch_tx r) | FetchStop => "" end.

(** Results of the workers: the node's answer for the id at the result's index. *)
Definition worker_results (evs : list fetch_event) : Prop :=
  forall ev, ev ∈ evs -> exists i t, txIDs !! i = Some t /\
    ev = FetchResult {| fetch_tx := node t; fetch_err := None; fetch_index := i |}.

Lemma length_put_slots evs l : length (foldl put_slot l evs) = length l.
Proof.
  revert l. induction evs as [| [r |] evs IH]; intros l; cbn [foldl put_slot]; [done | | done].
  by rewrite IH, length_insert.
Qed.

Lemma collect_fetches_foldl evs l m :
  worker_results evs ->
  collect_fetches (length evs) evs (l, m) =
    Some (Ok (foldl put_slot l evs, foldl put_tx m evs)).
Proof.
  revert l m. induction evs as [| ev evs IH]; intros l m Hev; [done |].
  destruct (Hev ev) as (i & t & _ & ->); [by left |].
  cbn [length collect_fetches fetch_err foldl].
  rewrite <- IH; [done |]. intros ev' Hin. apply Hev. by right.
Qed.

Lemma collect_fetches_error evs r e rest n acc :
  worker_results evs -> fetch_err r = Some e ->
  collect_fetches (length evs + S n) (evs ++ FetchResult r :: rest) acc = Some (Err e).
Proof.
  intros Hw Hr. revert acc. induction evs as [| ev evs IH]; intros acc; cbn; [by rewrite Hr |].
  destruct (Hw ev) as (i & t & _ & ->); [by left |]. cbn. apply IH.
  intros ev' Hin. apply Hw. by right.
Qed.

Lemma fetched_slots evs l i :
  worker_results evs -> length l = length txIDs -> (i < length txIDs)%nat ->
  foldl put_slot l evs !! i =
  if decide (i ∈ index_of <$> evs) then Some (node <$> (txIDs !! i)) else l !! i.
Proof.
  revert l. induction evs as [| ev evs IH]; intros l Hev Hl Hi; cbn [foldl].
  - rewrite decide_False; [done | by intros ?%elem_of_nil].
  - destruct (Hev ev) as (j & t & Ht & ->); [by left |].
    pose proof (lookup_lt_Some _ _ _ Ht) as Hj. rewrite fmap_cons.
    cbn [index_of put_slot fetch_index fetch_tx].
    rewrite IH; [| intros ev' Hin; apply Hev; by right | by rewrite length_insert | done].
    destruct (decide (i ∈ index_of <$> evs)) as [Hin | Hin].
    + rewrite decide_True by (by right). done.
    + destruct (decide (i = j)) as [-> | Hne].
      * rewrite decide_True by (by left). rewrite list_lookup_insert_eq by lia. by rewrite Ht.
      * rewrite decide_False by (intros [?|?]%elem_of_cons; done).
        by rewrite list_lookup_insert_ne by done.
Qed.

Lemma fetched_map evs m k :
  worker_results evs -> (forall t, tx_Txid (node t) = t) ->
  foldl put_tx m evs !! k = if decide (k ∈ id_of <$> evs) then Some (node k) else m !! k.
Proof.
  intros Hev Hid. revert m. induction evs as [| ev evs IH]; intros m; cbn [foldl].
  - rewrite decide_False; [done |]. by intros ?%elem_of_nil.
  - destruct (Hev ev) as (j & t & Ht & ->); [by left |]. rewrite fmap_cons.
    cbn [id_of put_tx fetch_index fetch_tx].
    rewrite IH by (intros ev' Hin; apply Hev; by right). rewrite Hid.
    destruct (decide (k ∈ id_of <$> evs)) as [Hin | Hin].
    + rewrite decide_True by (by right). done.
    + destruct (decide (k = t)) as [-> | Hne].
      * rewrite lookup_insert_eq, decide_True by (by left). done.
      * rewrite lookup_insert_ne by done. rewrite decide_False; [done |].
        intros [?|?]%elem_of_cons; done.
Qed.

Lemma fetch_results_index : index_of <$> fetch_results_of node txIDs = seq 0 (length txIDs).
Proof.
  unfold fetch_results_of. rewrite fmap_imap.
  etrans; [exact (imap_seq_0 txIDs (fun j => j)) | apply list_fmap_id].
Qed.

Lemma fetch_results_ids :
  (forall t, tx_Txid (node t) = t) -> id_of <$> fetch_results_of node txIDs = txIDs.
Proof.
  intros Hid. unfold fetch_results_of. rewrite fmap_imap. apply list_eq. intros i.
  rewrite list_lookup_imap. cbn. destruct (txIDs !! i); cbn; [by rewrite Hid | done].
Qed.

Lemma fetch_results_worker evs :
  Permutation evs (fetch_results_of node txIDs) -> worker_results evs.
Proof.
  intros Hp ev Hev. rewrite Hp in Hev. unfold fetch_results_of in Hev.
  apply list_elem_of_lookup in Hev as [i Hi]. rewrite list_lookup_imap in Hi.
  destruct (txIDs !! i) as [t |] eqn:E; cbn in Hi; [| done]. simplify_eq. eauto.
Qed.
End Fetch.

(** Fetching is deterministic.  In whatever order the workers' answers arrive, the
    collector returns the node's transactions in the order of the block's ids, indexed by their
    ids; and it stops with the first failing answer, returning that error. *)
Theorem fetch_any_order node txIDs evs :
  NoDup txIDs -> (forall t, tx_Txid (node t) = t) ->
  Permutation evs (fetch_results_of node txIDs) ->
  fetchBlockRawTransactions txIDs evs = Some (Ok (block_fetched (node <$> txIDs))) /\
  (forall k r e rest, (k < length txIDs)%nat -> fetch_err r = Some e ->
     fetchBlockRawTransactions txIDs (take k evs ++ FetchResult r :: rest) = Some (Err e)).
Proof.
  intros Hnd Hid Hp. pose proof (fetch_results_worker _ _ _ Hp) as Hw.
  assert (Hlen : length evs = length txIDs).
  { rewrite (Permutation_length Hp). unfold fetch_results_of. by rewrite length_imap. }
  unfold fetchBlockRawTransactions. split.
  - rewrite <- Hlen at 1. rewrite (collect_fetches_foldl node txIDs) by done.
    unfold block_fetched. do 3 f_equal.
    + apply list_eq. intros i. rewrite !list_lookup_fmap.
      destruct (decide (i < length txIDs)%nat) as [Hi | Hi].
      * rewrite (fetched_slots node txIDs) by (done || by rewrite length_replicate).
        rewrite decide_True; [by destruct (txIDs !! i) eqn:E; [| apply lookup_ge_None in E; lia] |].
        rewrite Hp, fetch_results_index. apply elem_of_seq. lia.
      * rewrite (lookup_ge_None_2 txIDs) by lia. apply lookup_ge_None_2.
        rewrite length_put_slots, length_replicate. lia.
    + apply map_eq. intros k. rewrite (fetched_map node txIDs) by done.
      change (list_to_map ((fun tx => (tx_Txid tx, tx)) <$> (node <$> txIDs))) with
        (block_fetched (node <$> txIDs)).2.
      assert (Hids : block_ids (node <$> txIDs) = txIDs).
      { unfold block_ids. rewrite <- list_fmap_compose. etrans; [| apply list_fmap_id].
        apply list_fmap_ext. intros j t _. apply Hid. }
      destruct (decide (k ∈ id_of <$> evs)) as [Hk | Hk];
        rewrite Hp, fetch_results_ids in Hk by done.
      * symmetry. apply block_lookup; [by rewrite Hids |]. split; [| done].
        by apply list_elem_of_fmap_2.
      * rewrite lookup_empty. symmetry. apply eq_None_not_Some. intros [tx Htx].
        apply block_lookup in Htx as [(t & -> & Ht)%list_elem_of_fmap Hkid];
          [| by rewrite Hids]. rewrite Hid in Hkid. by subst.
  - intros k r e rest Hk Hr. rewrite <- Hlen in Hk.
    assert (Hw' : worker_results node txIDs (take k evs)).
    { intros ev Hev. apply Hw. by eapply elem_of_take in Hev as (? & ? & _);
        eapply list_elem_of_lookup_2. }
    replace (collect_fetches (length txIDs)) with
      (collect_fetches (length (take k evs) + S (length txIDs - S k)))
      by (f_equal; rewrite length_take; lia).
    by apply (collect_fetches_error node txIDs).
Qed.

(** ** A concrete block: [b] spends an output of [a] *)

Module Demo.
#[export] Instance demo_hashes : Hashes := {| sha256 := fun b => b; ripemd160 := fun b => b |}.
#[export] Instance demo_purchases : PurchaseCodec := {| unmarshal_purchase := Some |}.

Definition demo_vin (txid : string) : Vin :=
  {| vin_Coinbase := ""; vin_TxID := txid; vin_Vout := 0; vin_ScriptSig := None;
     vin_Sequence := 0; vin_Witness := [] |}.
Definition demo_tx (id : string) (vins : list Vin) : TxRawResult :=
  {| tx_Txid := id; tx_Hash := id; tx_Version := 1; tx_Size := 0; tx_Vsize := 0; tx_Weight := 0;
     tx_LockTime := 0; tx_Vin := vins; tx_Vout := []; tx_Hex := ""; tx_BlockHash := "";
     tx_Confirmations := 0; tx_Time := 0; tx_Blocktime := 0 |}.
Definition demo_txs : list TxRawResult := [demo_tx "a" []; demo_tx "b" [demo_vin "a"]].
Definition demo_graph : blockTxGraph := (buildDependencies (newBlockTxGraph
  (block_fetched demo_txs).1 (block_fetched demo_txs).2)).2.
Definition run_a : choice := {| ch_stops := []; ch_event := EvResult 0 None false |}.
Definition then_stop : choice := {| ch_stops := []; ch_event := EvStop |}.
Definition demo_state1 : coordinator :=
  (loop_body 3 0 0 (worker_count 4 demo_graph) run_a (init_coordinator demo_graph)).2.
(** [a] is completed and [b] is with a worker. *)
Definition demo_state2 : coordinator :=
  (loop_body 3 0 0 (worker_count 4 demo_graph) then_stop demo_state1).2.
Definition demo_job : txToProcess := make_job 0 0 demo_graph (demo_tx "b" [demo_vin "a"]).

Lemma demo_valid : valid_block demo_txs.
Proof.
  split; [apply (bool_decide_unpack _); vm_compute; exact I |].
  apply (bool_decide_unpack _). vm_compute. exact I.
Defined.

Lemma demo_topological : topological demo_txs.
Proof.
  intros [| [| i]] [| [| j]] tx ptx vin; cbn; intros Hi Hj Hvin Hid; simplify_eq; try lia.
  by apply elem_of_nil in Hvin.
Defined.

Lemma demo_prepared : prepare_block (block_fetched demo_txs) = Ok demo_graph.
Proof. vm_compute. reflexivity. Defined.

Lemma demo_reachable :
  rtc (sched_step 3 0 0 (worker_count 4 demo_graph)) (init_coordinator demo_graph) demo_state2.
Proof.
  apply (rtc_l _ _ demo_state1);
    [apply (sched_round _ _ _ _ run_a); vm_compute; reflexivity |].
  apply (rtc_l _ _ demo_state2); [| apply rtc_refl].
  apply (sched_round _ _ _ _ then_stop); vm_compute; reflexivity.
Defined.
End Demo.
Import Demo.

Lemma dependencies_first_witness :
  "a" ∈ completed (graph demo_state2) /\ job_id demo_job ∉ completed (graph demo_state2).
Proof.
  destruct (dependencies_first 4 3 0 0 demo_txs demo_graph demo_state2 demo_job)
    as (Hn & _ & Hspent & _).
  - lia.
  - apply demo_valid.
  - apply demo_prepared.
  - apply demo_reachable.
  - replace (inflight demo_state2) with [demo_job] by (vm_compute; reflexivity).
    apply list_elem_of_here.
  - split; [| exact Hn]. apply (Hspent (demo_vin "a")).
    + apply list_elem_of_here.
    + apply (bool_decide_unpack _). vm_compute. exact I.
    + discriminate.
Defined.

Lemma ordered_block_never_stalls_witness :
  exists g, prepare_block (block_fetched demo_txs) = Ok g.
Proof.
  destruct (ordered_block_never_stalls 4 3 0 0 demo_txs) as (g & E & _).
  - lia.
  - apply demo_valid.
  - apply demo_topological.
  - exists g. exact E.
Defined.

Lemma scheduler_terminates_witness :
  (exists s', forall ev, loop_body 3 0 0 (worker_count 4 demo_graph)
     {| ch_stops := []; ch_event := ev |} demo_state1 = (Ok Break, s')) \/
  (exists i, forall err stopped, exists s', loop_body 3 0 0 (worker_count 4 demo_graph)
     {| ch_stops := []; ch_event := EvResult i err stopped |} demo_state1 = (Ok Continue, s')) \/
  (exists i s', loop_body 3 0 0 (worker_count 4 demo_graph)
     {| ch_stops := []; ch_event := EvRetry i |} demo_state1 = (Ok Continue, s')).
Proof.
  destruct (scheduler_terminates 4 3 0 0 demo_txs demo_graph) as [_ Hprogress].
  - lia.
  - apply demo_valid.
  - apply demo_prepared.
  - apply (Hprogress demo_state1 []); [| vm_compute; reflexivity].
    apply (rtc_l _ _ demo_state1); [| apply rtc_refl].
    apply (sched_round _ _ _ _ run_a); vm_compute; reflexivity.
Defined.

(** Both transactions succeed; and a run in which [a] fails for good is cleaned up. *)
Definition fail_a : choice :=
  {| ch_stops := []; ch_event := EvResult 0 (Some (ErrMsg "boom")) false |}.
Lemma scheduler_outcome_witness :
  (exists s, scheduler_loop 3 0 0 (worker_count 4 demo_graph) [run_a; run_a]
     (init_coordinator demo_graph) = Some (Ok s)) /\
  (exists s, scheduler_loop 3 0 0 (worker_count 4 demo_graph) [fail_a; run_a]
     (init_coordinator demo_graph) = Some (Ok s) /\ terminalErr s = Some (ErrMsg "boom")).
Proof.
  split.
  - destruct (scheduler_outcome 4 3 0 0 demo_txs demo_graph (fun _ => None) [run_a; run_a] (Ok tt))
      as (s & E & _).
    + lia.
    + apply demo_valid.
    + apply demo_prepared.
    + vm_compute. reflexivity.
    + exists s. exact E.
  - destruct (scheduler_outcome 4 3 0 0 demo_txs demo_graph (fun _ => None)
      [fail_a; run_a] (Err (ErrMsg "boom"))) as (s & E & Hs).
    + lia.
    + apply demo_valid.
    + apply demo_prepared.
    + vm_compute. reflexivity.
    + exists s. split; [exact E |]. destruct (terminalErr s) as [e0 |].
      * destruct Hs as [He _]. injection He as He. rewrite He. reflexivity.
      * destruct Hs as [He _]. discriminate.
Defined.

Lemma scheduler_bounds_witness : active demo_state2 = len (inflight demo_state2).
Proof.
  apply (scheduler_bounds 4 3 0 0 demo_txs demo_graph demo_state2);
    [lia | apply demo_valid | apply demo_prepared | apply demo_reachable].
Defined.

Lemma fetch_any_order_witness :
  let node id := demo_tx id [] in
  fetchBlockRawTransactions ["a"; "b"] (reverse (fetch_results_of node ["a"; "b"])) =
    Some (Ok (block_fetched (node <$> ["a"; "b"]))).
Proof.
  intros node. apply (fetch_any_order node ["a"; "b"]).
  - apply (bool_decide_unpack _). vm_compute. exact I.
  - intros t. reflexivity.
  - apply reverse_Permutation.
Defined.
