(* ===== verification/Rows.v ===== *)
(** * The database rows ([model/*.go])

    One record per table the program writes, with the columns of the generated struct in its
    order; nullable columns are options (an invalid [null.X] is [None]), times are Unix seconds.
    The [created]/[modified] bookkeeping columns, which the database maintains, and the loaded
    relations are left out; the jobs that select by such a column have it as a parameter.  The [Eta] instances serve the field-update notation of
    the prelude. *)
From S2P Require Import Prelude Lbrycrd.

Record Block := mkBlock {
  block_ID : Z;
  block_Bits : string;
  block_Chainwork : string;
  block_Confirmations : Z;
  block_Difficulty : float64;
  block_Hash : string;
  block_Height : Z;
  block_MerkleRoot : string;
  block_NameClaimRoot : string;
  block_Nonce : Z;
  block_PreviousBlockHash : option string;
  block_NextBlockHash : option string;
  block_BlockSize : Z;
  block_BlockTime : Z;
  block_Version : Z;
  block_VersionHex : string;
  block_TXCount : Z;
  block_ProcessingState : option string;
}.
#[export] Instance eta_Block : Eta Block := fun r =>
  mkBlock (block_ID r) (block_Bits r) (block_Chainwork r) (block_Confirmations r)
    (block_Difficulty r) (block_Hash r) (block_Height r) (block_MerkleRoot r)
    (block_NameClaimRoot r) (block_Nonce r) (block_PreviousBlockHash r) (block_NextBlockHash r)
    (block_BlockSize r) (block_BlockTime r) (block_Version r) (block_VersionHex r)
    (block_TXCount r) (block_ProcessingState r).

Record Transaction := mkTransaction {
  txn_ID : Z;
  txn_BlockHashID : option string;
  txn_InputCount : Z;
  txn_OutputCount : Z;
  txn_TransactionTime : option Z;
  txn_TransactionSize : Z;
  txn_Hash : string;
  txn_Version : Z;
  txn_LockTime : Z;
  txn_CreatedTime : Z;
  txn_Value : float64;
}.
#[export] Instance eta_Transaction : Eta Transaction := fun r =>
  mkTransaction (txn_ID r) (txn_BlockHashID r) (txn_InputCount r) (txn_OutputCount r)
    (txn_TransactionTime r) (txn_TransactionSize r) (txn_Hash r) (txn_Version r)
    (txn_LockTime r) (txn_CreatedTime r) (txn_Value r).

Record Input := mkInput {
  in_ID : Z;
  in_TransactionID : Z;
  in_TransactionHash : string;
  in_InputAddressID : option Z;
  in_IsCoinbase : bool;
  in_Coinbase : option string;
  in_PrevoutHash : option string;
  in_PrevoutN : option Z;
  in_Sequence : Z;
  in_Value : option float64;
  in_ScriptSigAsm : option string;
  in_ScriptSigHex : option string;
  in_Vin : option Z;
  in_Witness : option string;
}.
#[export] Instance eta_Input : Eta Input := fun r =>
  mkInput (in_ID r) (in_TransactionID r) (in_TransactionHash r) (in_InputAddressID r)
    (in_IsCoinbase r) (in_Coinbase r) (in_PrevoutHash r) (in_PrevoutN r) (in_Sequence r)
    (in_Value r) (in_ScriptSigAsm r) (in_ScriptSigHex r) (in_Vin r) (in_Witness r).

Record Output := mkOutput {
  out_ID : Z;
  out_TransactionID : Z;
  out_TransactionHash : string;
  out_Value : option float64;
  out_Vout : Z;
  out_Type : option string;
  out_ScriptPubKeyAsm : option string;
  out_ScriptPubKeyHex : option string;
  out_RequiredSignatures : option Z;
  out_AddressList : option string;
  out_IsSpent : bool;
  out_SpentByInputID : option Z;
  out_ClaimID : option string;
}.
#[export] Instance eta_Output : Eta Output := fun r =>
  mkOutput (out_ID r) (out_TransactionID r) (out_TransactionHash r) (out_Value r) (out_Vout r)
    (out_Type r) (out_ScriptPubKeyAsm r) (out_ScriptPubKeyHex r) (out_RequiredSignatures r)
    (out_AddressList r) (out_IsSpent r) (out_SpentByInputID r) (out_ClaimID r).

Record Address := mkAddress {
  addr_ID : Z;
  addr_Address : string;
  addr_FirstSeen : option Z;
  addr_Balance : float64;
}.
#[export] Instance eta_Address : Eta Address := fun r =>
  mkAddress (addr_ID r) (addr_Address r) (addr_FirstSeen r) (addr_Balance r).

Record TransactionAddress := mkTransactionAddress {
  txaddr_TransactionID : Z;
  txaddr_AddressID : Z;
  txaddr_DebitAmount : float64;
  txaddr_CreditAmount : float64;
}.
#[export] Instance eta_TransactionAddress : Eta TransactionAddress := fun r =>
  mkTransactionAddress (txaddr_TransactionID r) (txaddr_AddressID r) (txaddr_DebitAmount r)
    (txaddr_CreditAmount r).

Record Claim := mkClaim {
  claim_ID : Z;
  claim_TransactionHashID : option string;
  claim_Vout : Z;
  claim_Name : string;
  claim_ClaimID : string;
  claim_ClaimType : Z;
  claim_PublisherID : option string;
  claim_PublisherSig : option string;
  claim_Certificate : option string;
  claim_SDHash : option string;
  claim_TransactionTime : option Z;
  claim_Version : option string;
  claim_ValueAsHex : string;
  claim_ValueAsJSON : option string;
  claim_ValidAtHeight : Z;
  claim_Height : Z;
  claim_EffectiveAmount : Z;
  claim_Author : option string;
  claim_Description : option string;
  claim_ContentType : option string;
  claim_IsNSFW : bool;
  claim_Language : option string;
  claim_ThumbnailURL : option string;
  claim_Title : option string;
  claim_Fee : float64;
  claim_FeeCurrency : option string;
  claim_FeeAddress : option string;
  claim_IsFiltered : bool;
  claim_BidState : string;
  claim_ClaimAddress : string;
  claim_IsCertValid : bool;
  claim_IsCertProcessed : bool;
  claim_License : option string;
  claim_Type : option string;
  claim_ReleaseTime : option Z;
  claim_SourceHash : option string;
  claim_SourceName : option string;
  claim_SourceSize : option Z;
  claim_SourceMediaType : option string;
  claim_SourceURL : option string;
  claim_FrameWidth : option Z;
  claim_FrameHeight : option Z;
  claim_Duration : option Z;
  claim_AudioDuration : option Z;
  claim_Email : option string;
  claim_HasClaimList : option bool;
  claim_ClaimReference : option string;
  claim_ListType : option Z;
  claim_ClaimIDList : option string;
  claim_TransactionHashUpdate : option string;
  claim_VoutUpdate : option Z;
  claim_ClaimCount : Z;
  (* what the program writes; the database fills it in at inserts and may change it on its own *)
  claim_ModifiedAt : Z;
}.
#[export] Instance eta_Claim : Eta Claim := fun r =>
  mkClaim (claim_ID r) (claim_TransactionHashID r) (claim_Vout r) (claim_Name r)
    (claim_ClaimID r) (claim_ClaimType r) (claim_PublisherID r) (claim_PublisherSig r)
    (claim_Certificate r) (claim_SDHash r) (claim_TransactionTime r) (claim_Version r)
    (claim_ValueAsHex r) (claim_ValueAsJSON r) (claim_ValidAtHeight r) (claim_Height r)
    (claim_EffectiveAmount r) (claim_Author r) (claim_Description r) (claim_ContentType r)
    (claim_IsNSFW r) (claim_Language r) (claim_ThumbnailURL r) (claim_Title r) (claim_Fee r)
    (claim_FeeCurrency r) (claim_FeeAddress r) (claim_IsFiltered r) (claim_BidState r)
    (claim_ClaimAddress r) (claim_IsCertValid r) (claim_IsCertProcessed r) (claim_License r)
    (claim_Type r) (claim_ReleaseTime r) (claim_SourceHash r) (claim_SourceName r)
    (claim_SourceSize r) (claim_SourceMediaType r) (claim_SourceURL r) (claim_FrameWidth r)
    (claim_FrameHeight r) (claim_Duration r) (claim_AudioDuration r) (claim_Email r)
    (claim_HasClaimList r) (claim_ClaimReference r) (claim_ListType r) (claim_ClaimIDList r)
    (claim_TransactionHashUpdate r) (claim_VoutUpdate r) (claim_ClaimCount r)
    (claim_ModifiedAt r).

Record Support := mkSupport {
  support_ID : Z;
  support_SupportedClaimID : string;
  support_SupportAmount : float64;
  support_BidState : string;
  support_TransactionHashID : option string;
  support_Vout : Z;
  support_SupportedByClaimID : option string;
}.
#[export] Instance eta_Support : Eta Support := fun r =>
  mkSupport (support_ID r) (support_SupportedClaimID r) (support_SupportAmount r)
    (support_BidState r) (support_TransactionHashID r) (support_Vout r)
    (support_SupportedByClaimID r).

Record Purchase := mkPurchase {
  purchase_ID : Z;
  purchase_TransactionByHashID : option string;
  purchase_Vout : Z;
  purchase_ClaimID : option string;
  purchase_PublisherID : option string;
  purchase_Height : Z;
  purchase_AmountSatoshi : Z;
}.
#[export] Instance eta_Purchase : Eta Purchase := fun r =>
  mkPurchase (purchase_ID r) (purchase_TransactionByHashID r) (purchase_Vout r)
    (purchase_ClaimID r) (purchase_PublisherID r) (purchase_Height r) (purchase_AmountSatoshi r).

Record Tag := mkTag {
  tag_ID : Z;
  tag_Tag : string;
}.
#[export] Instance eta_Tag : Eta Tag := fun r =>
  mkTag (tag_ID r) (tag_Tag r).

Record ClaimTag := mkClaimTag {
  ctag_ID : Z;
  ctag_TagID : option Z;
  ctag_ClaimID : string;
}.
#[export] Instance eta_ClaimTag : Eta ClaimTag := fun r =>
  mkClaimTag (ctag_ID r) (ctag_TagID r) (ctag_ClaimID r).

Record JobStatus := mkJobStatus {
  status_JobName : string;
  status_LastSync : Z;
  status_IsSuccess : bool;
  status_ErrorMessage : option string;
  status_State : option string;
}.
#[export] Instance eta_JobStatus : Eta JobStatus := fun r =>
  mkJobStatus (status_JobName r) (status_LastSync r) (status_IsSuccess r)
    (status_ErrorMessage r) (status_State r).

Record ApplicationStatus := mkApplicationStatus {
  app_ID : Z;
  app_AppVersion : Z;
  app_DataVersion : Z;
  app_APIVersion : Z;
}.
#[export] Instance eta_ApplicationStatus : Eta ApplicationStatus := fun r =>
  mkApplicationStatus (app_ID r) (app_AppVersion r) (app_DataVersion r) (app_APIVersion r).
