(* ===== verification/Store.v ===== *)
(** * The database as the program sees it

    Tables as lists of rows in insertion order with their auto-increment counters, the keys
    that [db/chainquery_schema.sql] and the migrations declare, and the statements the generated code of [model/*.go] issues:
    one-row and many-row selects, counts, inserts, whole-row and single-column updates, and the
    cascading delete of a block.  A statement is atomic.  Every statement may fail: the
    environment [db_fault] names, for each tick of the world's clock, the error the next
    statement returns, if any; a failed statement leaves the database as it was.  A select
    without an order returns the first match in insertion order.  The texts the generated code
    wraps around a driver error are left out; the wrapping keeps the error recognisable.  The
    triggers on [transaction_address], which adjust [address.balance], are not modelled. *)
From S2P Require Import Prelude Lbrycrd Rows.

(** ** Tables *)

Record table (R : Type) := mkTable { rows : list R; auto : Z }.
Arguments mkTable {R}. Arguments rows {R}. Arguments auto {R}.

Record DB := mkDB {
  t_blocks : table Block;
  t_transactions : table Transaction;
  t_inputs : table Input;
  t_outputs : table Output;
  t_addresses : table Address;
  t_tx_addresses : table TransactionAddress;
  t_claims : table Claim;
  t_supports : table Support;
  t_purchases : table Purchase;
  t_tags : table Tag;
  t_claim_tags : table ClaimTag;
  t_jobs : table JobStatus;
  t_status : table ApplicationStatus;
}.
#[export] Instance eta_DB : Eta DB := fun d =>
  mkDB (t_blocks d) (t_transactions d) (t_inputs d) (t_outputs d) (t_addresses d)
    (t_tx_addresses d) (t_claims d) (t_supports d) (t_purchases d) (t_tags d) (t_claim_tags d)
    (t_jobs d) (t_status d).

(** What the statements need of a row type: its table, its primary key, the value an insert
    gives an auto-increment key, the unique keys (when two rows clash), the foreign keys (what
    an insert or an update requires of the rest of the database), and what an update that
    changes a key requires of the rows that reference it ([ON UPDATE NO ACTION]). *)
Class Row (R : Type) := {
  get_table : DB -> table R;
  set_table : table R -> DB -> DB;
  same_key : R -> R -> bool;
  fill_key : Z -> R -> R;
  clash : R -> R -> bool;
  fk_ok : DB -> R -> bool;
  parent_ok : DB -> R -> R -> bool;
}.

(** The laws every instance satisfies; they let the statements be reasoned about once. *)
Class RowLaws (R : Type) `{Row R} := {
  get_set : forall t d, get_table (set_table t d) = t;
  set_set : forall t t' d, set_table t (set_table t' d) = set_table t d;
  set_get : forall d, set_table (get_table d) d = d;
}.

Definition opt_eqb {A} `{EqDecision A} (x y : option A) : bool := bool_decide (x = y).

(** In MySQL's unique keys NULL never equals NULL. *)
Definition opt_clash {A} `{EqDecision A} (x y : option A) : bool :=
  match x, y with Some a, Some b => bool_decide (a = b) | _, _ => false end.

Definition row_exists {R} `{Row R} (f : R -> bool) (d : DB) : bool :=
  existsb f (rows (get_table d)).

#[export] Instance row_block : Row Block := {|
  get_table := t_blocks;
  set_table t d := d <| t_blocks := t |>;
  same_key a b := block_ID a =? block_ID b;
  fill_key i b := if block_ID b =? 0 then b <| block_ID := i |> else b;
  clash a b := bool_decide (block_Hash a = block_Hash b);
  fk_ok _ _ := true;
  parent_ok d old new := bool_decide (block_Hash old = block_Hash new) ||
    negb (existsb (fun t => opt_clash (txn_BlockHashID t) (Some (block_Hash old)))
            (rows (t_transactions d)));
|}.
#[export] Instance row_transaction : Row Transaction := {|
  get_table := t_transactions;
  set_table t d := d <| t_transactions := t |>;
  same_key a b := txn_ID a =? txn_ID b;
  fill_key i b := if txn_ID b =? 0 then b <| txn_ID := i |> else b;
  clash a b := bool_decide (txn_Hash a = txn_Hash b);
  fk_ok d t := match txn_BlockHashID t with
               | Some h => row_exists (fun b => bool_decide (block_Hash b = h)) d
               | None => true
               end;
  parent_ok d old new := bool_decide (txn_Hash old = txn_Hash new) ||
    negb (existsb (fun c => opt_clash (claim_TransactionHashID c) (Some (txn_Hash old)))
            (rows (t_claims d)) ||
          existsb (fun s => opt_clash (support_TransactionHashID s) (Some (txn_Hash old)))
            (rows (t_supports d)) ||
          existsb (fun p => opt_clash (purchase_TransactionByHashID p) (Some (txn_Hash old)))
            (rows (t_purchases d)));
|}.
#[export] Instance row_input : Row Input := {|
  get_table := t_inputs;
  set_table t d := d <| t_inputs := t |>;
  same_key a b := in_ID a =? in_ID b;
  fill_key i b := if in_ID b =? 0 then b <| in_ID := i |> else b;
  clash _ _ := false;
  fk_ok d i := row_exists (fun t => txn_ID t =? in_TransactionID i) d;
  parent_ok _ _ _ := true;
|}.
#[export] Instance row_output : Row Output := {|
  get_table := t_outputs;
  set_table t d := d <| t_outputs := t |>;
  same_key a b := out_ID a =? out_ID b;
  fill_key i b := if out_ID b =? 0 then b <| out_ID := i |> else b;
  clash a b := bool_decide (out_TransactionHash a = out_TransactionHash b) &&
               (out_Vout a =? out_Vout b);
  fk_ok d o := row_exists (fun t => txn_ID t =? out_TransactionID o) d;
  parent_ok _ _ _ := true;
|}.
#[export] Instance row_address : Row Address := {|
  get_table := t_addresses;
  set_table t d := d <| t_addresses := t |>;
  same_key a b := addr_ID a =? addr_ID b;
  fill_key i b := if addr_ID b =? 0 then b <| addr_ID := i |> else b;
  clash a b := bool_decide (addr_Address a = addr_Address b);
  fk_ok _ _ := true;
  parent_ok _ _ _ := true;
|}.
#[export] Instance row_tx_address : Row TransactionAddress := {|
  get_table := t_tx_addresses;
  set_table t d := d <| t_tx_addresses := t |>;
  same_key a b := (txaddr_TransactionID a =? txaddr_TransactionID b) &&
                  (txaddr_AddressID a =? txaddr_AddressID b);
  fill_key _ b := b;
  clash a b := (txaddr_TransactionID a =? txaddr_TransactionID b) &&
               (txaddr_AddressID a =? txaddr_AddressID b);
  fk_ok d a := row_exists (fun t => txn_ID t =? txaddr_TransactionID a) d &&
               row_exists (fun t => addr_ID t =? txaddr_AddressID a) d;
  parent_ok _ _ _ := true;
|}.
#[export] Instance row_claim : Row Claim := {|
  get_table := t_claims;
  set_table t d := d <| t_claims := t |>;
  same_key a b := claim_ID a =? claim_ID b;
  (* the column default of [bid_state] is read back after an insert *)
  fill_key i b :=
    let b := if claim_ID b =? 0 then b <| claim_ID := i |> else b in
    if bool_decide (claim_BidState b = "") then b <| claim_BidState := "Accepted" |> else b;
  clash a b := opt_clash (claim_TransactionHashID a) (claim_TransactionHashID b) &&
               (claim_Vout a =? claim_Vout b) && bool_decide (claim_ClaimID a = claim_ClaimID b);
  fk_ok d c := match claim_TransactionHashID c with
               | Some h => row_exists (fun t => bool_decide (txn_Hash t = h)) d
               | None => true
               end;
  parent_ok d old new := bool_decide (claim_ClaimID old = claim_ClaimID new) ||
    negb (existsb (fun c => bool_decide (ctag_ClaimID c = claim_ClaimID old))
            (rows (t_claim_tags d)));
|}.
#[export] Instance row_support : Row Support := {|
  get_table := t_supports;
  set_table t d := d <| t_supports := t |>;
  same_key a b := support_ID a =? support_ID b;
  fill_key i b := if support_ID b =? 0 then b <| support_ID := i |> else b;
  clash a b := opt_clash (support_TransactionHashID a) (support_TransactionHashID b) &&
               (support_Vout a =? support_Vout b);
  fk_ok d s := match support_TransactionHashID s with
               | Some h => row_exists (fun t => bool_decide (txn_Hash t = h)) d
               | None => true
               end;
  parent_ok _ _ _ := true;
|}.
#[export] Instance row_purchase : Row Purchase := {|
  get_table := t_purchases;
  set_table t d := d <| t_purchases := t |>;
  same_key a b := purchase_ID a =? purchase_ID b;
  fill_key i b := if purchase_ID b =? 0 then b <| purchase_ID := i |> else b;
  clash a b := opt_clash (purchase_TransactionByHashID a) (purchase_TransactionByHashID b) &&
               (purchase_Vout a =? purchase_Vout b) &&
               opt_clash (purchase_ClaimID a) (purchase_ClaimID b);
  fk_ok d p := match purchase_TransactionByHashID p with
               | Some h => row_exists (fun t => bool_decide (txn_Hash t = h)) d
               | None => true
               end;
  parent_ok _ _ _ := true;
|}.
#[export] Instance row_tag : Row Tag := {|
  get_table := t_tags;
  set_table t d := d <| t_tags := t |>;
  same_key a b := tag_ID a =? tag_ID b;
  fill_key i b := if tag_ID b =? 0 then b <| tag_ID := i |> else b;
  clash a b := bool_decide (tag_Tag a = tag_Tag b);
  fk_ok _ _ := true;
  parent_ok _ _ _ := true;
|}.
#[export] Instance row_claim_tag : Row ClaimTag := {|
  get_table := t_claim_tags;
  set_table t d := d <| t_claim_tags := t |>;
  same_key a b := ctag_ID a =? ctag_ID b;
  fill_key i b := if ctag_ID b =? 0 then b <| ctag_ID := i |> else b;
  clash a b := opt_clash (ctag_TagID a) (ctag_TagID b) &&
               bool_decide (ctag_ClaimID a = ctag_ClaimID b);
  fk_ok d c := row_exists (fun k => bool_decide (claim_ClaimID k = ctag_ClaimID c)) d &&
               match ctag_TagID c with
               | Some i => row_exists (fun t => tag_ID t =? i) d
               | None => true
               end;
  parent_ok _ _ _ := true;
|}.
#[export] Instance row_job : Row JobStatus := {|
  get_table := t_jobs;
  set_table t d := d <| t_jobs := t |>;
  same_key a b := bool_decide (status_JobName a = status_JobName b);
  fill_key _ b := b;
  clash _ _ := false;
  fk_ok _ _ := true;
  parent_ok _ _ _ := true;
|}.
#[export] Instance row_status : Row ApplicationStatus := {|
  get_table := t_status;
  set_table t d := d <| t_status := t |>;
  same_key a b := app_ID a =? app_ID b;
  fill_key i b := if app_ID b =? 0 then b <| app_ID := i |> else b;
  clash _ _ := false;
  fk_ok _ _ := true;
  parent_ok _ _ _ := true;
|}.

Ltac row_laws := split; [by intros ? [] | by intros ? ? [] | by intros []].
#[export] Instance laws_block : RowLaws Block. Proof. row_laws. Qed.
#[export] Instance laws_transaction : RowLaws Transaction. Proof. row_laws. Qed.
#[export] Instance laws_input : RowLaws Input. Proof. row_laws. Qed.
#[export] Instance laws_output : RowLaws Output. Proof. row_laws. Qed.
#[export] Instance laws_address : RowLaws Address. Proof. row_laws. Qed.
#[export] Instance laws_tx_address : RowLaws TransactionAddress. Proof. row_laws. Qed.
#[export] Instance laws_claim : RowLaws Claim. Proof. row_laws. Qed.
#[export] Instance laws_support : RowLaws Support. Proof. row_laws. Qed.
#[export] Instance laws_purchase : RowLaws Purchase. Proof. row_laws. Qed.
#[export] Instance laws_tag : RowLaws Tag. Proof. row_laws. Qed.
#[export] Instance laws_claim_tag : RowLaws ClaimTag. Proof. row_laws. Qed.
#[export] Instance laws_job : RowLaws JobStatus. Proof. row_laws. Qed.
#[export] Instance laws_status : RowLaws ApplicationStatus. Proof. row_laws. Qed.

(** ** The world and its environment *)

(** The database, the clock that numbers the program's interactions, and the wall-clock time
    the program last read. *)
Record World := mkWorld { db : DB; tick : nat }.

(** What happens to the statement issued at a given tick. *)
Class Faults := { db_fault : nat -> option error }.

(** database/sql reports a missing row as [sql.ErrNoRows] and nothing else as that. *)
Class DriverFaults `{Faults} : Prop :=
  driver_faults : forall now e, db_fault now = Some e -> unwrap e <> ErrNoRows.

(** A database without failures. *)
Class Healthy `{Faults} : Prop := healthy : forall now, db_fault now = None.
#[export] Instance healthy_driver `{Faults} : Healthy -> DriverFaults.
Proof. intros Hh now e He. by rewrite healthy in He. Qed.

Definition set_db (d : DB) (w : World) : World := mkWorld d (tick w).
Definition ticked (w : World) : World := mkWorld (db w) (S (tick w)).

Section Statements.
Context `{Faults}.

(** One statement. *)
Definition stmt {A} (f : DB -> res (A * DB)) : M World A := fun w =>
  match db_fault (tick w) with
  | Some e => (Err e, ticked w)
  | None =>
      match f (db w) with
      | Ok (a, d) => (Ok a, ticked (set_db d w))
      | Err e => (Err e, ticked w)
      | Panic e => (Panic e, ticked w)
      end
  end.

Definition query {A} (f : DB -> res A) : M World A :=
  stmt (fun d => let? a := f d in Ok (a, d)).

Section Table.
Context {R : Type} `{Row R}.

(** [OneG]: [sql.ErrNoRows] when nothing matches. *)
Definition oneG (f : R -> bool) : M World R :=
  query (fun d => match List.find f (rows (get_table d)) with
                  | Some r => Ok r | None => Err ErrNoRows end).
Definition allG (f : R -> bool) : M World (list R) :=
  query (fun d => Ok (List.filter f (rows (get_table d)))).
Definition countG (f : R -> bool) : M World Z :=
  query (fun d => Ok (Z.of_nat (count_if f (rows (get_table d))))).
Definition existsG (f : R -> bool) : M World bool :=
  query (fun d => Ok (existsb f (rows (get_table d)))).

Definition duplicate_entry : error := ErrMySQL 1062.
Definition no_referenced_row : error := ErrMySQL 1452.
Definition row_is_referenced : error := ErrMySQL 1451.

(** The row with its key filled in, and the database with it. *)
Definition insert_row (r : R) (d : DB) : res (R * DB) :=
  let t := get_table d in
  let r := fill_key (auto t) r in
  if existsb (fun x => same_key x r || clash x r) (rows t) then Err duplicate_entry
  else if negb (fk_ok d r) then Err no_referenced_row
  else Ok (r, set_table (mkTable (rows t ++ [r]) (auto t + 1)) d).

(** [InsertG]: the insert, then a select by primary key that fetches the column defaults. *)
Definition insertG (r : R) : M World R :=
  let* r' := stmt (insert_row r) in
  let* _ := oneG (same_key r') in
  mret r'.

(** [UPDATE ... WHERE key = ?]: nothing happens when no row has the key. *)
Definition update_rows (upd : R -> R) (r : R) (d : DB) : res (unit * DB) :=
  let t := get_table d in
  match List.find (same_key r) (rows t) with
  | None => Ok (tt, d)
  | Some old =>
      let new := upd old in
      if existsb (fun x => negb (same_key r x) && clash x new) (rows t) then Err duplicate_entry
      else if negb (fk_ok d new) then Err no_referenced_row
      else if negb (parent_ok d old new) then Err row_is_referenced
      else Ok (tt, set_table
        (mkTable (map (fun x => if same_key r x then new else x) (rows t)) (auto t)) d)
  end.

(** [UpdateG(boil.Infer())] writes all the columns, [UpdateG(boil.Whitelist(...))] some. *)
Definition updateG (r : R) : M World unit := stmt (update_rows (fun _ => r) r).
Definition update_colsG (upd : R -> R) (r : R) : M World unit := stmt (update_rows upd r).

(** [INSERT ... ON DUPLICATE KEY UPDATE id=id]: a row with one of the keys stays as it is. *)
Definition insert_or_keep (r : R) (d : DB) : res (unit * DB) :=
  let t := get_table d in
  let r := fill_key (auto t) r in
  if existsb (fun x => same_key x r || clash x r) (rows t) then Ok (tt, d)
  else if negb (fk_ok d r) then Err no_referenced_row
  else Ok (tt, set_table (mkTable (rows t ++ [r]) (auto t + 1)) d).
Definition insert_or_keepG (r : R) : M World unit := stmt (insert_or_keep r).

(** [UpsertG(boil.None(), boil.Infer())]: the same, then a select by unique key that reads the
    stored row, new or old, back into the struct. *)
Definition upsertG (r : R) : M World R :=
  let* _ := insert_or_keepG r in
  oneG (clash r).
End Table.

(** ** Deleting a block: the foreign keys cascade *)

Definition keep_rows {R} (f : R -> bool) (t : table R) : table R :=
  mkTable (List.filter f (rows t)) (auto t).

(** [ON DELETE CASCADE] of [claim.transaction_hash_id], [claim_tag.claim_id] and the others:
    everything that hangs on the given transactions goes with them. *)
Definition delete_transactions (gone : Transaction -> bool) (d : DB) : DB :=
  let dead := List.filter gone (rows (t_transactions d)) in
  let dead_id (i : Z) := existsb (fun t => txn_ID t =? i) dead in
  let dead_hash (h : option string) :=
    match h with Some h => existsb (fun t => bool_decide (txn_Hash t = h)) dead | None => false end in
  let claims := keep_rows (fun c => negb (dead_hash (claim_TransactionHashID c))) (t_claims d) in
  let dead_claims := List.filter (fun c => dead_hash (claim_TransactionHashID c)) (rows (t_claims d)) in
  mkDB (t_blocks d)
    (keep_rows (fun t => negb (gone t)) (t_transactions d))
    (keep_rows (fun i => negb (dead_id (in_TransactionID i))) (t_inputs d))
    (keep_rows (fun o => negb (dead_id (out_TransactionID o))) (t_outputs d))
    (t_addresses d)
    (keep_rows (fun a => negb (dead_id (txaddr_TransactionID a))) (t_tx_addresses d))
    claims
    (keep_rows (fun s => negb (dead_hash (support_TransactionHashID s))) (t_supports d))
    (keep_rows (fun p => negb (dead_hash (purchase_TransactionByHashID p))) (t_purchases d))
    (t_tags d)
    (keep_rows (fun c => negb (existsb (fun k => bool_decide (claim_ClaimID k = ctag_ClaimID c))
                                 dead_claims)) (t_claim_tags d))
    (t_jobs d) (t_status d).

Definition delete_block (b : Block) (d : DB) : DB :=
  let dead := List.filter (same_key b) (rows (t_blocks d)) in
  let d := delete_transactions (fun t =>
    match txn_BlockHashID t with
    | Some h => existsb (fun x => bool_decide (block_Hash x = h)) dead
    | None => false
    end) d in
  d <| t_blocks := keep_rows (fun x => negb (same_key b x)) (t_blocks d) |>.

(** [block.DeleteG()] *)
Definition deleteG_block (b : Block) : M World unit := stmt (fun d => Ok (tt, delete_block b d)).
(** [transaction.DeleteG()] *)
Definition deleteG_transaction (t : Transaction) : M World unit :=
  stmt (fun d => Ok (tt, delete_transactions (same_key t) d)).

(** [claim.ClaimTags().DeleteAll(...)] *)
Definition delete_claim_tagsG (claimID : string) : M World unit :=
  stmt (fun d => Ok (tt, d <| t_claim_tags :=
    keep_rows (fun c => negb (bool_decide (ctag_ClaimID c = claimID))) (t_claim_tags d) |>)).

(** [model.Outputs(where).UpdateAllG(...)] on columns without keys. *)
Definition update_outputsG (f : Output -> bool) (upd : Output -> Output) : M World unit :=
  stmt (fun d => Ok (tt, d <| t_outputs :=
    mkTable (map (fun o => if f o then upd o else o) (rows (t_outputs d)))
      (auto (t_outputs d)) |>)).

(** A statement on a table that is not modelled. *)
Definition other_stmt : M World unit := stmt (fun d => Ok (tt, d)).
End Statements.
