(* ===== verification/Datastore.v ===== *)
(** * Get and put ([datastore/datastore.go])

    The lookups swallow every error (they log it and return nil), the puts look for an existing
    row and update it or insert a new one.  A put returns the caller's struct as it is
    afterwards, with the key the database gave it. *)
From S2P Require Import Prelude Lbrycrd Rows Store.

Section Datastore.
Context `{Faults}.

(** [x, err := ...OneG(); if err != nil { log }; return x] *)
Definition get_or_nil {R} (m : M World R) : M World (option R) :=
  let* r := mtry m in
  match r with inl x => mret (Some x) | inr _ => mret None end.

(** [if err != nil && !errors.Is(err, sql.ErrNoRows) { return err }] *)
Definition one_or_none {R} (m : M World R) : M World (option R) :=
  let* r := mtry m in
  match r with
  | inl x => mret (Some x)
  | inr e => match unwrap e with ErrNoRows => mret None | _ => mfail e end
  end.

(** [errors.Prefix(p, err)] around an operation. *)
Definition prefixed {A} (p : string) (m : M World A) : M World A :=
  let* r := mtry m in
  match r with inl x => mret x | inr e => mfail (ErrPrefix p e) end.

(** The shape [exists, err := ...ExistsG(); log err; if exists { x, err := One; log err }]. *)
Definition get_if_exists {R} (exists_m : M World bool) (m : M World R) : M World (option R) :=
  let* r := mtry exists_m in
  match r with
  | inl true => get_or_nil m
  | _ => mret None
  end.

(** ** Outputs *)

Definition output_at (txHash : string) (vout : Z) (o : Output) : bool :=
  bool_decide (out_TransactionHash o = txHash) && (out_Vout o =? vout).

Definition GetOutput (txHash : string) (vout : Z) : M World (option Output) :=
  get_or_nil (oneG (output_at txHash vout)).

(** The columns an update writes: given the struct and the stored row, the new row. *)
Definition infer {R} (new old : R) : R := new.

Definition PutOutput (output : Output) (columns : Output -> Output -> Output)
  : M World Output :=
  prefixed "Datastore(PUTOUTPUT)"
    (let* existingOutput :=
       one_or_none (oneG (output_at (out_TransactionHash output) (out_Vout output))) in
     match existingOutput with
     | Some existing =>
         let output := output <| out_ID := out_ID existing |> in
         let* _ := update_colsG (columns output) output in mret output
     | None => insertG output
     end).

(** ** Inputs *)

(** [prevout_hash = ?] never matches NULL. *)
Definition input_at (txHash : string) (isCoinBase : bool) (prevHash : string) (prevN : Z)
  (i : Input) : bool :=
  bool_decide (in_TransactionHash i = txHash) && Bool.eqb (in_IsCoinbase i) isCoinBase &&
  bool_decide (in_PrevoutHash i = Some prevHash) && bool_decide (in_PrevoutN i = Some prevN).

Definition GetInput (txHash : string) (isCoinBase : bool) (prevHash : string) (prevN : Z)
  : M World (option Input) :=
  get_or_nil (oneG (input_at txHash isCoinBase prevHash prevN)).

(** [IsZero] of a nullable column is "not valid": then the column must be NULL. *)
Definition same_input (input i : Input) : bool :=
  bool_decide (in_TransactionHash i = in_TransactionHash input) &&
  Bool.eqb (in_IsCoinbase i) (in_IsCoinbase input) &&
  opt_eqb (in_PrevoutHash i) (in_PrevoutHash input) &&
  opt_eqb (in_PrevoutN i) (in_PrevoutN input).

Definition PutInput (input : Input) : M World Input :=
  prefixed "Datastore(PUTINPUT)"
    (let* found := existsG (same_input input) in
     if (found : bool) then let* _ := updateG input in mret input
     else insertG input).

(** ** Addresses *)

Definition GetAddress (addr : string) : M World (option Address) :=
  get_or_nil (oneG (fun a => bool_decide (addr_Address a = addr))).

Definition PutAddress (address : Address) : M World Address :=
  prefixed "Datastore(PUTADDRESS)"
    (if (addr_ID address =? 0) && negb (bool_decide (addr_Address address = ""))
     then upsertG address
     else
       let* found := existsG (fun a => addr_ID a =? addr_ID address) in
       if (found : bool) then let* _ := updateG address in mret address
       else insertG address).

Definition txaddr_at (txID addrID : Z) (a : TransactionAddress) : bool :=
  (txaddr_TransactionID a =? txID) && (txaddr_AddressID a =? addrID).

Definition GetTxAddress (txID addrID : Z) : M World (option TransactionAddress) :=
  get_if_exists (existsG (txaddr_at txID addrID)) (oneG (txaddr_at txID addrID)).

Definition UpdateTxAddressAmounts (txAddress : TransactionAddress) : M World unit :=
  prefixed "Datastore(PUTTXADDRESS)" (updateG txAddress).

Definition PutTxAddress (txAddress : TransactionAddress) : M World TransactionAddress :=
  prefixed "Datastore(PUTTXADDRESS)"
    (let* found := existsG
       (txaddr_at (txaddr_TransactionID txAddress) (txaddr_AddressID txAddress)) in
     if (found : bool) then let* _ := updateG txAddress in mret txAddress
     else insertG txAddress).

(** ** Claims *)

Definition claim_is (claimID : string) (c : Claim) : bool :=
  bool_decide (claim_ClaimID c = claimID).

Definition GetClaim (addr : string) : M World (option Claim) :=
  get_if_exists (existsG (claim_is addr)) (oneG (claim_is addr)).

Definition PutClaim (claim : Claim) : M World Claim :=
  prefixed "Datastore(PUTCLAIM)"
    (let* existingClaim :=
       (if 0 <? claim_ID claim
        then one_or_none (oneG (fun c => claim_ID c =? claim_ID claim)) else mret None) in
     let* existingClaim :=
       (match existingClaim with
        | None =>
            if negb (bool_decide (claim_ClaimID claim = ""))
            then one_or_none (oneG (claim_is (claim_ClaimID claim))) else mret None
        | Some _ => mret existingClaim
        end) in
     match existingClaim with
     | Some existing =>
         let claim := claim <| claim_ID := claim_ID existing |> in
         let* _ := updateG claim in mret claim
     | None => insertG claim
     end).

(** ** Supports *)

Definition support_at (txHash : string) (vout : Z) (s : Support) : bool :=
  bool_decide (support_TransactionHashID s = Some txHash) && (support_Vout s =? vout).

Definition GetSupport (txHash : string) (vout : Z) : M World (option Support) :=
  get_or_nil (oneG (support_at txHash vout)).

(** The raw insert names every column but the key. *)
Definition PutSupport (support : Support) : M World unit :=
  prefixed "Datastore(PUTSUPPORT)" (insert_or_keepG (support <| support_ID := 0 |>)).

(** ** Tags *)

Definition GetTag (tagName : string) : M World (option Tag) :=
  get_or_nil (oneG (fun t => bool_decide (tag_Tag t = tagName))).

Definition PutTag (tag : Tag) : M World Tag :=
  prefixed "Datastore(PUTTAG)" (upsertG tag).

Definition GetClaimTag (tagID : Z) (claimID : string) : M World (option ClaimTag) :=
  get_or_nil (oneG (fun c =>
    bool_decide (ctag_TagID c = Some tagID) && bool_decide (ctag_ClaimID c = claimID))).

(** [claimTag.TagID.Uint64] is 0 when the tag id is not set. *)
Definition PutClaimTag (claimTag : ClaimTag) : M World unit :=
  prefixed "Datastore(PUTCLAIMTAG)"
    (insert_or_keepG (mkClaimTag 0 (Some (default 0 (ctag_TagID claimTag)))
                        (ctag_ClaimID claimTag))).

(** ** Purchases *)

Definition purchase_at (txHash : string) (vout : Z) (claimID : string) (p : Purchase) : bool :=
  bool_decide (purchase_ClaimID p = Some claimID) &&
  bool_decide (purchase_TransactionByHashID p = Some txHash) && (purchase_Vout p =? vout).

Definition GetPurchase (txHash : string) (vout : Z) (claimID : string)
  : M World (option Purchase) :=
  get_if_exists (existsG (purchase_at txHash vout claimID))
    (oneG (purchase_at txHash vout claimID)).

Definition PutPurchase (purchase : Purchase) : M World Purchase :=
  prefixed "Datastore(PUTPURCHASE)"
    (let* found := existsG (purchase_at (default "" (purchase_TransactionByHashID purchase))
       (purchase_Vout purchase) (default "" (purchase_ClaimID purchase))) in
     if (found : bool) then let* _ := updateG purchase in mret purchase
     else insertG purchase).
End Datastore.
