(* ===== verification/StoreFacts.v ===== *)
(** * What statements and datastore operations change

    Effects on the database as preorders ([on_db]); a relation that does not look at a table
    ([Ignores]), or allows what inserts and updates do to it ([Stable]), is respected by every
    statement on that table, and so by every operation and handler built from such statements:
    [go_steps] finds these proofs.  Then the outcome of the single statements in an environment
    that fails at will. *)
From S2P Require Import Prelude Bytes Lbrycrd Rows Store Datastore.

(** A relation on databases, read on worlds. *)
Definition on_db (R : relation DB) : relation World := fun w w' => R (db w) (db w').
#[export] Instance on_db_preorder R : PreOrder R -> PreOrder (on_db R).
Proof.
  intros HR. split; unfold on_db; [intros w | intros w1 w2 w3 H1 H2].
  - reflexivity.
  - etrans; [exact H1 | exact H2].
Qed.

(** [R] does not look at the table of [T]. *)
Class Ignores (R : relation DB) (T : Type) `{Row T} := ignores : forall t d, R d (set_table t d).
#[export] Hint Extern 1 (Ignores (same _) _) => (intros ? []; reflexivity) : typeclass_instances.

(** The conjunction of two effects. *)
Definition both {W} (R1 R2 : relation W) : relation W := fun w w' => R1 w w' /\ R2 w w'.
#[export] Instance both_preorder {W} (R1 R2 : relation W) :
  PreOrder R1 -> PreOrder R2 -> PreOrder (both R1 R2).
Proof.
  intros H1 H2. split; unfold both; [intros w; split; reflexivity |].
  intros w1 w2 w3 [Ha Hb] [Hc Hd]. split; etrans; eauto.
Qed.
#[export] Instance both_ignores R1 R2 T `{Row T} :
  Ignores R1 T -> Ignores R2 T -> Ignores (both R1 R2) T.
Proof. intros H1 H2 t d. split; [apply H1 | apply H2]. Qed.

(** [R] allows what the statements on the table of [T] do to it: inserts, and updates that leave
    the primary key of the row they find. *)
Definition key_kept {T} `{Row T} (r : T) (upd : T -> T) : Prop :=
  forall old, same_key r old = true -> same_key r (upd old) = true.
Class Stable (R : relation DB) (T : Type) `{Row T} : Prop := {
  stable_insert r d r' d' : insert_row r d = Ok (r', d') -> R d d';
  stable_insert_or_keep r d u d' : insert_or_keep r d = Ok (u, d') -> R d d';
  stable_updateG r d u d' : update_rows (fun _ => r) r d = Ok (u, d') -> R d d';
  stable_update upd r d u d' : key_kept r upd -> update_rows upd r d = Ok (u, d') -> R d d';
}.
(** [R] allows the removal of a claim's tags. *)
Class StableTags (R : relation DB) : Prop := stable_tags : forall f d,
  R d (d <| t_claim_tags := keep_rows f (t_claim_tags d) |>).
(** [R] allows the outputs that [f] chooses to be made unspent. *)
Definition unspent (o : Output) : Output :=
  o <| out_IsSpent := false |> <| out_SpentByInputID := None |>.
Class StableOutputs (R : relation DB) : Prop := stable_outputs : forall (f : Output -> bool) d,
  R d (d <| t_outputs := mkTable (map (fun o => if f o then unspent o else o)
                                    (rows (t_outputs d))) (auto (t_outputs d)) |>).

(** [R] allows the deletion of a block with all that hangs on it. *)
Class StableDelete (R : relation DB) : Prop := stable_delete : forall b d, R d (delete_block b d).
#[export] Hint Extern 1 (StableDelete (same _)) => (intros ? []; reflexivity) : typeclass_instances.

Lemma update_rows_ignored R `{!PreOrder R} `{Row T} `{!Ignores R T} upd (r : T) d u d' :
  update_rows upd r d = Ok (u, d') -> R d d'.
Proof.
  unfold update_rows. intros E. repeat case_match; simplify_eq; [apply ignores | reflexivity].
Qed.

Section IgnoresStable.
Context (R : relation DB) `{!PreOrder R}.
#[export] Instance ignores_stable `{Row T} `{!Ignores R T} : Stable R T.
Proof.
  split.
  - intros r d r' d' E. unfold insert_row in E. repeat case_match; simplify_eq. apply ignores.
  - intros r d u d' E. unfold insert_or_keep in E.
    repeat case_match; simplify_eq; [reflexivity | apply ignores].
  - intros r. apply update_rows_ignored; done.
  - intros upd r d u d' _. apply update_rows_ignored; done.
Qed.
#[export] Instance ignores_stable_tags `{!Ignores R ClaimTag} : StableTags R.
Proof. intros f d. exact (ignores (T:=ClaimTag) (mkTable _ _) d). Qed.
#[export] Instance ignores_stable_outputs `{!Ignores R Output} : StableOutputs R.
Proof. intros f d. exact (ignores (T:=Output) (mkTable _ _) d). Qed.
End IgnoresStable.

(** A conjunction allows what both sides allow. *)
#[export] Instance both_stable R1 R2 T `{Row T} : Stable R1 T -> Stable R2 T -> Stable (both R1 R2) T.
Proof.
  intros [A1 A2 A3 A4] [B1 B2 B3 B4]. split.
  - intros r d r' d' E. split; [by eapply A1 | by eapply B1].
  - intros r d u d' E. split; [by eapply A2 | by eapply B2].
  - intros r d u d' E. split; [by eapply A3 | by eapply B3].
  - intros upd r d u d' Hk E. split; [by eapply A4 | by eapply B4].
Qed.
#[export] Instance both_stable_tags R1 R2 : StableTags R1 -> StableTags R2 -> StableTags (both R1 R2).
Proof. intros H1 H2 f d. split; [apply H1 | apply H2]. Qed.
#[export] Instance both_stable_outputs R1 R2 :
  StableOutputs R1 -> StableOutputs R2 -> StableOutputs (both R1 R2).
Proof. intros H1 H2 f d. split; [apply H1 | apply H2]. Qed.
#[export] Instance both_stable_delete R1 R2 :
  StableDelete R1 -> StableDelete R2 -> StableDelete (both R1 R2).
Proof. intros H1 H2 b d. split; [apply H1 | apply H2]. Qed.
Lemma steps_both {A} (R1 R2 : relation DB) (m : M World A) :
  steps (on_db R1) m -> steps (on_db R2) m -> steps (on_db (both R1 R2)) m.
Proof. intros H1 H2 w. split; [apply H1 | apply H2]. Qed.

Section Effects.
Context `{Faults} (R : relation DB) `{!PreOrder R}.

Lemma steps_stmt {A} (f : DB -> res (A * DB)) :
  (forall d a d', f d = Ok (a, d') -> R d d') -> steps (on_db R) (stmt f).
Proof.
  intros Hf w. unfold stmt, on_db. destruct (db_fault (tick w)); cbn; [reflexivity |].
  destruct (f (db w)) as [[a d] | e | e] eqn:E; cbn; [by eapply Hf | reflexivity..].
Qed.

Lemma steps_query {A} (f : DB -> res A) : steps (on_db R) (query f).
Proof.
  apply steps_stmt. intros d a d' E. apply rbind_Ok in E as (x & _ & [= _ ->]). reflexivity.
Qed.

Lemma steps_other_stmt : steps (on_db R) other_stmt.
Proof. apply steps_stmt. intros d a d' [= _ ->]. reflexivity. Qed.

Section Table.
Context `{Row T}.

Lemma steps_oneG f : steps (on_db R) (oneG (R:=T) f).
Proof. apply steps_query. Qed.
Lemma steps_allG f : steps (on_db R) (allG (R:=T) f).
Proof. apply steps_query. Qed.
Lemma steps_countG f : steps (on_db R) (countG (R:=T) f).
Proof. apply steps_query. Qed.
Lemma steps_existsG f : steps (on_db R) (existsG (R:=T) f).
Proof. apply steps_query. Qed.

Lemma steps_update_ignored `{!Ignores R T} upd r : steps (on_db R) (update_colsG upd r).
Proof. apply steps_stmt. intros d u d'. by apply update_rows_ignored. Qed.

Context `{!Stable R T}.

Lemma steps_insertG r : steps (on_db R) (insertG r).
Proof.
  apply steps_bind; [typeclasses eauto | apply steps_stmt, stable_insert |]. intros r'.
  apply steps_bind; [typeclasses eauto | apply steps_oneG |]. intros _.
  apply steps_ret. typeclasses eauto.
Qed.
Lemma steps_updateG r : steps (on_db R) (updateG r).
Proof. apply steps_stmt, stable_updateG. Qed.
Lemma steps_update_colsG upd r : key_kept r upd -> steps (on_db R) (update_colsG upd r).
Proof. intros Hk. apply steps_stmt. intros d u d'. by apply stable_update. Qed.
Lemma steps_insert_or_keepG r : steps (on_db R) (insert_or_keepG r).
Proof. apply steps_stmt, stable_insert_or_keep. Qed.
Lemma steps_upsertG r : steps (on_db R) (upsertG r).
Proof.
  apply steps_bind; [typeclasses eauto | apply steps_insert_or_keepG |]. intros _.
  apply steps_oneG.
Qed.
End Table.

Lemma steps_delete_claim_tagsG `{!StableTags R} c : steps (on_db R) (delete_claim_tagsG c).
Proof. apply steps_stmt. intros d a d' [= _ <-]. apply stable_tags. Qed.
Lemma steps_update_outputsG `{!StableOutputs R} f : steps (on_db R) (update_outputsG f unspent).
Proof. apply steps_stmt. intros d a d' [= _ <-]. apply stable_outputs. Qed.

Lemma steps_deleteG_block `{!StableDelete R} b : steps (on_db R) (deleteG_block b).
Proof. apply steps_stmt. intros d a d' [= _ <-]. apply stable_delete. Qed.

Lemma steps_get_or_nil {A} (m : M World A) :
  steps (on_db R) m -> steps (on_db R) (get_or_nil m).
Proof. intros. unfold get_or_nil. go_steps. Qed.
Lemma steps_one_or_none {A} (m : M World A) :
  steps (on_db R) m -> steps (on_db R) (one_or_none m).
Proof. intros. unfold one_or_none. go_steps. Qed.
Lemma steps_prefixed {A} p (m : M World A) :
  steps (on_db R) m -> steps (on_db R) (prefixed p m).
Proof. intros. unfold prefixed. go_steps. Qed.
Lemma steps_get_if_exists {A} (m1 : M World bool) (m2 : M World A) :
  steps (on_db R) m1 -> steps (on_db R) m2 -> steps (on_db R) (get_if_exists m1 m2).
Proof. intros. unfold get_if_exists, get_or_nil. go_steps. Qed.
End Effects.

#[export] Hint Resolve steps_query steps_other_stmt steps_oneG steps_allG steps_countG
  steps_existsG steps_insertG steps_updateG steps_update_ignored steps_update_colsG steps_insert_or_keepG
  steps_upsertG steps_deleteG_block steps_delete_claim_tagsG steps_get_or_nil
  steps_one_or_none steps_prefixed steps_get_if_exists : go.
#[export] Hint Extern 1 (steps _ (update_outputsG _ _)) => refine (steps_update_outputsG _ _) : go.
#[export] Hint Extern 1 (Ignores _ _) => typeclasses eauto : go.
#[export] Hint Extern 1 (Stable _ _) => typeclasses eauto : go.
#[export] Hint Extern 1 (StableDelete _) => typeclasses eauto : go.
#[export] Hint Extern 1 (StableTags _) => typeclasses eauto : go.
#[export] Hint Extern 1 (StableOutputs _) => typeclasses eauto : go.
#[export] Hint Extern 1 (key_kept _ _) => (intros ? Hkey; exact Hkey) : go.

(** ** The datastore operations *)

Section Operations.
Context `{Faults} (R : relation DB) `{!PreOrder R}.

Lemma steps_GetOutput h n : steps (on_db R) (GetOutput h n).
Proof. unfold GetOutput. go_steps. Qed.
Lemma steps_GetInput h c p n : steps (on_db R) (GetInput h c p n).
Proof. unfold GetInput. go_steps. Qed.
Lemma steps_GetAddress a : steps (on_db R) (GetAddress a).
Proof. unfold GetAddress. go_steps. Qed.
Lemma steps_GetTxAddress i a : steps (on_db R) (GetTxAddress i a).
Proof. unfold GetTxAddress. go_steps. Qed.
Lemma steps_GetClaim c : steps (on_db R) (GetClaim c).
Proof. unfold GetClaim. go_steps. Qed.
Lemma steps_GetSupport h n : steps (on_db R) (GetSupport h n).
Proof. unfold GetSupport. go_steps. Qed.
Lemma steps_GetTag t : steps (on_db R) (GetTag t).
Proof. unfold GetTag. go_steps. Qed.
Lemma steps_GetPurchase h n c : steps (on_db R) (GetPurchase h n c).
Proof. unfold GetPurchase. go_steps. Qed.

Lemma steps_PutOutput `{!Stable R Output} o cols :
  (forall o', key_kept o' (cols o')) -> steps (on_db R) (PutOutput o cols).
Proof. intros Hc. unfold PutOutput. go_steps. Qed.
Lemma infer_key (o : Output) : key_kept o (infer o).
Proof. intros old _. cbn. apply Z.eqb_refl. Qed.
Lemma steps_PutInput `{!Stable R Input} i : steps (on_db R) (PutInput i).
Proof. unfold PutInput. go_steps. Qed.
Lemma steps_PutAddress `{!Stable R Address} a : steps (on_db R) (PutAddress a).
Proof. unfold PutAddress. go_steps. Qed.
Lemma steps_UpdateTxAddressAmounts `{!Stable R TransactionAddress} a :
  steps (on_db R) (UpdateTxAddressAmounts a).
Proof. unfold UpdateTxAddressAmounts. go_steps. Qed.
Lemma steps_PutTxAddress `{!Stable R TransactionAddress} a : steps (on_db R) (PutTxAddress a).
Proof. unfold PutTxAddress. go_steps. Qed.
Lemma steps_PutClaim `{!Stable R Claim} c : steps (on_db R) (PutClaim c).
Proof. unfold PutClaim. go_steps. Qed.
Lemma steps_PutSupport `{!Stable R Support} s : steps (on_db R) (PutSupport s).
Proof. unfold PutSupport. go_steps. Qed.
Lemma steps_PutTag `{!Stable R Tag} t : steps (on_db R) (PutTag t).
Proof. unfold PutTag. go_steps. Qed.
Lemma steps_PutClaimTag `{!Stable R ClaimTag} c : steps (on_db R) (PutClaimTag c).
Proof. unfold PutClaimTag. go_steps. Qed.
Lemma steps_PutPurchase `{!Stable R Purchase} p : steps (on_db R) (PutPurchase p).
Proof. unfold PutPurchase. go_steps. Qed.
End Operations.

#[export] Hint Resolve steps_GetOutput steps_GetInput steps_GetAddress steps_GetTxAddress
  steps_GetClaim steps_GetSupport steps_GetTag steps_GetPurchase infer_key steps_PutOutput steps_PutInput
  steps_PutAddress steps_UpdateTxAddressAmounts steps_PutTxAddress steps_PutClaim
  steps_PutSupport steps_PutTag steps_PutClaimTag steps_PutPurchase : go.

(** ** What a successful statement has done *)

Section Outcomes.
Context `{Faults}.

Lemma stmt_Ok {A} (f : DB -> res (A * DB)) w a w' :
  stmt f w = (Ok a, w') -> f (db w) = Ok (a, db w') /\ tick w' = S (tick w).
Proof.
  unfold stmt. destruct (db_fault (tick w)); [done |].
  destruct (f (db w)) as [[x d] | e | e]; intros [= -> <-]. done.
Qed.
Lemma stmt_failed {A} (f : DB -> res (A * DB)) w :
  (forall a, (stmt f w).1 <> Ok a) -> db (stmt f w).2 = db w.
Proof.
  unfold stmt. destruct (db_fault (tick w)); [done |].
  destruct (f (db w)) as [[x d] | e | e]; [| done..]. cbn. intros Hno. by destruct (Hno x).
Qed.
Lemma query_Ok {A} (f : DB -> res A) w a w' :
  query f w = (Ok a, w') -> f (db w) = Ok a /\ db w' = db w.
Proof.
  intros [E _]%stmt_Ok. apply rbind_Ok in E as (x & E & [= -> <-]). done.
Qed.

(** Without a fault a statement does what it says. *)
Lemma stmt_healthy {A} (f : DB -> res (A * DB)) w a d :
  db_fault (tick w) = None -> f (db w) = Ok (a, d) ->
  stmt f w = (Ok a, mkWorld d (S (tick w))).
Proof. intros Hf E. unfold stmt. by rewrite Hf, E. Qed.
Lemma query_healthy {A} (f : DB -> res A) w a :
  db_fault (tick w) = None -> f (db w) = Ok a -> query f w = (Ok a, ticked w).
Proof. intros Hf E. unfold query. erewrite stmt_healthy; [done | done |]. by rewrite E. Qed.

Section Table.
Context `{Row R}.

Lemma oneG_Ok f w (r : R) w' :
  oneG f w = (Ok r, w') ->
  List.find f (rows (get_table (db w))) = Some r /\ db w' = db w.
Proof. intros [E ->]%query_Ok. case_match; by simplify_eq. Qed.

Lemma oneG_found f w (r : R) w' :
  oneG f w = (Ok r, w') -> r ∈ rows (get_table (db w)) /\ f r = true /\ db w' = db w.
Proof.
  intros [E ->]%oneG_Ok. apply find_some in E as [Hin Hf]. by rewrite list_elem_of_In.
Qed.

(** With a driver that reports its own errors, [sql.ErrNoRows] means that no row matches. *)
Lemma oneG_no_rows `{!DriverFaults} f w e w' :
  oneG (R:=R) f w = (Err e, w') -> unwrap e = ErrNoRows ->
  (forall r, r ∈ rows (get_table (db w)) -> f r = false) /\ db w' = db w.
Proof.
  unfold oneG, query, stmt. destruct (db_fault (tick w)) as [e' |] eqn:Ef.
  { intros [= -> <-] He. by destruct (driver_faults _ _ Ef). }
  destruct (List.find f _) as [r |] eqn:E; cbn; [done |]. intros [= <- <-] _.
  split; [| done]. intros r Hr. apply list_elem_of_In in Hr. by apply (find_none _ _ E).
Qed.

Lemma allG_Ok f w (l : list R) w' :
  allG f w = (Ok l, w') -> l = List.filter f (rows (get_table (db w))) /\ db w' = db w.
Proof. intros [E ->]%query_Ok. by simplify_eq. Qed.

Lemma existsG_Ok f w b w' :
  existsG (R:=R) f w = (Ok b, w') -> b = existsb f (rows (get_table (db w))) /\ db w' = db w.
Proof. intros [E ->]%query_Ok. by simplify_eq. Qed.

Lemma insertG_Ok (r r' : R) w w' :
  insertG r w = (Ok r', w') ->
  let t := get_table (db w) in
  r' = fill_key (auto t) r /\
  existsb (fun x => same_key x r' || clash x r') (rows t) = false /\
  db w' = set_table (mkTable (rows t ++ [r']) (auto t + 1)) (db w).
Proof.
  unfold insertG. intros E. apply mbind_Ok in E as (r1 & w1 & [E1 _]%stmt_Ok & E).
  apply mbind_Ok in E as (r2 & w2 & [_ E2]%oneG_Ok & E). injection E as <- <-.
  unfold insert_row in E1. repeat case_match; simplify_eq. rewrite E2. auto.
Qed.

Lemma update_colsG_Ok upd (r : R) w u w' :
  update_colsG upd r w = (Ok u, w') ->
  match List.find (same_key r) (rows (get_table (db w))) with
  | None => db w' = db w
  | Some old => db w' = set_table
      (mkTable (map (fun x => if same_key r x then upd old else x) (rows (get_table (db w))))
         (auto (get_table (db w)))) (db w)
  end.
Proof.
  intros [E _]%stmt_Ok. unfold update_rows in E. destruct (List.find _ _); [| by simplify_eq].
  repeat case_match; by simplify_eq.
Qed.
Lemma updateG_Ok (r : R) w u w' :
  updateG r w = (Ok u, w') ->
  match List.find (same_key r) (rows (get_table (db w))) with
  | None => db w' = db w
  | Some _ => db w' = set_table
      (mkTable (map (fun x => if same_key r x then r else x) (rows (get_table (db w))))
         (auto (get_table (db w)))) (db w)
  end.
Proof. apply (update_colsG_Ok (fun _ => r)). Qed.
End Table.

Lemma get_or_nil_Ok {A} (m : M World A) w o w' :
  get_or_nil m w = (Ok o, w') ->
  match o with
  | Some a => m w = (Ok a, w')
  | None => exists e, m w = (Err e, w')
  end.
Proof.
  unfold get_or_nil, mbind, mtry, mret.
  destruct (m w) as [[a | e | e] w1]; intros [= <- <-]; [done | by exists e].
Qed.
Lemma one_or_none_Ok {A} (m : M World A) w o w' :
  one_or_none m w = (Ok o, w') ->
  match o with
  | Some a => m w = (Ok a, w')
  | None => exists e, m w = (Err e, w') /\ unwrap e = ErrNoRows
  end.
Proof.
  unfold one_or_none, mbind, mtry, mret.
  destruct (m w) as [[a | e | e] w1]; [by intros [= <- <-] | | done].
  destruct (unwrap e) eqn:E; intros [= <- <-]. by exists e.
Qed.
Lemma prefixed_Ok {A} p (m : M World A) w a w' :
  prefixed p m w = (Ok a, w') <-> m w = (Ok a, w').
Proof.
  unfold prefixed, mbind, mtry, mret, mfail, mlift.
  destruct (m w) as [[x | e | e] w1]; split; intros; by simplify_eq.
Qed.
Lemma prefixed_spec {A} p (m : M World A) w :
  (prefixed p m w).2 = (m w).2 /\
  (prefixed p m w).1 = match (m w).1 with Err e => Err (ErrPrefix p e) | r => r end.
Proof.
  unfold prefixed, mbind, mtry, mret, mfail, mlift. by destruct (m w) as [[x | e | e] w1].
Qed.
Lemma mtry_Ok {A} (m : M World A) w r w' :
  mtry m w = (Ok r, w') ->
  match r with inl a => m w = (Ok a, w') | inr e => m w = (Err e, w') end.
Proof. unfold mtry. by destruct (m w) as [[a | e | e] w1]; intros [= <- <-]. Qed.
End Outcomes.
