(* ===== verification/Schema.v ===== *)
(** * The keys of the database

    [db/chainquery_schema.sql] declares primary keys, unique keys and foreign keys.  A database
    is well formed ([schema_ok]) when in every table no two rows share a key and every row's
    references point at stored rows.  The statements of [Store] keep it so, and with them the
    handlers: the relation [keeps schema_ok] is [Stable] for every table. *)
From S2P Require Import Prelude Lbrycrd Rows Store Datastore StoreFacts.

(** ** References *)

(** What a foreign key points at. *)
Inductive ref :=
| RBlock (hash : string)
| RTxID (id : Z)
| RTxHash (hash : string)
| RAddress (id : Z)
| RClaim (claimID : string)
| RTag (id : Z).

Definition provided (d : DB) (x : ref) : bool :=
  match x with
  | RBlock h => row_exists (fun b => bool_decide (block_Hash b = h)) d
  | RTxID i => row_exists (fun t => txn_ID t =? i) d
  | RTxHash h => row_exists (fun t => bool_decide (txn_Hash t = h)) d
  | RAddress i => row_exists (fun a => addr_ID a =? i) d
  | RClaim c => row_exists (fun k => bool_decide (claim_ClaimID k = c)) d
  | RTag i => row_exists (fun t => tag_ID t =? i) d
  end.

Definition opt_ref {A} (f : A -> ref) (o : option A) : list ref :=
  match o with Some a => [f a] | None => [] end.

(** What a row refers to, and the laws of its keys. *)
Class Schema (R : Type) `{Row R} := {
  needs : R -> list ref;
  fk_needs : forall d r, fk_ok d r = forallb (provided d) (needs r);
  key_refl : forall r, same_key r r = true;
  key_sym : forall a b, same_key a b = true -> same_key b a = true;
  key_trans : forall a b c, same_key a b = true -> same_key b c = true -> same_key a c = true;
  clash_sym : forall a b, clash a b = true -> clash b a = true;
}.

Lemma opt_clash_true {A} `{EqDecision A} (x y : option A) :
  opt_clash x y = true <-> exists a, x = Some a /\ y = Some a.
Proof.
  destruct x as [a |], y as [b |]; cbn; rewrite ?bool_decide_eq_true.
  all: split; [intros E; simplify_eq; eauto | intros (c & ? & ?); by simplify_eq].
Qed.

Ltac schema_row :=
  [> intros d r; cbn; repeat case_match; cbn; by rewrite ?andb_true_r
   | intros r; cbn; rewrite ?Z.eqb_refl, ?bool_decide_eq_true; done
   | intros a b; cbn; rewrite ?andb_true_iff, ?bool_decide_eq_true, ?Z.eqb_eq; intuition congruence
   | intros a b c; cbn; rewrite ?andb_true_iff, ?bool_decide_eq_true, ?Z.eqb_eq;
     intuition congruence
   | intros a b; cbn; rewrite ?andb_true_iff, ?opt_clash_true, ?bool_decide_eq_true, ?Z.eqb_eq;
     try done; firstorder congruence ].

#[export, refine] Instance schema_block : Schema Block := {| needs _ := [] |}.
Proof. all: schema_row. Defined.
#[export, refine] Instance schema_transaction : Schema Transaction :=
  {| needs t := opt_ref RBlock (txn_BlockHashID t) |}.
Proof. all: schema_row. Defined.
#[export, refine] Instance schema_input : Schema Input :=
  {| needs i := [RTxID (in_TransactionID i)] |}.
Proof. all: schema_row. Defined.
#[export, refine] Instance schema_output : Schema Output :=
  {| needs o := [RTxID (out_TransactionID o)] |}.
Proof. all: schema_row. Defined.
#[export, refine] Instance schema_address : Schema Address := {| needs _ := [] |}.
Proof. all: schema_row. Defined.
#[export, refine] Instance schema_tx_address : Schema TransactionAddress :=
  {| needs a := [RTxID (txaddr_TransactionID a); RAddress (txaddr_AddressID a)] |}.
Proof. all: schema_row. Defined.
#[export, refine] Instance schema_claim : Schema Claim :=
  {| needs c := opt_ref RTxHash (claim_TransactionHashID c) |}.
Proof. all: schema_row. Defined.
#[export, refine] Instance schema_support : Schema Support :=
  {| needs s := opt_ref RTxHash (support_TransactionHashID s) |}.
Proof. all: schema_row. Defined.
#[export, refine] Instance schema_purchase : Schema Purchase :=
  {| needs p := opt_ref RTxHash (purchase_TransactionByHashID p) |}.
Proof. all: schema_row. Defined.
#[export, refine] Instance schema_tag : Schema Tag := {| needs _ := [] |}.
Proof. all: schema_row. Defined.
#[export, refine] Instance schema_claim_tag : Schema ClaimTag :=
  {| needs c := RClaim (ctag_ClaimID c) :: opt_ref RTag (ctag_TagID c) |}.
Proof. all: schema_row. Defined.
#[export, refine] Instance schema_job : Schema JobStatus := {| needs _ := [] |}.
Proof. all: schema_row. Defined.
#[export, refine] Instance schema_status : Schema ApplicationStatus := {| needs _ := [] |}.
Proof. all: schema_row. Defined.

(** ** Well-formed tables and databases *)

Section Rows.
Context `{Schema R}.

Definition apart (x y : R) : Prop := same_key x y = false /\ clash x y = false.

Lemma apart_sym x y : apart x y -> apart y x.
Proof.
  intros [Hk Hc]. split; apply not_true_iff_false; intros E.
  - apply key_sym in E. congruence.
  - apply clash_sym in E. congruence.
Qed.

(** No two rows share a key, and every reference finds its row. *)
Definition keys_apart (l : list R) : Prop := ForallOrdPairs apart l.
Definition table_ok (d : DB) : Prop :=
  keys_apart (rows (get_table d)) /\
  forall r x, r ∈ rows (get_table d) -> x ∈ needs r -> provided d x = true.

Lemma keys_apart_app l r :
  keys_apart l -> existsb (fun x => same_key x r || clash x r) l = false -> keys_apart (l ++ [r]).
Proof.
  induction 1 as [| x l Hx Hl IH]; cbn; intros Hr; [by repeat constructor |].
  apply orb_false_iff in Hr as [[? ?]%orb_false_iff Hr]. constructor; [| by apply IH].
  apply Forall_app. split; [done |]. by repeat constructor.
Qed.

Lemma keys_apart_filter f l : keys_apart l -> keys_apart (List.filter f l).
Proof.
  induction 1 as [| x l Hx Hl IH]; cbn; [constructor |]. destruct (f x); [| done].
  constructor; [| done]. rewrite Forall_forall in Hx |- *. intros y Hy. apply Hx.
  apply list_elem_of_In, filter_In in Hy as [Hy _]. by apply list_elem_of_In.
Qed.

(** Rewriting the row that has a key, when no other row clashes with the new one. *)
Lemma keys_apart_update r new l :
  keys_apart l -> same_key r new = true ->
  existsb (fun x => negb (same_key r x) && clash x new) l = false ->
  keys_apart (map (fun x => if same_key r x then new else x) l).
Proof.
  intros Hl Hnew. induction Hl as [| x l Hx Hl IH]; cbn; intros Hc; [constructor |].
  apply orb_false_iff in Hc as [Hcx Hc]. constructor; [| by apply IH].
  assert (Hfar : forall y, same_key r y = false -> clash y new = false -> apart new y).
  { intros y Hk Hcl. apply apart_sym. split; [| done]. apply not_true_iff_false. intros E.
    apply not_true_iff_false in Hk. apply Hk. eapply key_trans; [exact Hnew | by apply key_sym]. }
  apply Forall_forall. intros y' (y & -> & Hy)%list_elem_of_fmap.
  assert (Hxy : apart x y) by (rewrite Forall_forall in Hx; by apply Hx).
  assert (Hcy : same_key r y = false -> clash y new = false).
  { intros Hk. apply not_true_iff_false. intros E. apply not_true_iff_false in Hc. apply Hc.
    apply existsb_exists. exists y. rewrite Hk, E. split; [by apply list_elem_of_In | done]. }
  destruct (same_key r x) eqn:Ex, (same_key r y) eqn:Ey; [| by apply Hfar, Hcy | | done].
  - destruct Hxy as [Hk _]. apply not_true_iff_false in Hk. destruct Hk.
    eapply key_trans; [by apply key_sym | done].
  - by apply apart_sym, Hfar.
Qed.

Lemma keys_apart_same l x y :
  keys_apart l -> x ∈ l -> y ∈ l -> same_key x y = true -> x = y.
Proof.
  induction 1 as [| z l Hz Hl IH]; [by intros ?%not_elem_of_nil |].
  rewrite Forall_forall in Hz. rewrite !elem_of_cons. intros [-> | Hx] [-> | Hy] Hk; try done.
  - destruct (Hz y Hy). congruence.
  - apply key_sym in Hk. destruct (Hz x Hx). congruence.
  - by apply IH.
Qed.
End Rows.
Arguments table_ok R {_ _} d.

Definition schema_ok (d : DB) : Prop :=
  table_ok Block d /\ table_ok Transaction d /\ table_ok Input d /\ table_ok Output d /\
  table_ok Address d /\ table_ok TransactionAddress d /\ table_ok Claim d /\
  table_ok Support d /\ table_ok Purchase d /\ table_ok Tag d /\ table_ok ClaimTag d /\
  table_ok JobStatus d /\ table_ok ApplicationStatus d.

(** Some row refers to it. *)
Definition needed_in (R : Type) `{Schema R} (d : DB) (x : ref) : Prop :=
  exists r, r ∈ rows (get_table (R:=R) d) /\ x ∈ needs r.
Definition needed (d : DB) (x : ref) : Prop :=
  needed_in Transaction d x \/ needed_in Input d x \/ needed_in Output d x \/
  needed_in TransactionAddress d x \/ needed_in Claim d x \/ needed_in Support d x \/
  needed_in Purchase d x \/ needed_in ClaimTag d x.

(** A table is unaffected by what happens elsewhere as long as its references are still there. *)
Lemma table_ok_other `{Schema R} d d' :
  rows (get_table (R:=R) d') = rows (get_table d) ->
  (forall x, needed_in R d x -> provided d x = true -> provided d' x = true) ->
  table_ok R d -> table_ok R d'.
Proof.
  intros E Hp [Hk Hfk]. split; [by rewrite E |]. intros r x Hr Hx. rewrite E in Hr.
  apply Hp; [by exists r | by eapply Hfk].
Qed.

(** How a table of the database is replaced: [schema_ok] needs the new table to be well formed,
    and what the other rows refer to to be still there.  No table refers to itself. *)
Class SchemaSet (R : Type) `{Schema R} : Prop := {
  schema_get d : schema_ok d -> table_ok R d;
  schema_set d t : schema_ok d -> table_ok R (set_table t d) ->
    (forall x, needed d x -> provided d x = true -> provided (set_table t d) x = true) ->
    schema_ok (set_table t d);
  needs_elsewhere (r : R) x d t : x ∈ needs r -> provided (set_table t d) x = provided d x;
  provided_grow d l a x : provided d x = true ->
    provided (set_table (mkTable (rows (get_table d) ++ l) a) d) x = true;
  provided_moved d f a x :
    (forall y, y ∈ rows (get_table d) -> f y = y \/ same_key y (f y) = true /\
       parent_ok d y (f y) = true) ->
    needed d x -> provided d x = true ->
    provided (set_table (mkTable (map f (rows (get_table d))) a) d) x = true;
}.

(** Who refers to a block, to a transaction by hash, to a claim. *)
Lemma in_opt_ref {A} (f : A -> ref) o x : x ∈ opt_ref f o -> exists a, o = Some a /\ x = f a.
Proof. destruct o; cbn; [intros ->%list_elem_of_singleton; eauto | by intros ?%not_elem_of_nil]. Qed.

Ltac by_needs :=
  unfold needed, needed_in; cbn [needs schema_transaction schema_input schema_output
    schema_tx_address schema_claim schema_support schema_purchase schema_claim_tag];
  intros Hn; repeat match type of Hn with _ \/ _ => destruct Hn as [Hn | Hn] end;
  destruct Hn as (r & Hr & Hx); rewrite ?elem_of_cons, ?list_elem_of_singleton in Hx;
  repeat match type of Hx with _ \/ _ => destruct Hx as [Hx | Hx] end; try done;
  try (by apply not_elem_of_nil in Hx); try (apply in_opt_ref in Hx as (a & Ha & Hx); try done; injection Hx as <-); eauto.

Lemma needed_block d h :
  needed d (RBlock h) -> exists t, t ∈ rows (t_transactions d) /\ txn_BlockHashID t = Some h.
Proof. by_needs. Qed.
Lemma needed_hash d h : needed d (RTxHash h) ->
  (exists c, c ∈ rows (t_claims d) /\ claim_TransactionHashID c = Some h) \/
  (exists s, s ∈ rows (t_supports d) /\ support_TransactionHashID s = Some h) \/
  (exists p, p ∈ rows (t_purchases d) /\ purchase_TransactionByHashID p = Some h).
Proof. by_needs; eauto 6. Qed.
Lemma needed_claim d c :
  needed d (RClaim c) -> exists g, g ∈ rows (t_claim_tags d) /\ ctag_ClaimID g = c.
Proof. by_needs. injection Hx as ->. eauto. Qed.

(** A row that is rewritten still provides what it provided. *)
Lemma existsb_moved {R} (g : R -> bool) (f : R -> R) l :
  (forall y, y ∈ l -> g y = true -> g (f y) = true) ->
  existsb g l = true -> existsb g (map f l) = true.
Proof.
  intros Hg (y & Hy & Hgy)%existsb_exists. apply existsb_exists. exists (f y).
  split; [by apply in_map |]. apply Hg; [by apply list_elem_of_In | done].
Qed.
Lemma existsb_in {R} (g : R -> bool) l y : y ∈ l -> g y = true -> existsb g l = true.
Proof. intros Hy Hg. apply existsb_exists. exists y. split; [by apply list_elem_of_In | done]. Qed.

Ltac schema_set_row :=
  split;
  [ intros d; unfold schema_ok; tauto
  | intros d t Hd Ht Hp; unfold schema_ok in *; decompose [and] Hd; clear Hd;
    split_and!; try exact Ht;
    (apply (table_ok_other d); [by destruct d | | assumption]); intros x Hn; apply Hp;
    first [unfold needed; tauto | by destruct Hn as (? & _ & ?%not_elem_of_nil)]
  | intros r x [] t Hx; cbn in Hx; rewrite ?elem_of_cons, ?elem_of_nil in Hx;
    repeat match type of Hx with _ \/ _ => destruct Hx as [Hx | Hx] end; try done; subst; try done;
    apply in_opt_ref in Hx as (? & _ & ->); done
  | intros [] l a []; cbn; unfold row_exists; cbn; rewrite ?existsb_app; intros ->; done
  | intros d f a x Hf Hn Hp;
    destruct x; try (by destruct d);
    (revert Hp; apply existsb_moved; intros y Hy Hg; destruct (Hf y Hy) as [-> | [Hk Hpar]];
     [done |]; cbn in Hk, Hpar, Hg |- *) ].

Ltac by_key := match goal with Hk : (_ =? _) = true |- _ =>
  apply Z.eqb_eq in Hk; by rewrite <- Hk end.

#[export] Instance schema_set_input : SchemaSet Input. Proof. schema_set_row. Qed.
#[export] Instance schema_set_output : SchemaSet Output. Proof. schema_set_row. Qed.
#[export] Instance schema_set_tx_address : SchemaSet TransactionAddress.
Proof. schema_set_row. Qed.
#[export] Instance schema_set_support : SchemaSet Support. Proof. schema_set_row. Qed.
#[export] Instance schema_set_purchase : SchemaSet Purchase. Proof. schema_set_row. Qed.
#[export] Instance schema_set_claim_tag : SchemaSet ClaimTag. Proof. schema_set_row. Qed.
#[export] Instance schema_set_job : SchemaSet JobStatus. Proof. schema_set_row. Qed.
#[export] Instance schema_set_status : SchemaSet ApplicationStatus. Proof. schema_set_row. Qed.
#[export] Instance schema_set_address : SchemaSet Address.
Proof. schema_set_row. by_key. Qed.
#[export] Instance schema_set_tag : SchemaSet Tag. Proof. schema_set_row. by_key. Qed.
#[export] Instance schema_set_block : SchemaSet Block.
Proof.
  schema_set_row. apply bool_decide_eq_true in Hg as <-.
  apply orb_true_iff in Hpar as [E%bool_decide_eq_true | Hno]; [by apply bool_decide_eq_true |].
  apply needed_block in Hn as (t & Ht & E). apply negb_true_iff, not_true_iff_false in Hno.
  destruct Hno. eapply existsb_in; [exact Ht |]. cbn. rewrite E. by apply bool_decide_eq_true.
Qed.
#[export] Instance schema_set_transaction : SchemaSet Transaction.
Proof.
  schema_set_row; [by_key |]. apply bool_decide_eq_true in Hg as <-.
  apply orb_true_iff in Hpar as [E%bool_decide_eq_true | Hno]; [by apply bool_decide_eq_true |].
  apply negb_true_iff, orb_false_iff in Hno as [[Hc Hs]%orb_false_iff Hp].
  apply needed_hash in Hn as [(r & Hr & E) | [(r & Hr & E) | (r & Hr & E)]].
  - apply not_true_iff_false in Hc as []. eapply existsb_in; [exact Hr |]. cbn. rewrite E.
    by apply bool_decide_eq_true.
  - apply not_true_iff_false in Hs as []. eapply existsb_in; [exact Hr |]. cbn. rewrite E.
    by apply bool_decide_eq_true.
  - apply not_true_iff_false in Hp as []. eapply existsb_in; [exact Hr |]. cbn. rewrite E.
    by apply bool_decide_eq_true.
Qed.
#[export] Instance schema_set_claim : SchemaSet Claim.
Proof.
  schema_set_row. apply bool_decide_eq_true in Hg as <-.
  apply orb_true_iff in Hpar as [E%bool_decide_eq_true | Hno]; [by apply bool_decide_eq_true |].
  apply needed_claim in Hn as (g & Hg & E). apply negb_true_iff, not_true_iff_false in Hno.
  destruct Hno. eapply existsb_in; [exact Hg |]. by apply bool_decide_eq_true.
Qed.

(** ** The statements keep the database well formed *)

Notation schema_kept := (keeps schema_ok).

Section Statements.
Context `{SchemaSet R, !RowLaws R}.

Lemma schema_insert_filled (r : R) d a :
  existsb (fun x => same_key x r || clash x r) (rows (get_table d)) = false ->
  fk_ok d r = true ->
  schema_kept d (set_table (mkTable (rows (get_table d) ++ [r]) a) d).
Proof.
  intros Hnew Hfk Hd. destruct (schema_get d Hd) as [Hk Hr].
  apply schema_set; [done | | intros x _; by apply provided_grow].
  split; rewrite get_set; cbn [rows]; [by apply keys_apart_app |].
  intros y x [Hy | ->%list_elem_of_singleton]%elem_of_app Hx; apply provided_grow; [by eapply Hr |].
  rewrite fk_needs in Hfk. rewrite forallb_forall in Hfk. by apply Hfk, list_elem_of_In.
Qed.

Lemma schema_update_rows upd (r : R) d u d' :
  key_kept r upd -> update_rows upd r d = Ok (u, d') -> schema_kept d d'.
Proof.
  intros Hkey E Hd. unfold update_rows in E.
  destruct (List.find _ _) as [old |] eqn:Ef; [| by simplify_eq].
  apply find_some in Ef as [Hold%list_elem_of_In Hko].
  destruct (existsb _ _) eqn:Hc; [done |]. destruct (fk_ok d (upd old)) eqn:Hfk; [| done].
  destruct (parent_ok d old (upd old)) eqn:Hp; [| done]. cbn in E. injection E as _ <-.
  destruct (schema_get d Hd) as [Hk Hr]. set (f := fun x => if same_key r x then upd old else x).
  assert (Hmove : forall x, needed d x -> provided d x = true ->
    provided (set_table (mkTable (map f (rows (get_table d))) (auto (get_table d))) d) x = true).
  { intros x. apply provided_moved. intros y Hy. unfold f.
    destruct (same_key r y) eqn:Ey; [right | by left].
    assert (y = old) as -> by (apply (keys_apart_same _ _ _ Hk Hy Hold); eapply key_trans;
      [by apply key_sym | done]).
    split; [| done]. eapply key_trans; [by apply key_sym | by apply Hkey]. }
  apply schema_set; [done | | exact Hmove].
  split; rewrite get_set; cbn [rows]; [by apply keys_apart_update; [| apply Hkey |] |].
  intros y x (z & -> & Hz)%list_elem_of_fmap Hx. rewrite (needs_elsewhere _ _ _ _ Hx).
  unfold f in Hx. destruct (same_key r z); [| by eapply Hr].
  rewrite fk_needs in Hfk. rewrite forallb_forall in Hfk. by apply Hfk, list_elem_of_In.
Qed.

#[export] Instance schema_stable : Stable schema_kept R.
Proof.
  split.
  - intros r d r' d' E. unfold insert_row in E. destruct (existsb _ _) eqn:Hnew; [done |].
    destruct (fk_ok d _) eqn:Hfk; [| done]. cbn in E. injection E as _ <-.
    by apply schema_insert_filled.
  - intros r d u d' E. unfold insert_or_keep in E.
    destruct (existsb _ _) eqn:Hnew; [by injection E as _ <- |].
    destruct (fk_ok d _) eqn:Hfk; [| done]. cbn in E. injection E as _ <-.
    by apply schema_insert_filled.
  - intros r d u d'. apply schema_update_rows. intros old _. apply key_refl.
  - intros upd r d u d'. apply schema_update_rows.
Qed.

(** Rows of a table that nobody needs can go. *)
Lemma schema_keep f d :
  (forall x, needed d x -> provided d x = true ->
     provided (set_table (keep_rows f (get_table (R:=R) d)) d) x = true) ->
  schema_kept d (set_table (keep_rows f (get_table (R:=R) d)) d).
Proof.
  intros Hp Hd. destruct (schema_get d Hd) as [Hk Hr]. apply schema_set; [done | | exact Hp].
  split; rewrite get_set; cbn [rows keep_rows]; [by apply keys_apart_filter |].
  intros y x Hy Hx. rewrite (needs_elsewhere _ _ _ _ Hx).
  apply list_elem_of_In, filter_In in Hy as [Hy%list_elem_of_In _]. by eapply Hr.
Qed.
(** Rows may be rewritten where no key looks. *)
Lemma schema_map f d :
  (forall x y : R, same_key (f x) (f y) = same_key x y /\ clash (f x) (f y) = clash x y) ->
  (forall x, needs (f x) = needs x /\ same_key x (f x) = true /\ parent_ok d x (f x) = true) ->
  schema_kept d (set_table (mkTable (map f (rows (get_table d))) (auto (get_table d))) d).
Proof.
  intros Hkeys Hrow Hd. destruct (schema_get d Hd) as [Hk Hr]. apply schema_set; [done | |].
  - split; rewrite get_set; cbn [rows].
    + clear -Hk Hkeys. induction Hk as [| r l Ho Hl IH]; constructor; [| exact IH].
      rewrite Forall_forall in Ho |- *. intros o (y & -> & Hy)%list_elem_of_fmap.
      destruct (Hkeys r y) as [E1 E2]. unfold apart. rewrite E1, E2. by apply Ho.
    + intros o x (r & -> & Hin)%list_elem_of_fmap Hx. rewrite (needs_elsewhere _ _ _ _ Hx).
      destruct (Hrow r) as [E _]. rewrite E in Hx. by eapply Hr.
  - intros x. apply provided_moved. intros y _. right. apply Hrow.
Qed.
End Statements.

#[export] Instance schema_tags : StableTags schema_kept.
Proof. intros f d. refine (schema_keep (R:=ClaimTag) f d _). intros [] _; by destruct d. Qed.
#[export] Instance schema_outputs : StableOutputs schema_kept.
Proof.
  intros f d. set (g := fun o => if f o then unspent o else o).
  refine (schema_map (R:=Output) g d _ _); unfold g.
  - intros x y. by destruct (f x), (f y).
  - intros x. cbn. destruct (f x); cbn; by rewrite Z.eqb_refl.
Qed.

(** ** The cascades *)

Lemma provided_in d x : provided d x = true ->
  match x with
  | RBlock h => exists b, b ∈ rows (t_blocks d) /\ block_Hash b = h
  | RTxID i => exists t, t ∈ rows (t_transactions d) /\ txn_ID t = i
  | RTxHash h => exists t, t ∈ rows (t_transactions d) /\ txn_Hash t = h
  | RAddress i => exists a, a ∈ rows (t_addresses d) /\ addr_ID a = i
  | RClaim c => exists k, k ∈ rows (t_claims d) /\ claim_ClaimID k = c
  | RTag i => exists t, t ∈ rows (t_tags d) /\ tag_ID t = i
  end.
Proof.
  destruct x; cbn; intros (y & Hy%list_elem_of_In & E)%existsb_exists; exists y; (split; [exact Hy |]);
    revert E; rewrite ?bool_decide_eq_true, ?Z.eqb_eq; done.
Qed.

Lemma in_filter {R} (f : R -> bool) l r : r ∈ List.filter f l <-> r ∈ l /\ f r = true.
Proof. by rewrite !list_elem_of_In, filter_In. Qed.

Lemma table_ok_filtered `{Schema R} d d' f :
  rows (get_table (R:=R) d') = List.filter f (rows (get_table d)) ->
  (forall r x, r ∈ rows (get_table (R:=R) d) -> f r = true -> x ∈ needs r ->
     provided d x = true -> provided d' x = true) ->
  table_ok R d -> table_ok R d'.
Proof.
  intros E Hp [Hk Hr]. split; rewrite E; [by apply keys_apart_filter |].
  intros r x [Hin Hf]%in_filter Hx. eapply Hp; [done.. |]. by eapply Hr.
Qed.

Section Cascade.
Context (gone : Transaction -> bool) (d : DB).
Notation d' := (delete_transactions gone d).

Lemma provided_kept_tx x t :
  t ∈ rows (t_transactions d) -> gone t = false ->
  match x with
  | RTxID i => txn_ID t = i
  | RTxHash h => txn_Hash t = h
  | _ => False
  end -> provided d' x = true.
Proof.
  intros Ht Hg Hx. destruct x; try done; cbn; apply (existsb_in _ _ t).
  1, 3: apply in_filter; by rewrite Hg.
  all: rewrite ?bool_decide_eq_true, ?Z.eqb_eq; done.
Qed.

(** A row that hangs on no deleted transaction keeps its transaction. *)
Lemma provided_id i :
  negb (existsb (fun t => txn_ID t =? i) (List.filter gone (rows (t_transactions d)))) = true ->
  provided d (RTxID i) = true -> provided d' (RTxID i) = true.
Proof.
  intros Hno (t & Ht & E)%provided_in. apply (provided_kept_tx _ t); [done | | done].
  apply not_true_iff_false. intros Hg. apply negb_true_iff, not_true_iff_false in Hno.
  apply Hno, (existsb_in _ _ t); [by apply in_filter | lia].
Qed.
Lemma provided_hash h :
  negb (existsb (fun t => bool_decide (txn_Hash t = h))
          (List.filter gone (rows (t_transactions d)))) = true ->
  provided d (RTxHash h) = true -> provided d' (RTxHash h) = true.
Proof.
  intros Hno (t & Ht & E)%provided_in. apply (provided_kept_tx _ t); [done | | done].
  apply not_true_iff_false. intros Hg. apply negb_true_iff, not_true_iff_false in Hno.
  apply Hno, (existsb_in _ _ t); [by apply in_filter | by apply bool_decide_eq_true].
Qed.

Ltac filtered_table :=
  match goal with |- table_ok ?R _ =>
    eapply (table_ok_filtered (R:=R) d); [cbn; reflexivity | | assumption];
    cbn beta; intros r x _ Hf Hx; cbn in Hx
  end.

Lemma schema_delete_transactions : schema_kept d d'.
Proof.
  intros Hd. unfold schema_ok in *. decompose [and] Hd. clear Hd.
  split_and!;
    try (match goal with |- table_ok ?R _ =>
      by apply (table_ok_other (R:=R) d); [reflexivity | intros x (? & _ & ?%not_elem_of_nil) |]
    end); filtered_table.
  all: rewrite ?elem_of_cons, ?elem_of_nil in Hx;
    repeat match type of Hx with _ \/ _ => destruct Hx as [Hx | Hx] end; try done;
    try (subst x; first [by apply provided_id | done]);
    try (apply in_opt_ref in Hx as (a & E & ->); rewrite ?E in Hf;
         first [by apply provided_hash | done]).
  (* a claim's tag: its claim is not among the deleted ones *)
  subst x. intros (k & Hk & E)%provided_in. cbn. apply (existsb_in _ _ k); [| by apply bool_decide_eq_true].
  apply in_filter. split; [exact Hk |]. apply negb_true_iff, not_true_iff_false. intros Hdead.
  apply negb_true_iff, not_true_iff_false in Hf. apply Hf, (existsb_in _ _ k);
    [by apply in_filter | by apply bool_decide_eq_true].
Qed.
End Cascade.

#[export] Instance schema_delete_block : StableDelete schema_kept.
Proof.
  intros b d Hd. unfold delete_block. set (g := fun t : Transaction => _).
  pose proof (schema_delete_transactions g d Hd) as H1.
  refine (schema_keep (R:=Block) (fun x => negb (same_key b x)) (delete_transactions g d) _ H1).
  intros x Hn Hp. destruct x as [h | | | | |]; try done.
  apply needed_block in Hn as (t & Ht & E). apply provided_in in Hp as (b' & Hb' & <-).
  cbn in Ht, Hb' |- *. apply in_filter in Ht as [Ht Hg]. apply (existsb_in _ _ b');
    [| by apply bool_decide_eq_true].
  apply in_filter. split; [exact Hb' |]. apply negb_true_iff, not_true_iff_false. intros Hk.
  apply negb_true_iff, not_true_iff_false in Hg. apply Hg. unfold g. rewrite E.
  apply (existsb_in _ _ b'); [by apply in_filter | by apply bool_decide_eq_true].
Qed.

Section Steps.
Context `{Faults}.

Lemma steps_schema_delete_transaction t : steps (on_db schema_kept) (deleteG_transaction t).
Proof.
  apply steps_stmt; [typeclasses eauto |]. intros d u d' [= _ <-].
  apply schema_delete_transactions.
Qed.
End Steps.
#[export] Hint Resolve steps_schema_delete_transaction : go.
