(* ===== verification/Keyed.v ===== *)
(** * Tables with an integer primary key

    [keys_ok]: the keys are distinct.  What replacing, dropping, inserting and updating a row
    does to such a table, once for all row types. *)
From S2P Require Import Prelude Rows Store StoreFacts.

Class Keyed (R : Type) `{Row R} := {
  key : R -> Z;
  same_key_key : forall a b, same_key a b = (key a =? key b);
  fill_key_key : forall i r, key (fill_key i r) = if key r =? 0 then i else key r;
}.

Ltac keyed := let i := fresh in let r := fresh in
  intros i r; cbn; case_match; reflexivity.
#[export] Program Instance keyed_block : Keyed Block := {| key := block_ID |}.
Next Obligation. done. Qed.
Next Obligation. keyed. Qed.
#[export] Program Instance keyed_transaction : Keyed Transaction := {| key := txn_ID |}.
Next Obligation. done. Qed.
Next Obligation. keyed. Qed.
#[export] Program Instance keyed_input : Keyed Input := {| key := in_ID |}.
Next Obligation. done. Qed.
Next Obligation. keyed. Qed.
#[export] Program Instance keyed_output : Keyed Output := {| key := out_ID |}.
Next Obligation. done. Qed.
Next Obligation. keyed. Qed.
#[export] Program Instance keyed_address : Keyed Address := {| key := addr_ID |}.
Next Obligation. done. Qed.
Next Obligation. keyed. Qed.
#[export] Program Instance keyed_claim : Keyed Claim := {| key := claim_ID |}.
Next Obligation. done. Qed.
Next Obligation. intros i r. unfold fill_key, row_claim. cbv zeta. repeat case_match; reflexivity. Qed.

Section Keyed.
Context `{Keyed R}.
Implicit Types (l : list R) (b x : R).

(** ** Lists of rows *)

Definition keys_ok (l : list R) : Prop := NoDup (key <$> l).

Lemma keys_ok_eq l b b' : keys_ok l -> b ∈ l -> b' ∈ l -> key b = key b' -> b = b'.
Proof. apply fmap_inj. Qed.
Lemma keys_ok_filter f l : keys_ok l -> keys_ok (List.filter f l).
Proof. apply fmap_filter_nodup. Qed.

Lemma find_key l b b' :
  keys_ok l -> b ∈ l -> key b' = key b -> List.find (same_key b') l = Some b.
Proof.
  intros Hnd Hb Hid. destruct (List.find (same_key b') l) as [x |] eqn:E.
  - apply find_some in E as [Hx%list_elem_of_In Hk]. rewrite same_key_key in Hk. f_equal.
    eapply keys_ok_eq; [done.. | lia].
  - apply list_elem_of_In in Hb. pose proof (find_none _ _ E b Hb) as Hk.
    rewrite same_key_key in Hk. lia.
Qed.

(** Replacing the row with the key of [b]. *)
Definition replace_row b l : list R := map (fun x => if same_key b x then b else x) l.

Lemma replace_row_ids b l : key <$> replace_row b l = key <$> l.
Proof.
  unfold replace_row. rewrite <- list_fmap_compose. apply list_fmap_ext. intros i x _. cbn.
  rewrite same_key_key. by destruct (Z.eqb_spec (key b) (key x)).
Qed.
Lemma replace_row_ok b l : keys_ok l -> keys_ok (replace_row b l).
Proof. unfold keys_ok. by rewrite replace_row_ids. Qed.
Lemma elem_of_replace_row b old l x :
  old ∈ l -> key b = key old -> x ∈ replace_row b l <-> x = b \/ (x ∈ l /\ key x <> key b).
Proof.
  intros Hold Hid. unfold replace_row. rewrite list_elem_of_fmap. split.
  - intros (y & -> & Hy). rewrite same_key_key.
    destruct (Z.eqb_spec (key b) (key y)); [by left |]. right. split; [done | lia].
  - intros [-> | [Hx Hne]].
    + exists old. rewrite same_key_key. by replace (key b =? key old) with true by lia.
    + exists x. rewrite same_key_key. by replace (key b =? key x) with false by lia.
Qed.
(** Other rows stay, whether or not the key is there. *)
Lemma replace_row_keeps b l x : x ∈ l -> key x <> key b -> x ∈ replace_row b l.
Proof.
  intros Hx Hne. apply list_elem_of_fmap. exists x. rewrite same_key_key.
  by replace (key b =? key x) with false by lia.
Qed.

Lemma find_replace_row f b p l :
  List.find f l = Some p -> f b = false -> key b <> key p ->
  List.find f (replace_row b l) = Some p.
Proof.
  intros Hf Hb Hne. induction l as [| x l IH]; [done |]. cbn in Hf |- *.
  rewrite same_key_key. destruct (f x) eqn:Ex.
  - injection Hf as ->. replace (key b =? key p) with false by lia. by rewrite Ex.
  - destruct (key b =? key x); [rewrite Hb | rewrite Ex]; auto.
Qed.

(** Dropping the row with the key of [b]. *)
Definition drop_row b l : list R := List.filter (fun x => negb (same_key b x)) l.

Lemma elem_of_drop_row b l x : x ∈ drop_row b l <-> x ∈ l /\ key x <> key b.
Proof.
  unfold drop_row. rewrite !list_elem_of_In, filter_In, same_key_key, negb_true_iff, Z.eqb_neq.
  naive_solver.
Qed.

Lemma drop_replace_row b b' l :
  key b' = key b -> drop_row b' (replace_row b' l) = drop_row b l.
Proof.
  intros Hid. unfold drop_row, replace_row. induction l as [| x l IH]; [done |]. cbn.
  destruct (same_key b' x) eqn:E; rewrite ?E, !same_key_key in *; rewrite <- Hid.
  - rewrite Z.eqb_refl, E. done.
  - rewrite E. cbn. by f_equal.
Qed.

Lemma filter_key l b : keys_ok l -> b ∈ l -> List.filter (same_key b) l = [b].
Proof.
  unfold keys_ok. induction l as [| x l IH]; [by intros _ ?%elem_of_nil |].
  rewrite fmap_cons, NoDup_cons. intros [Hx Hnd] [<- | Hb]%elem_of_cons; cbn; rewrite same_key_key.
  - rewrite Z.eqb_refl. f_equal. clear IH Hnd. induction l as [| y l IH]; [done |]. cbn.
    rewrite fmap_cons, not_elem_of_cons in Hx. destruct Hx as [Hne Hx]. rewrite same_key_key.
    replace (key b =? key y) with false by lia. auto.
  - destruct (Z.eqb_spec (key b) (key x)) as [Heq |]; [| auto].
    destruct Hx. rewrite <- Heq. by apply list_elem_of_fmap_2.
Qed.

(** ** Statements *)

Context `{Faults, !RowLaws R}.

Definition table_rows (w : World) : list R := rows (get_table (db w)).

Lemma update_colsG_keyed upd b old w u w' :
  keys_ok (table_rows w) -> old ∈ table_rows w -> key b = key old ->
  key (upd old) = key old ->
  update_colsG upd b w = (Ok u, w') ->
  db w' = set_table (mkTable (replace_row (upd old) (table_rows w)) (auto (get_table (db w)))) (db w).
Proof.
  intros Hok Hold Hid Hupd E%update_colsG_Ok. unfold table_rows in *.
  rewrite (find_key _ old b Hok Hold Hid) in E. rewrite E. do 2 f_equal.
  apply map_ext. intros x. by rewrite !same_key_key, Hupd, Hid.
Qed.

Lemma updateG_keyed b old w u w' :
  keys_ok (table_rows w) -> old ∈ table_rows w -> key b = key old ->
  updateG b w = (Ok u, w') ->
  db w' = set_table (mkTable (replace_row b (table_rows w)) (auto (get_table (db w)))) (db w).
Proof. intros Hok Hold Hid. by apply (update_colsG_keyed (fun _ => b) b old). Qed.

Lemma insertG_keyed b b' w w' :
  insertG b w = (Ok b', w') ->
  b' = fill_key (auto (get_table (db w))) b /\
  db w' = set_table (mkTable (table_rows w ++ [b']) (auto (get_table (db w)) + 1)) (db w) /\
  forall x, x ∈ table_rows w -> key x <> key b' /\ clash x b' = false.
Proof.
  intros (Hb & Hk & Hdb)%insertG_Ok. split; [done | split; [done |]]. intros x Hx%list_elem_of_In.
  assert (Hx' : same_key x b' || clash x b' = false).
  { destruct (_ || _) eqn:E; [| done]. rewrite <- Hk. symmetry. apply existsb_exists. by exists x. }
  apply orb_false_iff in Hx' as [Hid Hc]. rewrite same_key_key in Hid. split; [lia | done].
Qed.

Lemma insert_row_keyed b b' d d' :
  insert_row b d = Ok (b', d') ->
  b' = fill_key (auto (get_table d)) b /\
  d' = set_table (mkTable (rows (get_table d) ++ [b']) (auto (get_table d) + 1)) d /\
  forall x, x ∈ rows (get_table d) -> key x <> key b' /\ clash x b' = false.
Proof.
  unfold insert_row. destruct (existsb _ _) eqn:Eex; [done |]. destruct (negb _); [done |].
  intros [= <- <-]. split; [done | split; [done |]]. intros x Hx%list_elem_of_In.
  assert (Hc : same_key x (fill_key (auto (get_table d)) b) ||
               clash x (fill_key (auto (get_table d)) b) = false).
  { destruct (_ || _) eqn:E; [| done]. rewrite <- Eex. symmetry. apply existsb_exists. by exists x. }
  apply orb_false_iff in Hc as [Hid Hc]. rewrite same_key_key in Hid. split; [lia | done].
Qed.

Lemma keys_ok_app l b : keys_ok l -> (forall x, x ∈ l -> key x <> key b) -> keys_ok (l ++ [b]).
Proof.
  intros Hok Hnew. unfold keys_ok. rewrite fmap_app, NoDup_app. split; [done |].
  split; [| apply NoDup_singleton]. intros i Hi ->%list_elem_of_singleton.
  apply list_elem_of_fmap in Hi as (x & Hx & Hin). by destruct (Hnew x Hin).
Qed.
End Keyed.
