(* ===== verification/Claims.v ===== *)
(** * Claims: from a script's value to the claim table ([daemon/processing/claim.go],
      [daemon/processing/metadata.go])

    The metadata setters are functions on the claim row; the handlers of the three claim scripts
    run in the world.  The decoded value (the protobuf messages and the stake helper of the
    lbry.go and types modules) is a record of what their getters return; the decoders, JSON and
    base58 are parameters.  Socket and chat notifications are left out: they read the row and
    return nothing. *)
From S2P Require Import Prelude Bytes Script Lbrycrd Utf8 Rows Store Datastore.

(** ** The decoded value *)

Record pbSource := {
  src_Url : string; src_Hash : list byte; src_Size : Z; src_Name : string;
  src_MediaType : string; src_SdHash : list byte;
}.
Record pbFee := { fee_Currency : string; fee_Amount : Z; fee_Address : list byte }.
Record pbDimensions := { dim_Height : Z; dim_Width : Z }.
Record pbVideo := { vid_Dim : pbDimensions; vid_Duration : Z; vid_Audio : option Z }.
Record pbStream := {
  st_Author : string; st_License : string; st_LicenseUrl : string; st_Fee : option pbFee;
  st_Source : option pbSource; st_ReleaseTime : Z; st_Image : option pbDimensions;
  st_Video : option pbVideo; st_Audio : option Z;
}.
Record pbClaimList := { cl_ListType : Z; cl_ClaimReferences : list (list byte) }.
Record pbChannel := {
  ch_Cover : option pbSource; ch_Email : string; ch_Featured : option pbClaimList;
  ch_PublicKey : list byte;
}.
(** The [oneof] of a claim. *)
Inductive pbType :=
| PbNone
| PbStream (s : pbStream)
| PbChannel (c : pbChannel)
| PbCollection (l : pbClaimList)
| PbRepost (claimHash : list byte).
Record pbClaim := {
  pb_Title : string; pb_Description : string; pb_ThumbnailUrl : string;
  pb_Tags : list string; pb_Languages : list string; pb_Type : pbType;
}.

(** A certificate as the JSON encoder sees it. *)
Inductive certificate := LegacyCertificate (text : string) | ChannelKey (publicKey : list byte).

Record LegacyClaim := { lc_Version : string; lc_Certificate : string }.

(** [stake.StakeHelper]; [sh_Signature] is nil for an unsigned claim. *)
Record StakeHelper := {
  sh_Claim : option pbClaim;
  sh_LegacyClaim : option LegacyClaim;
  sh_ClaimID : list byte;
  sh_Signature : option (list byte);
}.

Definition GetStream (c : pbClaim) : option pbStream :=
  match pb_Type c with PbStream s => Some s | _ => None end.
Definition GetChannel (c : pbClaim) : option pbChannel :=
  match pb_Type c with PbChannel c => Some c | _ => None end.

(** The structure [metadata.go] marshals. *)
Record Metadata := { md_author : string; md_title : string; md_description : string; md_nsfw : bool }.
Inductive Value :=
| ValueEmpty
| ValueStream (metadata : Metadata) (contentType : string)
| ValueCertificate.

(** lbry.go, types and encoding/json. *)
Class Stake := {
  DecodeClaimBytes : list byte -> string -> res StakeHelper;
  DecodeClaimHex : string -> string -> res StakeHelper;
  DecodeSupportBytes : list byte -> string -> res StakeHelper;
  EncodeBase58 : list byte -> string;
  Marshal_certificate : certificate -> string;
  Marshal_strings : list string -> string;
  Marshal_value : Value -> res string;
}.

Definition claimLockStripeCount : Z := 1024.

(** [crc32.ChecksumIEEE], bit by bit. *)
Definition crc32_step (crc : Z) : Z :=
  if Z.testbit crc 0 then Z.lxor (Z.shiftr crc 1) 0xEDB88320 else Z.shiftr crc 1.
Definition crc32_byte (crc : Z) (b : byte) : Z :=
  Nat.iter 8 crc32_step (Z.lxor crc (bz b)).
Definition ChecksumIEEE (l : list byte) : Z :=
  Z.lxor (fold_left crc32_byte l 0xFFFFFFFF) 0xFFFFFFFF.

(** The index of the mutex that guards a claim id. *)
Definition claimLockFor (claimID : string) : Z :=
  ChecksumIEEE (String.list_byte_of_string claimID) mod claimLockStripeCount.

(** ** Metadata setters *)

Definition slen (s : string) : Z := Z.of_nat (String.length s).
(** [s\[:n\]] *)
Definition sprefix (n : nat) (s : string) : string := String.substring 0 n s.

(** [if len(s) > limit { s = s\[:keep\] + "..." }] *)
Definition ellipsis (limit : Z) (keep : nat) (s : string) : string :=
  if limit <? slen s then sprefix keep s +:+ "..." else s.
(** [if len(\[\]rune(s)) > n { s = string(\[\]rune(s)\[:n\]) }] *)
Definition limit_runes (n : nat) (s : string) : string :=
  if (n <? length (runes s))%nat then string_of_runes (take n (runes s)) else s.

(** [if v > 0 { c.Field.SetValid(v) }] and its string version. *)
Definition if_pos (v : Z) (f : Claim -> Claim) (c : Claim) : Claim := if 0 <? v then f c else c.
Definition if_nonempty (s : string) (f : Claim -> Claim) (c : Claim) : Claim :=
  if bool_decide (s = "") then c else f c.
Definition if_some {A} (o : option A) (f : A -> Claim -> Claim) (c : Claim) : Claim :=
  match o with Some a => f a c | None => c end.

Definition set_source_name (s : pbSource) : Claim -> Claim :=
  if_nonempty (src_Name s) (fun c => c <| claim_SourceName := Some (src_Name s) |>).
Definition set_source_size (s : pbSource) : Claim -> Claim :=
  if_pos (src_Size s) (fun c => c <| claim_SourceSize := Some (src_Size s) |>).
Definition set_source_url (s : pbSource) : Claim -> Claim :=
  if_nonempty (src_Url s)
    (fun c => c <| claim_SourceURL := Some (ellipsis 255 252 (src_Url s)) |>).
Definition set_source_hash (s : pbSource) : Claim -> Claim :=
  if_pos (len (src_Hash s)) (fun c => c <| claim_SourceHash := Some (hex_encode (src_Hash s)) |>).
Definition set_source_media_type (s : pbSource) : Claim -> Claim :=
  if_nonempty (src_MediaType s)
    (fun c => c <| claim_SourceMediaType := Some (limit_runes 254 (src_MediaType s)) |>).

Definition setSourceMetadata (s : pbSource) (c : Claim) : Claim :=
  set_source_media_type s (set_source_name s (set_source_size s (set_source_hash s
    (set_source_url s c)))).

(** The license is cut to 500 runes and kept only when it is valid UTF-8 (so [ToValidUTF8]
    changes nothing); the license URL is computed and dropped. *)
Definition setLicense (stream : pbStream) (c : Claim) : Claim :=
  let license := limit_runes 500 (st_License stream) in
  if ValidString license then c <| claim_License := Some license |> else c.

Definition set_frame (d : pbDimensions) (c : Claim) : Claim :=
  if_pos (dim_Width d) (fun c => c <| claim_FrameWidth := Some (dim_Width d) |>)
    (if_pos (dim_Height d) (fun c => c <| claim_FrameHeight := Some (dim_Height d) |>) c).
Definition set_audio_duration (d : Z) : Claim -> Claim :=
  if_pos d (fun c => c <| claim_AudioDuration := Some d |>).

Section Setters.
Context `{Stake}.

(** [float64(fee.GetAmount())] *)
Definition set_fee (fee : pbFee) (c : Claim) : Claim :=
  c <| claim_FeeCurrency := Some (fee_Currency fee) |>
    <| claim_Fee := f64_of_Z (fee_Amount fee) |>
    <| claim_FeeAddress := Some (EncodeBase58 (fee_Address fee)) |>.

Definition setStreamMetadata (stream : pbStream) (c : Claim) : Claim :=
  let c := c <| claim_Type := Some "stream" |> in
  let c := if_nonempty (st_Author stream)
             (fun c => c <| claim_Author := Some (st_Author stream) |>) c in
  let c := setLicense stream c in
  let c := if_some (st_Fee stream) set_fee c in
  let c := if_some (st_Source stream) setSourceMetadata c in
  let c := if_pos (st_ReleaseTime stream)
             (fun c => c <| claim_ReleaseTime := Some (st_ReleaseTime stream) |>) c in
  let c := if_some (st_Image stream) set_frame c in
  let c := if_some (st_Video stream) (fun v c =>
             if_some (vid_Audio v) set_audio_duration
               (if_pos (vid_Duration v) (fun c => c <| claim_Duration := Some (vid_Duration v) |>)
                  (set_frame (vid_Dim v) c))) c in
  if_some (st_Audio stream) set_audio_duration c.

(** [int16(x)] of a 32-bit value: the low 16 bits, signed. *)
Definition int16 (z : Z) : Z := let m := z mod 2 ^ 16 in if m <? 2 ^ 15 then m else m - 2 ^ 16.

Definition set_claim_list (l : pbClaimList) (c : Claim) : Claim :=
  c <| claim_HasClaimList := Some true |>
    <| claim_ListType := Some (int16 (cl_ListType l)) |>
    <| claim_ClaimIDList := Some (Marshal_strings (map hex_encode (cl_ClaimReferences l))) |>.

Definition setChannelMetadata (channel : pbChannel) (c : Claim) : Claim :=
  let c := c <| claim_Type := Some "channel" |> in
  let c := if_some (ch_Cover channel) (fun s c =>
             set_source_media_type s (set_source_hash s (set_source_url s
               (set_source_size s (set_source_name s c))))) c in
  let c := if_nonempty (ch_Email channel)
             (fun c => c <| claim_Email := Some (ellipsis 255 252 (ch_Email channel)) |>) c in
  if_some (ch_Featured channel) set_claim_list c.

Definition setCollectionMetadata (l : pbClaimList) (c : Claim) : Claim :=
  set_claim_list l (c <| claim_Type := Some "claimlist" |>).

Definition setReferenceMetadata (claimHash : list byte) (c : Claim) : Claim :=
  if_pos (len claimHash)
    (fun c => c <| claim_ClaimReference := Some (hex_encode (ReverseBytes claimHash)) |>)
    (c <| claim_Type := Some "claimreference" |>).

(** The assignments of [resetMetadata]. *)
Definition reset_fields (c : Claim) : Claim :=
  c <| claim_Title := None |> <| claim_Description := None |> <| claim_Language := None |>
    <| claim_Author := None |> <| claim_ThumbnailURL := None |> <| claim_IsNSFW := false |>
    <| claim_FeeCurrency := None |> <| claim_Fee := f64_zero |> <| claim_FeeAddress := None |>
    <| claim_License := None |> <| claim_Type := None |> <| claim_ReleaseTime := None |>
    <| claim_SourceHash := None |> <| claim_SourceName := None |> <| claim_SourceSize := None |>
    <| claim_SourceMediaType := None |> <| claim_SourceURL := None |>
    <| claim_FrameWidth := None |> <| claim_FrameHeight := None |> <| claim_Duration := None |>
    <| claim_AudioDuration := None |> <| claim_Email := None |> <| claim_HasClaimList := None |>
    <| claim_ClaimReference := None |> <| claim_ListType := None |> <| claim_ClaimIDList := None |>.

(** The media type and the descriptor hash of a stream, cut to their columns. *)
Definition setSourceInfo (helper : pbClaim) (c : Claim) : Claim :=
  let c := c <| claim_ContentType := None |> <| claim_SDHash := None |> in
  match GetStream helper with
  | Some stream =>
      if_some (st_Source stream) (fun source c =>
        c <| claim_ContentType := Some (ellipsis 162 158 (src_MediaType source)) |>
          <| claim_SDHash := Some (ellipsis 120 116 (hex_encode (src_SdHash source))) |>) c
  | None => c
  end.

Definition setPublisherInfo (helper : StakeHelper) (c : Claim) : Claim :=
  let c := c <| claim_IsCertProcessed := true |> <| claim_IsCertValid := false |>
             <| claim_PublisherID := None |> <| claim_PublisherSig := None |> in
  match sh_Signature helper with
  | None => c
  | Some signature =>
      c <| claim_IsCertProcessed := false |>
        <| claim_PublisherID := Some
             (match sh_LegacyClaim helper with
              | None => hex_encode (ReverseBytes (sh_ClaimID helper))
              | Some _ => hex_encode (sh_ClaimID helper)
              end) |>
        <| claim_PublisherSig := Some (hex_encode signature) |>
  end.

Definition setCertificateInfo (helper : StakeHelper) (claim : pbClaim) (c : Claim) : Claim :=
  let c := c <| claim_Certificate := None |> in
  match GetChannel claim with
  | None => c
  | Some channel =>
      c <| claim_IsCertProcessed := true |>
        <| claim_Certificate := Some (Marshal_certificate
             (match sh_LegacyClaim helper with
              | Some l => LegacyCertificate (lc_Certificate l)
              | None => ChannelKey (ch_PublicKey channel)
              end)) |>
  end.

Definition set_version (helper : StakeHelper) (c : Claim) : Claim :=
  match sh_LegacyClaim helper with
  | Some l => if_nonempty (lc_Version l) (fun c => c <| claim_Version := Some (lc_Version l) |>) c
  | None => c
  end.

(** [metadata.go] *)
Definition tagExists (tagName : string) (taglist : list string) : bool :=
  existsb (fun tag => bool_decide (tag = tagName)) taglist.

(** The getters of a nil claim return nil. *)
Definition GetValueAsJSON (helper : option pbClaim) : res string :=
  Marshal_value
    (match helper with
     | None => ValueEmpty
     | Some helper =>
     match pb_Type helper with
     | PbStream s =>
         ValueStream {| md_author := st_Author s; md_title := pb_Title helper;
                        md_description := pb_Description helper;
                        md_nsfw := tagExists "mature" (pb_Tags helper) |}
           (match st_Source s with Some src => src_MediaType src | None => "" end)
     | PbChannel _ => ValueCertificate
     | _ => ValueEmpty
     end
     end).
End Setters.

(** ** The handlers *)

Section Handlers.
Context `{Faults, Stake, Hashes, AddressCodec}.
Context (BlockChainName : string).

(** The DB part of [resetMetadata]: the rows of [claim_in_list], then those of [claim_tag]. *)
Definition resetMetadata (c : Claim) : M World Claim :=
  let c := reset_fields c in
  let* _ := other_stmt in
  let* _ := delete_claim_tagsG (claim_ClaimID c) in
  mret c.

(** Logged failures end the loop without an error. *)
Fixpoint setTags (tags : list string) (c : Claim) : M World Claim :=
  match tags with
  | [] => mret c
  | tag :: tags' =>
      let tag := if 255 <? slen tag then sprefix 255 tag else tag in
      let c := if bool_decide (tag = "mature") then c <| claim_IsNSFW := true |> else c in
      let* put := mtry (PutTag (mkTag 0 tag)) in
      match put with
      | inr _ => mret c
      | inl t =>
          let* t := (if tag_ID t =? 0 then GetTag tag else mret (Some t)) in
          match t with
          | None => mpanic (ErrRuntime "invalid memory address or nil pointer dereference")
          | Some t =>
              if tag_ID t =? 0 then mret c
              else
                let* _ := PutClaimTag (mkClaimTag 0 (Some (tag_ID t)) (claim_ClaimID c)) in
                setTags tags' c
          end
      end
  end.

Definition set_type_metadata (t : pbType) (c : Claim) : Claim :=
  match t with
  | PbNone => c
  | PbStream s => setStreamMetadata s c
  | PbChannel ch => setChannelMetadata ch c
  | PbCollection l => setCollectionMetadata l c
  | PbRepost h => setReferenceMetadata h c
  end.

Definition setMetaDataInfo (helper : pbClaim) (c : Claim) : M World Claim :=
  let* c := resetMetadata c in
  let c := c <| claim_Title := Some (pb_Title helper) |> in
  let c := if_nonempty (pb_Description helper)
             (fun c => c <| claim_Description := Some (pb_Description helper) |>) c in
  let c := if_nonempty (pb_ThumbnailUrl helper)
             (fun c => c <| claim_ThumbnailURL := Some (pb_ThumbnailUrl helper) |>) c in
  let* c := setTags (pb_Tags helper) c in
  let c := match pb_Languages helper with
           | [] => c
           | language :: _ => c <| claim_Language := Some language |>
           end in
  mret (set_type_metadata (pb_Type helper) c).

(** The JSON value, when the hex decodes again and marshals. *)
Definition set_value_json (c : Claim) : Claim :=
  match DecodeClaimHex (claim_ValueAsHex c) BlockChainName with
  | Ok claimHelper =>
      match GetValueAsJSON (sh_Claim claimHelper) with
      | Ok json => c <| claim_ValueAsJSON := Some json |>
      | _ => c
      end
  | _ => c
  end.

Definition UpdateClaimData (helper : StakeHelper) (claim : pbClaim) (c : Claim)
  : M World Claim :=
  let c := set_value_json c in
  let c := setSourceInfo claim c in
  let* c := setMetaDataInfo claim c in
  let c := setPublisherInfo helper c in
  let c := setCertificateInfo helper claim c in
  mret (set_version helper c).

(** [processClaim]: the claim type, then the same as an update. *)
Definition processClaim (helper : StakeHelper) (claim : pbClaim) (value : list byte) (c : Claim)
  : M World Claim :=
  let c := c <| claim_ValueAsHex := hex_encode value |> in
  let c := match pb_Type claim with
           | PbStream _ => c <| claim_ClaimType := 1 |>
           | PbChannel _ => c <| claim_ClaimType := 2 |>
           | _ => c
           end in
  UpdateClaimData helper claim c.

Definition processUpdateClaim (helper : StakeHelper) (claim : pbClaim) (value : list byte)
  (c : option Claim) : M World (option Claim) :=
  match c with
  | None => mret None
  | Some c =>
      let* c := UpdateClaimData helper claim (c <| claim_ValueAsHex := hex_encode value |>) in
      mret (Some c)
  end.

(** [&model.Claim{...}]: a row with zero values but the given ones. *)
Definition new_claim (name claimid txHash : string) (vout : Z) : Claim :=
  mkClaim 0 (Some txHash) vout name claimid 0 None None None None None None "" None 0 0 0 None
    None None false None None None f64_zero None None false "" "" false false None None None None
    None None None None None None None None None None None None None None None 0 0.

(** The fields both handlers set from the transaction and the output. *)
Definition stamp_claim (tx : Transaction) (vout : Output) (pkscript : list byte)
  (blockHeight : Z) (c : Claim) : Claim :=
  let c := c <| claim_TransactionTime := txn_TransactionTime tx |>
             <| claim_ClaimAddress := GetAddressFromPublicKeyScript BlockChainName pkscript |>
             <| claim_TransactionHashUpdate := Some (txn_Hash tx) |>
             <| claim_VoutUpdate := Some (out_Vout vout) |> in
  if 0 <? blockHeight then c <| claim_Height := blockHeight |> else c.

(** [saveUnknownClaim] inserts into [abnormal_claim], which is not modelled, and only logs an
    error. *)
Definition saveUnknownClaim : M World unit := let* _ := mtry other_stmt in mret tt.

(** Name, claim id and public key script. *)
Definition script_result : Type := (string * string * list byte)%type.

Definition processClaimNameScript (script : list byte) (vout : Output) (tx : Transaction)
  (blockHeight : Z) : M World script_result :=
  let* claimid := mlift (ClaimIDFromOutpoint (out_TransactionHash vout) (out_Vout vout)) in
  let* (name, value, pkscript) :=
    prefixed "Claim name script parsing error" (mlift (ParseClaimNameScript script)) in
  match DecodeClaimBytes value BlockChainName with
  | Err _ => let* _ := saveUnknownClaim in mret (name, claimid, pkscript)
  | Panic e => mpanic e
  | Ok helper =>
      match sh_Claim helper with
      | None => mfail (ErrMsg "Produced null pbClaim-> ")
      | Some pb =>
          let* claim := GetClaim claimid in
          let* claim :=
            (match claim with
             | Some c => mret c
             | None => PutClaim (new_claim "" claimid (txn_Hash tx) (out_Vout vout))
             end) in
          let claim := claim <| claim_ClaimID := claimid |> <| claim_Name := name |> in
          let claim := stamp_claim tx vout pkscript blockHeight claim in
          let* claim := processClaim helper pb value claim in
          let* _ := PutClaim claim in
          mret (name, claimid, pkscript)
      end
  end.

(** A support of a claim that is not in the table keeps the claim id it had; the error of the
    support decoder is returned with the support. *)
Definition processSupport (claimID : string) (value : list byte) (support : option Support)
  (output : Output) (tx : Transaction) : M World (Support * option error) :=
  let s := default (mkSupport 0 "" f64_zero "" None 0 None) support in
  let s := s <| support_TransactionHashID := Some (txn_Hash tx) |>
             <| support_Vout := out_Vout output |>
             <| support_SupportAmount := default f64_zero (out_Value output) |> in
  let* (s, err) :=
    (if 0 <? len value then
       match DecodeSupportBytes value BlockChainName with
       | Ok helper =>
           mret (s <| support_SupportedByClaimID :=
                   Some (hex_encode (ReverseBytes (sh_ClaimID helper))) |>, None)
       | Err e => mret (s, Some e)
       | Panic e => mpanic e
       end
     else mret (s, None)) in
  let* claim := GetClaim claimID in
  match claim with
  | Some _ => mret (s <| support_SupportedClaimID := claimID |>, err)
  | None => mret (s, err)
  end.

(** A failing insert is only logged. *)
Definition processClaimSupportScript (script : list byte) (vout : Output) (tx : Transaction)
  : M World script_result :=
  let* (name, claimid, value, pubkeyscript) :=
    prefixed "Claim support processing error" (mlift (ParseClaimSupportScript script)) in
  let* support := GetSupport (txn_Hash tx) (out_Vout vout) in
  let* (support, err) := processSupport claimid value support vout tx in
  match err with
  | Some e => mfail e
  | None => let* _ := mtry (PutSupport support) in mret (name, claimid, pubkeyscript)
  end.

Definition processClaimUpdateScript (script : list byte) (vout : Output) (tx : Transaction)
  (blockHeight : Z) : M World script_result :=
  let* (name, claimID, value, pubkeyscript) :=
    prefixed "Claim update processing error" (mlift (ParseClaimUpdateScript script)) in
  match DecodeClaimBytes value BlockChainName with
  | Err _ => let* _ := saveUnknownClaim in mret (name, claimID, pubkeyscript)
  | Panic e => mpanic e
  | Ok helper =>
      match sh_Claim helper with
      | None => mret (name, claimID, pubkeyscript)
      | Some pb =>
          let* claim := GetClaim claimID in
          let* claim := processUpdateClaim helper pb value claim in
          let* claim :=
            (match claim with
             | Some c => mret c
             | None => PutClaim (new_claim name claimID (txn_Hash tx) (out_Vout vout))
             end) in
          let claim := stamp_claim tx vout pubkeyscript blockHeight claim in
          let claim := if bool_decide (claim_BidState claim = "Spent")
                       then claim <| claim_BidState := "Accepted" |> else claim in
          let* _ := mtry (PutClaim claim) in
          mret (name, claimID, pubkeyscript)
      end
  end.

(** The claim id. *)
Definition processAsClaim (script : list byte) (vout : Output) (tx : Transaction)
  (blockHeight : Z) : M World string :=
  let* (_, claimid, _) :=
    (if IsClaimNameScript script then processClaimNameScript script vout tx blockHeight
     else if IsClaimSupportScript script then processClaimSupportScript script vout tx
     else if IsClaimUpdateScript script then processClaimUpdateScript script vout tx blockHeight
     else mfail (ErrMsg ("Not a claim -- " +:+ hex_encode script))) in
  mret claimid.
End Handlers.
