(* ===== verification/Transactions.v ===== *)
(** * Transactions, inputs, outputs and addresses ([daemon/processing/transaction.go],
      [outpoint.go], [address.go])

    [ProcessTx] saves a transaction, creates its addresses, then its inputs and outputs, and
    records what each address gave and received.  The workers of [saveUpdateInputs] and
    [saveUpdateOutputs] run the jobs in some order, every one of them, and the first error to
    arrive is returned: the order is an argument.  Metrics and notifications are left out. *)
From stdpp Require Import pretty.
From S2P Require Import Prelude Bytes Script Lbrycrd Scheduler Rows Store Datastore Claims.

(** ** Debits and credits ([transaction.go]) *)

Record addrDebitCredits := { debits : float64; credits : float64 }.
Definition txDebitCredits : Type := gmap string addrDebitCredits.

Definition dc_of (txDC : txDebitCredits) (address : string) : addrDebitCredits :=
  default {| debits := f64_zero; credits := f64_zero |} (txDC !! address).

Definition subtract (address : string) (value : float64) (txDC : txDebitCredits)
  : txDebitCredits :=
  let dc := dc_of txDC address in
  <[address := {| debits := f64_add (debits dc) value; credits := credits dc |}]> txDC.
Definition add (address : string) (value : float64) (txDC : txDebitCredits) : txDebitCredits :=
  let dc := dc_of txDC address in
  <[address := {| debits := debits dc; credits := f64_add (credits dc) value |}]> txDC.

(** encoding/json on [\[\]string], the text of an output's address list. *)
Class JsonStrings := {
  marshal_strings : list string -> string;
  unmarshal_strings : string -> option (list string);
}.

(** The choices of a pool of workers: the order in which they run the jobs, and the order in
    which the results of the failed ones are received.  [WorkerPool] has the goroutines. *)
Record pool_order (A : Type) := mkOrder {
  run_order : list A -> list A;
  error_order : list error -> list error;
}.
Arguments mkOrder {A}. Arguments run_order {A}. Arguments error_order {A}.
(** The choices of a pool permute what there is. *)
Definition order_ok {A} (o : pool_order A) : Prop :=
  (forall l, Permutation (run_order o l) l) /\ (forall l, Permutation (error_order o l) l).

Section Processing.
Context `{Faults, Stake, Hashes, AddressCodec, PurchaseCodec, JsonStrings}.
Context (BlockChainName : string).

(** ** Addresses ([address.go]) *)

Definition createTxAddressIfNotExist (txID addressID : Z) : M World unit :=
  let* found := GetTxAddress txID addressID in
  match found with
  | Some _ => mret tt
  | None =>
      let* _ := PutTxAddress (mkTransactionAddress txID addressID f64_zero f64_zero) in mret tt
  end.

Definition getAddressFromNonStandardVout (hexString : string) : res string :=
  let? scriptBytes := hex_decode hexString in
  let? pksBytes := GetPubKeyScriptFromClaimPKS scriptBytes in
  Ok (GetAddressFromPublicKeyScript BlockChainName pksBytes).

(** A non-standard script that is no claim has no address. *)
Definition getFirstAddressFromVout (vout : Vout) : res string :=
  let spk := vout_ScriptPubKey vout in
  if bool_decide (spk_Type spk = NonStandard) then
    match getAddressFromNonStandardVout (spk_Hex spk) with
    | Err e => match unwrap e with ErrNotClaimScript => Ok "" | _ => Err e end
    | r => r
    end
  else if bool_decide (spk_Type spk = NullData) then Ok ""
  else
    let? scriptBytes := hex_decode (spk_Hex spk) in
    Ok (GetAddressFromPublicKeyScript BlockChainName scriptBytes).

(** [model.Addresses(...).OneG()] with its error ignored. *)
Definition find_address (address : string) : M World (option Address) :=
  get_or_nil (oneG (fun a => bool_decide (addr_Address a = address))).

Definition vout_address (txID blockSeconds : Z) (address : string) : M World unit :=
  let* foundAddress := find_address address in
  match foundAddress with
  | Some found =>
      let* _ :=
        (match addr_FirstSeen found with
         | Some 0 =>
             let* _ := PutAddress (found <| addr_FirstSeen := Some blockSeconds |>) in mret tt
         | _ => mret tt
         end) in
      createTxAddressIfNotExist txID (addr_ID found)
  | None =>
      let* newAddress := PutAddress (mkAddress 0 address (Some blockSeconds) f64_zero) in
      createTxAddressIfNotExist txID (addr_ID newAddress)
  end.

Definition createUpdateVoutAddresses (tx : Transaction) (outputs : list Vout)
  (blockSeconds : Z) : M World unit :=
  mfor outputs (fun output =>
    let* address := mlift (getFirstAddressFromVout output) in
    mfor (spk_Addresses (vout_ScriptPubKey output) ++ [address])
      (vout_address (txn_ID tx) blockSeconds)).

Definition vin_address (txID : Z) (address : string) : M World unit :=
  let* addr := GetAddress address in
  let* addr :=
    (match addr with
     | Some a => mret a
     | None => prefixed "Could not create missing address"
                 (PutAddress (mkAddress 0 address None f64_zero))
     end) in
  createTxAddressIfNotExist txID (addr_ID addr).

(** The addresses of a source output: its list, or the one of its script. *)
Definition source_addresses (tx : Transaction) (srcOutput : Output) : res (list string) :=
  match out_AddressList srcOutput with
  | None =>
      match getAddressFromNonStandardVout (default "" (out_ScriptPubKeyHex srcOutput)) with
      | Ok jsonAddress => Ok [jsonAddress]
      | Err e => Err (ErrPrefix "AddressParseError" e)
      | Panic e => Panic e
      end
  | Some text =>
      match unmarshal_strings text with
      | None => Err (ErrPrefix "Could not parse AddressList from source output" (ErrMsg "json"))
      | Some [] => Err (ErrMsg ("No addresses were found for inputs of " +:+ txn_Hash tx))
      | Some addresses => Ok addresses
      end
  end.

Definition createUpdateVinAddresses (tx : Transaction) (inputs : list Vin) : M World unit :=
  mfor inputs (fun input =>
    let* srcOutput := GetOutput (vin_TxID input) (vin_Vout input) in
    match srcOutput with
    | None =>
        if negb (bool_decide (vin_Coinbase input = "")) then mret tt
        else mfail (ErrMissingSourceOutput (vin_TxID input) "" (vin_Vout input) 0)
    | Some srcOutput =>
        let* addresses := mlift (source_addresses tx srcOutput) in
        mfor addresses (vin_address (txn_ID tx))
    end).

(** ** Inputs ([outpoint.go]) *)

(** [strings.Join(l, ",")] *)
Definition join_commas (l : list string) : string := String.concat "," l.

Definition new_input (jsonVin : Vin) (tx : Transaction) (n : Z) : Input :=
  let isVinCoinbase := negb (bool_decide (vin_Coinbase jsonVin = "")) in
  let unless_coinbase {A} (a : A) := if isVinCoinbase then None else Some a in
  mkInput 0 (txn_ID tx) (txn_Hash tx) None isVinCoinbase
    (if isVinCoinbase then Some (vin_Coinbase jsonVin) else None)
    (unless_coinbase (vin_TxID jsonVin)) (unless_coinbase (vin_Vout jsonVin))
    (vin_Sequence jsonVin) None None None (Some n)
    (match vin_Witness jsonVin with [] => None | w => Some (join_commas w) end).

(** The address an input takes from: nil when none is found. *)
Definition vin_source_address (srcOutput : Output) : M World (option Address) :=
  let* addresses :=
    (match out_AddressList srcOutput with
     | None => mret []
     | Some text =>
         match unmarshal_strings text with
         | Some l => mret l
         | None => mfail (ErrMsg "Error unmarshalling source output address list: ")
         end
     end) in
  match addresses with
  | address :: _ => GetAddress address
  | [] =>
      if bool_decide (default "" (out_Type srcOutput) = NonStandard) then
        let* jsonAddress := mlift (getAddressFromNonStandardVout
          (default "" (out_ScriptPubKeyHex srcOutput))) in
        let* address := GetAddress jsonAddress in
        match address with
        | None => mfail (ErrMsg "No addresses for vout address list! ")
        | Some _ => mret address
        end
      else mret None
  end.

(** [boil.Whitelist(c.IsSpent, c.SpentByInputID)] *)
Definition spent_columns (new old : Output) : Output :=
  old <| out_IsSpent := out_IsSpent new |> <| out_SpentByInputID := out_SpentByInputID new |>.

(** The error message of a nil address indexes [addresses\[0\]], which panics on an empty
    list. *)
Definition no_vin_address (srcOutput : Output) : res txDebitCredits :=
  match out_AddressList srcOutput with
  | Some text =>
      match unmarshal_strings text with
      | Some (_ :: _) => Err (ErrMsg "No Address created for Vin: ")
      | _ => Panic (ErrRuntime "index out of range")
      end
  | None => Panic (ErrRuntime "index out of range")
  end.

Definition ProcessVin (jsonVin : Vin) (tx : Transaction) (txDC : txDebitCredits) (n : Z)
  : M World txDebitCredits :=
  let vin := new_input jsonVin tx n in
  let* foundVin := GetInput (txn_Hash tx) (in_IsCoinbase vin) (vin_TxID jsonVin)
                     (vin_Vout jsonVin) in
  let vin := match foundVin with Some f => vin <| in_ID := in_ID f |> | None => vin end in
  if in_IsCoinbase vin then let* _ := PutInput vin in mret txDC
  else
    match vin_ScriptSig jsonVin with
    | None => mpanic (ErrRuntime "invalid memory address or nil pointer dereference")
    | Some scriptSig =>
        let vin := vin <| in_ScriptSigHex := Some (sig_Hex scriptSig) |>
                       <| in_ScriptSigAsm := Some (sig_Asm scriptSig) |> in
        let* srcOutput := GetOutput (default "" (in_PrevoutHash vin))
                            (default 0 (in_PrevoutN vin)) in
        match srcOutput with
        | None => mfail (ErrMsg "no source output for VIN ")
        | Some srcOutput =>
            let vin := vin <| in_Value := out_Value srcOutput |> in
            let* address := vin_source_address srcOutput in
            match address with
            | None => mlift (no_vin_address srcOutput)
            | Some address =>
                let txDC := subtract (addr_Address address)
                              (default f64_zero (out_Value srcOutput)) txDC in
                let vin := vin <| in_InputAddressID := Some (addr_ID address) |> in
                let* vin := PutInput vin in
                let srcOutput := srcOutput <| out_IsSpent := true |>
                                   <| out_SpentByInputID := Some (in_ID vin) |> in
                let* _ := PutOutput srcOutput spent_columns in
                let* txAddress := GetTxAddress (txn_ID tx) (addr_ID address) in
                match txAddress with
                | None => mfail (ErrMsg "Missing txAddress for Tx: ")
                | Some _ => mret txDC
                end
            end
        end
    end.

(** ** Outputs ([outpoint.go]) *)

Definition processPurchaseVout (script : list byte) (tx : Transaction) (vout : Vout)
  (blockHeight : Z) : M World unit :=
  let* claimHash := mlift (ParsePurchaseScript script) in
  let claimID := hex_encode (ReverseBytes claimHash) in
  let* claim := GetClaim claimID in
  match claim with
  | None => mret tt
  | Some claim =>
      let* purchase := GetPurchase (txn_Hash tx) (vout_N vout) (claim_ClaimID claim) in
      let purchase := default (mkPurchase 0 None 0 None None 0 0) purchase in
      let purchase := purchase <| purchase_ClaimID := Some (claim_ClaimID claim) |>
                        <| purchase_PublisherID := claim_PublisherID claim |>
                        <| purchase_TransactionByHashID := Some (txn_Hash tx) |>
                        <| purchase_Vout := vout_N vout |>
                        <| purchase_Height := blockHeight |> in
      let* _ := PutPurchase purchase in mret tt
  end.

Definition processNullDataVout (tx : Transaction) (vout : Vout) (blockHeight : Z)
  : M World unit :=
  let* scriptBytes := mlift (hex_decode (spk_Hex (vout_ScriptPubKey vout))) in
  let* is_purchase := mlift (IsPurchaseScript scriptBytes) in
  if (is_purchase : bool) then processPurchaseVout scriptBytes tx vout blockHeight else mret tt.

Definition processScriptForClaim (vout : Output) (tx : Transaction) (blockHeight : Z)
  : M World (option string) :=
  let* scriptBytes := mlift (hex_decode (default "" (out_ScriptPubKeyHex vout))) in
  let isNonStandard := bool_decide (default "" (out_Type vout) = NonStandard) in
  let* isClaimScript := mlift (IsClaimScript scriptBytes) in
  if isNonStandard && isClaimScript then
    let* claimid := processAsClaim BlockChainName scriptBytes vout tx blockHeight in
    mret (Some claimid)
  else mret None.

Definition fill_output (vout : Output) (jsonVout : Vout) (tx : Transaction) : Output :=
  let spk := vout_ScriptPubKey jsonVout in
  vout <| out_TransactionID := txn_ID tx |> <| out_TransactionHash := txn_Hash tx |>
       <| out_Vout := vout_N jsonVout |> <| out_Value := Some (vout_Value jsonVout) |>
       <| out_RequiredSignatures := Some (spk_ReqSigs spk) |>
       <| out_ScriptPubKeyAsm := Some (spk_Asm spk) |>
       <| out_ScriptPubKeyHex := Some (spk_Hex spk) |>
       <| out_Type := Some (spk_Type spk) |>.

Definition new_output : Output :=
  mkOutput 0 0 "" None 0 None None None None None false None None.

(** The end of [ProcessVout], once the output's address is known. *)
Definition finish_vout (vout : Output) (jsonVout : Vout) (tx : Transaction)
  (txDC : txDebitCredits) (address : Address) (blockHeight : Z) : M World txDebitCredits :=
  let txDC := add (addr_Address address) (vout_Value jsonVout) txDC in
  let* vout := PutOutput vout infer in
  let* txAddress := GetTxAddress (txn_ID tx) (addr_ID address) in
  match txAddress with
  | None => mfail (ErrMsg "Missing txAddress for Tx:")
  | Some _ =>
      let* claimid := processScriptForClaim vout tx blockHeight in
      match claimid with
      | None => mret txDC
      | Some claimid =>
          let* claim := GetClaim claimid in
          let vout := match claim with
                      | Some c => vout <| out_ClaimID := Some (claim_ClaimID c) |>
                      | None => vout
                      end in
          let* _ := PutOutput vout infer in
          mret txDC
      end
  end.

Definition ProcessVout (jsonVout : Vout) (tx : Transaction) (txDC : txDebitCredits)
  (blockHeight : Z) : M World txDebitCredits :=
  let* foundVout := GetOutput (txn_Hash tx) (vout_N jsonVout) in
  let vout := fill_output (default new_output foundVout) jsonVout tx in
  let addresses := spk_Addresses (vout_ScriptPubKey jsonVout) in
  if bool_decide (spk_Type (vout_ScriptPubKey jsonVout) = NullData) then
    let* _ := processNullDataVout tx jsonVout blockHeight in
    let* _ := PutOutput vout infer in mret txDC
  else
    let no_address := ErrMsg "No address in db for " in
    match addresses with
    | first :: _ =>
        let* address := GetAddress first in
        let vout := vout <| out_AddressList := Some (marshal_strings addresses) |> in
        match address with
        | Some address => finish_vout vout jsonVout tx txDC address blockHeight
        | None => mfail no_address
        end
    | [] =>
        let* scriptAddress := mlift (getFirstAddressFromVout jsonVout) in
        if bool_decide (scriptAddress = "") then let* _ := PutOutput vout infer in mret txDC
        else
          let* address := GetAddress scriptAddress in
          let text := ("[" +:+ String (Ascii.ascii_of_nat 34) scriptAddress +:+
                       String (Ascii.ascii_of_nat 34) "]")%string in
          let vout := vout <| out_AddressList := Some text |> in
          match address with
          | Some address => finish_vout vout jsonVout tx txDC address blockHeight
          | None => mfail no_address
          end
    end.

(** ** A whole transaction ([transaction.go]) *)

Definition saveUpdateTransaction (jsonTx : TxRawResult) : M World Transaction :=
  let* foundTx := get_or_nil (oneG (fun t => bool_decide (txn_Hash t = tx_Txid jsonTx))) in
  let transaction := default (mkTransaction 0 None 0 0 None 0 "" 0 0 0 f64_zero) foundTx in
  let transaction :=
    transaction <| txn_BlockHashID := Some (tx_BlockHash jsonTx) |>
      <| txn_InputCount := len (tx_Vin jsonTx) |>
      <| txn_OutputCount := len (tx_Vout jsonTx) |>
      <| txn_TransactionTime := Some (u64 (tx_Time jsonTx)) |>
      <| txn_TransactionSize := u64 (tx_Size jsonTx) |>
      <| txn_Hash := tx_Txid jsonTx |>
      <| txn_Version := tx_Version jsonTx |>
      <| txn_LockTime := tx_LockTime jsonTx |>
      <| txn_CreatedTime := tx_Blocktime jsonTx |>
      <| txn_Value := foldl (fun acc v => f64_add acc (vout_Value v)) f64_zero (tx_Vout jsonTx) |> in
  match foundTx with
  | Some _ => let* _ := updateG transaction in mret transaction
  | None => insertG transaction
  end.

(** The jobs one after the other, with the errors of those that fail. *)
Definition run_all {A} (process : txDebitCredits -> A -> M World txDebitCredits) (jobs : list A)
  (txDC : txDebitCredits) : M World (txDebitCredits * list error) :=
  mfold jobs (fun acc job =>
    let* r := mtry (process acc.1 job) in
    match r with
    | inl txDC => mret (txDC, acc.2)
    | inr e => mret (acc.1, acc.2 ++ [e])
    end) (txDC, []).

(** All the jobs run; the first error that is received is returned. *)
Definition run_jobs {A} (p : string) (order : pool_order A) (jobs : list A)
  (process : txDebitCredits -> A -> M World txDebitCredits) (txDC : txDebitCredits)
  : M World txDebitCredits :=
  let* (txDC, errs) := run_all process (run_order order jobs) txDC in
  match error_order order errs with
  | e :: _ => mfail (ErrPrefix p e)
  | [] => mret txDC
  end.

Definition saveUpdateInputs (order : pool_order (Z * Vin)) (transaction : Transaction)
  (jsonTx : TxRawResult) (txDC : txDebitCredits) : M World txDebitCredits :=
  run_jobs "Vin Error->" order (imap (fun i v => (Z.of_nat i, v)) (tx_Vin jsonTx))
    (fun txDC job => ProcessVin job.2 transaction txDC job.1) txDC.
Definition saveUpdateOutputs (order : pool_order Vout) (transaction : Transaction)
  (jsonTx : TxRawResult) (txDC : txDebitCredits) (blockHeight : Z) : M World txDebitCredits :=
  run_jobs "Vout Error->" order (tx_Vout jsonTx)
    (fun txDC v => ProcessVout v transaction txDC blockHeight) txDC.

(** [txAddr.CreditAmount = ...] dereferences what [GetTxAddress] returned. *)
Definition setSendReceive (transaction : Transaction) (txDC : txDebitCredits) : M World unit :=
  mfor (map_to_list txDC) (fun '(addr, DC) =>
    let* address := GetAddress addr in
    match address with
    | None => mfail (ErrMsg "missing address for setting amounts!")
    | Some address =>
        let* txAddr := GetTxAddress (txn_ID transaction) (addr_ID address) in
        match txAddr with
        | None => mpanic (ErrRuntime "invalid memory address or nil pointer dereference")
        | Some txAddr =>
            UpdateTxAddressAmounts (txAddr <| txaddr_CreditAmount := credits DC |>
                                           <| txaddr_DebitAmount := debits DC |>)
        end
    end).

Context (vin_order : pool_order (Z * Vin)) (vout_order : pool_order Vout).

Definition ProcessTx (jsonTx : TxRawResult) (blockTime blockHeight : Z) : M World unit :=
  let* transaction := saveUpdateTransaction jsonTx in
  let* _ := prefixed "Vout Address Creation Error"
              (createUpdateVoutAddresses transaction (tx_Vout jsonTx) blockTime) in
  let* vin_addresses := mtry (createUpdateVinAddresses transaction (tx_Vin jsonTx)) in
  let* _ :=
    (match vin_addresses with
     | inl _ => mret tt
     | inr e => mfail (ErrPrefix "Vin Address Creation Error"
                         (enrichMissingSourceOutput e (tx_Txid jsonTx) blockHeight))
     end) in
  let* txDC := saveUpdateInputs vin_order transaction jsonTx ∅ in
  let* txDC := saveUpdateOutputs vout_order transaction jsonTx txDC blockHeight in
  setSendReceive transaction txDC.
End Processing.

(** ** Undoing an aborted block ([block_scheduler.go]) *)

Definition cleanupAbortedBlockTransactions `{Faults} (txIDs : list string) : M World unit :=
  if len txIDs =? 0 then mret tt
  else
    let* inputs := allG (fun i => bool_decide (in_TransactionHash i ∈ txIDs)) in
    let inputIDs := map in_ID inputs in
    if len inputIDs =? 0 then mret tt
    else
      let spent_by (o : Output) :=
        match out_SpentByInputID o with Some i => bool_decide (i ∈ inputIDs) | None => false end in
      let* _ := update_outputsG spent_by
                  (fun o => o <| out_IsSpent := false |> <| out_SpentByInputID := None |>) in
      let* count := countG spent_by in
      if negb (count =? 0) then mfail (ErrMsg "failed to reset spent outputs for aborted block")
      else mret tt.
