(* ===== verification/TransactionFacts.v ===== *)
(** * What processing a transaction changes

    Each handler of [Claims] and [Transactions] respects the relations that its statements
    respect. *)
From S2P Require Import Prelude Bytes Script Lbrycrd Scheduler Rows Store Datastore StoreFacts.
From S2P Require Import Claims Transactions.

Section Claims.
Context `{Faults, Stake, Hashes, AddressCodec} (R : relation DB) `{!PreOrder R}.
Context `{!Stable R Claim, !Stable R ClaimTag, !StableTags R, !Stable R Tag, !Stable R Support}.
Context (BlockChainName : string).

Lemma steps_setTags tags c : steps (on_db R) (setTags tags c).
Proof. revert c. induction tags as [| t tags IH]; intros c; cbn [setTags]; go_steps. Qed.
Hint Resolve steps_setTags : go.
Lemma steps_UpdateClaimData helper pb c :
  steps (on_db R) (UpdateClaimData BlockChainName helper pb c).
Proof. unfold UpdateClaimData, setMetaDataInfo, resetMetadata. go_steps. Qed.
Hint Resolve steps_UpdateClaimData : go.
Lemma steps_processClaim helper pb v c :
  steps (on_db R) (processClaim BlockChainName helper pb v c).
Proof. unfold processClaim. go_steps. Qed.
Lemma steps_processUpdateClaim helper pb v c :
  steps (on_db R) (processUpdateClaim BlockChainName helper pb v c).
Proof. unfold processUpdateClaim. go_steps. Qed.
Lemma steps_processSupport id v s o tx :
  steps (on_db R) (processSupport BlockChainName id v s o tx).
Proof. unfold processSupport. go_steps. Qed.
Hint Resolve steps_processClaim steps_processUpdateClaim steps_processSupport : go.
Lemma steps_processClaimNameScript script vout tx h :
  steps (on_db R) (processClaimNameScript BlockChainName script vout tx h).
Proof. unfold processClaimNameScript, saveUnknownClaim. go_steps. Qed.
Lemma steps_processClaimSupportScript script vout tx :
  steps (on_db R) (processClaimSupportScript BlockChainName script vout tx).
Proof. unfold processClaimSupportScript. go_steps. Qed.
Lemma steps_processClaimUpdateScript script vout tx h :
  steps (on_db R) (processClaimUpdateScript BlockChainName script vout tx h).
Proof. unfold processClaimUpdateScript, saveUnknownClaim. go_steps. Qed.
Hint Resolve steps_processClaimNameScript steps_processClaimSupportScript
  steps_processClaimUpdateScript : go.
Lemma steps_processAsClaim script vout tx h :
  steps (on_db R) (processAsClaim BlockChainName script vout tx h).
Proof. unfold processAsClaim. go_steps. Qed.
End Claims.
#[export] Hint Resolve steps_processAsClaim : go.

Section Transactions.
Context `{Faults, Stake, Hashes, AddressCodec, PurchaseCodec, JsonStrings}.
Context (R : relation DB) `{!PreOrder R}.
Context (BlockChainName : string).

Section Addresses.
Context `{!Stable R Address, !Stable R TransactionAddress}.

Lemma steps_createTxAddressIfNotExist t a : steps (on_db R) (createTxAddressIfNotExist t a).
Proof. unfold createTxAddressIfNotExist. go_steps. Qed.
Hint Resolve steps_createTxAddressIfNotExist : go.
Lemma steps_createUpdateVoutAddresses tx outputs s :
  steps (on_db R) (createUpdateVoutAddresses BlockChainName tx outputs s).
Proof. unfold createUpdateVoutAddresses, vout_address, find_address. go_steps. Qed.
Lemma steps_createUpdateVinAddresses tx inputs :
  steps (on_db R) (createUpdateVinAddresses BlockChainName tx inputs).
Proof. unfold createUpdateVinAddresses, vin_address. go_steps. Qed.
End Addresses.

Lemma steps_vin_source_address o : steps (on_db R) (vin_source_address BlockChainName o).
Proof. unfold vin_source_address. go_steps. Qed.
Hint Resolve steps_vin_source_address : go.
Lemma steps_ProcessVin `{!Stable R Input, !Stable R Output} v tx dc n :
  steps (on_db R) (ProcessVin BlockChainName v tx dc n).
Proof. unfold ProcessVin. go_steps. Qed.

Lemma steps_processNullDataVout `{!Stable R Purchase} tx v h :
  steps (on_db R) (processNullDataVout tx v h).
Proof. unfold processNullDataVout, processPurchaseVout. go_steps. Qed.
Hint Resolve steps_processNullDataVout : go.

Context `{!Stable R Claim, !Stable R ClaimTag, !StableTags R, !Stable R Tag, !Stable R Support}.
Lemma steps_processScriptForClaim o tx h :
  steps (on_db R) (processScriptForClaim BlockChainName o tx h).
Proof. unfold processScriptForClaim. go_steps. Qed.
Hint Resolve steps_processScriptForClaim : go.

Context `{!Stable R Purchase}.
Lemma steps_ProcessVout `{!Stable R Output} v tx dc h :
  steps (on_db R) (ProcessVout BlockChainName v tx dc h).
Proof. unfold ProcessVout, finish_vout. go_steps. Qed.
End Transactions.
#[export] Hint Resolve steps_createTxAddressIfNotExist steps_createUpdateVoutAddresses
  steps_createUpdateVinAddresses steps_vin_source_address steps_processScriptForClaim
  steps_processNullDataVout : go.

(** [R] allows what the workers of a transaction do to the inputs and the outputs: because it
    is stable for the two tables, or because it looks at what the workers write. *)
Class Workers (R : relation DB) `{Faults, Stake, Hashes, AddressCodec, PurchaseCodec, JsonStrings}
  : Prop := {
  vin_steps chain v tx dc n : steps (on_db R) (ProcessVin chain v tx dc n);
  vout_steps chain v tx dc h : steps (on_db R) (ProcessVout chain v tx dc h);
}.
#[export] Hint Extern 1 (Workers _) => typeclasses eauto : go.
#[export] Instance stable_workers R `{Faults, Stake, Hashes, AddressCodec, PurchaseCodec, JsonStrings}
  `{!PreOrder R, !Stable R Claim, !Stable R ClaimTag, !StableTags R, !Stable R Tag, !Stable R Support}
  `{!Stable R Purchase, !Stable R Input, !Stable R Output} : Workers R.
Proof. split; intros; [apply steps_ProcessVin | apply steps_ProcessVout]; typeclasses eauto. Qed.
#[export] Instance both_workers R1 R2
  `{Faults, Stake, Hashes, AddressCodec, PurchaseCodec, JsonStrings} :
  Workers R1 -> Workers R2 -> Workers (both R1 R2).
Proof.
  intros [A1 A2] [B1 B2]. split; intros; apply steps_both; auto.
Qed.

Section Whole.
Context `{Faults, Stake, Hashes, AddressCodec, PurchaseCodec, JsonStrings}.
Context (R : relation DB) `{!PreOrder R, !Workers R}.
Context (BlockChainName : string).
Context `{!Stable R Transaction, !Stable R Address, !Stable R TransactionAddress}.
Context `{!StableOutputs R}.
Lemma steps_vin_worker v tx dc n : steps (on_db R) (ProcessVin BlockChainName v tx dc n).
Proof. apply vin_steps. Qed.
Lemma steps_vout_worker v tx dc h : steps (on_db R) (ProcessVout BlockChainName v tx dc h).
Proof. apply vout_steps. Qed.
Hint Resolve steps_vin_worker steps_vout_worker : go.

(** The whole of [ProcessTx]. *)
Lemma steps_ProcessTx vin_order vout_order jsonTx t h :
  steps (on_db R) (ProcessTx BlockChainName vin_order vout_order jsonTx t h).
Proof.
  unfold ProcessTx, saveUpdateTransaction, saveUpdateInputs, saveUpdateOutputs, run_jobs, run_all,
    setSendReceive. go_steps.
Qed.

Lemma steps_cleanup txIDs : steps (on_db R) (cleanupAbortedBlockTransactions txIDs).
Proof. unfold cleanupAbortedBlockTransactions. go_steps. Qed.
End Whole.
#[export] Hint Resolve steps_createTxAddressIfNotExist steps_createUpdateVoutAddresses
  steps_createUpdateVinAddresses steps_vin_source_address steps_ProcessVin steps_ProcessVout
  steps_processScriptForClaim steps_processNullDataVout steps_ProcessTx steps_cleanup : go.
