(* ===== verification/BlockSync.v ===== *)
(** * The transactions of a block, in the world ([daemon/processing/block_scheduler.go] over
      [daemon/processing/transaction.go])

    [Scheduler] is parametric in what the workers answer.  Here the workers are [ProcessTx] on
    the database: a round in which a result arrives first runs its job, as one block of
    statements at the moment the coordinator receives it.  The order in which jobs finish, the
    stopper and the timers stay choices of the environment.  The section on refinement shows
    that what happens to the coordinator is a run of [Scheduler]. *)
From S2P Require Import Prelude Bytes Script Lbrycrd Scheduler Rows Store Datastore Claims.
From S2P Require Import Transactions.

(** ** The node

    What lbrycrd answers to a request sent at a given tick; its answers change over time. *)
Class Node := {
  node_block_hash : nat -> Z -> res string;
  node_block : nat -> string -> res GetBlockResponse;
  node_genesis : nat -> res (GetBlockVerboseResponse * GetBlockResponse);
  node_transaction : nat -> string -> res TxRawResult;
}.

(** One request: the world's clock advances, the database stays. *)
Definition ask {A} (f : nat -> res A) : M World A := fun w => (f (tick w), ticked w).

(** The environment of a block's processing: how the inputs, the outputs and the fetches are
    interleaved, after how many results the stopper ends the fetching (if it does), and what
    the coordinator's rounds meet. *)
Record schedule := {
  sc_vins : pool_order (Z * Vin);
  sc_vouts : pool_order Vout;
  sc_fetches : list (nat * string) -> list (nat * string);
  sc_fetch_stop : option nat;
  sc_choices : list choice;
}.

Section Sync.
Context `{Faults, Stake, Hashes, AddressCodec, PurchaseCodec, JsonStrings, Node}.
Context (BlockChainName : string) (MaxParallelTxProcessing MaxFailures : Z) (sc : schedule).

(** [&TxRawResult{}], which [GetRawTransactionResponse] returns with an error. *)
Definition empty_tx : TxRawResult :=
  {| tx_Txid := ""; tx_Hash := ""; tx_Version := 0; tx_Size := 0; tx_Vsize := 0; tx_Weight := 0;
     tx_LockTime := 0; tx_Vin := []; tx_Vout := []; tx_Hex := ""; tx_BlockHash := "";
     tx_Confirmations := 0; tx_Time := 0; tx_Blocktime := 0 |}.

(** The fetch workers' loop: one request per job. *)
Definition fetch_job (job : nat * string) : M World fetch_event :=
  let* r := mtry (ask (fun now => node_transaction now job.2)) in
  mret (FetchResult
    match r with
    | inl tx => {| fetch_tx := tx; fetch_err := None; fetch_index := job.1 |}
    | inr e => {| fetch_tx := empty_tx; fetch_err := Some e; fetch_index := job.1 |}
    end).

Definition fetch_events (txIDs : list string) : M World (list fetch_event) :=
  let* evs := mfold (sc_fetches sc (imap (fun i txID => (i, txID)) txIDs))
                (fun acc job => let* ev := fetch_job job in mret (acc ++ [ev])) [] in
  mret (match sc_fetch_stop sc with Some n => take n evs ++ [FetchStop] | None => evs end).

(** What a choice of the environment that is no choice (a job that is not running, too few
    rounds) is reported as; the program has no such error. *)
Definition no_such_choice : error := ErrMsg "choice".

(** A worker's call of [processTx], its error as a value. *)
Definition run_job (job : txToProcess) : M World (option error) :=
  let* r := mtry (ProcessTx BlockChainName (sc_vins sc) (sc_vouts sc) (job_tx job)
                    (job_blockTime job) (job_blockHeight job)) in
  mret (match r with inl _ => None | inr e => Some e end).

(** The choice with the result of its job filled in. *)
Definition realize (blockTime blockHeight workerCount : Z) (s : coordinator) (c : choice)
  : M World choice :=
  match ch_event c with
  | EvResult i _ stopped =>
      let s1 := (dispatch_phase blockTime blockHeight workerCount (ch_stops c) s).2 in
      match inflight s1 !! i with
      | Some job =>
          let* err := run_job job in
          mret {| ch_stops := ch_stops c; ch_event := EvResult i err stopped |}
      | None => mret c
      end
  | _ => mret c
  end.

(** The coordinator's loop with working workers. *)
Fixpoint world_loop (blockTime blockHeight workerCount : Z) (cs : list choice)
  (s : coordinator) : M World coordinator :=
  if negb (loop_condition s) then mret s
  else
    match cs with
    | [] => mfail no_such_choice
    | c :: cs' =>
        let* c := realize blockTime blockHeight workerCount s c in
        match loop_body MaxFailures blockTime blockHeight workerCount c s with
        | (Ok Continue, s') => world_loop blockTime blockHeight workerCount cs' s'
        | (Ok Break, s') => mret s'
        | (Ok Blocked, _) => mfail no_such_choice
        | (Err e, _) => mfail e
        | (Panic e, _) => mpanic e
        end
    end.

Definition run_scheduler (blockTime blockHeight : Z) (g : blockTxGraph) : M World unit :=
  if len (order g) =? 0 then mret tt
  else
    let* s := world_loop blockTime blockHeight (worker_count MaxParallelTxProcessing g)
                (sc_choices sc) (init_coordinator g) in
    match terminalErr s with
    | Some e =>
        let* cleanup := mtry (cleanupAbortedBlockTransactions (order (graph s))) in
        match cleanup with
        | inr cleanupErr => mfail (ErrPrefix (Error e) cleanupErr)
        | inl _ => mfail e
        end
    | None => mret tt
    end.

(** [syncTransactionsOfBlock] is [syncTransactionsDependencyAware]. *)
Definition syncTransactionsOfBlock (txIDs : list string) (blockTime blockHeight : Z)
  : M World unit :=
  let* evs := fetch_events txIDs in
  match fetchBlockRawTransactions txIDs evs with
  | None => mfail no_such_choice
  | Some r =>
      let* f := mlift r in
      let* g := mlift (prepare_block f) in
      run_scheduler blockTime blockHeight g
  end.
End Sync.
