(* ===== verification/DemoWorld.v ===== *)
(** * A concrete environment

    A database without faults, transparent codecs, a node with a chain of two blocks, and a
    schedule: the worked examples evaluate the handlers in it.  Block 1 has a coinbase [aa] that
    pays [alice], and [bb], which spends it and makes the claim [name] with the payment script
    of [bob]. *)
From S2P Require Import Prelude Bytes Script Lbrycrd Scheduler Rows Store Datastore Claims.
From S2P Require Import Transactions BlockSync.

Module Demo.
#[export] Instance no_faults : Faults := {| db_fault _ := None |}.
#[export] Instance demo_hashes : Hashes := {| sha256 := fun b => b; ripemd160 := fun b => b |}.
#[export] Instance demo_purchases : PurchaseCodec := {| unmarshal_purchase := Some |}.
#[export] Instance demo_addresses : AddressCodec := {|
  IsPayToWitnessPubKeyHash _ := false;
  IsPayToWitnessScriptHash _ := false;
  ExtractPkScriptAddrs l _ := [hex_encode l];
  NewAddressPubKey l _ := Ok (hex_encode l);
  NewAddressPubKeyHash l _ := Ok (hex_encode l);
  NewAddressScriptHashFromHash l _ := Ok (hex_encode l);
  NewAddressWitnessPubKeyHash l _ := Ok (hex_encode l);
  NewAddressWitnessScriptHash l _ := Ok (hex_encode l);
|}.

Definition quote : string := String (Ascii.ascii_of_nat 34) "".
(** Lists of one string. *)
#[export] Instance demo_json : JsonStrings := {|
  marshal_strings l := ("[" +:+ quote +:+ String.concat "," l +:+ quote +:+ "]")%string;
  unmarshal_strings s := Some [String.substring 2 (String.length s - 4) s];
|}.

Definition demo_source : pbSource :=
  {| src_Url := "u"; src_Hash := []; src_Size := 7; src_Name := "file"; src_MediaType := "video/mp4";
     src_SdHash := [] |}.
Definition demo_stream : pbStream :=
  {| st_Author := "author"; st_License := ""; st_LicenseUrl := ""; st_Fee := None;
     st_Source := Some demo_source; st_ReleaseTime := 5; st_Image := None; st_Video := None;
     st_Audio := None |}.
Definition demo_claim : pbClaim :=
  {| pb_Title := "title"; pb_Description := ""; pb_ThumbnailUrl := ""; pb_Tags := ["mature"];
     pb_Languages := []; pb_Type := PbStream demo_stream |}.
Definition demo_helper : StakeHelper :=
  {| sh_Claim := Some demo_claim; sh_LegacyClaim := None; sh_ClaimID := []; sh_Signature := None |}.
#[export] Instance demo_stake : Stake := {|
  DecodeClaimBytes _ _ := Ok demo_helper;
  DecodeClaimHex _ _ := Ok demo_helper;
  DecodeSupportBytes _ _ := Ok demo_helper;
  EncodeBase58 := hex_encode;
  Marshal_certificate _ := "certificate";
  Marshal_strings := String.concat ",";
  Marshal_value _ := Ok "value";
|}.

Definition spk (type : string) (script : list byte) (addresses : list string)
  : ScriptPubKeyResult :=
  {| spk_Asm := ""; spk_Hex := hex_encode script; spk_ReqSigs := 1; spk_Type := type;
     spk_Addresses := addresses |}.
Definition p2pkh (hash : byte) : list byte :=
  [x76; xa9; x14] ++ replicate 20 hash ++ [x88; xac].
Definition pay (value : Z) (type : string) (script : list byte) (addresses : list string) : Vout :=
  {| vout_Value := f64_of_Z value; vout_N := 0; vout_ScriptPubKey := spk type script addresses |}.
Definition tx (id : string) (vins : list Vin) (vouts : list Vout) : TxRawResult :=
  {| tx_Txid := id; tx_Hash := id; tx_Version := 1; tx_Size := 100; tx_Vsize := 100;
     tx_Weight := 400; tx_LockTime := 0; tx_Vin := vins; tx_Vout := vouts; tx_Hex := "";
     tx_BlockHash := "b1"; tx_Confirmations := 1; tx_Time := 50; tx_Blocktime := 50 |}.
Definition coinbase : Vin :=
  {| vin_Coinbase := "00"; vin_TxID := ""; vin_Vout := 0; vin_ScriptSig := None;
     vin_Sequence := 0; vin_Witness := [] |}.
Definition spend (txid : string) : Vin :=
  {| vin_Coinbase := ""; vin_TxID := txid; vin_Vout := 0;
     vin_ScriptSig := Some {| sig_Asm := ""; sig_Hex := "" |}; vin_Sequence := 0;
     vin_Witness := [] |}.

Definition bob_script : list byte := p2pkh x22.
Definition claim_script : list byte := claim_name_script [x6e; x61; x6d; x65] [x01] bob_script.
Definition tx_aa : TxRawResult := tx "aa" [coinbase] [pay 3 "pubkeyhash" (p2pkh x11) ["alice"]].
Definition tx_bb : TxRawResult := tx "bb" [spend "aa"] [pay 2 "nonstandard" claim_script []].

Definition block_json (hash prev : string) (txs : list string) : GetBlockResponse :=
  {| blk_Hash := hash; blk_Confirmations := 1; blk_StrippedSize := 0; blk_Size := 0;
     blk_Weight := 0; blk_Height := 0; blk_Version := 1; blk_VersionHex := ""; blk_MerkleRoot := "";
     blk_NameClaimRoot := ""; blk_Tx := txs; blk_Time := 50; blk_MedianTime := 50; blk_Nonce := 0;
     blk_Bits := ""; blk_Difficulty := f64_zero; blk_ChainWork := ""; blk_NTx := len txs;
     blk_PreviousBlockHash := prev; blk_NextBlockHash := "" |}.

Definition no_answer {A} : res A := Err (ErrMsg "not found").
#[export] Instance demo_node : Node := {|
  node_block_hash _ h := if h =? 0 then Ok "g" else if h =? 1 then Ok "b1" else no_answer;
  node_block _ hash :=
    if bool_decide (hash = "b1") then Ok (block_json "b1" "g" ["aa"; "bb"]) else no_answer;
  node_genesis _ := no_answer;
  node_transaction _ id :=
    if bool_decide (id = "aa") then Ok tx_aa
    else if bool_decide (id = "bb") then Ok tx_bb else no_answer;
|}.

Definition in_order {A} : pool_order A := mkOrder (fun l => l) (fun l => l).
Definition demo_schedule : schedule := {|
  sc_vins := in_order; sc_vouts := in_order; sc_fetches l := rev l; sc_fetch_stop := None;
  sc_choices := [ {| ch_stops := []; ch_event := EvResult 0 None false |};
                  {| ch_stops := []; ch_event := EvResult 0 None false |} ];
|}.

Definition stored_block (id height : Z) (hash : string) (prev : option string)
  (state : option string) : Block :=
  mkBlock id "" "" 0 f64_zero hash height "" "" 0 prev None 0 0 0 "" 0 state.

Definition no_rows {R} : table R := mkTable [] 1.
Definition empty_db : DB :=
  mkDB no_rows no_rows no_rows no_rows no_rows no_rows no_rows no_rows no_rows no_rows no_rows
    no_rows no_rows.
(** The genesis block is stored. *)
Definition demo_db : DB :=
  empty_db <| t_blocks := mkTable [stored_block 1 0 "g" None (Some "complete")] 2 |>.
Definition demo_world : World := mkWorld demo_db 0.
(** The block is stored, its transactions are not. *)
Definition demo_world1 : World :=
  mkWorld (demo_db <| t_blocks :=
    mkTable [stored_block 1 0 "g" None (Some "complete");
             stored_block 2 1 "b1" (Some "g") (Some "processing")] 3 |>) 0.

Definition chain : string := "lbrycrd_main".
Definition demo_sync : M World unit :=
  syncTransactionsOfBlock chain 4 3 demo_schedule ["aa"; "bb"] 50 1.
(** The state after the block. *)
Definition demo_world2 : World := snd (demo_sync demo_world1).
End Demo.
