(* ===== verification/WorkerPool.v ===== *)
(** * The worker pools of a transaction
      ([saveUpdateInputs], [saveUpdateOutputs] of [daemon/processing/transaction.go] and the
      workers of [daemon/processing/outpoint.go])

    The inputs of a transaction, and then its outputs, go over a channel without buffer to a few
    workers, whose results come back over another one; the caller counts the results, keeps the
    first error and stops the group.  The goroutines are the parts of a state whose steps are
    the communications, the cases of the selects and the pieces of the jobs: a job is a [code],
    a sequence of atomic actions on what the workers share (the database and the map of the
    amounts), so that the actions of several jobs interleave.  [vin_code] and [vout_code] are
    [ProcessVin] and [ProcessVout] cut at their calls of the datastore; the theorem holds for
    every way to cut them.  The two pools differ in the job and in the text of the error only.

    [worker_pools_implement]: every execution ends, none gets stuck, every job is done once
    and the answer is the right one; with a single worker (or a single job) a success is the
    one of [run_jobs] of [Transactions] for some order of the jobs.  With several workers the
    jobs overlap; [Transactions] and its theorems are about jobs that do not. *)
From S2P Require Import Prelude Bytes Script Lbrycrd Rows Store Datastore StoreFacts Claims.
From S2P Require Import Transactions DemoWorld.

(** ** Jobs in pieces *)

(** What the workers of a pool share. *)
Definition shared : Type := (txDebitCredits * World)%type.

(** An action is atomic; what follows may depend on the state the action found. *)
Inductive code :=
| Done (err : option error)
| Crash (e : error)
| Act (act : shared -> shared) (next : shared -> code).

(** A job that nobody interrupts. *)
Fixpoint run_code (c : code) (s : shared) : res unit * shared :=
  match c with
  | Done None => (Ok tt, s)
  | Done (Some e) => (Err e, s)
  | Crash e => (Panic e, s)
  | Act act next => run_code (next s) (act s)
  end.

(** [cut] is [process] in pieces.  (A job that fails may have changed the amounts.) *)
Definition cuts {A} (cut : A -> code) (process : txDebitCredits -> A -> M World txDebitCredits)
  : Prop :=
  forall job txDC w,
    match process txDC job w with
    | (Ok txDC', w') => run_code (cut job) (txDC, w) = (Ok tt, (txDC', w'))
    | (Err e, w') => exists txDC', run_code (cut job) (txDC, w) = (Err e, (txDC', w'))
    | (Panic e, w') => exists txDC', run_code (cut job) (txDC, w) = (Panic e, (txDC', w'))
    end.

(** A call of the datastore as one action, and a change of the amounts under their lock. *)
Definition call {X} (m : M World X) (k : X -> code) : code :=
  Act (fun s => (s.1, (m s.2).2))
      (fun s => match (m s.2).1 with
                | Ok x => k x
                | Err e => Done (Some e)
                | Panic e => Crash e
                end).
Definition touch (f : txDebitCredits -> txDebitCredits) (c : code) : code :=
  Act (fun s => (f s.1, s.2)) (fun _ => c).

(** ** The goroutines *)

(** A worker waits for a job, is at some point of one, or has a result to pass; or it has
    returned. *)
Inductive worker_state (A : Type) :=
| Waiting
| Got (job : A) (c : code)
| Passing (err : option error)
| Returned.
Arguments Waiting {A}. Arguments Got {A}. Arguments Passing {A}. Arguments Returned {A}.

(** The queueing goroutine has the jobs it has not sent; when it returns it closes the channel.
    The caller has its counter, its first error, and whether it has stopped the group and
    returned.  A panic in a worker ends the process.  [ended] is the history of the jobs that
    have been done, with what they answered. *)
Record pool (A : Type) := mkPool {
  unsent : list A;
  queueing : bool;
  pool_workers : list (worker_state A);
  leftToProcess : Z;
  firstErr : option error;
  stopping : bool;
  returned : bool;
  crashed : option error;
  pool_shared : shared;
  ended : list (A * option error);
}.
Arguments mkPool {A}. Arguments unsent {A}. Arguments queueing {A}. Arguments pool_workers {A}.
Arguments leftToProcess {A}. Arguments firstErr {A}. Arguments stopping {A}.
Arguments returned {A}. Arguments crashed {A}. Arguments pool_shared {A}. Arguments ended {A}.
#[export] Instance eta_pool {A} : Eta (pool A) := fun p =>
  mkPool (unsent p) (queueing p) (pool_workers p) (leftToProcess p) (firstErr p) (stopping p)
    (returned p) (crashed p) (pool_shared p) (ended p).

Section Pool.
Context {A : Type} (label : string) (cut : A -> code).

(** [workers := util.Min(len(jobs), MaxParallel)]; the loop that starts them. *)
Definition start_pool (MaxParallel : Z) (jobs : list A) (txDC : txDebitCredits) (w : World)
  : pool A :=
  mkPool jobs true (replicate (Z.to_nat (Min (len jobs) MaxParallel)) Waiting) (len jobs) None
    false false None (txDC, w) [].

Definition set_worker (i : nat) (s : worker_state A) (p : pool A) : pool A :=
  p <| pool_workers := <[i := s]> (pool_workers p) |>.

Definition running_pool (p : pool A) : Prop := returned p = false /\ crashed p = None.

(** [err := <-errorchan; leftToProcess--; if vinErr == nil { vinErr = errors.Prefix(...) }] *)
Definition receive_result (err : option error) (p : pool A) : pool A :=
  p <| leftToProcess := leftToProcess p - 1 |>
    <| firstErr := match firstErr p, err with
                   | None, Some e => Some (ErrPrefix label e)
                   | old, _ => old
                   end |>.

Inductive pool_step : pool A -> pool A -> Prop :=
| pool_send p i job rest :
    running_pool p -> queueing p = true -> unsent p = job :: rest ->
    pool_workers p !! i = Some Waiting ->
    pool_step p (set_worker i (Got job (cut job)) (p <| unsent := rest |>))
| pool_close p :
    running_pool p -> queueing p = true -> unsent p = [] -> pool_step p (p <| queueing := false |>)
| pool_queue_stopped p :
    running_pool p -> queueing p = true -> stopping p = true ->
    pool_step p (p <| queueing := false |>)
| pool_act p i job act next :
    running_pool p -> pool_workers p !! i = Some (Got job (Act act next)) ->
    pool_step p (set_worker i (Got job (next (pool_shared p)))
      (p <| pool_shared := act (pool_shared p) |>))
| pool_job p i job err :
    running_pool p -> pool_workers p !! i = Some (Got job (Done err)) ->
    pool_step p (set_worker i (Passing err) (p <| ended := ended p ++ [(job, err)] |>))
| pool_job_panicked p i job e :
    running_pool p -> pool_workers p !! i = Some (Got job (Crash e)) ->
    pool_step p (p <| crashed := Some e |>)
| pool_result p i err :
    running_pool p -> pool_workers p !! i = Some (Passing err) -> 0 < leftToProcess p ->
    pool_step p (set_worker i Waiting (receive_result err p))
| pool_no_more_jobs p i :
    running_pool p -> pool_workers p !! i = Some Waiting -> queueing p = false ->
    pool_step p (set_worker i Returned p)
| pool_worker_stopped p i s :
    running_pool p -> pool_workers p !! i = Some s -> stopping p = true ->
    (s = Waiting \/ exists err, s = Passing err) ->
    pool_step p (set_worker i Returned p)
| pool_stop p :
    running_pool p -> leftToProcess p = 0 -> stopping p = false ->
    pool_step p (p <| stopping := true |>)
| pool_return p :
    running_pool p -> stopping p = true -> queueing p = false ->
    Forall (eq Returned) (pool_workers p) -> pool_step p (p <| returned := true |>).

(** What the caller gets. *)
Definition pool_answer (p : pool A) : option (res txDebitCredits) :=
  match crashed p with
  | Some e => Some (Panic e)
  | None =>
      if returned p then
        Some (match firstErr p with Some e => Err e | None => Ok (pool_shared p).1 end)
      else None
  end.

(** ** The invariant *)

Definition got_of (s : worker_state A) : option A :=
  match s with Got j _ => Some j | _ => None end.
Definition passing_of (s : worker_state A) : option (option error) :=
  match s with Passing r => Some r | _ => None end.
Definition gots (p : pool A) : list A := omap got_of (pool_workers p).
Definition passings (p : pool A) : list (option error) := omap passing_of (pool_workers p).

Context (jobs : list A).

(** The jobs are unsent, with a worker, or done; the errors of those that are done have been
    received, in the order [received], or are being passed. *)
Record pool_inv (received : list error) (p : pool A) : Prop := {
  inv_jobs : Permutation (unsent p ++ gots p ++ (ended p).*1) jobs;
  inv_errs : Permutation (received ++ omap id (passings p)) (omap snd (ended p));
  inv_first : firstErr p = ErrPrefix label <$> head received;
  inv_left : leftToProcess p = len (unsent p) + len (gots p) + len (passings p);
  inv_stopping : stopping p = true -> leftToProcess p = 0;
  inv_queueing : queueing p = false -> unsent p = [];
  inv_gone : Returned ∈ pool_workers p -> queueing p = false \/ stopping p = true;
  inv_returned : returned p = true -> stopping p = true;
}.
Definition pool_ok (p : pool A) : Prop := exists received, pool_inv received p.

(** Replacing the state of one worker. *)
Definition opt_list {X} (o : option X) : list X := match o with Some x => [x] | None => [] end.
Lemma omap_set {X} (f : worker_state A -> option X) l i old new :
  l !! i = Some old ->
  Permutation (omap f (<[i := new]> l) ++ opt_list (f old)) (omap f l ++ opt_list (f new)).
Proof.
  revert i. induction l as [| s l IH]; intros [| i]; cbn; [done.. | |].
  - intros [= ->]. destruct (f old), (f new); cbn; rewrite ?app_nil_r, <- ?Permutation_cons_append;
      first [done | apply perm_swap].
  - intros E. specialize (IH i E). destruct (f s); cbn; [by constructor | done].
Qed.
Lemma set_gots i old new p :
  pool_workers p !! i = Some old ->
  Permutation (gots (set_worker i new p) ++ opt_list (got_of old)) (gots p ++ opt_list (got_of new)).
Proof. intros E. by apply omap_set. Qed.
Lemma set_passings i old new p :
  pool_workers p !! i = Some old ->
  Permutation (passings (set_worker i new p) ++ opt_list (passing_of old))
    (passings p ++ opt_list (passing_of new)).
Proof. intros E. by apply omap_set. Qed.

Lemma gone_set i new (l : list (worker_state A)) :
  new <> Returned -> Returned ∈ <[i := new]> l -> Returned ∈ l.
Proof.
  intros Hn Hin. apply list_elem_of_lookup in Hin as [j Hj].
  apply list_lookup_insert_Some in Hj as [(_ & Hx & _) | [_ Hj]]; [congruence |].
  by eapply list_elem_of_lookup_2.
Qed.

(** What the replacement of a worker's state does to the lists of the invariant. *)
Ltac worker_changes E new :=
  pose proof (set_gots _ _ new _ E) as Hgots; pose proof (set_passings _ _ new _ E) as Hpass;
  cbn [got_of passing_of opt_list] in Hgots, Hpass;
  repeat rewrite app_nil_r in Hgots; repeat rewrite app_nil_r in Hpass;
  pose proof (Permutation_length Hgots) as Hgl; pose proof (Permutation_length Hpass) as Hpl;
  repeat rewrite length_app in Hgl; repeat rewrite length_app in Hpl; cbn [length] in Hgl, Hpl.

Lemma start_pool_ok MaxParallel txDC0 w0 : pool_ok (start_pool MaxParallel jobs txDC0 w0).
Proof.
  assert (Hnone : forall X (f : worker_state A -> option X) n, f Waiting = None ->
    omap f (replicate n Waiting) = []).
  { intros X f n Hf. induction n as [| n IH]; cbn; [done |]. by rewrite Hf. }
  set (p := start_pool _ _ _ _).
  assert (Hg : gots p = []) by (by apply Hnone). assert (Hp : passings p = []) by (by apply Hnone).
  exists []. split; rewrite ?Hg, ?Hp; try done.
  - cbn. by rewrite app_nil_r.
  - cbn. unfold len. cbn. lia.
  - by intros [[=] _]%elem_of_replicate.
Qed.

Lemma pool_send_ok p i job rest c :
  pool_ok p -> unsent p = job :: rest -> queueing p = true ->
  pool_workers p !! i = Some Waiting -> pool_ok (set_worker i (Got job c) (p <| unsent := rest |>)).
Proof.
  intros (received & [Hj He Hf Hl Hs Hqu Hg Hret]) Hu Hq E.
  set (q := p <| unsent := rest |>). change (pool_workers p) with (pool_workers q) in E.
  worker_changes E (Got job c). set (p' := set_worker _ _ _) in *.
  change (gots q) with (gots p) in *. change (passings q) with (passings p) in *.
  exists received. split; try done.
  - change (unsent p') with rest. change (ended p') with (ended p).
    rewrite <- Hj, Hu, Hgots, <- app_assoc. cbn. by rewrite !app_assoc, <- Permutation_middle.
  - by rewrite Hpass.
  - change (unsent p') with rest. change (leftToProcess p') with (leftToProcess p).
    rewrite Hl, Hu. unfold len. cbn [length]. lia.
  - change (queueing p') with (queueing p). by rewrite Hq.
  - intros Hin. apply gone_set in Hin; [| done]. by apply Hg.
Qed.

(** A piece of a job. *)
Lemma pool_act_ok p i job c c' s :
  pool_ok p -> pool_workers p !! i = Some (Got job c) ->
  pool_ok (set_worker i (Got job c') (p <| pool_shared := s |>)).
Proof.
  intros (received & [Hj He Hf Hl Hs Hqu Hg Hret]) E.
  set (q := p <| pool_shared := s |>). change (pool_workers p) with (pool_workers q) in E.
  worker_changes E (Got job c'). set (p' := set_worker _ _ _) in *.
  change (gots q) with (gots p) in *. change (passings q) with (passings p) in *.
  apply Permutation_app_inv_r in Hgots.
  exists received. split; try done.
  - change (unsent p') with (unsent p). change (ended p') with (ended p). by rewrite Hgots.
  - by rewrite Hpass.
  - change (unsent p') with (unsent p). change (leftToProcess p') with (leftToProcess p).
    rewrite Hl. unfold len. lia.
  - intros Hin. apply gone_set in Hin; [| done]. by apply Hg.
Qed.

(** A job that ends, with an error or not. *)
Lemma pool_job_ok p i job c r :
  pool_ok p -> pool_workers p !! i = Some (Got job c) ->
  pool_ok (set_worker i (Passing r) (p <| ended := ended p ++ [(job, r)] |>)).
Proof.
  intros (received & [Hj He Hf Hl Hs Hqu Hg Hret]) E.
  set (q := p <| ended := ended p ++ [(job, r)] |>).
  change (pool_workers p) with (pool_workers q) in E. worker_changes E (@Passing A r).
  set (p' := set_worker _ _ _) in *.
  change (gots q) with (gots p) in *. change (passings q) with (passings p) in *.
  exists received. split; try done.
  - change (unsent p') with (unsent p). change (ended p') with (ended p ++ [(job, r)]).
    rewrite <- Hj, <- Hgots, fmap_app, <- !app_assoc. cbn.
    by rewrite (Permutation_app_comm (ended p).*1).
  - change (ended p') with (ended p ++ [(job, r)]).
    rewrite Hpass, !omap_app, app_assoc, He. by destruct r.
  - change (unsent p') with (unsent p). change (leftToProcess p') with (leftToProcess p).
    rewrite Hl. unfold len. lia.
  - intros Hin. apply gone_set in Hin; [| done]. by apply Hg.
Qed.

Lemma pool_result_ok p i r :
  pool_ok p -> pool_workers p !! i = Some (Passing r) -> 0 < leftToProcess p ->
  pool_ok (set_worker i Waiting (receive_result r p)).
Proof.
  intros (received & [Hj He Hf Hl Hs Hqu Hg Hret]) E Hpos.
  set (q := receive_result r p). change (pool_workers p) with (pool_workers q) in E.
  worker_changes E (@Waiting A). set (p' := set_worker _ _ _) in *.
  change (gots q) with (gots p) in *. change (passings q) with (passings p) in *.
  exists (received ++ opt_list r). split; try done.
  - change (unsent p') with (unsent p). change (ended p') with (ended p). by rewrite Hgots.
  - change (ended p') with (ended p). rewrite <- He, <- Hpass, omap_app, <- app_assoc. f_equiv.
    rewrite Permutation_app_comm. by destruct r.
  - change (firstErr p') with (firstErr q). subst q. unfold receive_result. cbn. rewrite Hf.
    destruct received, r; done.
  - change (unsent p') with (unsent p). change (leftToProcess p') with (leftToProcess p - 1).
    rewrite Hl. unfold len. lia.
  - intros Hst. specialize (Hs Hst). lia.
  - intros Hin. apply gone_set in Hin; [| done]. by apply Hg.
Qed.

Lemma pool_gone_ok p i :
  pool_ok p -> pool_workers p !! i = Some Waiting ->
  queueing p = false \/ stopping p = true -> pool_ok (set_worker i Returned p).
Proof.
  intros (received & [Hj He Hf Hl Hs Hqu Hg Hret]) E Hgone.
  worker_changes E (@Returned A). set (p' := set_worker _ _ _) in *.
  exists received. split; try done.
  - change (unsent p') with (unsent p). change (ended p') with (ended p). by rewrite Hgots.
  - by rewrite Hpass.
  - change (unsent p') with (unsent p). change (leftToProcess p') with (leftToProcess p).
    rewrite Hl. unfold len. lia.
Qed.

(** Once the group is stopped nothing is left with the workers. *)
Lemma pool_stopped_empty received p :
  pool_inv received p -> leftToProcess p = 0 -> unsent p = [] /\ gots p = [] /\ passings p = [].
Proof.
  intros Hinv Hl. rewrite (inv_left _ _ Hinv) in Hl. unfold len in Hl.
  split_and!; apply length_zero_iff_nil; lia.
Qed.
Lemma passing_in i r p : pool_workers p !! i = Some (Passing r) -> passings p <> [].
Proof.
  intros E Hnil. apply list_elem_of_lookup_2 in E.
  assert (Hin : r ∈ passings p) by (apply list_elem_of_omap; by exists (Passing r)).
  rewrite Hnil in Hin. by apply not_elem_of_nil in Hin.
Qed.
Lemma got_in i job c p : pool_workers p !! i = Some (Got job c) -> job ∈ gots p.
Proof. intros E%list_elem_of_lookup_2. apply list_elem_of_omap. by exists (Got job c). Qed.

Lemma pool_step_ok p p' : pool_ok p -> pool_step p p' -> pool_ok p'.
Proof.
  intros Hok Hstep.
  destruct Hstep as [p i job rest _ Hq Hu E | p _ Hq Hu | p _ Hq Hs | p i job act next _ E
    | p i job err _ E | p i job e _ E | p i r _ E Hl | p i _ E Hq | p i s _ E Hs Hcase | p _ Hl Hs
    | p _ Hs Hq Hall].
  - by apply pool_send_ok.
  - destruct Hok as (received & []). exists received. split; cbn; auto.
  - destruct Hok as (received & Hinv).
    destruct (pool_stopped_empty _ _ Hinv (inv_stopping _ _ Hinv Hs)) as (Hu & _).
    destruct Hinv. exists received. split; cbn; auto.
  - by eapply pool_act_ok.
  - by eapply pool_job_ok.
  - destruct Hok as (received & []). exists received. split; cbn; auto.
  - by apply pool_result_ok.
  - apply pool_gone_ok; auto.
  - destruct Hcase as [-> | [r ->]]; [apply pool_gone_ok; auto |].
    destruct Hok as (received & Hinv).
    destruct (pool_stopped_empty _ _ Hinv (inv_stopping _ _ Hinv Hs)) as (_ & _ & Hno).
    by apply passing_in in E.
  - destruct Hok as (received & []). exists received. split; cbn; auto.
  - destruct Hok as (received & []). exists received. split; cbn; auto.
Qed.

(** ** Termination *)

Definition worker_weight (s : worker_state A) : nat :=
  match s with Waiting => 1 | Got _ _ => 4 | Passing _ => 3 | Returned => 0 end.
Definition pool_measure (p : pool A) : nat :=
  4 * length (unsent p) + sum_list_with worker_weight (pool_workers p) +
  (if queueing p then 1 else 0) + (if stopping p then 0 else 1) + (if returned p then 0 else 1) +
  (if crashed p then 0 else 1).

Lemma weight_set l i old new :
  l !! i = Some old ->
  (sum_list_with worker_weight (<[i := new]> l) + worker_weight old =
   sum_list_with worker_weight l + worker_weight new)%nat.
Proof.
  revert i. induction l as [| s l IH]; intros [| i] E; try done.
  - injection E as ->. cbn. lia.
  - specialize (IH i E). change (<[S i := new]> (s :: l)) with (s :: <[i := new]> l).
    cbn [sum_list_with]. lia.
Qed.

(** One worker at the next piece of its job. *)
Inductive next_piece : worker_state A -> worker_state A -> Prop :=
| next_piece_intro job act next s : next_piece (Got job (next s)) (Got job (Act act next)).
Inductive pieces : list (worker_state A) -> list (worker_state A) -> Prop :=
| pieces_intro l i old new : l !! i = Some old -> next_piece new old -> pieces (<[i := new]> l) l.

Lemma next_piece_wf s : Acc next_piece s.
Proof.
  destruct s as [| job c | err |].
  1, 3, 4: constructor; intros y Hy; inversion Hy.
  induction c as [err | e | act next IH]; constructor; intros y Hy; inversion Hy; subst.
  apply IH.
Qed.

Lemma pieces_wf l : Acc pieces l.
Proof.
  induction l as [| s l IH]; [constructor; intros y Hy; inversion Hy; done |].
  revert l IH. induction (next_piece_wf s) as [s _ IHs]. intros l Hl.
  induction Hl as [l Hl IHl]. constructor. intros y Hy. inversion Hy as [l0 i old new E Hn]; subst.
  destruct i as [| i].
  - injection E as ->. apply IHs; [done | by constructor].
  - change (<[S i := new]> (s :: l)) with (s :: <[i := new]> l). apply IHl.
    by econstructor.
Qed.

(** Every step but a piece of a job takes something away. *)
Lemma pool_step_decreases p p' :
  pool_step p p' ->
  (pool_measure p' < pool_measure p)%nat \/
  (pool_measure p' = pool_measure p /\ pieces (pool_workers p') (pool_workers p)).
Proof.
  intros [q i job rest [Hr Hc] Hq Hu E | q [Hr Hc] Hq Hu | q [Hr Hc] Hq Hs
    | q i job act next [Hr Hc] E | q i job err [Hr Hc] E | q i job e [Hr Hc] E
    | q i r [Hr Hc] E Hl | q i [Hr Hc] E Hq | q i s [Hr Hc] E Hs Hcase | q [Hr Hc] Hl Hs
    | q [Hr Hc] Hs Hq Hall];
    try (match type of E with _ = Some ?old =>
      match goal with |- context [set_worker i ?new _] =>
        pose proof (weight_set _ _ old new E) as Hw; cbn in Hw end end);
    try (destruct Hcase as [-> | [? ->]]; cbn in Hw).
  4: { right. split; [unfold pool_measure, set_worker, set_field; cbn; rewrite ?Hr, ?Hc; lia |].
       econstructor; [exact E | constructor]. }
  all: left; unfold pool_measure, set_worker, receive_result, set_field; cbn;
    rewrite ?Hr, ?Hc, ?Hq, ?Hs, ?Hu; cbn; lia.
Qed.

(** There is no infinite execution. *)
Lemma pool_terminates p : sn pool_step p.
Proof.
  remember (pool_measure p) as n eqn:En. revert p En.
  induction (Nat.lt_wf_0 n) as [n _ IHn]. intros p.
  remember (pool_workers p) as l eqn:El. revert p El.
  induction (pieces_wf l) as [l _ IHl]. intros p -> ->. constructor. intros p' Hs.
  destruct (pool_step_decreases p p' Hs) as [Hlt | [Heq Hp]].
  - by apply (IHn (pool_measure p')).
  - apply (IHl (pool_workers p')); [done | done | by symmetry].
Qed.

(** ** Progress *)

Lemma pool_step_workers p p' : pool_step p p' -> length (pool_workers p') = length (pool_workers p).
Proof. intros []; cbn; rewrite ?length_insert; done. Qed.

Lemma waiting_or_returned (l : list (worker_state A)) :
  (forall s, s ∈ l -> s = Waiting \/ s = Returned) ->
  (exists i, l !! i = Some Waiting) \/ Forall (eq Returned) l.
Proof.
  induction l as [| s l IH]; intros Hl; [by right; constructor |].
  destruct (Hl s) as [-> | ->]; [left | by left; exists 0%nat |].
  destruct IH as [[i Hi] | Hall]; [intros x Hx; apply Hl; by right | |].
  - left. by exists (S i).
  - right. by constructor.
Qed.

Lemma pool_progress p :
  pool_ok p -> (jobs = [] \/ pool_workers p <> []) -> running_pool p -> exists p', pool_step p p'.
Proof.
  intros (received & Hinv) Hw Hrun.
  destruct (gots p) as [| job l] eqn:Eg; cycle 1.
  { assert (Hin : job ∈ gots p) by (rewrite Eg; left).
    apply list_elem_of_omap in Hin as (s & Hs & Es). destruct s as [| job' c | |]; try done.
    apply list_elem_of_lookup in Hs as [i Hi].
    destruct c; eexists; [by eapply pool_job | by eapply pool_job_panicked | by eapply pool_act]. }
  destruct (passings p) as [| r l] eqn:Ep; cycle 1.
  { assert (Hin : r ∈ passings p) by (rewrite Ep; left).
    apply list_elem_of_omap in Hin as (s & Hs & Es). destruct s; try done. injection Es as ->.
    apply list_elem_of_lookup in Hs as [i Hi]. eexists. eapply pool_result; [done | done |].
    rewrite (inv_left _ _ Hinv), Ep. unfold len. cbn [length]. lia. }
  pose proof (inv_left _ _ Hinv) as Hl. rewrite Eg, Ep in Hl.
  (* nobody has a job or a result *)
  assert (Hidle : forall s, s ∈ pool_workers p -> s = Waiting \/ s = Returned).
  { intros [| j c | r |] Hs; [by left | | | by right].
    - apply list_elem_of_lookup in Hs as [i Hi%got_in]. rewrite Eg in Hi. by apply not_elem_of_nil in Hi.
    - apply list_elem_of_lookup in Hs as [i Hi%passing_in]. done. }
  apply waiting_or_returned in Hidle as [[i Hi] | Hall].
  - destruct (queueing p) eqn:Eq; [| eexists; by eapply pool_no_more_jobs].
    destruct (unsent p) as [| job rest] eqn:Eu; eexists; [by apply pool_close |].
    by eapply pool_send.
  - destruct (stopping p) eqn:Es; [destruct (queueing p) eqn:Eq |].
    + eexists. by apply pool_queue_stopped.
    + eexists. by apply pool_return.
    + assert (Hu : unsent p = []); [| eexists; apply pool_stop; [done | | done]; by rewrite Hl, Hu].
      destruct Hw as [Hnil | Hne].
      * apply (f_equal length) in Hnil. pose proof (Permutation_length (inv_jobs _ _ Hinv)) as Hlen.
        rewrite Hnil, length_app in Hlen. cbn in Hlen. apply length_zero_iff_nil. lia.
      * apply (inv_queueing _ _ Hinv). destruct (pool_workers p) as [| s l] eqn:El; [done |].
        assert (Hs : Returned ∈ pool_workers p) by (rewrite El; apply Forall_cons in Hall as [<- _]; left).
        destruct (inv_gone _ _ Hinv Hs) as [? | ?]; [done | congruence].
Qed.

(** ** A single worker *)

Context (process : txDebitCredits -> A -> M World txDebitCredits) (Hcut : cuts cut process).
Context (txDC0 : txDebitCredits) (w0 : World).

Lemma mfold_append {X Y} (f : Y -> X -> M World Y) l l' b w :
  mfold (l ++ l') f b w = mbind (mfold l f b) (mfold l' f) w.
Proof.
  revert b w. induction l as [| z l IH]; intros b w; cbn; [done |].
  unfold mbind. destruct (f b z w) as [[y | e | e] w1]; [| done..]. by rewrite IH.
Qed.

(** While no job has failed the shared state is that of the jobs done one after the other, but
    for the pieces that the worker has done of the present one. *)
Definition one_by_one (p : pool A) : Prop :=
  Forall (fun e => e.2 = None) (ended p) ->
  match pool_workers p with
  | [Got job c] => exists txDC w,
      run_all process (ended p).*1 txDC0 w0 = (Ok (txDC, []), w) /\
      run_code c (pool_shared p) = run_code (cut job) (txDC, w)
  | _ => run_all process (ended p).*1 txDC0 w0 = (Ok ((pool_shared p).1, []), (pool_shared p).2)
  end.

(** The only worker's steps. *)
Lemma only_worker {X} (l : list X) i old new :
  length l = 1%nat -> l !! i = Some old -> l = [old] /\ <[i := new]> l = [new].
Proof.
  destruct l as [| x [| y l]]; try done. destruct i; [| done]. by intros _ [= ->].
Qed.

Lemma one_by_one_step p p' :
  length (pool_workers p) = 1%nat -> one_by_one p -> pool_step p p' -> one_by_one p'.
Proof.
  intros Hlen Hone Hs. revert Hlen Hone.
  destruct Hs as [p i job rest _ Hq Hu E | p _ Hq Hu | p _ Hq Hs | p i job act next _ E
    | p i job err _ E | p i job e _ E | p i r _ E Hl | p i _ E Hq | p i s _ E Hs Hcase | p _ Hl Hs
    | p _ Hs Hq Hall]; intros Hlen Hone; try exact Hone;
    unfold one_by_one in *; cbn -[run_all] in *;
    match goal with |- context [<[i := ?new]> _] =>
      destruct (only_worker _ i _ new Hlen E) as [Ew Ew'] end; rewrite Ew in Hone; rewrite Ew'.
  - intros Hnone. specialize (Hone Hnone). exists (pool_shared p).1, (pool_shared p).2.
    split; [exact Hone |]. by destruct (pool_shared p).
  - intros Hnone. destruct (Hone Hnone) as (txDC & w & Hrun & Hc). exists txDC, w.
    split; [exact Hrun | exact Hc].
  - intros [Hnone Herr]%Forall_app. apply Forall_cons in Herr as [Herr _]. cbn in Herr. subst err.
    destruct (Hone Hnone) as (txDC & w & Hrun & Hc). cbn in Hc. symmetry in Hc.
    rewrite fmap_app. unfold run_all in *. rewrite mfold_append. unfold mbind at 1. rewrite Hrun.
    cbn. unfold mbind, mtry, mret. cbn. specialize (Hcut job txDC w).
    destruct (process txDC job w) as [[dc | e | e] w']; rewrite Hc in Hcut.
    + injection Hcut as Hsh. by rewrite Hsh.
    + by destruct Hcut.
    + by destruct Hcut.
  - intros Hnone. exact (Hone Hnone).
  - intros Hnone. exact (Hone Hnone).
  - intros Hnone. destruct Hcase as [-> | [err ->]]; exact (Hone Hnone).
Qed.

Lemma one_by_one_start MaxParallel :
  one_by_one (start_pool MaxParallel jobs txDC0 w0).
Proof.
  intros _. cbn -[run_all]. destruct (Z.to_nat _) as [| [| n]]; done.
Qed.
End Pool.

(** ** Orders as permutations of the positions *)

Section Reorder.
Context {X : Type}.

Definition reorder (idx : list nat) (l : list X) : list X :=
  if decide (NoDup idx /\ Forall (fun i => i < length l)%nat idx /\ length idx = length l)
  then omap (fun i => l !! i) idx else l.

Lemma map_seq (l : list X) : map (fun i => l !! i) (seq 0 (length l)) = map Some l.
Proof.
  apply list_eq. intros i. rewrite !list_lookup_fmap. destruct (decide (i < length l)%nat) as [Hi | Hi].
  - rewrite lookup_seq_lt by done. destruct (lookup_lt_is_Some_2 l i Hi) as [x Hx]. cbn. by rewrite Hx.
  - rewrite lookup_seq_ge, lookup_ge_None_2 by lia. done.
Qed.
Lemma omap_some (f : nat -> option X) idx k : map f idx = map Some k -> omap f idx = k.
Proof.
  revert k. induction idx as [| i idx IH]; intros [| x k]; cbn; [done.. |]. intros [= -> E].
  f_equal. by apply IH.
Qed.
Lemma omap_seq (l : list X) : omap (fun i => l !! i) (seq 0 (length l)) = l.
Proof. apply omap_some, map_seq. Qed.

Lemma positions_seq (idx : list nat) n :
  NoDup idx -> Forall (fun i => i < n)%nat idx -> length idx = n -> Permutation idx (seq 0 n).
Proof.
  intros Hnd Hall Hlen. apply submseteq_length_Permutation.
  - apply NoDup_submseteq; [done |]. intros i Hi. rewrite Forall_forall in Hall.
    apply elem_of_seq. specialize (Hall i Hi). lia.
  - rewrite length_seq. lia.
Qed.

Lemma reorder_perm idx l : Permutation (reorder idx l) l.
Proof.
  unfold reorder. destruct (decide _) as [(Hnd & Hall & Hlen) |]; [| done].
  etrans; [by apply omap_Permutation, positions_seq | by rewrite omap_seq].
Qed.

Lemma reorder_exists l k : Permutation k l -> exists idx, reorder idx l = k.
Proof.
  intros Hp. enough (exists idx, Permutation idx (seq 0 (length l)) /\ omap (fun i => l !! i) idx = k)
    as (idx & Hi & E).
  { exists idx. unfold reorder. rewrite decide_True; [done |]. split_and!.
    - rewrite Hi. apply NoDup_seq.
    - rewrite Hi. apply Forall_seq. lia.
    - apply Permutation_length in Hi. by rewrite length_seq in Hi. }
  apply (Permutation_map Some) in Hp. rewrite <- (map_seq l) in Hp.
  apply Permutation_map_inv in Hp as (idx & E & Hi).
  exists idx. split; [by symmetry | by apply omap_some].
Qed.
End Reorder.

(** ** The two kinds of jobs *)

Lemma run_call {X} (m : M World X) k txDC w :
  run_code (call m k) (txDC, w) =
    match m w with
    | (Ok x, w') => run_code (k x) (txDC, w')
    | (Err e, w') => (Err e, (txDC, w'))
    | (Panic e, w') => (Panic e, (txDC, w'))
    end.
Proof. unfold call. cbn. by destruct (m w) as [[x | e | e] w']. Qed.
Lemma run_touch f c txDC w : run_code (touch f c) (txDC, w) = run_code c (f txDC, w).
Proof. done. Qed.

Section Jobs.
Context `{Faults, Stake, Hashes, AddressCodec, PurchaseCodec, JsonStrings}.
Context (BlockChainName : string).

(** [ProcessVin], cut at its calls of the datastore and at its change of the amounts. *)
Definition vin_code (jsonVin : Vin) (tx : Transaction) (n : Z) : code :=
  let vin := new_input jsonVin tx n in
  call (GetInput (txn_Hash tx) (in_IsCoinbase vin) (vin_TxID jsonVin) (vin_Vout jsonVin))
    (fun foundVin =>
  let vin := match foundVin with Some f => vin <| in_ID := in_ID f |> | None => vin end in
  if in_IsCoinbase vin then call (PutInput vin) (fun _ => Done None)
  else
    match vin_ScriptSig jsonVin with
    | None => Crash (ErrRuntime "invalid memory address or nil pointer dereference")
    | Some scriptSig =>
        let vin := vin <| in_ScriptSigHex := Some (sig_Hex scriptSig) |>
                       <| in_ScriptSigAsm := Some (sig_Asm scriptSig) |> in
        call (GetOutput (default "" (in_PrevoutHash vin)) (default 0 (in_PrevoutN vin)))
          (fun srcOutput =>
        match srcOutput with
        | None => Done (Some (ErrMsg "no source output for VIN "))
        | Some srcOutput =>
            let vin := vin <| in_Value := out_Value srcOutput |> in
            call (vin_source_address BlockChainName srcOutput) (fun address =>
            match address with
            | None =>
                match no_vin_address srcOutput with
                | Ok txDC => touch (fun _ => txDC) (Done None)
                | Err e => Done (Some e)
                | Panic e => Crash e
                end
            | Some address =>
                touch (subtract (addr_Address address) (default f64_zero (out_Value srcOutput)))
                (call (PutInput (vin <| in_InputAddressID := Some (addr_ID address) |>)) (fun vin =>
                call (PutOutput (srcOutput <| out_IsSpent := true |>
                                           <| out_SpentByInputID := Some (in_ID vin) |>)
                        spent_columns) (fun _ =>
                call (GetTxAddress (txn_ID tx) (addr_ID address)) (fun txAddress =>
                match txAddress with
                | None => Done (Some (ErrMsg "Missing txAddress for Tx: "))
                | Some _ => Done None
                end))))
            end)
        end)
    end).

(** [ProcessVout], cut in the same way; the purchase of a null data output and the claim of a
    script are one piece each. *)
Definition finish_vout_code (vout : Output) (jsonVout : Vout) (tx : Transaction)
  (address : Address) (blockHeight : Z) : code :=
  touch (add (addr_Address address) (vout_Value jsonVout))
  (call (PutOutput vout infer) (fun vout =>
  call (GetTxAddress (txn_ID tx) (addr_ID address)) (fun txAddress =>
  match txAddress with
  | None => Done (Some (ErrMsg "Missing txAddress for Tx:"))
  | Some _ =>
      call (processScriptForClaim BlockChainName vout tx blockHeight) (fun claimid =>
      match claimid with
      | None => Done None
      | Some claimid =>
          call (GetClaim claimid) (fun claim =>
          let vout := match claim with
                      | Some c => vout <| out_ClaimID := Some (claim_ClaimID c) |>
                      | None => vout
                      end in
          call (PutOutput vout infer) (fun _ => Done None))
      end)
  end))).

Definition vout_code (jsonVout : Vout) (tx : Transaction) (blockHeight : Z) : code :=
  call (GetOutput (txn_Hash tx) (vout_N jsonVout)) (fun foundVout =>
  let vout := fill_output (default new_output foundVout) jsonVout tx in
  let addresses := spk_Addresses (vout_ScriptPubKey jsonVout) in
  if bool_decide (spk_Type (vout_ScriptPubKey jsonVout) = NullData) then
    call (processNullDataVout tx jsonVout blockHeight) (fun _ =>
    call (PutOutput vout infer) (fun _ => Done None))
  else
    let no_address := ErrMsg "No address in db for " in
    match addresses with
    | first :: _ =>
        call (GetAddress first) (fun address =>
        let vout := vout <| out_AddressList := Some (marshal_strings addresses) |> in
        match address with
        | Some address => finish_vout_code vout jsonVout tx address blockHeight
        | None => Done (Some no_address)
        end)
    | [] =>
        call (mlift (getFirstAddressFromVout BlockChainName jsonVout)) (fun scriptAddress =>
        if bool_decide (scriptAddress = "") then call (PutOutput vout infer) (fun _ => Done None)
        else
          call (GetAddress scriptAddress) (fun address =>
          let text := ("[" +:+ String (Ascii.ascii_of_nat 34) scriptAddress +:+
                       String (Ascii.ascii_of_nat 34) "]")%string in
          let vout := vout <| out_AddressList := Some text |> in
          match address with
          | Some address => finish_vout_code vout jsonVout tx address blockHeight
          | None => Done (Some no_address)
          end))
    end).

Lemma vin_code_cuts tx :
  cuts (fun job : Z * Vin => vin_code job.2 tx job.1)
    (fun txDC job => ProcessVin BlockChainName job.2 tx txDC job.1).
Proof.
  intros [n v] txDC w. cbn [fst snd]. unfold ProcessVin, vin_code, mbind. cbv zeta.
  rewrite run_call. destruct (GetInput _ _ _ _ w) as [[f | e | e] w1]; [| by eexists..].
  destruct (in_IsCoinbase _).
  { rewrite run_call. destruct (PutInput _ w1) as [[i | e | e] w2]; [done | by eexists..]. }
  destruct (vin_ScriptSig v) as [sig |]; [| by eexists].
  rewrite run_call. destruct (GetOutput _ _ w1) as [[[o |] | e | e] w2]; [| by eexists..].
  rewrite run_call. destruct (vin_source_address _ _ w2) as [[[a |] | e | e] w3]; [| | by eexists..].
  - rewrite run_touch, run_call. destruct (PutInput _ w3) as [[i | e | e] w4]; [| by eexists..].
    rewrite run_call. destruct (PutOutput _ _ w4) as [[o' | e | e] w5]; [| by eexists..].
    rewrite run_call. destruct (GetTxAddress _ _ w5) as [[[t |] | e | e] w6]; [done | by eexists..].
  - destruct (no_vin_address o) as [dc | e | e]; [done | by eexists..].
Qed.

Lemma finish_vout_code_runs vout v tx txDC a h w :
  match finish_vout BlockChainName vout v tx txDC a h w with
  | (Ok txDC', w') => run_code (finish_vout_code vout v tx a h) (txDC, w) = (Ok tt, (txDC', w'))
  | (Err e, w') => exists dc, run_code (finish_vout_code vout v tx a h) (txDC, w) = (Err e, (dc, w'))
  | (Panic e, w') => exists dc, run_code (finish_vout_code vout v tx a h) (txDC, w) = (Panic e, (dc, w'))
  end.
Proof.
  unfold finish_vout, finish_vout_code, mbind. cbv zeta.
  rewrite run_touch, run_call. destruct (PutOutput _ _ w) as [[o | e | e] w1]; [| by eexists..].
  rewrite run_call. destruct (GetTxAddress _ _ w1) as [[[t |] | e | e] w2]; [| by eexists..].
  rewrite run_call.
  destruct (processScriptForClaim _ _ _ _ w2) as [[[c |] | e | e] w3]; [| done | by eexists..].
  rewrite run_call. destruct (GetClaim _ w3) as [[cl | e | e] w4]; [| by eexists..].
  rewrite run_call. destruct (PutOutput _ _ w4) as [[o' | e | e] w5]; [done | by eexists..].
Qed.

Lemma vout_code_cuts tx h :
  cuts (fun v : Vout => vout_code v tx h) (fun txDC v => ProcessVout BlockChainName v tx txDC h).
Proof.
  intros v txDC w. unfold ProcessVout, vout_code, mbind. cbv zeta.
  rewrite run_call. destruct (GetOutput _ _ w) as [[f | e | e] w1]; [| by eexists..].
  destruct (bool_decide _).
  { rewrite run_call. destruct (processNullDataVout _ _ _ w1) as [[u | e | e] w2]; [| by eexists..].
    rewrite run_call. destruct (PutOutput _ _ w2) as [[o | e | e] w3]; [done | by eexists..]. }
  destruct (spk_Addresses _) as [| first rest].
  - rewrite run_call. destruct (mlift _ w1) as [[s | e | e] w2]; [| by eexists..].
    destruct (bool_decide (s = "")).
    { rewrite run_call. destruct (PutOutput _ _ w2) as [[o | e | e] w3]; [done | by eexists..]. }
    rewrite run_call. destruct (GetAddress _ w2) as [[[a |] | e | e] w3]; [| by eexists..].
    apply finish_vout_code_runs.
  - rewrite run_call. destruct (GetAddress _ w1) as [[[a |] | e | e] w2]; [| by eexists..].
    apply finish_vout_code_runs.
Qed.
End Jobs.

(** ** The property *)

(** What the executions from [p0] of a pool that starts with [n] workers are: none is infinite;
    a state without an answer has a step; no job is done twice; a success means that every job
    was done and none failed, an error is the one that some failed job answered, every job done
    all the same.  With one worker a success is the one of the sequential [spec], in some
    order, with its amounts and its database. *)
Definition pool_sound {A} (label : string) (step : relation (pool A)) (p0 : pool A)
  (jobs : list A) (spec : pool_order A -> res txDebitCredits * World) : Prop :=
  sn step p0 /\
  forall p, rtc step p0 p ->
    (ended p).*1 ⊆+ jobs /\
    match pool_answer p with
    | None => exists p', step p p'
    | Some (Ok txDC) =>
        Permutation (ended p).*1 jobs /\ Forall (fun e => e.2 = None) (ended p) /\
        txDC = (pool_shared p).1 /\
        (length (pool_workers p0) = 1%nat ->
         exists order, order_ok order /\ spec order = (Ok txDC, (pool_shared p).2))
    | Some (Err e) =>
        Permutation (ended p).*1 jobs /\
        exists job err, (job, Some err) ∈ ended p /\ e = ErrPrefix label err
    | Some (Panic e) => exists i job, pool_workers p !! i = Some (Got job (Crash e))
    end.

Lemma pool_sound_run_jobs {A} label cut process (MaxParallel : Z) (jobs : list A) txDC w :
  cuts cut process -> jobs = [] \/ 0 < MaxParallel ->
  pool_sound label (pool_step label cut) (start_pool MaxParallel jobs txDC w) jobs
    (fun order => run_jobs label order jobs process txDC w).
Proof.
  intros Hcut Hmax. set (p0 := start_pool _ _ _ _).
  set (n := Z.to_nat (Min (len jobs) MaxParallel)). split; [apply pool_terminates |].
  intros p Hp.
  assert (Hinv : pool_ok label jobs p /\ length (pool_workers p) = n /\
    (n = 1%nat -> one_by_one cut process txDC w p) /\
    (forall e, crashed p = Some e -> exists i job, pool_workers p !! i = Some (Got job (Crash e)))).
  { assert (H0 : pool_ok label jobs p0 /\ length (pool_workers p0) = n /\
      (n = 1%nat -> one_by_one cut process txDC w p0) /\
      (forall e, crashed p0 = Some e ->
         exists i job, pool_workers p0 !! i = Some (Got job (Crash e)))).
    { split_and!; [apply start_pool_ok | apply length_replicate | | done].
      intros _. apply one_by_one_start. }
    clearbody p0. induction Hp as [| p p' p'' Hs _ IH]; [done |]. apply IH.
    destruct H0 as (H1 & H2 & H3 & H4). split_and!.
    - by eapply pool_step_ok.
    - by rewrite (pool_step_workers _ _ _ _ Hs).
    - intros Hn. eapply one_by_one_step; [exact Hcut | by rewrite H2 | by apply H3 | exact Hs].
    - intros e He. destruct Hs as [? ? ? ? [_ Hc] | ? [_ Hc] | ? [_ Hc] | ? ? ? ? ? [_ Hc]
        | ? ? ? ? [_ Hc] | q i job e' [_ Hc] Hi | ? ? ? [_ Hc] | ? ? [_ Hc] | ? ? ? [_ Hc] | ? [_ Hc]
        | ? [_ Hc]]; cbn in He; try congruence. injection He as ->. by exists i, job. }
  destruct Hinv as (Hok & Hlen & Hone & Hcrash). pose proof Hok as (received & Hinv). split.
  { rewrite <- (inv_jobs _ _ _ _ Hinv). apply submseteq_inserts_l, submseteq_inserts_l. done. }
  unfold pool_answer. destruct (crashed p) as [e |] eqn:Ec; [by apply Hcrash |].
  destruct (returned p) eqn:Er; cycle 1.
  { eapply pool_progress; [exact Hok | | done]. destruct Hmax as [-> | Hpos]; [by left |].
    destruct jobs as [| j l]; [by left | right]. intros Hnil. rewrite Hnil in Hlen. subst n.
    rewrite Min_spec in Hlen. unfold len in Hlen. cbn [length] in Hlen. lia. }
  destruct (pool_stopped_empty _ _ _ _ Hinv) as (Hu & Hg & Hp').
  { by apply (inv_stopping _ _ _ _ Hinv), (inv_returned _ _ _ _ Hinv). }
  pose proof (inv_jobs _ _ _ _ Hinv) as Hperm. rewrite Hu, Hg in Hperm. cbn in Hperm.
  pose proof (inv_errs _ _ _ _ Hinv) as Herr. rewrite Hp' in Herr. cbn in Herr.
  rewrite app_nil_r in Herr. rewrite (inv_first _ _ _ _ Hinv).
  destruct received as [| e received]; cbn [head fmap option_fmap option_map].
  - assert (Hnone : Forall (fun e => e.2 = None) (ended p)).
    { apply Permutation_nil in Herr. rewrite Forall_forall. intros [job [err |]] Hin; [| done].
      exfalso. assert (Hx : err ∈ omap snd (ended p)) by (apply list_elem_of_omap; by exists (job, Some err)).
      rewrite Herr in Hx. by apply not_elem_of_nil in Hx. }
    split; [done | split; [done | split; [done |]]]. intros Hn.
    assert (Hn1 : n = 1%nat) by (rewrite <- Hn; symmetry; apply length_replicate).
    specialize (Hone Hn1 Hnone).
    assert (Hrun : run_all process (ended p).*1 txDC w = (Ok ((pool_shared p).1, []), (pool_shared p).2)).
    { destruct (pool_workers p) as [| [| job c | |] [| ? ?]] eqn:Ew; try exact Hone.
      exfalso. assert (Hin : job ∈ gots p) by (eapply (got_in 0); by rewrite Ew).
      rewrite Hg in Hin. by apply not_elem_of_nil in Hin. }
    destruct (reorder_exists jobs _ Hperm) as [idx Hidx].
    exists (mkOrder (reorder idx) (fun l => l)). split; [split; cbn; [apply reorder_perm | done] |].
    unfold run_jobs, mbind. cbn [run_order error_order]. by rewrite Hidx, Hrun.
  - split; [done |].
    assert (Hin : e ∈ omap snd (ended p)) by (rewrite <- Herr; by left).
    apply list_elem_of_omap in Hin as ([job err] & Hin & He). cbn in He. subst err.
    by exists job, e.
Qed.

Section Pools.
Context `{Faults, Stake, Hashes, AddressCodec, PurchaseCodec, JsonStrings}.
Context (BlockChainName : string) (MaxParallelVinProcessing MaxParallelVoutProcessing : Z).
Context (transaction : Transaction) (jsonTx : TxRawResult) (blockHeight : Z).

(** [initVinWorkers] with [queueVinJobs], and the steps with [vinProcessor] as the worker. *)
Definition vin_jobs : list (Z * Vin) := imap (fun i v => (Z.of_nat i, v)) (tx_Vin jsonTx).
Definition vin_pool (txDC : txDebitCredits) (w : World) : pool (Z * Vin) :=
  start_pool MaxParallelVinProcessing vin_jobs txDC w.
Definition vin_pool_step (cut : Z * Vin -> code) : relation (pool (Z * Vin)) :=
  pool_step "Vin Error->" cut.
Definition vout_pool (txDC : txDebitCredits) (w : World) : pool Vout :=
  start_pool MaxParallelVoutProcessing (tx_Vout jsonTx) txDC w.
Definition vout_pool_step (cut : Vout -> code) : relation (pool Vout) :=
  pool_step "Vout Error->" cut.

(** C12: the pools of workers process the inputs and the outputs.  However [ProcessVin] and
    [ProcessVout] are cut into atomic pieces (for instance at their calls of the datastore), and
    in every interleaving of the pieces of the jobs, the queueing goroutine, the workers and the
    caller, when there is at least one worker: no execution is infinite and no state is stuck
    before the caller has its answer or the process has crashed in a job; no job is done twice;
    a success means that every job was done and none failed; an error is the one of a failed
    job, and every job was done all the same.  With a single worker, or a single job, a success
    is the one of the sequential processing in some order, with its amounts and its
    database. *)
Theorem worker_pools_implement cut_vin cut_vout txDC w :
  cuts cut_vin (fun txDC job => ProcessVin BlockChainName job.2 transaction txDC job.1) ->
  cuts cut_vout (fun txDC v => ProcessVout BlockChainName v transaction txDC blockHeight) ->
  0 < MaxParallelVinProcessing -> 0 < MaxParallelVoutProcessing ->
  pool_sound "Vin Error->" (vin_pool_step cut_vin) (vin_pool txDC w) vin_jobs
    (fun order => saveUpdateInputs BlockChainName order transaction jsonTx txDC w) /\
  pool_sound "Vout Error->" (vout_pool_step cut_vout) (vout_pool txDC w) (tx_Vout jsonTx)
    (fun order => saveUpdateOutputs BlockChainName order transaction jsonTx txDC blockHeight w).
Proof.
  intros Hvin Hvout Hn Hm. split; apply pool_sound_run_jobs; auto.
Qed.
End Pools.

(** Without a worker the caller waits for ever. *)
Lemma no_worker_no_answer {A} label cut (job : A) rest txDC w :
  forall p, ~ pool_step label cut (start_pool 0 (job :: rest) txDC w) p.
Proof.
  set (p0 := start_pool 0 (job :: rest) txDC w).
  assert (Hw : forall i, pool_workers p0 !! i = None) by done.
  intros p Hs. inversion Hs; try (by rewrite Hw in *); try done.
Qed.

(** ** A worked example: the coinbase of [aa] *)

Import Demo.

Module PoolExamples.
(** A pool of one worker with one job. *)
Lemma one_job_pieces {A} label (cut : A -> code) u q job c l f s s' e :
  run_code c s = (Ok tt, s') ->
  rtc (pool_step label cut) (mkPool u q [Got job c] l f false false None s e)
    (mkPool u q [Got job (Done None)] l f false false None s' e).
Proof.
  revert s. induction c as [[err |] | err | act next IH]; intros s E; cbn in E; try done.
  - by injection E as ->.
  - eapply rtc_l; [by apply (pool_act _ _ _ 0 job act next) |]. by apply IH.
Qed.
Lemma one_job_run {A} label (cut : A -> code) (job : A) txDC w s' :
  run_code (cut job) (txDC, w) = (Ok tt, s') ->
  rtc (pool_step label cut) (start_pool 1 [job] txDC w)
    (mkPool [] false [Returned] 0 None true true None s' [(job, None)]).
Proof.
  intros E.
  eapply rtc_l; [by apply (pool_send _ _ _ 0 job []) |].
  etrans; [by apply one_job_pieces |].
  eapply rtc_l; [by apply (pool_job _ _ _ 0 job None) |].
  eapply rtc_l; [by apply (pool_result _ _ _ 0 None) |].
  eapply rtc_l; [by apply pool_stop |].
  eapply rtc_l; [by apply pool_close |].
  eapply rtc_l; [by apply (pool_no_more_jobs _ _ _ 0) |].
  eapply rtc_l; [by apply pool_return; repeat constructor |].
  reflexivity.
Qed.

Definition aa_row : Transaction := mkTransaction 1 (Some "b1") 1 1 None 100 "aa" 1 0 50 f64_zero.
Definition aa_world : World :=
  mkWorld (db demo_world1 <| t_transactions := mkTable [aa_row] 2 |>) 0.
Definition aa_cut (job : Z * Vin) : code := vin_code chain job.2 aa_row job.1.
Definition aa_after : World := (run_code (aa_cut (0, coinbase)) (∅, aa_world)).2.2.
End PoolExamples.
Import PoolExamples.

Lemma worker_pools_implement_witness :
  length (rows (t_inputs (db aa_after))) = 1%nat /\
  exists order, order_ok order /\
    saveUpdateInputs chain order aa_row tx_aa ∅ aa_world = (Ok ∅, aa_after).
Proof.
  split; [vm_compute; reflexivity |].
  destruct (worker_pools_implement chain 1 1 aa_row tx_aa 1 aa_cut
    (fun v => vout_code chain v aa_row 1) ∅ aa_world) as [[_ Hrun] _].
  - exact (vin_code_cuts chain aa_row).
  - exact (vout_code_cuts chain aa_row 1).
  - reflexivity.
  - reflexivity.
  - assert (E : run_code (aa_cut (0, coinbase)) (∅, aa_world) = (Ok tt, (∅, aa_after)))
      by (vm_compute; reflexivity).
    destruct (Hrun _ (one_job_run "Vin Error->" aa_cut _ _ _ _ E)) as (_ & _ & _ & _ & Hone).
    exact (Hone eq_refl).
Defined.
