(* ===== verification/BlockProcessing.v ===== *)
(** * Blocks ([daemon/processing/block.go])

    A block is saved as [processing], linked to its predecessor, its transactions are
    synchronised, and it is marked [complete]; a failure deletes it again.  Before that, stored
    blocks that are no longer on the node's chain are deleted, newest first.  At start-up an
    unfinished head is deleted.

    The transactions' synchronisation is an interface ([TxSync]): [BlockSync] implements it.
    [BlockLock] excludes the mempool job, and the code between its acquisition and release runs
    here without interruption.  Logging, metrics and socket notifications are left out. *)
From stdpp Require Import pretty.
From S2P Require Import Prelude Bytes Lbrycrd Rows Store Datastore StoreFacts BlockSync.

Definition BlockProcessingStateComplete : string := "complete".
Definition BlockProcessingStateProcessing : string := "processing".
Definition BlockProcessingStateIncomplete : string := "incomplete".
Definition MempoolBlockHash : string := "MEMPOOL".
Definition LegacyBlockBackfillBatchSize : Z := 100.
Definition blockDeleteRetryAttempts : nat := 3.

(** What block processing needs of transaction processing: [syncTransactionsOfBlock] and
    [ProcessTx]. *)
Class TxSync := {
  sync_txs : list string -> Z -> Z -> M World unit;
  process_tx : TxRawResult -> Z -> Z -> M World unit;
}.

(** The promise: whatever the outcome, the block table is as it was. *)
Class TxSyncLaws `{TxSync} := {
  sync_txs_blocks txs blockTime blockHeight :
    steps (on_db (same t_blocks)) (sync_txs txs blockTime blockHeight);
  process_tx_blocks tx blockTime blockHeight :
    steps (on_db (same t_blocks)) (process_tx tx blockTime blockHeight);
}.

Section Blocks.
Context `{Faults, Node, TxSync}.

(** ** Saving and marking *)

Definition with_state (state : string) (block : Block) : Block :=
  block <| block_ProcessingState := Some state |>.

Definition markBlockProcessingState (block : Block) (state : string) : M World unit :=
  update_colsG (with_state state) block.

Definition deleteBlockWithRetry (block : Block) : M World unit :=
  (fix attempts (n : nat) : M World unit :=
     match n with
     | O => mret tt
     | S n' =>
         let* r := mtry (deleteG_block block) in
         match r, n' with
         | inl _, _ => mret tt
         | inr e, O => mfail e
         | inr _, _ => attempts n'
         end
     end) blockDeleteRetryAttempts.

Definition empty_block : Block :=
  mkBlock 0 "" "" 0 f64_zero "" 0 "" "" 0 None None 0 0 0 "" 0 None.

Definition fill_block (blockHeight : Z) (jsonBlock : GetBlockResponse) (block : Block) : Block :=
  block <| block_Bits := blk_Bits jsonBlock |>
    <| block_Chainwork := blk_ChainWork jsonBlock |>
    <| block_Confirmations := u64 (blk_Confirmations jsonBlock) |>
    <| block_Difficulty := blk_Difficulty jsonBlock |>
    <| block_Hash := blk_Hash jsonBlock |>
    <| block_Height := blockHeight |>
    <| block_MerkleRoot := blk_MerkleRoot jsonBlock |>
    <| block_NameClaimRoot := blk_NameClaimRoot jsonBlock |>
    <| block_Nonce := blk_Nonce jsonBlock |>
    <| block_PreviousBlockHash := Some (blk_PreviousBlockHash jsonBlock) |>
    <| block_NextBlockHash :=
         if bool_decide (blk_NextBlockHash jsonBlock = "") then None
         else Some (blk_NextBlockHash jsonBlock) |>
    <| block_BlockSize := u64 (blk_Size jsonBlock) |>
    <| block_BlockTime := u64 (blk_Time jsonBlock) |>
    <| block_Version := u64 (blk_Version jsonBlock) |>
    <| block_VersionHex := blk_VersionHex jsonBlock |>
    <| block_TXCount := blk_NTx jsonBlock |>
    <| block_ProcessingState := Some BlockProcessingStateProcessing |>.

Definition parseBlockInfo (blockHeight : Z) (jsonBlock : GetBlockResponse) : M World Block :=
  let* foundBlock :=
    get_or_nil (oneG (fun b => bool_decide (block_Hash b = blk_Hash jsonBlock))) in
  let block := fill_block blockHeight jsonBlock (default empty_block foundBlock) in
  match foundBlock with
  | Some _ => let* _ := updateG block in mret block
  | None => insertG block
  end.

Definition setPreviousBlockInfo (currentHeight : Z) (currentBlockHash : string)
  : M World unit :=
  if currentHeight <? 1 then mret tt
  else
    let* prevBlock := oneG (fun b => block_Height b =? currentHeight - 1) in
    updateG (prevBlock <| block_NextBlockHash := Some currentBlockHash |>).

(** The block, when it was saved, and the error. *)
Definition ProcessBlock (height : Z) (jsonBlock : GetBlockResponse)
  : M World (option Block * option error) :=
  let* parsed := mtry (parseBlockInfo height jsonBlock) in
  match parsed with
  | inr e => mret (None, Some e)
  | inl block =>
      let* r := mtry
        (let* _ := setPreviousBlockInfo height (blk_Hash jsonBlock) in
         let* _ := sync_txs (blk_Tx jsonBlock) (block_BlockTime block) (block_Height block) in
         markBlockProcessingState block BlockProcessingStateComplete) in
      mret (Some block, match r with inl _ => None | inr e => Some e end)
  end.

Definition processGenesisBlock : M World unit :=
  let* (genesisVerbose, genesis) := ask node_genesis in
  let* block := parseBlockInfo 0 genesis in
  let* _ := mfor (blk_Tx genesisVerbose) (fun tx =>
    process_tx {| tx_Txid := tx_Txid tx; tx_Hash := tx_Hash tx; tx_Version := tx_Version tx;
                  tx_Size := tx_Size tx; tx_Vsize := tx_Vsize tx; tx_Weight := tx_Weight tx;
                  tx_LockTime := tx_LockTime tx; tx_Vin := tx_Vin tx; tx_Vout := tx_Vout tx;
                  tx_Hex := tx_Hex tx; tx_BlockHash := blk_Hash genesis;
                  tx_Confirmations := tx_Confirmations tx; tx_Time := tx_Time tx;
                  tx_Blocktime := tx_Blocktime tx |} (block_BlockTime block) 0) in
  markBlockProcessingState block BlockProcessingStateComplete.

(** ** Reorganisations *)

Definition getBlockToProcess (height : Z) : M World GetBlockResponse :=
  let* hash := prefixed ("GetBlockHash Error(" +:+ pretty height +:+ ")")
                 (ask (fun now => node_block_hash now height)) in
  prefixed ("GetBlock Error(" +:+ hash +:+ ")") (ask (fun now => node_block now hash)).

(** The query with its eager load of the block's transactions, whose hashes are only logged. *)
Definition block_at (height : Z) : M World Block :=
  let* block := oneG (fun b => block_Height b =? height) in
  let* _ := allG (fun t => bool_decide (txn_BlockHashID t = Some (block_Hash block))) in
  mret block.

(** [sql.ErrNoRows] as [None]. *)
Definition block_at_opt (p : string) (height : Z) : M World (option Block) :=
  let* r := mtry (block_at height) in
  match r with
  | inl block => mret (Some block)
  | inr e => match unwrap e with ErrNoRows => mret None | _ => mfail (ErrPrefix p e) end
  end.

Inductive reorg_result :=
| MissingBlock (prevHeight : Z)
| StoppedAt (depth : nat) (prevHeight : Z) (prevBlock : Block) (chainPrevHash : string).

Definition maxReorgDepth : nat := 100.

(** The loop of [checkHandleReorg]; [depth] is what is left of the 100 rounds. *)
Fixpoint reorg_loop (left : nat) (prevHeight : Z) (prevBlock : Block) (chainPrevHash : string)
  : M World reorg_result :=
  let stop := mret (StoppedAt (maxReorgDepth - left) prevHeight prevBlock chainPrevHash) in
  if bool_decide (block_Hash prevBlock = chainPrevHash) then stop
  else
    match left with
    | O => stop
    | S left' =>
        if prevHeight <=? 0 then stop
        else
          let* _ := prefixed ("error deleting block@" +:+ pretty prevHeight)
                      (deleteG_block prevBlock) in
          let* jsonBlock :=
            prefixed ("error getting block@" +:+ pretty prevHeight +:+ " from lbrycrd")
              (getBlockToProcess prevHeight) in
          let prevHeight := prevHeight - 1 in
          let* prevBlock :=
            block_at_opt ("error getting previous block@" +:+ pretty prevHeight) prevHeight in
          match prevBlock with
          | None => mret (MissingBlock prevHeight)
          | Some prevBlock =>
              reorg_loop left' prevHeight prevBlock (blk_PreviousBlockHash jsonBlock)
          end
    end.

(** The height to continue from: [height] itself when nothing had to be done. *)
Definition checkHandleReorg (height : Z) (chainPrevHash : string) : M World Z :=
  let prevHeight := height - 1 in
  if 0 <? height then
    let* prevBlock := block_at_opt ("error getting block@" +:+ pretty prevHeight) prevHeight in
    match prevBlock with
    | None => mret prevHeight
    | Some prevBlock =>
        let* r := reorg_loop maxReorgDepth prevHeight prevBlock chainPrevHash in
        match r with
        | MissingBlock prevHeight => mret prevHeight
        | StoppedAt depth prevHeight prevBlock chainPrevHash =>
            if negb (bool_decide (block_Hash prevBlock = chainPrevHash)) then
              mfail (ErrMsg ("reorg search exceeded limit at height " +:+ pretty height))
            else mret (if (0 <? depth)%nat then prevHeight else height)
        end
    end
  else mret height.

(** ** One block *)

(** [logrus.Fatal] ends the process. *)
Definition RunBlockProcessing (height : Z) : M World Z :=
  if height =? 0 then
    let* r := mtry processGenesisBlock in
    match r with
    | inl _ => mret height
    | inr e => mpanic (ErrPrefix "Error processing Genesis block!" e)
    end
  else
    let* jsonBlock := mtry (getBlockToProcess height) in
    match jsonBlock with
    | inr _ => mret (height - 1)
    | inl jsonBlock =>
        let* reorgHeight := mtry (checkHandleReorg height (blk_PreviousBlockHash jsonBlock)) in
        match reorgHeight with
        | inr _ => mret (height - 1)
        | inl reorgHeight =>
            if negb (reorgHeight =? height) then mret reorgHeight
            else
              let* (block, err) := ProcessBlock height jsonBlock in
              match err with
              | None => mret height
              | Some _ =>
                  let* _ :=
                    (match block with
                     | Some block => let* _ := mtry (deleteBlockWithRetry block) in mret tt
                     | None => mret tt
                     end) in
                  mret (height - 1)
              end
        end
    end.

(** ** The head at start-up *)

(** [ORDER BY height DESC LIMIT 1], the first of the highest. *)
Definition highest_by (key : Block -> Z) (l : list Block) : option Block :=
  foldl (fun best b =>
    match best with
    | Some x => if key x <? key b then Some b else best
    | None => Some b
    end) None l.

Definition not_mempool (b : Block) : bool := negb (bool_decide (block_Hash b = MempoolBlockHash)).

Definition best_block (f : Block -> bool) (key : Block -> Z) : M World Block :=
  query (fun d => match highest_by key (List.filter f (rows (t_blocks d))) with
                  | Some b => Ok b | None => Err ErrNoRows end).

Definition chainHeadBlock : M World Block := best_block not_mempool block_Height.

Definition transactionHasExpectedChildren (transaction : Transaction) : M World bool :=
  let* inputCount := countG (fun i => bool_decide (in_TransactionHash i = txn_Hash transaction)) in
  let* outputCount :=
    countG (fun o => bool_decide (out_TransactionHash o = txn_Hash transaction)) in
  mret ((inputCount =? txn_InputCount transaction) &&
        (outputCount =? txn_OutputCount transaction)).

Fixpoint all_children (transactions : list Transaction) : M World bool :=
  match transactions with
  | [] => mret true
  | transaction :: rest =>
      let* complete := transactionHasExpectedChildren transaction in
      if (complete : bool) then all_children rest else mret false
  end.

Definition blockHasExpectedTransactions (block : Block) : M World bool :=
  let* transactions := allG (fun t => bool_decide (txn_BlockHashID t = Some (block_Hash block))) in
  if negb (len transactions =? block_TXCount block) then mret false
  else all_children transactions.

(** [head.ProcessingState.String] is empty when the column is NULL. *)
Definition state_is (state : string) (b : Block) : bool :=
  bool_decide (default "" (block_ProcessingState b) = state).

Definition cleanupIncompleteHead : M World unit :=
  let* head := one_or_none chainHeadBlock in
  match head with
  | None => mret tt
  | Some head =>
      let* complete := blockHasExpectedTransactions head in
      if negb complete || state_is BlockProcessingStateProcessing head ||
         state_is BlockProcessingStateIncomplete head then
        let head := with_state BlockProcessingStateIncomplete head in
        let* _ := markBlockProcessingState head BlockProcessingStateIncomplete in
        deleteBlockWithRetry head
      else
        match block_ProcessingState head with
        | None => markBlockProcessingState head BlockProcessingStateComplete
        | Some _ => mret tt
        end
  end.

Definition MarkIncompleteBlockHeight (height : Z) : M World unit :=
  let* block := one_or_none
    (best_block (fun b => (block_Height b =? height) && not_mempool b) block_ID) in
  match block with
  | None => mret tt
  | Some block => markBlockProcessingState block BlockProcessingStateIncomplete
  end.

(** [ORDER BY height ASC LIMIT limit] *)
Definition legacy_blocks (head : Block) (limit : Z) : M World (list Block) :=
  query (fun d => Ok (take (Z.to_nat limit)
    (sort_by (fun a b => block_Height a <=? block_Height b)
       (List.filter (fun b => bool_decide (block_ProcessingState b = None) && not_mempool b &&
                              negb (block_ID b =? block_ID head)) (rows (t_blocks d)))))).

Definition backfillLegacyBlockStates (limit : Z) : M World Z :=
  let limit := if limit <=? 0 then LegacyBlockBackfillBatchSize else limit in
  let* head := one_or_none chainHeadBlock in
  match head with
  | None => mret 0
  | Some head =>
      let* blocks := legacy_blocks head limit in
      let* _ := mfor blocks (fun block =>
        let* complete := blockHasExpectedTransactions block in
        if negb complete then
          mfail (ErrMsg ("legacy block " +:+ pretty (block_Height block) +:+
                         " failed transaction consistency validation"))
        else markBlockProcessingState block BlockProcessingStateComplete) in
      mret (len blocks)
  end.
End Blocks.
