(* ===== verification/Jobs.v ===== *)
(** * What the jobs share: the clock and the rows of [job_status]

    Each job keeps one row, by its name, with the time of its last run, whether it succeeded,
    the error it ended with and a state in JSON.  The codec is a parameter. *)
From S2P Require Import Prelude Bytes Rows Store Datastore BlockSync.

(** ** The clock *)

(** [time.Now()] at a tick, in seconds. *)
Class Clock := { clock : nat -> Z }.
Definition time_now `{Clock} : M World Z := ask (fun now => Ok (clock now)).
(** [time.Time{}], the year 1. *)
Definition zero_time : Z := -62135596800.
Definition IsZero_time (t : Z) : bool := t =? zero_time.

(** ** The row of a job *)

(** encoding/json on the state of a job. *)
Class JsonState (S : Type) := {
  marshal_state : S -> res string;
  unmarshal_state : string -> res S;
}.
Section Jobs.
Context `{Faults}.

Definition FindJobStatusG (name : string) : M World JobStatus :=
  oneG (fun j => bool_decide (status_JobName j = name)).

(** [UpsertG(Infer(), Infer())]: a new row, or all the columns of the old one. *)
Definition upsert_job (j : JobStatus) : M World unit :=
  stmt (fun d =>
    if row_exists (same_key j) d then update_rows (fun _ => j) j d
    else let? (_, d') := insert_row j d in Ok (tt, d')).

Definition saveJobError (error_text : error -> string) (jobStatus : JobStatus) (e : error) : M World unit :=
  let* _ := mtry (upsert_job (jobStatus <| status_ErrorMessage := Some (error_text e) |>
                                        <| status_IsSuccess := false |>)) in
  mret tt.

End Jobs.
