(* ===== verification/ClaimTrie.v ===== *)
(** * The claim trie: bid states, expiry and effective amounts ([daemon/jobs/claimtriesync.go])

    The job marks claims whose outputs were spent, collects the names touched since its last
    run, asks the node for the heights and amounts of their claims, and recomputes which claim
    of each name is controlling.  The producers of names run before their consumer: the channel
    between them is the list of what was sent.  Workers run their jobs in some order, each job
    at one go.  What the columns [modified_at] hold, which the database maintains as well, and
    the clock are parameters, as is the order among equal amounts. *)
From S2P Require Import Prelude Bytes Lbrycrd Rows Store Datastore BlockSync Jobs.

(** ** The environment *)

(** The [modified_at] columns at a tick: what the program wrote last, unless the database has
    set the column since, as it does when a row changes and the statement leaves it out. *)
Class Modified := {
  claim_modified : nat -> Claim -> Z;
  output_modified : nat -> Output -> Z;
  support_modified : nat -> Support -> Z;
}.

(** MySQL: the comparison of names is that of the column's collation, the order among rows with
    the same key is unspecified. *)
Class Collation := {
  same_name : string -> string -> bool;
  order_by_amount : list Claim -> list Claim;
}.
Class CollationLaws `{Collation} : Prop := {
  same_name_refl : forall n, same_name n n = true;
  order_by_amount_perm : forall l, Permutation (order_by_amount l) l;
  order_by_amount_sorted : forall l,
    StronglySorted (fun a b => claim_EffectiveAmount b <= claim_EffectiveAmount a)
      (order_by_amount l);
}.

(** The node's claim trie; an answer may come with an error. *)
Class TrieNode := {
  node_block_count : nat -> res Z;
  node_claims_for_name : nat -> string -> ClaimsForNameResult * option error;
}.

(** A select that reads the clock's columns. *)
Definition select_at `{Faults} {R} `{Row R} (f : nat -> R -> bool) : M World (list R) :=
  let* w := mget in allG (f (tick w)).

(** ** Expiry *)

Definition expirationHardForkHeight : Z := 400155.
Definition hardForkBlocksToExpiration : Z := 2102400.
Definition blocksToExpiration : Z := 262974.

(** [uint] has 64 bits. *)
Definition GetIsExpiredAtHeight (height blockHeight : Z) : bool :=
  if height =? 0 then false
  else if expirationHardForkHeight <=? height then
    u64 (height + hardForkBlocksToExpiration) <? blockHeight
  else if expirationHardForkHeight <=? u64 (height + blocksToExpiration) then
    u64 (height + hardForkBlocksToExpiration) <? blockHeight
  else u64 (height + blocksToExpiration) <? blockHeight.

Section Trie.
Context `{Faults, Clock, Modified, Collation, TrieNode}.

(** ** The status of a claim *)

(** The transaction of the last update, or the one of the claim; a NULL column matches
    nothing. *)
Definition claim_transaction (claim : Claim) : M World Transaction :=
  match claim_TransactionHashUpdate claim with
  | Some h => oneG (fun t => bool_decide (txn_Hash t = h))
  | None => oneG (fun t => bool_decide (Some (txn_Hash t) = claim_TransactionHashID claim))
  end.

Definition getClaimStatus (claim : Claim) (atHeight : Z) : M World string :=
  let* transaction := mtry (claim_transaction claim) in
  match transaction with
  | inr _ => mret "Accepted"
  | inl transaction =>
      let* output := mtry (oneG (fun o =>
        (out_TransactionID o =? txn_ID transaction) &&
        bool_decide (Some (out_Vout o) = claim_VoutUpdate claim))) in
      match output with
      | inr _ => mret "ERROR"
      | inl output =>
          let status := if out_IsSpent output then "Spent" else "Accepted" in
          let status := if GetIsExpiredAtHeight (claim_Height claim) atHeight
                        then "Expired" else status in
          mret (if bool_decide (status = "Accepted") then "Active" else status)
      end
  end.

(** ** The controlling claim of a name *)

Definition put_bid_state (claim : Claim) (status : string) : M World unit :=
  if bool_decide (claim_BidState claim = status) then mret tt
  else let* _ := PutClaim (claim <| claim_BidState := status |>) in mret tt.

(** One turn of the loop; the state is whether the controlling claim was found. *)
Definition set_bid_state (atHeight : Z) (foundControlling : bool) (claim : Claim)
  : M World bool :=
  let* active :=
    (if negb foundControlling then
       let* status := getClaimStatus claim atHeight in mret (bool_decide (status = "Active"))
     else mret false) in
  if (active : bool) then
    let* _ := put_bid_state claim "Controlling" in mret true
  else
    let* status := getClaimStatus claim atHeight in
    let* _ := put_bid_state claim status in mret foundControlling.

Definition setBidStateOfClaimsForName (name : string) (atHeight : Z) : M World unit :=
  let* claims := allG (fun c => same_name (claim_Name c) name &&
                                (claim_ValidAtHeight c <=? atHeight)) in
  let* _ := mfold (order_by_amount claims) (set_bid_state atHeight) false in
  mret tt.

(** The names without repetitions, in the order [order] the map and the workers give them; a
    worker logs its errors. *)
Definition SetControllingClaimForNames (order : list string -> list string)
  (claims : list Claim) (atHeight : Z) : M World unit :=
  mfor (order (remove_dups (map claim_Name claims))) (fun name =>
    let* _ := mtry (setBidStateOfClaimsForName name atHeight) in mret tt).

(** ** Heights and amounts from the node *)

(** The claim as its partial select fills it. *)
Definition sync_columns (new old : Claim) : Claim :=
  old <| claim_ValidAtHeight := claim_ValidAtHeight new |>
      <| claim_EffectiveAmount := claim_EffectiveAmount new |>.

(** [uint(claimJSON.ValidAtHeight)] *)
Definition synced_claim (claimJSON : TrieClaim) (claim : Claim) : Claim :=
  let claim := claim <| claim_ValidAtHeight := u64 (tc_ValidAtHeight claimJSON) |> in
  if claim_EffectiveAmount claim =? tc_EffectiveAmount claimJSON then claim
  else if negb (tc_PendingAmount claimJSON =? 0) &&
          negb (claim_EffectiveAmount claim =? tc_PendingAmount claimJSON)
  then claim <| claim_EffectiveAmount := tc_PendingAmount claimJSON |>
  else claim <| claim_EffectiveAmount := tc_EffectiveAmount claimJSON |>.

Definition has_changes (claimJSON : TrieClaim) (claim : Claim) : bool :=
  negb (claim_ValidAtHeight claim =? u64 (tc_ValidAtHeight claimJSON)) ||
  negb (claim_EffectiveAmount claim =? tc_EffectiveAmount claimJSON).

Definition syncClaim (claimJSON : TrieClaim) : M World unit :=
  let* claim := mtry (oneG (claim_is (tc_ClaimID claimJSON))) in
  match claim with
  | inr ErrNoRows => let* _ := mtry other_stmt in mret tt
  | inr _ => mret tt
  | inl claim =>
      if has_changes claimJSON claim then
        let claim := synced_claim claimJSON claim in
        let* _ := mtry (update_colsG (sync_columns claim) claim) in mret tt
      else mret tt
  end.

(** The node's answers for the names, then the queue's jobs in the order of the workers. *)
Definition SyncClaims (order : list string -> list string)
  (job_order : list TrieClaim -> list TrieClaim) (claims : list Claim) : M World unit :=
  let* jobs := mfold (order (remove_dups (map claim_Name claims))) (fun jobs name =>
    let* answer := ask (fun now => Ok (node_claims_for_name now name)) in
    mret (jobs ++ cfn_Claims (fst answer))) [] in
  mfor (job_order jobs) syncClaim.

(** ** The consumer *)

Definition BatchSize : Z := 5000.

(** The environment of a run: the orders of its maps and workers. *)
Record trie_schedule := {
  ts_names : list string -> list string;
  ts_jobs : list TrieClaim -> list TrieClaim;
}.
Context (ts : trie_schedule).

Definition process_batch (batch : list Claim) (currentHeight : Z) : M World unit :=
  let* _ := SyncClaims (ts_names ts) (ts_jobs ts) batch in
  SetControllingClaimForNames (ts_names ts) batch currentHeight.

(** [seen] is [reprocessedNamesMap]; the result counts the processed claims. *)
Fixpoint reprocess (claims : list Claim) (seen : gset string) (batch : list Claim)
  (currentHeight processed : Z) : M World Z :=
  match claims with
  | [] =>
      let* _ := process_batch batch currentHeight in mret (processed + len batch)
  | c :: claims' =>
      let batch' := if bool_decide (claim_Name c ∈ seen) then batch else batch ++ [c] in
      let seen' := {[claim_Name c]} ∪ seen in
      if BatchSize <? len batch' then
        let* _ := process_batch batch' currentHeight in
        reprocess claims' seen' [] currentHeight (processed + len batch')
      else reprocess claims' seen' batch' currentHeight processed
  end.

Definition reprocessUpdatedClaims (claims : list Claim) (currentHeight : Z) : M World Z :=
  reprocess claims ∅ [] currentHeight 0.

(** ** The producers *)

Definition pageLimit : nat := Z.to_nat 15000.

(** [for { page; if oldPrevID == prevID { break } }]: pages of rows with a larger key than the
    last row seen; what was sent and the error that ended it.  The select has no ORDER BY. *)
Fixpoint pages (fuel : nat) (f : nat -> Claim -> bool) (prevID : Z) (sent : list Claim)
  : M World (list Claim * option error) :=
  match fuel with
  | O => mret (sent, None)
  | S fuel' =>
      let* claims := mtry (select_at (fun now c => f now c && (prevID <? claim_ID c))) in
      match claims with
      | inr e => mret (sent, Some e)
      | inl claims =>
          let page := take pageLimit claims in
          match last page with
          | None => mret (sent, None)
          | Some c => pages fuel' f (claim_ID c) (sent ++ page)
          end
      end
  end.

(** Each page has a larger last key, so there are at most as many as rows, and an empty one. *)
Definition all_pages (f : nat -> Claim -> bool) : M World (list Claim * option error) :=
  let* w := mget in
  pages (S (length (rows (t_claims (db w))))) f (-1) [].

Definition getModifiedClaims (since : Z) : M World (list Claim * option error) :=
  all_pages (fun now c => IsZero_time since || (since <=? claim_modified now c)).

Definition getNewValidClaims (lastHeight : Z) : M World (list Claim * option error) :=
  all_pages (fun _ c => lastHeight <=? claim_ValidAtHeight c).

(** [l\[0:n\], l\[n:2*n\], ...] *)
Fixpoint batches {A} (fuel n : nat) (l : list A) : list (list A) :=
  match fuel, l with
  | S fuel', _ :: _ => take n l :: batches fuel' n (drop n l)
  | _, _ => []
  end.
Definition in_batches {A} (l : list A) : list (list A) := batches (length l) pageLimit l.

(** One claim per name ([SELECT DISTINCT name]) of each batch of claim ids. *)
Definition distinct_names (l : list Claim) : list Claim :=
  foldr (fun c acc => c :: List.filter (fun c' => negb (same_name (claim_Name c') (claim_Name c))) acc)
    [] l.

Definition getSupportedClaims (since : Z) : M World (list Claim * option error) :=
  let* supports := mtry (select_at (fun now s => since <=? support_modified now s)) in
  match supports with
  | inr e => mret ([], Some e)
  | inl supports =>
      mfold (in_batches (remove_dups (map support_SupportedClaimID supports))) (fun acc claimIds =>
        match acc with
        | (sent, None) =>
            let* claims := mtry (allG (fun c => bool_decide (claim_ClaimID c ∈ claimIds))) in
            match claims with
            | inl claims => mret (sent ++ distinct_names claims, None)
            | inr e => mret (sent, Some e)
            end
        | stopped => mret stopped
        end) ([], None)
  end.

(** ** Spent claims *)

Definition spent_tx (hasUpdate : bool) (c : Claim) : option string :=
  if hasUpdate then claim_TransactionHashUpdate c else claim_TransactionHashID c.

(** Claims whose transaction has one of the spent outputs, whichever output that is. *)
Definition getSpentClaimsToUpdate (hasUpdate : bool) (since lastProcessed : Z)
  : M World (list Claim * Z) :=
  let* outputs := select_at (fun now o =>
    (since <=? output_modified now o) && out_IsSpent o && (lastProcessed <? out_ID o)) in
  let outputs := take pageLimit outputs in
  match last outputs with
  | None => mret ([], lastProcessed)
  | Some o =>
      let txHashList := map out_TransactionHash outputs in
      let* claims := allG (fun c =>
        match spent_tx hasUpdate c with Some h => bool_decide (h ∈ txHashList) | None => false end) in
      mret (claims, out_ID o)
  end.

Definition spent_column (now : Z) (old : Claim) : Claim :=
  old <| claim_BidState := "Spent" |> <| claim_ModifiedAt := now |>.

(** The first pass selects neither [transaction_hash_update] nor anything but the id, the claim
    id and the transaction: the field the loop tests is always zero, so no claim is skipped. *)
Definition mark_spent (claim : Claim) : M World unit :=
  let* now := time_now in update_colsG (spent_column now) claim.
(** [UPDATE claim SET bid_state="Spent", modified_at = ? WHERE id IN (...)] *)
Definition mark_all_spent (ids : list Z) : M World unit :=
  let* now := time_now in
  stmt (fun d => Ok (tt, d <| t_claims :=
    mkTable (map (fun c => if bool_decide (claim_ID c ∈ ids) then spent_column now c else c)
               (rows (t_claims d))) (auto (t_claims d)) |>)).

Fixpoint spent_pass (fuel : nat) (hasUpdate : bool) (since lastProcessed : Z) : M World unit :=
  match fuel with
  | O => mret tt
  | S fuel' =>
      let* (claims, newLastProcessed) := getSpentClaimsToUpdate hasUpdate since lastProcessed in
      let* _ :=
        (if hasUpdate then mfor (in_batches claims) (fun b => mark_all_spent (map claim_ID b))
         else mfor claims mark_spent) in
      if lastProcessed =? newLastProcessed then mret tt
      else spent_pass fuel' hasUpdate since newLastProcessed
  end.

Definition updateSpentClaims (since : Z) : M World unit :=
  let* w := mget in
  let fuel := S (length (rows (t_outputs (db w)))) in
  let* _ := spent_pass fuel false since 0 in
  spent_pass fuel true since 0.

(** ** The job *)

Record claimTrieSyncStatus := { PreviousSyncTime : Z; LastHeight : Z }.

Context `{JsonState claimTrieSyncStatus} (error_text : error -> string).
Notation saveJobError := (saveJobError error_text).

Definition claimTrieSyncJob : string := "claimtriesyncjob".

Definition getClaimTrieSyncJobStatus : M World (JobStatus * claimTrieSyncStatus) :=
  let* jobStatus := mtry (FindJobStatusG claimTrieSyncJob) in
  let* jobStatus :=
    (match jobStatus with
     | inl j => mret j
     | inr e =>
         match unwrap e with
         | ErrNoRows =>
             let* bytes := mlift (marshal_state
               {| PreviousSyncTime := 458265600; LastHeight := 0 |}) in
             let* j := mtry (insertG (mkJobStatus claimTrieSyncJob zero_time false None (Some bytes))) in
             match j with
             | inl j => mret j
             | inr _ => mpanic (ErrMsg "Cannot Retrieve/Create JobStatus for claimtriesyncjob")
             end
         | _ => mfail e
         end
     end) in
  let* state := mlift (unmarshal_state (default "" (status_State jobStatus))) in
  mret (jobStatus, state).

(** What is sent until the first producer fails. *)
Definition produce (jobStatus : JobStatus) (height : Z) : M World (list Claim * option error) :=
  let* (modified, err) := getModifiedClaims (status_LastSync jobStatus) in
  match err with
  | Some e => mret (modified, Some e)
  | None =>
      if IsZero_time (status_LastSync jobStatus) then mret (modified, None)
      else
        let* (supported, err) := getSupportedClaims (status_LastSync jobStatus) in
        match err with
        | Some e => mret (modified ++ supported, Some e)
        | None =>
            let* (valid, err) := getNewValidClaims height in
            mret (modified ++ supported ++ valid, err)
        end
  end.

Definition finish_job (jobStatus : JobStatus) (lastSync : claimTrieSyncStatus) (started : Z)
  : M World unit :=
  match marshal_state lastSync with
  | Ok bytes =>
      let j := jobStatus <| status_LastSync := started |> <| status_IsSuccess := true |>
                         <| status_ErrorMessage := None |> <| status_State := Some bytes |> in
      let* r := mtry (updateG j) in
      match r with
      | inl _ => mret tt
      | inr e => mpanic e
      end
  | Err _ => mret tt
  | Panic e => mpanic e
  end.

(** The consumer works through everything that was sent, also when a producer fails. *)
Definition ClaimTrieSync : M World unit :=
  let* status := mtry getClaimTrieSyncJobStatus in
  match status with
  | inr _ => mret tt
  | inl (jobStatus, lastSync) =>
      let* spent := mtry (updateSpentClaims (PreviousSyncTime lastSync)) in
      match spent with
      | inr e => saveJobError jobStatus e
      | inl _ =>
          let* started := time_now in
          let* count := mtry (ask node_block_count) in
          match count with
          | inr _ => mret tt
          | inl height =>
              let lastSync := {| PreviousSyncTime := status_LastSync jobStatus;
                                 LastHeight := height |} in
              let* (claims, err) := produce jobStatus height in
              let* reprocessed := mtry (reprocessUpdatedClaims claims height) in
              match err with
              | Some e => saveJobError jobStatus e
              | None =>
                  match reprocessed with
                  | inr e => saveJobError jobStatus e
                  | inl _ => finish_job jobStatus lastSync started
                  end
              end
          end
      end
  end.
End Trie.
