(* ===== verification/ClaimTable.v ===== *)
(** * The claim table

    [claims_ok]: the constraints of the table.  Writing columns that no constraint mentions
    succeeds in a healthy database, changes the row of the key and keeps the constraints: what
    the jobs that touch up single columns do. *)
From S2P Require Import Prelude Lbrycrd Rows Store StoreFacts Keyed.

Definition claim_rows (d : DB) : list Claim := rows (t_claims d).

(** The key, unique key and foreign key constraints of the claim table. *)
Record claims_ok (d : DB) : Prop := {
  claims_keys : keys_ok (claim_rows d);
  claims_positive : forall c, c ∈ claim_rows d -> 0 < claim_ID c;
  claims_fk : forall c, c ∈ claim_rows d -> fk_ok d c = true;
  claims_unique : forall a b, a ∈ claim_rows d -> b ∈ claim_rows d -> claim_ID a <> claim_ID b ->
    clash a b = false;
}.

(** The columns that keys and constraints mention are those of [c]. *)
Definition same_ident (c c' : Claim) : Prop :=
  claim_ID c' = claim_ID c /\ claim_TransactionHashID c' = claim_TransactionHashID c /\
  claim_Vout c' = claim_Vout c /\ claim_ClaimID c' = claim_ClaimID c.

Lemma same_ident_trans a b c : same_ident a b -> same_ident b c -> same_ident a c.
Proof. intros (? & ? & ? & ?) (? & ? & ? & ?). repeat split; congruence. Qed.

Definition map_claims (f : Claim -> Claim) (d : DB) : DB :=
  d <| t_claims := mkTable (map f (claim_rows d)) (auto (t_claims d)) |>.

Lemma map_claims_ext f g d :
  (forall c, c ∈ claim_rows d -> f c = g c) -> map_claims f d = map_claims g d.
Proof.
  intros Hfg. unfold map_claims. rewrite (map_ext_in f g); [done |].
  intros c Hc%list_elem_of_In. by apply Hfg.
Qed.
Lemma map_claims_comp f g d : map_claims f (map_claims g d) = map_claims (fun c => f (g c)) d.
Proof. unfold map_claims, claim_rows. cbn. by rewrite map_map. Qed.
Lemma map_claims_id f d : (forall c, c ∈ claim_rows d -> f c = c) -> map_claims f d = d.
Proof.
  intros Hf. rewrite (map_claims_ext f (fun c => c)) by done. unfold map_claims. rewrite map_id.
  by destruct d as [? ? ? ? ? ? [] ? ? ? ? ? ?].
Qed.

Lemma claims_ok_map f d : (forall c, same_ident c (f c)) -> claims_ok d -> claims_ok (map_claims f d).
Proof.
  intros Hf [Hk Hp Hfk Hu].
  assert (Hin : forall c, c ∈ claim_rows (map_claims f d) -> exists c0, c = f c0 /\ c0 ∈ claim_rows d)
    by (intros c Hc; by apply list_elem_of_fmap in Hc).
  split.
  - unfold keys_ok. change (claim_rows (map_claims f d)) with (f <$> claim_rows d).
    rewrite <- list_fmap_compose. erewrite list_fmap_ext; [exact Hk |]. intros i c _. apply Hf.
  - intros c (c0 & -> & Hc0)%Hin. rewrite (proj1 (Hf c0)). by apply Hp.
  - intros c (c0 & -> & Hc0)%Hin. destruct (Hf c0) as (_ & Ht & _ & _).
    pose proof (Hfk c0 Hc0) as Hfk0. cbn in Hfk0 |- *. by rewrite Ht.
  - intros a b (a0 & -> & Ha)%Hin (b0 & -> & Hb)%Hin Hne.
    destruct (Hf a0) as (Hia & Hta & Hva & Hca), (Hf b0) as (Hib & Htb & Hvb & Hcb).
    rewrite Hia, Hib in Hne. pose proof (Hu a0 b0 Ha Hb Hne) as Hcl. cbn in Hcl |- *.
    by rewrite Hta, Htb, Hva, Hvb, Hca, Hcb.
Qed.

(** [model.Claim{ID: ...}] *)
Definition claim_key (id : Z) : Claim :=
  mkClaim id None 0 "" "" 0 None None None None None None "" None 0 0 0 None None None false None
    None None f64_zero None None false "" "" false false None None None None None None None None
    None None None None None None None None None None None 0 0.

(** Several writes of columns, by key, one after the other. *)
Definition apply_updates (todo : list (Z * (Claim -> Claim))) (c : Claim) : Claim :=
  fold_left (fun c u => if claim_ID c =? u.1 then u.2 c else c) todo c.

Lemma apply_updates_ident todo c :
  (forall id upd, (id, upd) ∈ todo -> forall x, same_ident x (upd x)) ->
  same_ident c (apply_updates todo c).
Proof.
  intros Hu. revert c. induction todo as [| [id upd] todo IH]; intros c; [done |]. cbn.
  eapply same_ident_trans; [| apply IH; intros id' upd' Hin; apply (Hu id'); by right].
  destruct (_ =? _); [| done]. apply (Hu id). by left.
Qed.

(** A claim that is written once, or not at all. *)
Lemma apply_updates_other todo c : claim_ID c ∉ todo.*1 -> apply_updates todo c = c.
Proof.
  revert c. induction todo as [| [id upd] todo IH]; intros c; [done |]. cbn.
  rewrite not_elem_of_cons. intros [Hne Hc]. replace (claim_ID c =? id) with false by lia. auto.
Qed.
Lemma apply_updates_one todo c id upd :
  NoDup todo.*1 -> (id, upd) ∈ todo -> claim_ID c = id -> same_ident c (upd c) ->
  apply_updates todo c = upd c.
Proof.
  induction todo as [| [id' upd'] todo IH]; [set_solver |]. cbn.
  rewrite NoDup_cons. intros [Hid Hnd] [[= -> ->] | Hin]%elem_of_cons Hc Hi.
  - replace (claim_ID c =? id') with true by lia. apply apply_updates_other.
    by rewrite (proj1 Hi), Hc.
  - apply (list_elem_of_fmap_2 fst) in Hin as Hin'. cbn in Hin'.
    replace (claim_ID c =? id') with false; [by apply IH |].
    symmetry. apply Z.eqb_neq. congruence.
Qed.

Section Claims.
Context `{Faults, !Healthy}.

Lemma oneG_healthy {R} `{Row R} (f : R -> bool) w :
  oneG f w = (match List.find f (rows (get_table (db w))) with
              | Some r => Ok r | None => Err ErrNoRows end, ticked w).
Proof.
  unfold oneG, query, stmt. rewrite (healthy (tick w)). by destruct (List.find _ _).
Qed.

Lemma update_claim upd c old w :
  claims_ok (db w) -> old ∈ claim_rows (db w) -> claim_ID c = claim_ID old ->
  (forall x, same_ident x (upd x)) ->
  update_colsG upd c w =
    (Ok tt, mkWorld (map_claims (fun x => if claim_ID x =? claim_ID c then upd x else x) (db w))
              (S (tick w))).
Proof.
  intros Hok Hold Hid Hupd. unfold update_colsG. apply stmt_healthy; [apply healthy |].
  unfold update_rows. cbn [get_table row_claim]. fold (claim_rows (db w)).
  rewrite (find_key (claim_rows (db w)) old c (claims_keys _ Hok) Hold Hid).
  destruct (Hupd old) as (Hi & Ht & Hv & Hc).
  replace (existsb _ _) with false; cycle 1.
  { symmetry. apply not_true_iff_false. rewrite existsb_exists.
    intros (x & Hx%list_elem_of_In & [Hk Hcl]%andb_true_iff).
    assert (Hcl' : clash x old = true) by (rewrite <- Hcl; cbn; by rewrite Ht, Hv, Hc).
    rewrite (claims_unique _ Hok x old) in Hcl'; [done | done | done |]. cbn in Hk. lia. }
  replace (fk_ok (db w) (upd old)) with true; cycle 1.
  { symmetry. rewrite <- (claims_fk _ Hok old Hold). cbn. by rewrite Ht. }
  replace (parent_ok (db w) old (upd old)) with true; cycle 1.
  { symmetry. cbn. by rewrite Hc, bool_decide_eq_true_2. }
  cbn [negb]. unfold map_claims. cbn [set_table]. do 3 f_equal. f_equal.
  apply map_ext_in. intros x Hx%list_elem_of_In. cbn. rewrite (Z.eqb_sym (claim_ID c)).
  destruct (Z.eqb_spec (claim_ID x) (claim_ID c)) as [Heq |]; [| done]. f_equal.
  apply (keys_ok_eq (claim_rows (db w))); [apply Hok | done | done | cbn; lia].
Qed.

(** A key that no row has. *)
Lemma update_no_claim upd c w :
  claim_ID c ∉ claim_ID <$> claim_rows (db w) -> update_colsG upd c w = (Ok tt, ticked w).
Proof.
  intros Hno. unfold update_colsG.
  rewrite (stmt_healthy _ w tt (db w)); [by destruct w | apply healthy |].
  unfold update_rows. cbn [get_table row_claim]. fold (claim_rows (db w)).
  destruct (List.find _ _) as [x |] eqn:E; [| done].
  apply find_some in E as [Hx%list_elem_of_In Hk]. destruct Hno. cbn in Hk.
  apply list_elem_of_fmap. exists x. split; [lia | done].
Qed.

(** A loop of such updates that ignores their errors. *)
Lemma update_claims_run (todo : list (Z * (Claim -> Claim))) w :
  claims_ok (db w) ->
  (forall id upd, (id, upd) ∈ todo -> forall x, same_ident x (upd x)) ->
  exists w', mfor todo (fun u => let* _ := mtry (update_colsG u.2 (claim_key u.1)) in mret tt) w
      = (Ok tt, w') /\ db w' = map_claims (apply_updates todo) (db w).
Proof.
  revert w. induction todo as [| [id upd] todo IH]; intros w Hok Hu.
  { exists w. split; [done |]. symmetry. by apply map_claims_id. }
  assert (Hupd := Hu id upd ltac:(by left)).
  assert (exists w1, update_colsG upd (claim_key id) w = (Ok tt, w1) /\
    db w1 = map_claims (fun x => if claim_ID x =? id then upd x else x) (db w)) as (w1 & E1 & Hw1).
  { destruct (decide (id ∈ claim_ID <$> claim_rows (db w))) as [Hin | Hno].
    - apply list_elem_of_fmap in Hin as (old & -> & Hold).
      eexists. split; [by apply (update_claim upd _ old) | done].
    - eexists. split; [by apply update_no_claim |]. symmetry. apply map_claims_id.
      intros c Hc. destruct (Z.eqb_spec (claim_ID c) id) as [<- |]; [| done].
      destruct Hno. by apply list_elem_of_fmap_2. }
  destruct (IH w1) as (w2 & E2 & Hw2).
  { rewrite Hw1. apply claims_ok_map; [| done]. intros c. destruct (_ =? _); [apply Hupd | done]. }
  { intros id' upd' Hin. apply (Hu id'). by right. }
  exists w2. split; [cbn [mfor]; unfold mbind, mtry; cbn [fst snd]; by rewrite E1 |].
  by rewrite Hw2, Hw1, map_claims_comp.
Qed.
End Claims.
