(* ===== verification/UpgradeManager.v ===== *)
(** * The upgrade manager ([daemon/upgrademanager/upgrade.go], [script.go])

    At start-up the scripts of all the versions above the stored one run in order and the
    stored version is raised.  A script's errors are logged, so that they are no errors of the
    upgrade; what panics ends the process.  The SQL the scripts send is written as functions of
    the database: a left join gives [None] where nothing matches.  The last of the reprocessing
    scripts runs in a goroutine of its own: starting it is the result of the upgrade.
    Progress is logged; [claim.modified_at] is one of the columns [Rows] leaves out. *)
From S2P Require Import Prelude Bytes Script Lbrycrd Rows Store Datastore StoreFacts BlockSync.
From S2P Require Import BlockProcessing Jobs ClaimTrie ClaimTable.

Definition appVersion : Z := 13.
Definition apiVersion : Z := 13.
Definition dataVersion : Z := 13.

(** A generated method with a P in its suffix, and [logrus.Panic]: an error is a panic. *)
Definition or_panic {A} (m : M World A) : M World A :=
  let* r := mtry m in
  match r with inl a => mret a | inr e => mpanic e end.

(** [LEFT JOIN]: the matching rows, or one row of NULLs. *)
Definition left_join {A} (l : list A) : list (option A) :=
  match l with [] => [None] | _ => map Some l end.

Section Upgrades.
Context `{Faults, Node, TxSync, AddressCodec}.
Context (BlockChainName : string) (block_count : nat -> res Z).

(** ** The scripts ([script.go]) *)

Definition processClaimOut (txHash : string) : M World unit :=
  let* tx := or_panic (oneG (fun t => bool_decide (txn_Hash t = txHash))) in
  let* txResult := or_panic (ask (fun now => node_transaction now (txn_Hash tx))) in
  let* block := or_panic (oneG (fun b => bool_decide (block_Hash b = tx_BlockHash txResult))) in
  let* _ := mtry (process_tx txResult (block_BlockTime block) (block_Height block)) in
  mret tt.

Definition is_claim_output (o : Output) : bool := bool_decide (out_Type o = Some NonStandard).

Definition reProcessAllClaims : M World unit :=
  let* outputs := or_panic (allG is_claim_output) in
  mfor outputs (fun output => processClaimOut (out_TransactionHash output)).

(** The outputs joined with their transactions and blocks. *)
Definition outputs_from_height (height : Z) (d : DB) : list Output :=
  flat_map (fun output =>
    flat_map (fun transaction =>
      map (fun _ => output)
        (List.filter (fun block => opt_clash (txn_BlockHashID transaction) (Some (block_Hash block)) &&
                                   (height <=? block_Height block)) (rows (t_blocks d))))
      (List.filter (fun transaction =>
         bool_decide (txn_Hash transaction = out_TransactionHash output)) (rows (t_transactions d))))
    (List.filter is_claim_output (rows (t_outputs d))).

Definition reProcessAllClaimsFromHeight (height : Z) : M World unit :=
  let* outputs := or_panic (query (fun d => Ok (outputs_from_height height d))) in
  mfor outputs (fun output => processClaimOut (out_TransactionHash output)).

(** [rows.Scan] of a NULL into a string or a number is an error. *)
Definition err_scan_null : error := ErrMsg "converting NULL is unsupported".
Fixpoint scan {A B} (f : A -> option B) (l : list (Z * A)) : res (list (Z * B)) :=
  match l with
  | [] => Ok []
  | (id, x) :: l' =>
      match f x with
      | None => Err err_scan_null
      | Some y => let? rest := scan f l' in Ok ((id, y) :: rest)
      end
  end.

(** Claims without an address with the output that holds their script. *)
Definition claims_without_address (d : DB) : list (Z * option Output) :=
  flat_map (fun c => map (pair (claim_ID c))
      (left_join (List.filter (fun o => opt_clash (Some (out_TransactionHash o)) (claim_TransactionHashID c) &&
                                        (out_Vout o =? claim_Vout c)) (rows (t_outputs d)))))
    (List.filter (fun c => bool_decide (claim_ClaimAddress c = "")) (rows (t_claims d))).

Definition script_of (o : option Output) : option string :=
  match o with Some o => out_ScriptPubKeyHex o | None => None end.

(** The public key script of a claim script: [continue] where there is none. *)
Definition claim_pkscript (scriptBytes : list byte) : res (option (list byte)) :=
  let? is_claim := IsClaimScript scriptBytes in
  if (is_claim : bool) then
    let parsed :=
      if IsClaimNameScript scriptBytes then
        let? (_, _, pks) := ParseClaimNameScript scriptBytes in Ok (Some pks)
      else if IsClaimUpdateScript scriptBytes then
        let? (_, _, _, pks) := ParseClaimUpdateScript scriptBytes in Ok (Some pks)
      else if IsClaimSupportScript scriptBytes then
        let? (_, _, _, pks) := ParseClaimSupportScript scriptBytes in Ok (Some pks)
      else Ok None in
    match parsed with Err _ => Ok None | r => r end
  else Ok None.

Definition set_address (address : string) (c : Claim) : Claim := c <| claim_ClaimAddress := address |>.

Definition setClaimAddresses : M World unit :=
  let* slice := or_panic (query (fun d => scan script_of (claims_without_address d))) in
  mfor slice (fun '(id, hex) =>
    let* scriptBytes := or_panic (mlift (hex_decode hex)) in
    let* pkscript := mlift (claim_pkscript scriptBytes) in
    match pkscript with
    | None => mret tt
    | Some pkscript =>
        let address := GetAddressFromPublicKeyScript BlockChainName pkscript in
        let* _ := mtry (update_colsG (set_address address) (claim_key id)) in mret tt
    end).

(** Claims of height 0 with the block of their transaction. *)
Definition claims_without_height (d : DB) : list (Z * option Block) :=
  flat_map (fun c => map (pair (claim_ID c))
      (flat_map (fun t : option Transaction =>
         left_join (List.filter (fun b =>
           opt_clash (Some (block_Hash b)) (match t with Some t => txn_BlockHashID t | None => None end))
           (rows (t_blocks d))))
        (left_join (List.filter (fun t => opt_clash (claim_TransactionHashID c) (Some (txn_Hash t)))
           (rows (t_transactions d))))))
    (List.filter (fun c => claim_Height c =? 0) (rows (t_claims d))).

Definition set_height (height : Z) (c : Claim) : Claim := c <| claim_Height := height |>.

Definition setBlockHeightOnAllClaims : M World unit :=
  let* slice := or_panic (query (fun d =>
    scan (option_map block_Height) (claims_without_height d))) in
  mfor slice (fun info =>
    let* _ := mtry (update_colsG (set_height info.2) (claim_key info.1)) in mret tt).

(** ** The upgrades ([upgrade.go]) *)

Definition upgradeFrom1 (version : Z) : M World unit := mwhen (version <? 2) reProcessAllClaims.
Definition upgradeFrom2 (version : Z) : M World unit := mwhen (version <? 3) reProcessAllClaims.
Definition upgradeFrom3 (version : Z) : M World unit := mwhen (version <? 4) reProcessAllClaims.
Definition upgradeFrom4 (version : Z) : M World unit := mwhen (version <? 5) setClaimAddresses.

(** [blocks.DeleteAllG()]: one statement. *)
Definition deleteAllG_blocks (blocks : list Block) : M World unit :=
  stmt (fun d => Ok (tt, foldl (fun d b => delete_block b d) d blocks)).

(** [ORDER BY height DESC] with [OneG]. *)
Definition highest_block : M World Block := best_block (fun _ => true) block_Height.

(** [if err != nil { logrus.Error(err); return }] *)
Definition or_return {A} (m : M World A) (k : A -> M World unit) : M World unit :=
  let* r := mtry m in
  match r with inl a => k a | inr _ => mret tt end.

Definition upgradeFrom5 (version : Z) : M World unit :=
  mwhen (version <? 6)
    (or_return highest_block (fun highestBlock =>
     or_return (allG (fun b => u64 (block_Height highestBlock - 50) <=? block_Height b)) (fun blocks =>
     if len blocks =? 0 then mret tt
     else or_return (deleteAllG_blocks blocks) (fun _ => mret tt)))).

Definition upgradeFrom6 (version : Z) : M World unit := mwhen (version <? 7) setBlockHeightOnAllClaims.

Definition upgradeFrom7 (version : Z) : M World unit :=
  mwhen (version <? 8)
    (or_return highest_block (fun block =>
     mwhen (block_Height block <? 400155) (reProcessAllClaimsFromHeight 400155))).

Definition upgradeFrom8 (version : Z) : M World unit := mwhen (version <? 9) reProcessAllClaims.

(** One expired claim; the errors are logged. *)
Definition reactivate (count : Z) (expiredClaim : Claim) : M World unit :=
  if GetIsExpiredAtHeight (claim_Height expiredClaim) count then mret tt
  else let* _ := mtry (updateG (expiredClaim <| claim_BidState := "Active" |>)) in mret tt.

Definition upgradeFrom9 (version : Z) : M World unit :=
  mwhen (version <? 10)
    (or_return (ask block_count) (fun count =>
     let* r := mtry (allG (fun c => bool_decide (claim_BidState c = "Expired"))) in
     mfor (match r with inl expiredClaims => expiredClaims | inr _ => [] end) (reactivate count))).

Definition upgradeFrom10 (version : Z) : M World unit := mwhen (version <? 10) reProcessAllClaims.

(** [go reProcessAllClaims()]: whether it is started. *)
Definition upgradeFrom11 (version : Z) : bool := version <? 12.

(** The state as MySQL reads the quoted text. *)
Definition startingJSON : string :=
  String.concat (String (Ascii.ascii_of_nat 34) EmptyString)
    ["{"; "JobStatus"; ": null, "; "previous_sync"; ": "; "2019-02-13T16:35:14Z"; ", ";
     "last_height"; ": 530000}"].

Definition upgradeFrom12 (version : Z) : M World unit :=
  mwhen (version <? 13)
    (let* _ := mtry (stmt (fun d => Ok (tt, d <| t_jobs :=
       mkTable (map (fun j =>
         if bool_decide (status_JobName j = "claimtriesyncjob")
         then j <| status_State := Some startingJSON |> else j) (rows (t_jobs d)))
         (auto (t_jobs d)) |>))) in mret tt).

Definition run_upgrades (version : Z) : M World bool :=
  let* _ := upgradeFrom1 version in
  let* _ := upgradeFrom2 version in
  let* _ := upgradeFrom3 version in
  let* _ := upgradeFrom4 version in
  let* _ := upgradeFrom5 version in
  let* _ := upgradeFrom6 version in
  let* _ := upgradeFrom7 version in
  let* _ := upgradeFrom8 version in
  let* _ := upgradeFrom9 version in
  let* _ := upgradeFrom10 version in
  let background := upgradeFrom11 version in
  let* _ := upgradeFrom12 version in
  mret background.

Definition status_is (id : Z) (s : ApplicationStatus) : bool := app_ID s =? id.

Definition upgraded (appStatus : ApplicationStatus) : ApplicationStatus :=
  appStatus <| app_AppVersion := appVersion |> <| app_DataVersion := dataVersion |>
            <| app_APIVersion := apiVersion |>.

Definition save_status (appStatus : ApplicationStatus) : M World unit :=
  or_panic (prefixed "App Status Error" (updateG appStatus)).

Definition RunUpgradesForVersion : M World bool :=
  let* exists_ := or_panic (existsG (status_is 1)) in
  if negb exists_ then
    let* appStatus := or_panic (prefixed "App Status Error" (insertG
      (mkApplicationStatus 0 appVersion dataVersion apiVersion))) in
    let* _ := save_status appStatus in
    mret false
  else
    let* appStatus := mtry (oneG (status_is 1)) in
    match appStatus with
    | inr _ => mret false
    | inl appStatus =>
        let* background := run_upgrades (app_AppVersion appStatus) in
        let* _ := save_status (upgraded appStatus) in
        mret background
    end.
End Upgrades.
