(* ===== verification/ClaimTrieTheorems.v ===== *)
(** * The claim trie: what the job computes

    [controlling_claim_spec]: the bid states of a name.  [expiry_spec]: when a claim expires.
    [producers_complete]: the producers send every claim they should.  [reprocess_spec]: the
    consumer works through every name once, in bounded batches. *)
From S2P Require Import Prelude Bytes Lbrycrd Rows Store Datastore StoreFacts Keyed BlockSync.
From S2P Require Import Script Claims Transactions DemoWorld Jobs ClaimTrie ClaimTable.

(** ** Expiry *)

(** Claims made at height 137181 or later have the long period of the hard fork. *)
Definition expiration_period (height : Z) : Z :=
  if height + blocksToExpiration <? expirationHardForkHeight then blocksToExpiration
  else hardForkBlocksToExpiration.

(** For the heights a chain can have (below 2^63) the expiry of a claim is one comparison: a
    claim with a height expires once the chain is past its height by the period of that height;
    a claim without a height never does; so an expired claim stays expired as the chain
    grows. *)
Theorem expiry_spec height blockHeight :
  0 <= height < 2 ^ 63 -> 0 <= blockHeight < 2 ^ 63 ->
  (GetIsExpiredAtHeight height blockHeight = true <->
     height <> 0 /\ height + expiration_period height < blockHeight) /\
  (GetIsExpiredAtHeight height blockHeight = true ->
     forall later, blockHeight <= later -> GetIsExpiredAtHeight height later = true).
Proof.
  intros Hh Hb. unfold GetIsExpiredAtHeight, expiration_period.
  unfold expirationHardForkHeight, hardForkBlocksToExpiration, blocksToExpiration.
  rewrite !u64_small by lia.
  destruct (Z.eqb_spec height 0); [split; [naive_solver | done] |].
  destruct (Z.leb_spec 400155 height), (Z.leb_spec 400155 (height + 262974)),
    (Z.ltb_spec (height + 262974) 400155); try lia; split; try lia; intros; lia.
Qed.

Lemma expiry_spec_witness :
  GetIsExpiredAtHeight 100 263075 = true /\ GetIsExpiredAtHeight 100 1000000 = true.
Proof.
  destruct (expiry_spec 100 263075) as [_ Hstays]; [lia | lia |].
  split; [reflexivity |]. apply Hstays; [reflexivity | lia].
Defined.

(** ** Pages *)

Definition by_id (a b : Claim) : Prop := claim_ID a < claim_ID b.

Lemma sorted_filter f l : StronglySorted by_id l -> StronglySorted by_id (List.filter f l).
Proof.
  induction 1 as [| c l Hl IH Hc]; cbn; [constructor |]. destruct (f c); [| done].
  constructor; [done |]. rewrite Forall_forall in *. intros x Hx. apply Hc.
  apply list_elem_of_In, filter_In in Hx as [Hx _]. by apply list_elem_of_In.
Qed.

(** The rows after the last one of a prefix are the rest. *)
Lemma filter_after l n c :
  StronglySorted by_id l -> last (take n l) = Some c ->
  List.filter (fun x => claim_ID c <? claim_ID x) l = drop n l.
Proof.
  intros Hs. revert n. induction Hs as [| x l Hl IH Hx]; intros [| n]; try done. cbn [take drop].
  rewrite Forall_forall in Hx. destruct (take n l) as [| y ys] eqn:E.
  - intros [= ->]. cbn [List.filter]. rewrite Z.ltb_irrefl.
    assert (l = [] \/ n = O) as [-> | ->] by (destruct l, n; naive_solver); [by destruct n |].
    cbn. apply filter_all. intros z Hz%Hx. unfold by_id in Hz. lia.
  - intros Hlast. change (last (x :: y :: ys)) with (last (y :: ys)) in Hlast. rewrite <- E in Hlast.
    specialize (IH n Hlast). cbn [List.filter].
    assert (Hc : c ∈ l).
    { apply last_Some_elem_of in Hlast. by eapply subseteq_take. }
    apply Hx in Hc. unfold by_id in Hc.
    replace (claim_ID c <? claim_ID x) with false by lia. exact IH.
Qed.

Section Pages.
Context `{Faults, !Healthy, Modified}.
Context (g : Claim -> bool).

Lemma select_healthy (f : nat -> Claim -> bool) w :
  mtry (select_at f) w = (Ok (inl (List.filter (f (tick w)) (rows (t_claims (db w))))), ticked w).
Proof.
  unfold mtry, select_at, mbind, mget, allG. by erewrite query_healthy; [| apply healthy | reflexivity].
Qed.

Lemma pages_spec fuel prevID sent w :
  StronglySorted by_id (rows (t_claims (db w))) ->
  let todo := List.filter (fun c => g c && (prevID <? claim_ID c)) (rows (t_claims (db w))) in
  (length todo < fuel)%nat ->
  exists w', pages fuel (fun _ => g) prevID sent w = (Ok (sent ++ todo, None), w') /\ db w' = db w.
Proof.
  revert prevID sent w. induction fuel as [| fuel IH]; intros prevID sent w Hs todo Hf; [lia |].
  cbn [pages]. unfold mbind at 1. rewrite select_healthy. fold todo.
  destruct (last (take pageLimit todo)) as [c |] eqn:Elast.
  - assert (Hafter : List.filter (fun x => g x && (claim_ID c <? claim_ID x))
      (rows (t_claims (db w))) = drop pageLimit todo).
    { rewrite <- (filter_after todo pageLimit c); [| by apply sorted_filter | done].
      unfold todo. rewrite filter_filter. apply List.filter_ext. intros x.
      assert (Hc : prevID < claim_ID c).
      { apply last_Some_elem_of, subseteq_take, list_elem_of_In, filter_In in Elast. lia. }
      destruct (g x); [cbn |done]. lia. }
    destruct (IH (claim_ID c) (sent ++ take pageLimit todo) (ticked w)) as (w' & E & Hdb).
    + done.
    + cbn [db ticked]. rewrite Hafter, length_drop.
      destruct todo; [by rewrite take_nil in Elast |]. cbn in *.
      assert (0 < pageLimit)%nat by (unfold pageLimit; lia). lia.
    + exists w'. split; [| done]. rewrite E. cbn [db ticked].
      rewrite Hafter, <- app_assoc. by rewrite take_drop.
  - exists (ticked w). split; [| done]. unfold mret. do 3 f_equal.
    assert (todo = []) as ->; [| by rewrite app_nil_r].
    apply last_None in Elast. destruct todo; [done |].
    assert (0 < pageLimit)%nat by (unfold pageLimit; lia). by destruct pageLimit; [lia |].
Qed.
End Pages.

Section Producers.
Context `{Faults, !Healthy, Modified}.
Context (steady : forall now now' c, claim_modified now c = claim_modified now' c).

(** The pages of the producers are complete.  In a database without failures, with the claims
    in the order of their keys and nothing written meanwhile, [getModifiedClaims] sends every
    claim modified since the given time (all of them at the first run) and [getNewValidClaims]
    every claim that becomes valid at the height or later, once each and in order, without an
    error, however many pages of 15000 that takes. *)
Theorem producers_complete since lastHeight w :
  StronglySorted by_id (rows (t_claims (db w))) ->
  (forall c, c ∈ rows (t_claims (db w)) -> 0 < claim_ID c) ->
  (exists w', getModifiedClaims since w =
     (Ok (List.filter (fun c => IsZero_time since || (since <=? claim_modified 0%nat c))
            (rows (t_claims (db w))), None), w') /\ db w' = db w) /\
  (exists w', getNewValidClaims lastHeight w =
     (Ok (List.filter (fun c => lastHeight <=? claim_ValidAtHeight c) (rows (t_claims (db w))), None),
      w') /\ db w' = db w).
Proof.
  intros Hs Hpos.
  assert (Hall : forall (g : Claim -> bool), exists w',
    all_pages (fun _ => g) w = (Ok (List.filter g (rows (t_claims (db w))), None), w') /\ db w' = db w).
  { intros g. unfold all_pages, mbind, mget.
    assert (Hg : List.filter (fun c => g c && (-1 <? claim_ID c)) (rows (t_claims (db w)))
      = List.filter g (rows (t_claims (db w)))).
    { apply List.filter_ext_in. intros c Hc%list_elem_of_In%Hpos. destruct (g c); lia. }
    destruct (pages_spec g (S (length (rows (t_claims (db w))))) (-1) [] w Hs) as (w' & E & Hdb).
    - pose proof (List.filter_length_le (fun c => g c && (-1 <? claim_ID c)) (rows (t_claims (db w)))).
      lia.
    - exists w'. by rewrite E, Hg. }
  split; [| apply Hall].
  destruct (Hall (fun c => IsZero_time since || (since <=? claim_modified 0%nat c))) as (w' & E & Hdb).
  exists w'. split; [| done]. rewrite <- E. unfold getModifiedClaims, all_pages, mbind, mget.
  generalize (S (length (rows (t_claims (db w))))) as fuel. generalize (-1) as prev.
  generalize (@nil Claim) as sent. clear E. generalize w as v.
  intros v sent prev fuel. revert prev sent v.
  induction fuel as [| fuel IH]; intros prev sent v; cbn [pages]; [done |].
  unfold mbind. rewrite !select_healthy.
  rewrite (List.filter_ext (fun c => (IsZero_time since || (since <=? claim_modified (tick v) c)) &&
    (prev <? claim_ID c)) (fun c => (IsZero_time since || (since <=? claim_modified 0%nat c)) &&
    (prev <? claim_ID c))) by (intros c; by rewrite (steady (tick v) 0%nat)).
  destruct (last _); [apply IH | done].
Qed.
End Producers.

(** ** The controlling claim *)

(** What [getClaimStatus] computes from the transactions and outputs. *)
Definition status_of (d : DB) (c : Claim) (atHeight : Z) : string :=
  match List.find (fun t => match claim_TransactionHashUpdate c with
                            | Some h => bool_decide (txn_Hash t = h)
                            | None => bool_decide (Some (txn_Hash t) = claim_TransactionHashID c)
                            end) (rows (t_transactions d)) with
  | None => "Accepted"
  | Some t =>
      match List.find (fun o => (out_TransactionID o =? txn_ID t) &&
                                bool_decide (Some (out_Vout o) = claim_VoutUpdate c))
              (rows (t_outputs d)) with
      | None => "ERROR"
      | Some o =>
          if GetIsExpiredAtHeight (claim_Height c) atHeight then "Expired"
          else if out_IsSpent o then "Spent" else "Active"
      end
  end.

(** The bid states [σ] gives, by key. *)
Definition with_bid (σ : gmap Z string) (c : Claim) : Claim :=
  match σ !! claim_ID c with Some s => c <| claim_BidState := s |> | None => c end.
Definition with_bids (σ : gmap Z string) (d : DB) : DB :=
  d <| t_claims := mkTable (map (with_bid σ) (claim_rows d)) (auto (t_claims d)) |>.

Section Controlling.
Context `{Faults, !Healthy, Collation, !CollationLaws}.

Lemma getClaimStatus_healthy c atHeight w :
  exists w', getClaimStatus c atHeight w = (Ok (status_of (db w) c atHeight), w') /\ db w' = db w.
Proof.
  unfold getClaimStatus, claim_transaction, status_of, mbind, mtry.
  assert (Ht : match claim_TransactionHashUpdate c with
    | Some h => oneG (fun t => bool_decide (txn_Hash t = h))
    | None => oneG (fun t => bool_decide (Some (txn_Hash t) = claim_TransactionHashID c))
    end w = oneG (fun t => match claim_TransactionHashUpdate c with
      | Some h => bool_decide (txn_Hash t = h)
      | None => bool_decide (Some (txn_Hash t) = claim_TransactionHashID c) end) w)
    by (by destruct (claim_TransactionHashUpdate c)).
  rewrite Ht, oneG_healthy. cbn [get_table row_transaction].
  destruct (List.find _ (rows (t_transactions (db w)))) as [t |]; [| by eexists].
  rewrite oneG_healthy. cbn [get_table row_output db ticked].
  destruct (List.find _ (rows (t_outputs (db w)))) as [o |]; [| by eexists].
  exists (ticked (ticked w)). split; [| done]. unfold mret.
  destruct (GetIsExpiredAtHeight _ _), (out_IsSpent o); reflexivity.
Qed.

Lemma status_with_bids σ d c h : status_of (with_bids σ d) c h = status_of d c h.
Proof. reflexivity. Qed.

Lemma with_bid_id σ c : claim_ID (with_bid σ c) = claim_ID c.
Proof. unfold with_bid. by case_match. Qed.

Lemma with_bid_insert σ i s c :
  with_bid (<[i := s]> σ) c =
    if claim_ID c =? i then c <| claim_BidState := s |> else with_bid σ c.
Proof.
  unfold with_bid. destruct (Z.eqb_spec (claim_ID c) i) as [<- |].
  - by rewrite lookup_insert_eq.
  - by rewrite lookup_insert_ne.
Qed.

(** Putting a claim whose row is there. *)
Lemma PutClaim_update r old w d' :
  0 < claim_ID r ->
  List.find (fun x => claim_ID x =? claim_ID r) (claim_rows (db w)) = Some old ->
  update_rows (fun _ => r) r (db w) = Ok (tt, d') ->
  PutClaim r w = (Ok r, mkWorld d' (S (S (tick w)))).
Proof.
  intros Hpos Hfind Hupd. pose proof (find_some _ _ Hfind) as [_ Hid].
  apply prefixed_Ok. replace (0 <? claim_ID r) with true by lia.
  assert (Hone : oneG (fun x => claim_ID x =? claim_ID r) w = (Ok old, ticked w)).
  { rewrite oneG_healthy. change (rows (get_table (db w))) with (claim_rows (db w)).
    by rewrite Hfind. }
  unfold mbind, one_or_none, mtry. unfold mbind. rewrite Hone. unfold mret.
  assert (Hr : r <| claim_ID := claim_ID old |> = r).
  { replace (claim_ID old) with (claim_ID r) by lia. by destruct r. }
  cbv zeta. rewrite Hr. unfold updateG.
  erewrite stmt_healthy; [done | apply healthy | exact Hupd].
Qed.

Section Run.
Context (d : DB) (Hok : claims_ok d).

(** Writing the bid state of a row that has not been written yet. *)
Lemma put_bid_state_run σ c s w :
  c ∈ claim_rows d -> σ !! claim_ID c = None -> db w = with_bids σ d ->
  exists w', put_bid_state c s w = (Ok tt, w') /\ db w' = with_bids (<[claim_ID c := s]> σ) d.
Proof.
  intros Hc Hσ Hdb. unfold put_bid_state.
  assert (Hins : forall x, x ∈ claim_rows d ->
    with_bid (<[claim_ID c := s]> σ) x = if claim_ID x =? claim_ID c
      then c <| claim_BidState := s |> else with_bid σ x).
  { intros x Hx. rewrite with_bid_insert. destruct (Z.eqb_spec (claim_ID x) (claim_ID c)); [| done].
    by rewrite (keys_ok_eq (claim_rows d) x c (claims_keys _ Hok)). }
  case_bool_decide as Hs.
  { exists w. split; [done |]. rewrite Hdb. unfold with_bids. do 2 f_equal.
    apply map_ext_in. intros x Hx%list_elem_of_In. rewrite Hins by done.
    destruct (Z.eqb_spec (claim_ID x) (claim_ID c)) as [Hid |]; [| done].
    rewrite (keys_ok_eq (claim_rows d) x c (claims_keys _ Hok)) by done.
    unfold with_bid. rewrite Hσ, <- Hs. by destruct c. }
  set (r := c <| claim_BidState := s |>).
  assert (Hfind : forall f : Claim -> bool, (forall x, f (with_bid σ x) = same_key c x) ->
    List.find f (rows (get_table (db w))) = Some c).
  { intros f Hf. rewrite Hdb. cbn. rewrite find_map, (find_ext _ _ _ Hf).
    rewrite (find_key (claim_rows d) c c) by (done || apply Hok). cbn.
    unfold with_bid. by rewrite Hσ. }
  exists (mkWorld (with_bids (<[claim_ID c := s]> σ) d) (S (S (tick w)))). split; [| done].
  unfold mbind. erewrite (PutClaim_update r c w); [done | exact (claims_positive d Hok c Hc) | |].
  - apply Hfind. intros x. rewrite with_bid_id. cbn. lia.
  - unfold update_rows. rewrite Hfind by (intros x; cbn; by rewrite with_bid_id).
    rewrite Hdb.
    replace (existsb _ _) with false; cycle 1.
    { symmetry. apply not_true_iff_false. rewrite existsb_exists. cbn.
      intros (y & Hy & Hk). apply in_map_iff in Hy as (x & <- & Hx%list_elem_of_In).
      apply andb_true_iff in Hk as [Hne Hcl]. rewrite with_bid_id in Hne.
      assert (Hcl' : clash x c = true) by (rewrite <- Hcl; cbn; unfold with_bid; by case_match).
      rewrite (claims_unique _ Hok x c) in Hcl'; [done | done | done | lia]. }
    replace (fk_ok (with_bids σ d) r) with true by (symmetry; by apply (claims_fk _ Hok c)).
    replace (parent_ok (with_bids σ d) c r) with true
      by (symmetry; cbn; by rewrite bool_decide_eq_true_2).
    assert (Hmap : map (fun x => if same_key r x then r else x) (map (with_bid σ) (claim_rows d))
      = map (with_bid (<[claim_ID c := s]> σ)) (claim_rows d)).
    { rewrite map_map. apply map_ext_in. intros x Hx%list_elem_of_In.
      rewrite Hins by done. cbn. by rewrite with_bid_id, Z.eqb_sym. }
    cbn [negb]. unfold with_bids. rewrite <- Hmap. reflexivity.
Qed.

Context (atHeight : Z).
Definition is_active (c : Claim) : bool := bool_decide (status_of d c atHeight = "Active").

(** The bid state of a claim, given the first active one. *)
Definition bid_of (controlling : option Claim) (c : Claim) : string :=
  match controlling with
  | Some k => if claim_ID k =? claim_ID c then "Controlling" else status_of d c atHeight
  | None => status_of d c atHeight
  end.

Lemma set_bid_state_run σ found c w :
  c ∈ claim_rows d -> σ !! claim_ID c = None -> db w = with_bids σ d ->
  exists w', set_bid_state atHeight found c w =
      (Ok (found || is_active c), w') /\
    db w' = with_bids (<[claim_ID c := if negb found && is_active c then "Controlling"
                                       else status_of d c atHeight]> σ) d.
Proof.
  intros Hc Hσ Hdb. unfold set_bid_state, is_active.
  assert (Hstat : forall v, db v = db w -> exists v', getClaimStatus c atHeight v =
    (Ok (status_of d c atHeight), v') /\ db v' = db w).
  { intros v Hv. destruct (getClaimStatus_healthy c atHeight v) as (v' & E & Hv').
    exists v'. rewrite E, Hv', Hv, Hdb. by rewrite status_with_bids. }
  assert (Hrest : forall v, db v = db w -> exists v', (let* status := getClaimStatus c atHeight in
      let* _ := put_bid_state c status in mret found) v = (Ok found, v') /\
      db v' = with_bids (<[claim_ID c := status_of d c atHeight]> σ) d).
  { intros v Hv. destruct (Hstat v Hv) as (v1 & E1 & Hv1).
    destruct (put_bid_state_run σ c (status_of d c atHeight) v1) as (v2 & E2 & Hv2); [congruence.. |].
    exists v2. unfold mbind. by rewrite E1, E2. }
  destruct found; cbn [negb andb orb].
  - destruct (Hrest w eq_refl) as (w' & E & Hw'). exists w'. split; [exact E | exact Hw'].
  - destruct (Hstat w eq_refl) as (w1 & E1 & Hw1). unfold mbind at 1 2. rewrite E1. unfold mret at 1.
    case_bool_decide as Hact.
    + destruct (put_bid_state_run σ c "Controlling" w1) as (w2 & E2 & Hw2); [congruence.. |].
      exists w2. unfold mbind. by rewrite E2.
    + destruct (Hrest w1 Hw1) as (w' & E & Hw'). exists w'. split; [exact E | exact Hw'].
Qed.

Lemma set_bid_states_run l σ found w :
  (forall c, c ∈ l -> c ∈ claim_rows d /\ σ !! claim_ID c = None) ->
  NoDup (claim_ID <$> l) -> db w = with_bids σ d ->
  exists found' w' σ', mfold l (set_bid_state atHeight) found w = (Ok found', w') /\
    db w' = with_bids σ' d /\ (forall i, i ∉ claim_ID <$> l -> σ' !! i = σ !! i) /\
    forall c, c ∈ l -> σ' !! claim_ID c =
      Some (bid_of (if found then None else List.find is_active l) c).
Proof.
  revert σ found w. induction l as [| c l IH]; intros σ found w Hl Hnd Hdb.
  { exists found, w, σ. split; [done | split; [done | split; [done | set_solver]]]. }
  rewrite fmap_cons, NoDup_cons in Hnd. destruct Hnd as [Hc Hnd].
  destruct (Hl c (list_elem_of_here _ _)) as [Hin Hσ].
  destruct (set_bid_state_run σ found c w Hin Hσ Hdb) as (w1 & E1 & Hdb1).
  set (σ1 := <[claim_ID c := _]> σ) in Hdb1.
  assert (Hl1 : forall x, x ∈ l -> x ∈ claim_rows d /\ σ1 !! claim_ID x = None).
  { intros x Hx. destruct (Hl x (list_elem_of_further _ _ _ Hx)) as [? Hx2]. split; [done |].
    unfold σ1. rewrite lookup_insert_ne; [done |].
    intros Heq. apply Hc. rewrite Heq. by apply list_elem_of_fmap_2. }
  destruct (IH σ1 (found || is_active c) w1 Hl1 Hnd Hdb1) as (f2 & w2 & σ2 & E2 & Hdb2 & Hout & Hval).
  exists f2, w2, σ2. split; [cbn; unfold mbind; by rewrite E1 |]. split; [done | split].
  - intros i Hi. rewrite fmap_cons, not_elem_of_cons in Hi. rewrite Hout by tauto.
    unfold σ1. rewrite lookup_insert_ne; [done | naive_solver].
  - intros x [-> | Hx]%elem_of_cons.
    + rewrite Hout by done. unfold σ1. rewrite lookup_insert_eq. f_equal. unfold bid_of. cbn [List.find].
      destruct found; cbn [negb andb]; [done |]. destruct (is_active c) eqn:Ec; [by rewrite Z.eqb_refl |].
      destruct (List.find is_active l) as [k |] eqn:Ek; [| done].
      apply find_some in Ek as [Hk%list_elem_of_In _].
      destruct (Z.eqb_spec (claim_ID k) (claim_ID c)) as [Heq |]; [| done].
      destruct Hc. rewrite <- Heq. by apply list_elem_of_fmap_2.
    + rewrite Hval by done. f_equal. destruct found; cbn [orb]; [done |]. cbn [List.find].
      destruct (is_active c) eqn:Ec; [| done]. unfold bid_of.
      destruct (Z.eqb_spec (claim_ID c) (claim_ID x)) as [Heq |]; [| done].
      destruct Hc. rewrite Heq. by apply list_elem_of_fmap_2.
Qed.
End Run.

(** The claims of a name that are valid at a height, by decreasing amount. *)
Definition claims_of_name (d : DB) (name : string) (atHeight : Z) : list Claim :=
  order_by_amount (List.filter (fun c => same_name (claim_Name c) name &&
                                         (claim_ValidAtHeight c <=? atHeight)) (claim_rows d)).
Definition controlling (d : DB) (name : string) (atHeight : Z) : option Claim :=
  List.find (is_active d atHeight) (claims_of_name d name atHeight).

Lemma with_bids_empty d : with_bids ∅ d = d.
Proof.
  unfold with_bids. rewrite (map_ext _ (fun c => c)), map_id; [by destruct d as [? ? ? ? ? ? [] ? ? ? ? ? ?] |].
  intros c. unfold with_bid. by rewrite lookup_empty.
Qed.

Lemma controlling_largest d name atHeight k :
  controlling d name atHeight = Some k ->
  status_of d k atHeight = "Active" /\
  forall c, c ∈ claims_of_name d name atHeight -> status_of d c atHeight = "Active" ->
    claim_EffectiveAmount c <= claim_EffectiveAmount k.
Proof.
  unfold controlling, claims_of_name.
  pose proof (order_by_amount_sorted (List.filter (fun c => same_name (claim_Name c) name &&
    (claim_ValidAtHeight c <=? atHeight)) (claim_rows d))) as Hs.
  revert Hs. generalize (order_by_amount (List.filter (fun c => same_name (claim_Name c) name &&
    (claim_ValidAtHeight c <=? atHeight)) (claim_rows d))) as l. intros l Hs.
  induction Hs as [| x l Hl IH Hx]; cbn [List.find]; [done |]. unfold is_active at 1.
  case_bool_decide as Hact.
  - intros [= <-]. split; [done |]. rewrite Forall_forall in Hx.
    intros c [-> | Hc]%elem_of_cons _; [lia | by apply Hx].
  - intros Hk. destruct (IH Hk) as [Hka Hmax]. split; [done |].
    intros c [-> | Hc]%elem_of_cons Hca; [done | by apply Hmax].
Qed.

End Controlling.

(** ** The consumer *)

(** The first claim of each name. *)
Fixpoint firsts (seen : gset string) (claims : list Claim) : list Claim :=
  match claims with
  | [] => []
  | c :: claims' =>
      if bool_decide (claim_Name c ∈ seen) then firsts ({[claim_Name c]} ∪ seen) claims'
      else c :: firsts ({[claim_Name c]} ∪ seen) claims'
  end.

Lemma firsts_new seen claims c : c ∈ firsts seen claims -> claim_Name c ∉ seen.
Proof.
  revert seen. induction claims as [| x claims IH]; intros seen; cbn; [set_solver |].
  case_bool_decide as Hx; [intros Hc%IH; set_solver |].
  intros [-> | Hc%IH]%elem_of_cons; set_solver.
Qed.
Lemma firsts_names seen claims : NoDup (claim_Name <$> firsts seen claims).
Proof.
  revert seen. induction claims as [| x claims IH]; intros seen; cbn; [constructor |].
  case_bool_decide; [apply IH |]. rewrite fmap_cons, NoDup_cons. split; [| apply IH].
  intros (c & Hn & Hc%firsts_new)%list_elem_of_fmap. set_solver.
Qed.
Lemma firsts_complete seen claims c :
  c ∈ claims -> claim_Name c ∉ seen -> claim_Name c ∈ claim_Name <$> firsts seen claims.
Proof.
  revert seen. induction claims as [| x claims IH]; intros seen; [set_solver |].
  intros Hc Hn. cbn. destruct (decide (claim_Name c = claim_Name x)) as [Heq | Hne].
  - rewrite bool_decide_false by (by rewrite <- Heq). rewrite fmap_cons, Heq. by left.
  - assert (c ∈ claims) by (apply elem_of_cons in Hc as [-> |]; done).
    specialize (IH ({[claim_Name x]} ∪ seen)). case_bool_decide; [set_solver |].
    rewrite fmap_cons. right. set_solver.
Qed.

Section Consumer.
Context `{Faults, Clock, Modified, Collation, TrieNode} (ts : trie_schedule).

(** The batches, one after the other. *)
Definition run_batches (chunks : list (list Claim)) (currentHeight : Z) : M World Z :=
  let* _ := mfor chunks (fun batch => process_batch ts batch currentHeight) in
  mret (len (concat chunks)).

Lemma reprocess_batches claims seen batch currentHeight :
  len batch <= BatchSize ->
  exists chunks, concat chunks = batch ++ firsts seen claims /\
    Forall (fun b => len b <= BatchSize + 1) chunks /\
    forall processed w, reprocess ts claims seen batch currentHeight processed w =
      (let* n := run_batches chunks currentHeight in mret (processed + n)) w.
Proof.
  revert seen batch. induction claims as [| c claims IH]; intros seen batch Hb.
  - exists [batch]. cbn. rewrite !app_nil_r. split; [done | split; [repeat constructor; lia |]].
    intros p w. unfold run_batches, mbind. cbn. unfold mbind.
    destruct (process_batch ts batch currentHeight w) as [[u | e | e] w1]; [| done..].
    unfold mret. by rewrite app_nil_r.
  - cbn [reprocess firsts]. cbv zeta.
    set (batch' := if bool_decide (claim_Name c ∈ seen) then batch else batch ++ [c]).
    assert (Happ : batch ++ (if bool_decide (claim_Name c ∈ seen)
        then firsts ({[claim_Name c]} ∪ seen) claims
        else c :: firsts ({[claim_Name c]} ∪ seen) claims)
      = batch' ++ firsts ({[claim_Name c]} ∪ seen) claims).
    { unfold batch'. case_bool_decide; [done | by rewrite <- app_assoc]. }
    assert (Hlen : len batch' <= BatchSize + 1).
    { unfold batch'. case_bool_decide; [lia |]. rewrite len_app, len_cons, len_nil. lia. }
    rewrite Happ. destruct (Z.ltb_spec BatchSize (len batch')).
    + destruct (IH ({[claim_Name c]} ∪ seen) []) as (chunks & Hc & Hf & Hrun); [by vm_compute |].
      exists (batch' :: chunks). cbn [concat]. rewrite Hc. split; [done | split; [by constructor |]].
      intros p w. unfold run_batches, mbind. cbn. unfold mbind.
      destruct (process_batch ts batch' currentHeight w) as [[u | e | e] w1]; [| done..].
      rewrite Hrun. unfold run_batches, mbind.
      destruct (mfor chunks _ w1) as [[u2 | e | e] w2]; [| done..]. unfold mret.
      rewrite len_app. do 2 f_equal. lia.
    + destruct (IH ({[claim_Name c]} ∪ seen) batch') as (chunks & Hc & Hf & Hrun); [lia |].
      exists chunks. by rewrite Hc.
Qed.

(** The consumer of the claim trie job is the same as working through bounded batches of the
    first claim of each name: every name sent is processed in exactly one batch, no batch has
    more than 5001 claims, and the count it reports is the number of names. *)
Theorem reprocess_spec claims currentHeight :
  exists chunks,
    NoDup (claim_Name <$> concat chunks) /\
    (forall c, c ∈ claims -> claim_Name c ∈ claim_Name <$> concat chunks) /\
    (forall c, c ∈ concat chunks -> c ∈ claims) /\
    Forall (fun b => len b <= BatchSize + 1) chunks /\
    forall w, reprocessUpdatedClaims ts claims currentHeight w = run_batches chunks currentHeight w.
Proof.
  destruct (reprocess_batches claims ∅ [] currentHeight) as (chunks & Hc & Hf & Hrun); [by vm_compute |].
  cbn in Hc. exists chunks. rewrite Hc. split; [apply firsts_names | split; [| split; [| split; [done |]]]].
  - intros c Hin. by apply firsts_complete; [| set_solver].
  - intros c. clear. generalize (∅ : gset string) as seen.
    induction claims as [| x claims IH]; intros seen; cbn; [done |].
    case_bool_decide; [intros Hc%IH; by right |].
    intros [-> | Hc%IH]%elem_of_cons; [by left | by right].
  - intros w. unfold reprocessUpdatedClaims. rewrite Hrun. unfold mbind.
    by destruct (run_batches chunks currentHeight w) as [[n | e | e] w1].
Qed.
End Consumer.

(** ** Worked examples *)

Module TrieExamples.
Import Demo.

#[local] Instance demo_healthy : Healthy.
Proof. intros now. reflexivity. Qed.
#[export] Instance demo_modified : Modified := {|
  claim_modified _ c := claim_ID c; output_modified _ _ := 0; support_modified _ _ := 0;
|}.
Definition larger (a b : Claim) : bool := claim_EffectiveAmount b <=? claim_EffectiveAmount a.
#[export] Instance demo_collation : Collation := {|
  same_name := String.eqb; order_by_amount := sort_by larger;
|}.
#[export] Instance demo_collation_laws : CollationLaws.
Proof.
  split.
  - apply String.eqb_refl.
  - apply sort_by_perm.
  - intros l. eapply StronglySorted_ind with (P := fun l => StronglySorted _ l);
      [constructor | | apply (sort_by_sorted larger l); unfold larger; lia].
    intros a k _ Hk Ha. constructor; [done |]. eapply Forall_impl; [exact Ha |].
    unfold larger. lia.
Qed.

(** Two claims of a name, the second with the larger amount, and a third one that is spent. *)
Definition trie_claim (id amount vout : Z) : Claim :=
  new_claim "n" (String (Ascii.ascii_of_nat (Z.to_nat (96 + id))) "") "aa" vout
    <| claim_ID := id |> <| claim_BidState := "Accepted" |>
    <| claim_EffectiveAmount := amount |> <| claim_Height := 5 |> <| claim_VoutUpdate := Some vout |>.
Definition trie_output (id vout : Z) (spent : bool) : Output :=
  new_output <| out_ID := id |> <| out_TransactionID := 1 |> <| out_TransactionHash := "aa" |>
    <| out_Vout := vout |> <| out_IsSpent := spent |>.
Definition trie_db : DB :=
  empty_db <| t_transactions := mkTable [mkTransaction 1 None 0 0 None 0 "aa" 0 0 0 f64_zero] 2 |>
    <| t_outputs := mkTable [trie_output 1 0 false; trie_output 2 1 false; trie_output 3 2 true] 4 |>
    <| t_claims := mkTable [trie_claim 1 5 0; trie_claim 2 9 1; trie_claim 3 20 2] 4 |>.

Lemma trie_ok : claims_ok trie_db.
Proof.
  split.
  - apply (bool_decide_unpack _); vm_compute; exact I.
  - apply Forall_forall, (bool_decide_unpack _); vm_compute; exact I.
  - apply Forall_forall. vm_compute. repeat constructor.
  - intros a b Ha Hb. cbn in Ha, Hb. rewrite !elem_of_cons, elem_of_nil in Ha, Hb.
    destruct Ha as [-> | [-> | [-> | []]]], Hb as [-> | [-> | [-> | []]]]; vm_compute; done.
Qed.


Lemma demo_steady now now' c : claim_modified now c = claim_modified now' c.
Proof. reflexivity. Qed.

Lemma producers_complete_witness :
  exists w', getModifiedClaims 2 (mkWorld trie_db 0) =
    (Ok ([trie_claim 2 9 1; trie_claim 3 20 2], None), w').
Proof.
  destruct (producers_complete demo_steady 2 0 (mkWorld trie_db 0)) as [(w' & E & _) _].
  - repeat constructor.
  - exact (claims_positive _ trie_ok).
  - exists w'. rewrite E.
    replace (List.filter _ _) with [trie_claim 2 9 1; trie_claim 3 20 2] by (vm_compute; reflexivity).
    reflexivity.
Defined.
End TrieExamples.
