(* ===== verification/BlockSyncProofs.v ===== *)
(** * The synchronisation of a block's transactions: refinement and order

    [sync_refines_scheduler]: what happens to the coordinator in the world is a run of the
    scheduler of [Scheduler].  [synced_block_processed_in_order]: what a successful
    synchronisation has done to the database.  [block_sync] implements the interface that
    [BlockProcessing] uses. *)
From S2P Require Import Prelude Bytes Script Lbrycrd Scheduler SchedulerGraph SchedulerProofs.
From S2P Require Import Rows Store Datastore StoreFacts Claims Transactions TransactionFacts.
From S2P Require Import BlockSync DemoWorld BlockProcessing.

Section Sync.
Context `{Faults, Stake, Hashes, AddressCodec, PurchaseCodec, JsonStrings, Node}.
Context (BlockChainName : string) (MaxParallelTxProcessing MaxFailures : Z) (sc : schedule).

#[local] Notation loop := (world_loop BlockChainName MaxFailures sc).
#[local] Notation run := (run_scheduler BlockChainName MaxParallelTxProcessing MaxFailures sc).
#[local] Notation sync :=
  (syncTransactionsOfBlock BlockChainName MaxParallelTxProcessing MaxFailures sc).

(** ** The interface *)

Lemma steps_ask {A} (R : relation DB) `{!PreOrder R} (f : nat -> res A) :
  steps (on_db R) (ask f).
Proof. intros w. unfold ask, on_db. cbn. reflexivity. Qed.
Hint Resolve steps_ask : go.

Lemma steps_world_loop t h wc cs s : steps (on_db (same t_blocks)) (loop t h wc cs s).
Proof.
  revert s. induction cs as [| c cs IH]; intros s; cbn [world_loop]; [go_steps |].
  unfold realize, run_job. go_steps.
Qed.

#[export] Instance block_sync : TxSync := {|
  sync_txs := sync;
  process_tx := ProcessTx BlockChainName (sc_vins sc) (sc_vouts sc);
|}.
#[export] Instance block_sync_laws : TxSyncLaws.
Proof.
  split; intros; cbn; [| auto with go].
  pose proof steps_world_loop.
  unfold syncTransactionsOfBlock, fetch_events, fetch_job, run_scheduler. go_steps.
Qed.

(** ** What the database has gone through *)

#[local] Notation process job :=
  (ProcessTx BlockChainName (sc_vins sc) (sc_vouts sc) (job_tx job) (job_blockTime job)
     (job_blockHeight job)).

(** The calls of [ProcessTx] the workers made, with their outcomes, lead from one world to the
    other; nothing else has happened. *)
Inductive replay : list (txToProcess * option error) -> World -> World -> Prop :=
| replay_nil w : replay [] w w
| replay_success job log w w1 w2 :
    process job w = (Ok tt, w1) -> replay log w1 w2 -> replay ((job, None) :: log) w w2
| replay_failure job e log w w1 w2 :
    process job w = (Err e, w1) -> replay log w1 w2 -> replay ((job, Some e) :: log) w w2.

(** A job reports what [ProcessTx] answered. *)
Lemma replay_job job err w w1 :
  run_job BlockChainName sc job w = (Ok err, w1) -> replay [(job, err)] w w1.
Proof.
  unfold run_job, mbind, mtry. destruct (ProcessTx _ _ _ _ _ _ w) as [[[] | e | e] w2] eqn:E;
    intros [= <- <-]; (econstructor; [exact E | constructor]).
Qed.

Lemma replay_app log1 log2 w w1 w2 :
  replay log1 w w1 -> replay log2 w1 w2 -> replay (log1 ++ log2) w w2.
Proof. induction 1; intros; [done | econstructor; eauto ..]. Qed.

(** ** Refinement *)

(** What the clean-up answers in a world. *)
Definition cleanup_answer (w : World) (ids : list string) : option error :=
  match (cleanupAbortedBlockTransactions ids w).1 with Err e => Some e | _ => None end.

(** The world a run leaves when its workers left [w]: a run that ended with a recorded error
    has been cleaned up. *)
Definition finished_world (end_ : option (res coordinator)) (w : World) : World :=
  match end_ with
  | Some (Ok s) =>
      match terminalErr s with
      | Some _ => (cleanupAbortedBlockTransactions (order (graph s)) w).2
      | None => w
      end
  | _ => w
  end.

(** Errors of a job and of a fetch are values; the job was run in the world. *)
Lemma fetch_events_no_error txIDs : never_errs (fetch_events sc txIDs).
Proof. unfold fetch_events, fetch_job. auto 8 with go. Qed.

Lemma realize_replay t h wc s c w r w1 :
  realize BlockChainName sc t h wc s c w = (r, w1) -> no_panic r ->
  exists c', r = Ok c' /\ ch_stops c' = ch_stops c /\
    let s1 := (dispatch_phase t h wc (ch_stops c) s).2 in
    replay (match ch_event c' with
            | EvResult i err _ =>
                match inflight s1 !! i with Some job => [(job, err)] | None => [] end
            | _ => []
            end) w w1.
Proof.
  unfold realize. destruct (ch_event c) as [i err0 stopped | i |] eqn:Ev;
    [| intros [= <- <-] _; exists c; rewrite Ev; split; [done | split; [done | constructor]] ..].
  destruct (inflight _ !! i) as [job |] eqn:Ej; cycle 1.
  { intros [= <- <-] _. exists c. rewrite Ev, Ej. split; [done | split; [done | constructor]]. }
  unfold mbind. destruct (run_job _ _ job w) as [[err | e | e] w2] eqn:Er.
  - intros [= <- <-] _. eexists. split; [done | split; [done |]]. cbn [ch_event]. rewrite Ej.
    by apply replay_job.
  - unfold run_job, mbind, mtry in Er. by destruct (ProcessTx _ _ _ _ _ _ w) as [[[] | ? | ?] ?].
  - intros [= <- <-] Hp. by destruct (Hp e).
Qed.

Lemma world_loop_refines t h wc cs s w r w' :
  loop t h wc cs s w = (r, w') -> no_panic r -> r <> Err no_such_choice ->
  exists cs', scheduler_loop MaxFailures t h wc cs' s = Some r /\
    replay (answered MaxFailures t h wc cs' s) w w'.
Proof.
  revert s w. induction cs as [| c cs IH]; intros s w; cbn [world_loop];
    destruct (loop_condition s) eqn:Hc; cbn [negb];
    try (by intros [= <- <-] Hp Hr; exists []; cbn; rewrite Hc; split; [| constructor]);
    try (by intros [= <- <-] Hp Hr).
  unfold mbind. destruct (realize _ _ _ _ _ _ c w) as [r1 w1] eqn:Ec. intros E Hp Hr.
  destruct (realize_replay _ _ _ _ _ _ _ _ Ec) as (c' & -> & Hst & Hrep).
  { intros e ->. injection E as <- <-. by destruct (Hp e). }
  rewrite <- Hst in Hrep. cbn zeta in Hrep.
  destruct (loop_body _ _ _ _ c' s) as [[[] | e | e] s'] eqn:Eb; cbn [mlift] in E;
    [destruct (IH _ _ E Hp Hr) as (cs' & E' & Hrep'); exists (c' :: cs')
    | injection E as <- <-; exists [c'] .. ];
    try (by destruct Hr); cbn [scheduler_loop answered]; rewrite Hc; cbn [negb]; rewrite Eb.
  - split; [exact E' | by eapply replay_app].
  - by split.
  - by split.
  - by split.
Qed.

Lemma run_scheduler_refines t h g w r w' :
  run t h g w = (r, w') -> no_panic r -> r <> Err no_such_choice ->
  exists cs w2, let wc := worker_count MaxParallelTxProcessing g in
    runBlockTxScheduler MaxParallelTxProcessing MaxFailures t h (cleanup_answer w2) cs g =
      Some r /\
    replay (answered MaxFailures t h wc cs (init_coordinator g)) w w2 /\
    w' = finished_world (scheduler_loop MaxFailures t h wc cs (init_coordinator g)) w2.
Proof.
  unfold run_scheduler, runBlockTxScheduler. destruct (Z.eqb_spec (len (order g)) 0) as [Hz | Hz].
  { intros [= <- <-]. exists [], w. split; [done |].
    assert (Hc : loop_condition (init_coordinator g) = false)
      by (unfold loop_condition; cbn; rewrite Hz; done).
    cbn. rewrite Hc. split; [constructor | done]. }
  unfold mbind at 1.
  destruct (world_loop _ _ _ _ _ _ _ _ w) as [r1 w1] eqn:El. intros E Hp Hr.
  destruct (world_loop_refines _ _ _ _ _ _ _ _ El) as (cs & Hcs & Hrep).
  { intros e ->. injection E as <- <-. by destruct (Hp e). }
  { intros ->. by injection E as <- <-. }
  exists cs, w1. rewrite Hcs. destruct r1 as [s | e | e]; cbn [finished_world rbind];
    [| by injection E as <- <- ..].
  unfold finish_block, cleanup_answer. destruct (terminalErr s) as [e |] eqn:Et;
    [| by injection E as <- <-].
  unfold mbind, mtry in E.
  destruct (cleanupAbortedBlockTransactions _ w1) as [[[] | ce | ce] w2];
    injection E as <- <-; [done | done | by destruct (Hp ce)].
Qed.

(** The graph the scheduler gets. *)
Definition prepared (txIDs : list string) (evs : list fetch_event) : option (res blockTxGraph) :=
  match fetchBlockRawTransactions txIDs evs with
  | Some f => Some (rbind f prepare_block)
  | None => None
  end.

(** C2: the synchronisation of a block in the world is a run of the abstract scheduler.
    Whatever the database, the node and the environment's choices do, if it ends without a
    panic (and the choices suffice to end it), then its outcome is that of
    [syncTransactionsDependencyAware] on the answers the node gave.  The results the scheduler
    got from its workers are real: running [ProcessTx] on the answered jobs, in the order of
    the answers and with the outcomes answered, leads from the world after the fetches to the
    world [w2] in which the loop ended, and nothing else happens in between.  The clean-up's
    answer is that of [cleanupAbortedBlockTransactions] on [w2], and the world left is [w2],
    cleaned up exactly when the run ended with a recorded error.  When no graph could be built
    nothing happens after the fetches. *)
Theorem sync_refines_scheduler txIDs t h w r w' :
  sync txIDs t h w = (r, w') -> no_panic r -> r <> Err no_such_choice ->
  exists evs w1 cs w2, fetch_events sc txIDs w = (Ok evs, w1) /\
    syncTransactionsDependencyAware MaxParallelTxProcessing MaxFailures txIDs t h
      (cleanup_answer w2) evs cs = Some r /\
    match prepared txIDs evs with
    | Some (Ok g) =>
        let wc := worker_count MaxParallelTxProcessing g in
        replay (answered MaxFailures t h wc cs (init_coordinator g)) w1 w2 /\
        w' = finished_world (scheduler_loop MaxFailures t h wc cs (init_coordinator g)) w2
    | _ => w' = w1
    end.
Proof.
  unfold syncTransactionsOfBlock, syncTransactionsDependencyAware, prepared. unfold mbind at 1.
  destruct (fetch_events sc txIDs w) as [[evs | e | e] w1] eqn:Ef; cycle 1.
  { destruct (fetch_events_no_error txIDs w e). by rewrite Ef. }
  { intros [= <- <-] Hp. by destruct (Hp e). }
  intros E Hp Hr. exists evs, w1.
  destruct (fetchBlockRawTransactions txIDs evs) as [[f | e | e] |] eqn:Eb;
    unfold mbind, mfail, mlift in E; cbn [rbind] in *;
    [| by injection E as <- <-; exists [], w1 .. ].
  destruct (prepare_block f) as [g | e | e] eqn:Eg;
    [| by injection E as <- <-; exists [], w1 ..].
  destruct (run_scheduler_refines t h g w1 r w' E Hp Hr) as (cs & w2 & Hs & Hrep & Hw).
  by exists cs, w2.
Qed.

(** ** The order of the jobs *)

(** The jobs that succeeded. *)
Definition successes (log : list (txToProcess * option error)) : list txToProcess :=
  omap (fun e => match e.2 with None => Some e.1 | Some _ => None end) log.

Lemma successes_app l1 l2 : successes (l1 ++ l2) = successes l1 ++ successes l2.
Proof. apply omap_app. Qed.

(** An error once recorded stays. *)
Lemma terminal_stays t h wc c s r s' :
  terminalErr s <> None -> loop_body MaxFailures t h wc c s = (r, s') -> terminalErr s' <> None.
Proof.
  intros Ht. unfold loop_body, dispatch_phase, settle_phase, mbind, mget, mret.
  destruct (terminalErr s) as [e |] eqn:E; [| done]. rewrite E.
  destruct (active s =? 0); [intros [= _ <-]; by rewrite E |].
  unfold drain_result, take_job, mbind, mget, mret, mmodify.
  destruct (ch_event c); try (intros [= _ <-]; by rewrite E).
  destruct (inflight s !! i); intros [= _ <-]; cbn; by rewrite E.
Qed.

Lemma world_loop_terminal t h wc cs s w s' w' :
  terminalErr s <> None -> loop t h wc cs s w = (Ok s', w') -> terminalErr s' <> None.
Proof.
  revert s w. induction cs as [| c cs IH]; intros s w Ht; cbn [world_loop];
    destruct (loop_condition s); cbn [negb]; try (by intros [= <- _]).
  intros E. apply mbind_Ok in E as (c' & w1 & _ & E).
  destruct (loop_body _ _ _ _ c' s) as [[[] | e | e] s2] eqn:Eb; try done.
  - eapply IH; [| exact E]. by eapply terminal_stays.
  - injection E as <- _. by eapply terminal_stays.
Qed.

(** What one event that leaves no error adds to the completed transactions. *)
Lemma settle_completed ev s s' :
  settle_phase MaxFailures ev s = (Ok Continue, s') -> terminalErr s' = None ->
  completed (graph s') =
    match ev with
    | EvResult i None _ =>
        match inflight s !! i with
        | Some job => {[job_id job]} ∪ completed (graph s)
        | None => completed (graph s)
        end
    | _ => completed (graph s)
    end.
Proof.
  intros E Hnone. assert (Ht : terminalErr s = None).
  { destruct (terminalErr s) as [e |] eqn:Et; [| done]. exfalso.
    revert E. unfold settle_phase, mbind, mget, mret. rewrite Et.
    destruct (active s =? 0); [done |].
    unfold drain_result, take_job, mbind, mget, mret, mmodify.
    destruct ev; try done. destruct (inflight s !! i); intros [= <-]. cbn in Hnone. congruence. }
  revert E. unfold settle_phase, mbind at 1. cbn [mget]. rewrite Ht.
  destruct (_ && _ && _); [done |]. destruct ev as [i err stopped | i |].
  - destruct (inflight s !! i) as [job |] eqn:Ej; cycle 1.
    { unfold select_event, take_job, mbind, mget. by rewrite Ej. }
    rewrite (select_result_eq MaxFailures i err stopped s job Ej).
    unfold receive_result, mbind at 1. cbn [mmodify]. destruct stopped.
    { cbn. intros [= <-]. done. }
    destruct err as [e |]; cbn [result_err runScheduledTxWorker]; cycle 1.
    { unfold mbind. cbn. intros [= <-]. cbn. unfold releaseChildren.
      set (g := set_completed _ _). set (l := children_of g _). clearbody l.
      assert (Hg : completed g = {[job_id job]} ∪ completed (graph s)) by done.
      clearbody g. revert g Hg. induction l as [| x l IH]; intros g Hg; [done |].
      cbn. apply IH. unfold release_edge. case_match; exact Hg. }
    unfold mbind, handleScheduledTxError. cbn. unfold mbind, mret, mmodify, mget. cbn.
    intros E. repeat case_match; simplify_eq/=; done.
  - unfold select_event, mbind at 1. cbn [mget].
    destruct (retrying s !! i); [| done]. unfold mbind. cbn. by intros [= <-].
  - unfold select_event, mbind. cbn. by intros [= <-].
Qed.

Section Replay.
Context (t h : Z) (HMF : 0 <= MaxFailures).
Context (txs : list TxRawResult) (g : blockTxGraph) (Hbuilt : built txs g).
#[local] Notation wc := (worker_count MaxParallelTxProcessing g).
#[local] Notation run_inv := (run_inv MaxParallelTxProcessing MaxFailures g).

(** A log against the coordinator that produced it: the successes are the completed
    transactions, and every job came after the successes of all its ancestors. *)
Record log_inv (log : list (txToProcess * option error)) (s : coordinator) : Prop := {
  li_completed : forall x, x ∈ completed (graph s) <-> x ∈ job_id <$> successes log;
  li_nodup : NoDup (job_id <$> successes log);
  li_order : forall pre job r post, log = pre ++ (job, r) :: post ->
    txByID g !! job_id job = Some (job_tx job) /\
    forall u, path g u (job_id job) -> u <> job_id job -> u ∈ job_id <$> successes pre;
}.

Lemma log_inv_same log s s' :
  completed (graph s') = completed (graph s) -> log_inv log s -> log_inv log s'.
Proof. intros Hc [L1 L2 L3]. split; [by rewrite Hc | done | done]. Qed.

(** One more job, run by a worker in state [s1]. *)
Lemma log_inv_job log s1 s' job (err : option error) :
  run_inv s1 -> job ∈ inflight s1 -> log_inv log s1 ->
  completed (graph s') = (if err then completed (graph s1)
                          else {[job_id job]} ∪ completed (graph s1)) ->
  log_inv (log ++ [(job, err)]) s'.
Proof.
  intros Hr Hj [L1 L2 L3] Hc. pose proof (ru_inv _ _ _ _ Hr) as Hi.
  assert (Hnew : job_id job ∉ completed (graph s1)).
  { eapply (c_live _ _ _ (si_core _ _ Hi)). unfold live. rewrite !elem_of_app.
    right. left. by apply list_elem_of_fmap_2. }
  assert (Hsucc : successes (log ++ [(job, err)]) =
    successes log ++ (if err then [] else [job])) by (rewrite successes_app; by destruct err).
  split.
  - intros x. rewrite Hc, Hsucc, fmap_app, elem_of_app, <- L1.
    destruct err; set_solver.
  - rewrite Hsucc, fmap_app. destruct err; [by rewrite app_nil_r |].
    apply NoDup_app. split; [done | split; [| by apply NoDup_singleton]].
    intros x Hx%L1 ->%list_elem_of_singleton. done.
  - intros pre job' r post E. destruct post as [| p post _] using rev_ind.
    + apply app_inj_tail in E as [<- [= <- <-]]. split.
      * destruct (at_job _ _ (si_attempts _ _ Hi) job Hj) as [_ Htx].
        destruct (ru_block _ _ _ _ Hr) as (_ & Hm & _). cbn in Hm. by rewrite <- Hm.
      * intros u Hu Hne. apply L1. by eapply run_ancestors.
    + rewrite app_comm_cons, app_assoc in E. apply app_inj_tail in E as [E _]. by eapply L3.
Qed.

Lemma loop_replay cs log s w s' w' :
  run_inv s -> log_inv log s -> loop t h wc cs s w = (Ok s', w') -> terminalErr s' = None ->
  exists log', replay log' w w' /\ log_inv (log ++ log') s' /\ run_inv s' /\
    loop_condition s' = false.
Proof.
  revert log s w. induction cs as [| c cs IH]; intros log s w Hr Hl; cbn [world_loop];
    destruct (loop_condition s) eqn:Hcond; cbn [negb]; unfold mfail, mlift; try done;
    try (intros [= <- <-] _; exists []; rewrite app_nil_r;
         split; [constructor | split; [done | split; done]]).
  intros E Hnone. apply mbind_Ok in E as (c' & w1 & Ec & E).
  destruct Hr as [Hi Hb Ha].
  destruct (dispatch_phase_inv MaxFailures t h HMF wc (ch_stops c) s Hi) as
    (s1 & Ed & Hi1 & Hb1 & Hc1 & _ & _ & Ha1 & _).
  assert (Hr1 : run_inv s1) by (split; [done | by etrans | auto]).
  destruct (loop_body _ _ _ _ c' s) as [[f | e | e] s3] eqn:Eb; [| done..].
  assert (Hf : f = Continue /\ terminalErr s3 = None /\ loop t h wc cs s3 w1 = (Ok s', w')).
  { destruct f; [| | done].
    - split; [done | split; [| done]]. destruct (terminalErr s3) as [e |] eqn:Et; [| done].
      destruct (world_loop_terminal _ _ _ _ s3 _ _ _ ltac:(congruence) E). done.
    - injection E as <- <-.
      destruct (loop_body_inv MaxFailures t h HMF wc c' s Hi Ha) as
        (? & _ & _ & _ & _ & _ & _ & [(? & E3) | [(? & E3 & _) | (? & ? & E3 & ? & _)]]);
        rewrite E3 in Eb; simplify_eq. }
  destruct Hf as (-> & Hn3 & E').
  assert (Hr3 : run_inv s3).
  { eapply (run_inv_step MaxParallelTxProcessing MaxFailures t h HMF g s s3);
      [by split | by econstructor]. }
  assert (Hcontinue : forall log1, log_inv (log ++ log1) s3 ->
    replay log1 w w1 -> exists log', replay log' w w' /\ log_inv (log ++ log') s' /\
      run_inv s' /\ loop_condition s' = false).
  { intros log1 Hl1 Hrep.
    destruct (IH _ _ _ Hr3 Hl1 E' Hnone) as (log2 & Hrep2 & Hl2 & Hr' & Hend).
    exists (log1 ++ log2). rewrite app_assoc. split; [by eapply replay_app | done]. }
  assert (Hsettle : ch_stops c' = ch_stops c ->
    settle_phase MaxFailures (ch_event c') s1 = (Ok Continue, s3)).
  { intros Hst. revert Eb. unfold loop_body, mbind at 1. by rewrite Hst, Ed. }
  assert (Hl1 : log_inv log s1) by (by eapply log_inv_same).
  assert (Hidle : c' = c -> w1 = w -> completed (graph s3) = completed (graph s1) ->
    exists log', replay log' w w' /\ log_inv (log ++ log') s' /\ run_inv s' /\
      loop_condition s' = false).
  { intros -> -> Hc3. apply (Hcontinue []); [| constructor].
    rewrite app_nil_r. by eapply log_inv_same. }
  unfold realize in Ec. rewrite Ed in Ec. cbn [snd] in Ec.
  destruct (ch_event c) as [i err0 stopped | i |] eqn:Eev.
  - destruct (inflight s1 !! i) as [job |] eqn:Ej.
    + apply mbind_Ok in Ec as (err & w2 & Erun & Ec). unfold mret in Ec. simplify_eq.
      specialize (Hsettle eq_refl). apply settle_completed in Hsettle; [| done].
      cbn [ch_event] in Hsettle. rewrite Ej in Hsettle.
      apply (Hcontinue [(job, err)]); [| by apply replay_job].
      eapply log_inv_job; [exact Hr1 | by eapply list_elem_of_lookup_2 | done |].
      by destruct err.
    + unfold mret in Ec. simplify_eq. apply Hidle; [done | done |].
      rewrite (settle_completed _ _ _ (Hsettle eq_refl) Hn3), Eev, Ej. by destruct err0.
  - unfold mret in Ec. simplify_eq. apply Hidle; [done | done |].
    by rewrite (settle_completed _ _ _ (Hsettle eq_refl) Hn3), Eev.
  - unfold mret in Ec. simplify_eq. apply Hidle; [done | done |].
    by rewrite (settle_completed _ _ _ (Hsettle eq_refl) Hn3), Eev.
Qed.
End Replay.

(** A successful run of the scheduler leaves a log. *)
Lemma run_replay t h txs g w w' :
  0 <= MaxFailures -> built txs g -> run t h g w = (Ok tt, w') ->
  exists log s, replay log w w' /\ log_inv g log s /\
    completed (graph s) = list_to_set (block_ids txs).
Proof.
  intros HMF Hb. unfold run_scheduler. rewrite (bt_order _ _ Hb).
  assert (Hinit : log_inv g [] (init_coordinator g)).
  { split; [| apply NoDup_nil_2 | by intros []].
    cbn. destruct (bt_inv _ _ Hb) as (_ & _ & ->). set_solver. }
  destruct (Z.eqb_spec (len (block_ids txs)) 0) as [Hz | Hz].
  - intros [= <-]. exists [], (init_coordinator g). split; [constructor | split; [done |]].
    cbn. destruct (bt_inv _ _ Hb) as (_ & _ & ->).
    destruct (block_ids txs); [done | unfold len in Hz; cbn in Hz; lia].
  - intros E. apply mbind_Ok in E as (s & w1 & El & E).
    destruct (terminalErr s) eqn:Et.
    { apply mbind_Ok in E as ([[] | ce] & w2 & _ & E); done. }
    injection E as <-.
    destruct (loop_replay t h HMF txs g Hb _ [] _ _ _ _
      (run_inv_init MaxParallelTxProcessing MaxFailures HMF txs g Hb) Hinit El Et)
      as (log & Hrep & Hlog & Hr & Hc).
    exists log, s. split; [done | split; [done |]]. by eapply run_all_completed.
Qed.

(** When it completed the block, the successes are the block's transactions. *)
Lemma log_successes txs g log s :
  NoDup (block_ids txs) -> built txs g -> log_inv g log s ->
  completed (graph s) = list_to_set (block_ids txs) ->
  Permutation (job_tx <$> successes log) txs.
Proof.
  intros Hnd Hb [L1 L2 L3] Hall.
  assert (Hjobs : forall job r, (job, r) ∈ log ->
    block_map txs !! job_id job = Some (job_tx job)).
  { intros job r (pre & post & Hsplit)%list_elem_of_split.
    rewrite <- (bt_map _ _ Hb). by destruct (L3 _ _ _ _ Hsplit). }
  assert (Hids : Permutation (job_id <$> successes log) (block_ids txs)).
  { apply NoDup_Permutation; [done | done |]. intros x.
    rewrite <- L1, Hall. apply elem_of_list_to_set. }
  set (tx_at := fun id => default empty_tx (block_map txs !! id)).
  assert (E1 : job_tx <$> successes log = tx_at <$> (job_id <$> successes log)).
  { rewrite <- list_fmap_compose. apply list_fmap_ext. intros i job Hi.
    apply list_elem_of_lookup_2, list_elem_of_omap in Hi as ([job' r] & Hin & Heq).
    cbn in Heq. destruct r; simplify_eq. unfold tx_at, compose. by rewrite (Hjobs _ _ Hin). }
  assert (E2 : txs = tx_at <$> block_ids txs).
  { unfold block_ids. rewrite <- list_fmap_compose. rewrite <- (list_fmap_id txs) at 1.
    apply list_fmap_ext. intros i tx Hi. unfold tx_at, compose.
    assert (Hl : block_map txs !! tx_Txid tx = Some tx)
      by (apply block_lookup; [done | split; [by eapply list_elem_of_lookup_2 | done]]).
    by rewrite Hl. }
  rewrite E1, Hids. by rewrite <- E2.
Qed.

(** C1: what a successful synchronisation has done.  If the synchronisation of a valid block
    succeeds, the database went from its first to its last state by running [ProcessTx] on
    transactions of the block and by nothing else; every transaction of the block succeeded
    exactly once; and each run came after the success of every other transaction of the block
    that it spends, and of every transaction before it that conflicts with it on a claim. *)
Theorem synced_block_processed_in_order t h txs g w w' :
  0 <= MaxFailures -> valid_block txs -> prepare_block (block_fetched txs) = Ok g ->
  run t h g w = (Ok tt, w') ->
  exists log, replay log w w' /\
    Permutation (job_tx <$> successes log) txs /\
    forall pre job r post, log = pre ++ (job, r) :: post ->
      job_tx job ∈ txs /\
      (forall vin, vin ∈ tx_Vin (job_tx job) -> vin_TxID vin ∈ block_ids txs ->
         vin_TxID vin <> job_id job -> vin_TxID vin ∈ job_id <$> successes pre) /\
      (forall i j u e1 e2, block_events txs !! i = Some (u, e1) ->
         block_events txs !! j = Some (job_id job, e2) -> (i < j)%nat -> conflict e1 e2 ->
         u <> job_id job -> u ∈ job_id <$> successes pre).
Proof.
  intros HMF Hv Hp. pose proof (prepare_block_built txs g Hv Hp) as Hb. intros E.
  destruct (run_replay t h txs g w w' HMF Hb E) as (log & s & Hrep & Hlog & Hall).
  exists log. split; [done |]. assert (Hnd : NoDup (block_ids txs)) by apply Hv.
  split; [by eapply log_successes |]. destruct Hlog as [L1 L2 L3].
  intros pre job r post Hsplit. destruct (L3 _ _ _ _ Hsplit) as [Htx Hanc].
  rewrite (bt_map _ _ Hb) in Htx. split; [by apply (block_lookup txs (job_id job)) | split].
  + intros vin Hvin Hin Hne. apply Hanc; [| done].
    assert (Hsp : spends (block_map txs) (vin_TxID vin) (job_id job)).
    { exists (job_tx job), vin. split; [done | split; [done | split; [done |]]].
      apply list_elem_of_fmap in Hin as (ptx & Hid & Hptx). exists ptx.
      by apply block_lookup. }
    destruct (bt_spends _ _ Hb _ _ Hsp) as [? | Hdep]; [done | by apply rtc_once].
  + intros i j u e1 e2 Hi Hj Hij Hcf Hne. apply Hanc; [| done]. by eapply (bt_claims _ _ Hb).
Qed.
End Sync.

(** ** On the demo block *)

Import Demo.

Lemma sync_refines_scheduler_witness :
  exists evs w1 cs w2,
    fetch_events demo_schedule ["aa"; "bb"] demo_world1 = (Ok evs, w1) /\
    syncTransactionsDependencyAware 4 3 ["aa"; "bb"] 50 1 (cleanup_answer w2) evs cs =
      Some (Ok tt) /\
    match prepared ["aa"; "bb"] evs with
    | Some (Ok g) =>
        replay chain demo_schedule
          (answered 3 50 1 (worker_count 4 g) cs (init_coordinator g)) w1 w2
    | _ => (demo_sync demo_world1).2 = w1
    end.
Proof.
  destruct (sync_refines_scheduler chain 4 3 demo_schedule ["aa"; "bb"] 50 1 demo_world1 (Ok tt)
    (demo_sync demo_world1).2) as (evs & w1 & cs & w2 & Ef & Hs & Hg).
  - vm_compute. reflexivity.
  - intros e. discriminate.
  - discriminate.
  - exists evs, w1, cs, w2. split; [exact Ef | split; [exact Hs |]].
    destruct (prepared ["aa"; "bb"] evs) as [[g | e | e] |];
      [exact (proj1 Hg) | exact Hg | exact Hg | exact Hg].
Defined.

Definition demo_block : list TxRawResult := [tx_aa; tx_bb].
Definition demo_block_graph : blockTxGraph := (buildDependencies (newBlockTxGraph
  (block_fetched demo_block).1 (block_fetched demo_block).2)).2.
Definition demo_run : M World unit := run_scheduler chain 4 3 demo_schedule 50 1 demo_block_graph.

Lemma demo_block_valid : valid_block demo_block.
Proof.
  split; [apply (bool_decide_unpack _); vm_compute; exact I |].
  apply (bool_decide_unpack _). vm_compute. exact I.
Defined.

Lemma synced_block_processed_in_order_witness :
  exists log, replay chain demo_schedule log demo_world1 (demo_run demo_world1).2 /\
    Permutation (job_tx <$> successes log) demo_block.
Proof.
  destruct (synced_block_processed_in_order chain 4 3 demo_schedule 50 1 demo_block
    demo_block_graph demo_world1 (demo_run demo_world1).2) as (log & Hrep & Hperm & _).
  - lia.
  - exact demo_block_valid.
  - vm_compute. reflexivity.
  - vm_compute. reflexivity.
  - exists log. split; [exact Hrep | exact Hperm].
Defined.
