(* ===== verification/ClaimTheorems.v ===== *)
(** * Claims: what an update leaves behind

    [UpdateClaimData_no_stale]: nothing of the previous metadata survives.
    [UpdateClaimData_fits]: the texts are within the lengths the code cuts them to.
    [processClaimNameScript_stores]: the claim of a name script is in the table afterwards.
    [limit_runes_spec]: what cutting a text to a number of runes does to it. *)
From S2P Require Import Prelude Bytes Script Lbrycrd Utf8 Rows Store Datastore StoreFacts Keyed.
From S2P Require Import Claims Transactions TransactionFacts BlockSync DemoWorld.

(** ** Respecting a relation, setter by setter *)

Section Respects.
Context (E : relation Claim).

Definition respects (f : Claim -> Claim) : Prop := forall a b, E a b -> E (f a) (f b).

Lemma respects_if_pos v f a b : E a b -> respects f -> E (if_pos v f a) (if_pos v f b).
Proof. intros Hab Hf. unfold if_pos. destruct (0 <? v); [by apply Hf | done]. Qed.
Lemma respects_if_nonempty s f a b :
  E a b -> respects f -> E (if_nonempty s f a) (if_nonempty s f b).
Proof. intros Hab Hf. unfold if_nonempty. case_bool_decide; [done | by apply Hf]. Qed.
Lemma respects_if_some {A} (o : option A) f a b :
  E a b -> (forall x, respects (f x)) -> E (if_some o f a) (if_some o f b).
Proof. intros Hab Hf. destruct o; [by apply Hf | done]. Qed.
End Respects.
Create HintDb setters.
#[export] Hint Unfold set_source_name set_source_size set_source_url set_source_hash
  set_source_media_type setSourceMetadata set_frame set_audio_duration set_fee
  setStreamMetadata set_claim_list setChannelMetadata setCollectionMetadata
  setReferenceMetadata set_type_metadata : setters.

(** Goes down a setter; [prim] proves the relation after a field update. *)
Ltac by_setters prim :=
  autounfold with setters; cbv zeta;
  repeat first
    [ match goal with H : ?P |- ?Q => constr_eq P Q; exact H end
    | match goal with |- ?E (if_pos _ _ _) _ => apply (respects_if_pos E); [| intros ? ? ?] end
    | match goal with |- ?E (if_nonempty _ _ _) _ =>
        apply (respects_if_nonempty E); [| intros ? ? ?] end
    | match goal with |- ?E (if_some _ _ _) _ =>
        apply (respects_if_some E); [| intros ? ? ? ?] end
    | match goal with |- ?E (setLicense ?s ?x) (setLicense ?s ?y) =>
        let Hxy := fresh in assert (Hxy : E x y);
        [| revert Hxy; generalize x y; intros ? ? ?; unfold setLicense; cbv zeta;
           destruct (ValidString (limit_runes 500 (st_License s)))]
      end
    | progress prim ].

(** The fields of a signature and a certificate, which are set last, and if [v] the version. *)
Definition wipe (v : bool) (c : Claim) : Claim :=
  c <| claim_IsCertProcessed := true |> <| claim_IsCertValid := false |>
    <| claim_PublisherID := None |> <| claim_PublisherSig := None |>
    <| claim_Certificate := None |>
    <| claim_Version := if v then None else claim_Version c |>.

(** Everything an update derives from the value; the version if [v] and the JSON text if [j]. *)
Definition blank (v j : bool) (c : Claim) : Claim :=
  wipe v (reset_fields c) <| claim_ContentType := None |> <| claim_SDHash := None |>
    <| claim_ValueAsJSON := if j then None else claim_ValueAsJSON c |>.

(** Whether the update writes a version: only a legacy claim has one. *)
Definition version_written (helper : StakeHelper) : bool :=
  match sh_LegacyClaim helper with
  | Some l => negb (bool_decide (lc_Version l = ""))
  | None => false
  end.

(** The two columns that an update may leave as they were. *)
Definition texts (c : Claim) := (claim_Version c, claim_ValueAsJSON c).

(** What an update leaves as it is. *)
Definition ident (c : Claim) :=
  (claim_ID c, claim_TransactionHashID c, claim_Vout c, claim_Name c, claim_ClaimID c,
   claim_ClaimType c, claim_TransactionTime c, claim_ValueAsHex c, claim_ValidAtHeight c,
   claim_Height c, claim_EffectiveAmount c, claim_IsFiltered c, claim_BidState c,
   claim_ClaimAddress c, claim_TransactionHashUpdate c, claim_VoutUpdate c, claim_ClaimCount c).

Section Updates.
Context `{Faults, Stake, Hashes, AddressCodec} (BlockChainName : string).

(** Whether the update writes the JSON text: the hex must decode and the value marshal. *)
Definition json_written (c : Claim) : bool :=
  match DecodeClaimHex (claim_ValueAsHex c) BlockChainName with
  | Ok claimHelper =>
      match GetValueAsJSON (sh_Claim claimHelper) with Ok _ => true | _ => false end
  | _ => false
  end.

Definition E_wipe (v : bool) : relation Claim := fun a b => a = wipe v b.
Lemma set_type_metadata_wipe v t c : set_type_metadata t (wipe v c) = wipe v (set_type_metadata t c).
Proof.
  assert (Hc : E_wipe v (wipe v c) c) by reflexivity. revert Hc. generalize (wipe v c) as a. intros a Hc.
  change (E_wipe v (set_type_metadata t a) (set_type_metadata t c)).
  destruct t; by_setters ltac:(unfold E_wipe in *; subst; reflexivity).
Qed.

Definition E_ident (c0 : Claim) : relation Claim := fun a _ => ident a = ident c0.
Lemma set_type_metadata_ident t c : ident (set_type_metadata t c) = ident c.
Proof.
  assert (Hc : E_ident c c c) by reflexivity.
  change (E_ident c (set_type_metadata t c) (set_type_metadata t c)).
  revert Hc. generalize c at 1 4 as i. generalize c at 1 3 as a. intros a i Hc.
  destruct t; by_setters ltac:(idtac; match goal with H : E_ident _ _ _ |- _ => exact H end).
Qed.

Definition E_texts (c0 : Claim) : relation Claim := fun a _ => texts a = texts c0.
Lemma set_type_metadata_texts t c : texts (set_type_metadata t c) = texts c.
Proof.
  assert (Hc : E_texts c c c) by reflexivity.
  change (E_texts c (set_type_metadata t c) (set_type_metadata t c)).
  revert Hc. generalize c at 1 4 as i. generalize c at 1 3 as a. intros a i Hc.
  destruct t; by_setters ltac:(idtac; match goal with H : E_texts _ _ _ |- _ => exact H end).
Qed.

(** ** The lengths of the texts *)

Definition text_at_most (n : Z) (o : option string) : Prop := forall s, o = Some s -> slen s <= n.
Definition runes_at_most (n : nat) (o : option string) : Prop :=
  forall s, o = Some s -> (length (runes s) <= n)%nat.

Record fits (c : Claim) : Prop := {
  fits_content_type : text_at_most 162 (claim_ContentType c);
  fits_sd_hash : text_at_most 120 (claim_SDHash c);
  fits_source_url : text_at_most 255 (claim_SourceURL c);
  fits_email : text_at_most 255 (claim_Email c);
  fits_media_type : runes_at_most 254 (claim_SourceMediaType c);
  fits_license : runes_at_most 500 (claim_License c);
}.

Lemma length_substring n s : (String.length (String.substring 0 n s) <= n)%nat.
Proof.
  revert n. induction s as [| ch s IH]; intros [| n]; cbn; try lia. specialize (IH n). lia.
Qed.
Lemma length_sapp (a b : string) : String.length (a +:+ b) = (String.length a + String.length b)%nat.
Proof. induction a as [| ch a IH]; [done |]. exact (f_equal S IH). Qed.

Lemma ellipsis_fits limit keep s :
  Z.of_nat keep + 3 <= limit -> text_at_most limit (Some (ellipsis limit keep s)).
Proof.
  intros Hk t [= <-]. unfold ellipsis. destruct (Z.ltb_spec limit (slen s)); [| done].
  unfold slen, sprefix. rewrite length_sapp. pose proof (length_substring keep s). cbn. lia.
Qed.

Lemma runes_limit n s : runes (limit_runes n s) = take n (runes s).
Proof.
  unfold limit_runes. destruct (Nat.ltb_spec n (length (runes s))).
  - apply runes_string_of_runes, Forall_take, runes_scalar.
  - by rewrite take_ge.
Qed.
Lemma limit_runes_fits n s : runes_at_most n (Some (limit_runes n s)).
Proof. intros t [= <-]. rewrite runes_limit, length_take. lia. Qed.

Definition E_fits : relation Claim := fun a _ => fits a.
Ltac keep_fits := match goal with H : E_fits _ _ |- _ => destruct H end;
  split; cbn; first [assumption | apply ellipsis_fits; cbn; lia | apply limit_runes_fits].

Lemma set_type_metadata_fits t c : fits c -> fits (set_type_metadata t c).
Proof.
  intros Hc. change (E_fits c c) in Hc.
  change (E_fits (set_type_metadata t c) (set_type_metadata t c)).
  revert Hc. generalize c at 1 3 as a. intros a Hc.
  destruct t; by_setters ltac:(idtac; keep_fits).
Qed.

(** ** The handlers *)

(** The result of a run, changed by [f] when there is one. *)
Definition map_result {A} (f : A -> A) (run : res A * World) : res A * World :=
  match run with (Ok a, w) => (Ok (f a), w) | (Err e, w) => (Err e, w) | (Panic e, w) => (Panic e, w) end.

(** [setTags] only reads the claim id and only sets the flag of the tag [mature]. *)
Lemma setTags_wipe v tags c w :
  setTags tags (wipe v c) w = map_result (wipe v) (setTags tags c w).
Proof.
  revert c w. induction tags as [| tag tags IH]; intros c w; [done |]. cbn [setTags]. cbv zeta.
  set (tag' := if 255 <? slen tag then _ else tag).
  replace (if bool_decide (tag' = "mature") then wipe v c <| claim_IsNSFW := true |> else wipe v c)
    with (wipe v (if bool_decide (tag' = "mature") then c <| claim_IsNSFW := true |> else c))
    by (by case_bool_decide).
  generalize (if bool_decide (tag' = "mature") then c <| claim_IsNSFW := true |> else c). clear c.
  intros c. unfold mbind.
  destruct (mtry (PutTag _) w) as [[[t | e] | e | e] w1]; [| done..].
  destruct ((if tag_ID t =? 0 then GetTag tag' else mret (Some t)) w1) as [[[t' |] | e | e] w2];
    [| done..].
  destruct (tag_ID t' =? 0); [done |].
  change (claim_ClaimID (wipe v c)) with (claim_ClaimID c).
  destruct (PutClaimTag _ w2) as [[u | e | e] w3]; [apply IH | done..].
Qed.
Lemma setTags_keeps (P : Claim -> Prop) tags c w c' w' :
  (forall c, P c -> P (c <| claim_IsNSFW := true |>)) -> P c ->
  setTags tags c w = (Ok c', w') -> P c'.
Proof.
  intros Hf. revert c w. induction tags as [| tag tags IH]; intros c w Hc; cbn [setTags].
  { by intros [= <- _]. }
  cbv zeta. set (tag' := if 255 <? slen tag then _ else tag).
  assert (Hc' : P (if bool_decide (tag' = "mature") then c <| claim_IsNSFW := true |> else c))
    by (case_bool_decide; auto).
  revert Hc'. generalize (if bool_decide (tag' = "mature") then c <| claim_IsNSFW := true |> else c).
  intros a Ha E. apply mbind_Ok in E as ([t | e] & w1 & _ & E); [| by injection E as <- _].
  apply mbind_Ok in E as ([t' |] & w2 & _ & E); [| done].
  destruct (tag_ID t' =? 0); [by injection E as <- _ |].
  apply mbind_Ok in E as (u & w3 & _ & E). by apply IH in E.
Qed.

Lemma reset_twice v c : reset_fields (wipe v (reset_fields c)) = wipe v (reset_fields c).
Proof. destruct v, c; cbv; reflexivity. Qed.
Lemma wipe_language v c l : wipe v c <| claim_Language := l |> = wipe v (c <| claim_Language := l |>).
Proof. destruct v, c; cbv; reflexivity. Qed.
Lemma reset_id c : claim_ClaimID (reset_fields c) = claim_ClaimID c.
Proof. destruct c; reflexivity. Qed.

(** What [setMetaDataInfo] does after the reset. *)
Definition fill_metadata (claim : pbClaim) (c : Claim) : M World Claim :=
  let c := if_nonempty (pb_Description claim)
             (fun c => c <| claim_Description := Some (pb_Description claim) |>)
             (c <| claim_Title := Some (pb_Title claim) |>) in
  let c := if_nonempty (pb_ThumbnailUrl claim)
             (fun c => c <| claim_ThumbnailURL := Some (pb_ThumbnailUrl claim) |>) c in
  let* c := setTags (pb_Tags claim) c in
  let c := match pb_Languages claim with
           | [] => c
           | language :: _ => c <| claim_Language := Some language |>
           end in
  mret (set_type_metadata (pb_Type claim) c).

Lemma fill_metadata_wipe v claim c w :
  fill_metadata claim (wipe v c) w = map_result (wipe v) (fill_metadata claim c w).
Proof.
  unfold fill_metadata. cbv zeta.
  assert (Hc : E_wipe v (wipe v c) c) by reflexivity. revert Hc. generalize (wipe v c) as a. intros a Hc.
  match goal with |- mbind (setTags _ ?x) _ _ = map_result _ (mbind (setTags _ ?y) _ _) =>
    assert (Hxy : E_wipe v x y); [| revert Hxy; generalize x y] end.
  { by_setters ltac:(unfold E_wipe in *; subst; reflexivity). }
  intros x y ->. unfold mbind. rewrite setTags_wipe.
  destruct (setTags _ y w) as [[d | e | e] w3]; [| done..]. cbn [map_result]. unfold mret.
  unfold map_result. destruct (pb_Languages claim) as [| l ls]; rewrite <- set_type_metadata_wipe; [done |].
  by rewrite wipe_language.
Qed.

Lemma setMetaDataInfo_wipe v claim c w :
  setMetaDataInfo claim (wipe v (reset_fields c)) w = map_result (wipe v) (setMetaDataInfo claim c w).
Proof.
  change (setMetaDataInfo claim) with (fun c => mbind (resetMetadata c) (fill_metadata claim)).
  cbv beta. unfold resetMetadata. cbv zeta. rewrite reset_twice.
  replace (claim_ClaimID (wipe v (reset_fields c))) with (claim_ClaimID c) by (by destruct c).
  rewrite reset_id. unfold mbind.
  destruct (other_stmt w) as [[u | e | e] w1]; [| done..].
  destruct (delete_claim_tagsG _ w1) as [[u2 | e | e] w2]; [| done..].
  unfold mret. by rewrite fill_metadata_wipe.
Qed.

(** What is set last overwrites the wiped fields. *)
Definition set_certs (helper : StakeHelper) (claim : pbClaim) (c : Claim) : Claim :=
  set_version helper (setCertificateInfo helper claim (setPublisherInfo helper c)).
Lemma set_certs_wipe helper claim c :
  set_certs helper claim (wipe (version_written helper) c) = set_certs helper claim c.
Proof.
  unfold set_certs, version_written, set_version, if_nonempty, setPublisherInfo,
    setCertificateInfo.
  destruct (sh_LegacyClaim helper) as [l |]; [case_bool_decide |];
    destruct (sh_Signature helper), (GetChannel claim); destruct c;
    cbv -[hex_encode ReverseBytes Marshal_certificate sh_LegacyClaim sh_ClaimID
      lc_Certificate lc_Version ch_PublicKey]; reflexivity.
Qed.

Lemma UpdateClaimData_eq helper claim c :
  UpdateClaimData BlockChainName helper claim c =
    mbind (setMetaDataInfo claim (setSourceInfo claim (set_value_json BlockChainName c)))
      (fun c => mret (set_certs helper claim c)).
Proof. reflexivity. Qed.

Lemma blank_hex v j c : claim_ValueAsHex (blank v j c) = claim_ValueAsHex c.
Proof. by destruct c. Qed.
Lemma blank_json v j c x :
  blank v j c <| claim_ValueAsJSON := Some x |> =
    blank v false (c <| claim_ValueAsJSON := Some x |>).
Proof. destruct v, j, c; cbv; reflexivity. Qed.
Lemma set_value_json_blank v c :
  set_value_json BlockChainName (blank v (json_written c) c) =
    blank v false (set_value_json BlockChainName c).
Proof.
  unfold set_value_json, json_written. rewrite blank_hex.
  repeat case_match; [apply blank_json | done..].
Qed.
Lemma setSourceInfo_blank v claim c :
  setSourceInfo claim (blank v false c) = wipe v (reset_fields (setSourceInfo claim c)).
Proof.
  unfold setSourceInfo. destruct (GetStream claim) as [s |]; [destruct (st_Source s) as [src |] |];
    cbn [if_some].
  - generalize (Some (ellipsis 162 158 (src_MediaType src))).
    generalize (Some (ellipsis 120 116 (hex_encode (src_SdHash src)))). intros x y.
    destruct v, c; cbv; reflexivity.
  - destruct v, c; cbv; reflexivity.
  - destruct v, c; cbv; reflexivity.
Qed.

Lemma UpdateClaimData_blank helper claim c w :
  UpdateClaimData BlockChainName helper claim (blank (version_written helper) (json_written c) c) w =
    UpdateClaimData BlockChainName helper claim c w.
Proof.
  rewrite !UpdateClaimData_eq, set_value_json_blank, setSourceInfo_blank.
  unfold mbind. rewrite setMetaDataInfo_wipe.
  destruct (setMetaDataInfo _ _ w) as [[d | e | e] w1]; [| done..]. cbn [map_result]. unfold mret.
  by rewrite set_certs_wipe.
Qed.

(** A property that the setters of the metadata keep holds after [fill_metadata]. *)
Lemma fill_metadata_keeps (P : Claim -> Prop) claim c w c' w' :
  (forall c x, P c -> P (c <| claim_Title := x |>)) ->
  (forall c x, P c -> P (c <| claim_Description := x |>)) ->
  (forall c x, P c -> P (c <| claim_ThumbnailURL := x |>)) ->
  (forall c x, P c -> P (c <| claim_Language := x |>)) ->
  (forall c, P c -> P (c <| claim_IsNSFW := true |>)) ->
  (forall t c, P c -> P (set_type_metadata t c)) ->
  P c -> fill_metadata claim c w = (Ok c', w') -> P c'.
Proof.
  intros Ht Hd Hu Hl Hn Hs Hc. unfold fill_metadata. cbv zeta.
  match goal with |- mbind (setTags _ ?x) _ _ = _ -> _ =>
    assert (Hx : P x); [| revert Hx; generalize x; intros y Hx] end.
  { unfold if_nonempty. repeat case_bool_decide; auto. }
  intros E. apply mbind_Ok in E as (d & w1 & E & [= <- _]).
  apply (setTags_keeps P) in E; [| auto..]. apply Hs. destruct (pb_Languages claim); auto.
Qed.

Lemma set_certs_ident helper claim c : ident (set_certs helper claim c) = ident c.
Proof.
  unfold set_certs, set_version, setCertificateInfo, setPublisherInfo, if_nonempty.
  repeat case_match; reflexivity.
Qed.
Lemma set_certs_fits helper claim c : fits c -> fits (set_certs helper claim c).
Proof.
  intros []. unfold set_certs, set_version, setCertificateInfo, setPublisherInfo, if_nonempty.
  repeat case_match; split; assumption.
Qed.

Lemma setMetaDataInfo_run claim c w c' w' :
  setMetaDataInfo claim c w = (Ok c', w') ->
  exists w1, fill_metadata claim (reset_fields c) w1 = (Ok c', w').
Proof.
  change (setMetaDataInfo claim c) with (mbind (resetMetadata c) (fill_metadata claim)).
  intros E. apply mbind_Ok in E as (d & w1 & E1 & E). unfold resetMetadata in E1.
  apply mbind_Ok in E1 as (u & w2 & _ & E1). apply mbind_Ok in E1 as (u2 & w3 & _ & [= <- <-]).
  by exists w3.
Qed.

Lemma UpdateClaimData_ident helper claim c w c' w' :
  UpdateClaimData BlockChainName helper claim c w = (Ok c', w') -> ident c' = ident c.
Proof.
  rewrite UpdateClaimData_eq. intros E. apply mbind_Ok in E as (d & w1 & E & [= <- _]).
  rewrite set_certs_ident. apply setMetaDataInfo_run in E as (w2 & E).
  apply (fill_metadata_keeps (fun d => ident d = ident c)) in E; [done | try by intros ? ? <- ..| |].
  - by intros ? <-.
  - intros t d0. by rewrite set_type_metadata_ident.
  - transitivity (ident (setSourceInfo claim (set_value_json BlockChainName c))); [reflexivity |].
    unfold setSourceInfo, set_value_json, if_some. repeat case_match; reflexivity.
Qed.

(** What becomes of the version and of the JSON text. *)
Lemma UpdateClaimData_texts helper claim c w c' w' :
  UpdateClaimData BlockChainName helper claim c w = (Ok c', w') ->
  texts c' = texts (set_version helper (set_value_json BlockChainName c)).
Proof.
  rewrite UpdateClaimData_eq. intros E. apply mbind_Ok in E as (d & w1 & E & [= <- _]).
  assert (Hd : texts d = texts (set_value_json BlockChainName c)).
  { apply setMetaDataInfo_run in E as (w2 & E).
    apply (fill_metadata_keeps (fun d => texts d = texts (set_value_json BlockChainName c))) in E;
      [done | try by intros ? ? <-..| |].
    - by intros ? <-.
    - intros t d0. by rewrite set_type_metadata_texts.
    - transitivity (texts (setSourceInfo claim (set_value_json BlockChainName c))); [reflexivity |].
      unfold setSourceInfo, if_some. repeat case_match; reflexivity. }
  revert Hd. generalize (set_value_json BlockChainName c). intros c0 [= Hv Hj].
  unfold texts, set_certs, set_version, setCertificateInfo, setPublisherInfo, if_nonempty.
  repeat case_match; cbn; congruence.
Qed.

Lemma UpdateClaimData_lengths helper claim c w c' w' :
  UpdateClaimData BlockChainName helper claim c w = (Ok c', w') -> fits c'.
Proof.
  rewrite <- UpdateClaimData_blank, UpdateClaimData_eq, set_value_json_blank.
  intros E. apply mbind_Ok in E as (d & w1 & E & [= <- _]).
  apply set_certs_fits. apply setMetaDataInfo_run in E as (w2 & E).
  apply (fill_metadata_keeps fits) in E; [done | try by intros ? ? []..| | |].
  - by intros ? [].
  - apply set_type_metadata_fits.
  - generalize (set_value_json BlockChainName c). intros x. unfold setSourceInfo, if_some.
    repeat case_match; split; try done; by apply ellipsis_fits.
Qed.

(** ** Putting a claim *)

Definition claim_rows (d : DB) : list Claim := rows (t_claims d).

(** [r] is the row of [c]: the key and the bid state's default come from the database. *)
Definition row_of (c r : Claim) : Prop :=
  exists i s, r = c <| claim_ID := i |> <| claim_BidState := s |>.

Lemma row_of_fill i c : row_of c (fill_key i c).
Proof.
  unfold row_of, fill_key, row_claim. cbv zeta.
  assert (Hd : exists j, (if claim_ID c =? 0 then c <| claim_ID := i |> else c)
    = c <| claim_ID := j |>).
  { case_match; [by exists i | exists (claim_ID c); by destruct c]. }
  destruct Hd as [j ->]. exists j.
  case_bool_decide; [by exists "Accepted"%string | exists (claim_BidState c); by destruct c].
Qed.
Lemma row_of_id c i : row_of c (c <| claim_ID := i |>).
Proof. exists i, (claim_BidState c). by destruct c. Qed.

Lemma existing_claim c w found w' :
  (let* existingClaim :=
     (if 0 <? claim_ID c
      then one_or_none (oneG (fun r => claim_ID r =? claim_ID c)) else mret None) in
   match existingClaim with
   | None =>
       if negb (bool_decide (claim_ClaimID c = ""))
       then one_or_none (oneG (claim_is (claim_ClaimID c))) else mret None
   | Some _ => mret existingClaim
   end) w = (Ok found, w') ->
  db w' = db w /\ forall old, found = Some old -> old ∈ claim_rows (db w).
Proof.
  assert (Hone : forall f v o v', one_or_none (oneG f) v = (Ok o, v') ->
    db v' = db v /\ forall old, o = Some old -> old ∈ claim_rows (db v)).
  { intros f v o v' E. split.
    - symmetry. pose proof (steps_one_or_none eq _ (steps_oneG eq f) v) as Hs.
      by rewrite E in Hs.
    - intros old ->. apply one_or_none_Ok, oneG_found in E. apply E. }
  assert (Hnone : forall v (o : option Claim) v', mret None v = (Ok o, v') ->
    db v' = db v /\ forall old, o = Some old -> old ∈ claim_rows (db v))
    by (by intros v o v' [= <- <-]).
  intros E. apply mbind_Ok in E as (o & w1 & E1 & E).
  assert (Hfirst : db w1 = db w /\ forall old, o = Some old -> old ∈ claim_rows (db w))
    by (destruct (0 <? claim_ID c); eauto).
  destruct Hfirst as [Hdb Ho]. rewrite <- Hdb in *. destruct o as [old |].
  - injection E as <- <-. split; [done |]. intros x [= <-]. by apply Ho.
  - destruct (negb _); eauto.
Qed.

(** A successful put stores the claim. *)
Lemma PutClaim_stored c w c' w' :
  PutClaim c w = (Ok c', w') -> row_of c c' /\ c' ∈ claim_rows (db w').
Proof.
  intros E%prefixed_Ok.
  assert (Hassoc : exists found w1,
    (let* existingClaim :=
     (if 0 <? claim_ID c
      then one_or_none (oneG (fun r => claim_ID r =? claim_ID c)) else mret None) in
     match existingClaim with
     | None =>
       if negb (bool_decide (claim_ClaimID c = ""))
       then one_or_none (oneG (claim_is (claim_ClaimID c))) else mret None
     | Some _ => mret existingClaim
     end) w = (Ok found, w1) /\
    match found with
    | Some existing =>
        let c := c <| claim_ID := claim_ID existing |> in
        let* _ := updateG c in mret c
    | None => insertG c
    end w1 = (Ok c', w')).
  { apply mbind_Ok in E as (o & w1 & E1 & E). apply mbind_Ok in E as (found & w2 & E2 & E).
    exists found, w2. split; [| exact E]. unfold mbind. rewrite E1. exact E2. }
  destruct Hassoc as (found & w1 & Ef & Ep). apply existing_claim in Ef as [Hdb Hold].
  destruct found as [old |].
  - apply mbind_Ok in Ep as (u & w2 & E2 & [= <- <-]). split; [apply row_of_id |].
    specialize (Hold old eq_refl). rewrite <- Hdb in Hold. clear E.
    set (r := c <| claim_ID := claim_ID old |>) in *.
    assert (Hk : same_key r old = true) by (cbn; lia).
    apply updateG_Ok in E2. destruct (List.find (same_key r) _) as [x |] eqn:Ex.
    + rewrite E2. apply list_elem_of_fmap. exists old. split; [by rewrite Hk | exact Hold].
    + apply list_elem_of_In in Hold. by rewrite (find_none _ _ Ex old Hold) in Hk.
  - apply insertG_Ok in Ep as (-> & _ & Hdb'). split; [apply row_of_fill |].
    rewrite Hdb'. unfold claim_rows. cbn. apply elem_of_app. right. by left.
Qed.

Lemma row_of_ident c r :
  row_of c r -> claim_ClaimID r = claim_ClaimID c /\ claim_Name r = claim_Name c /\
    claim_TransactionHashUpdate r = claim_TransactionHashUpdate c /\
    claim_VoutUpdate r = claim_VoutUpdate c /\ claim_ClaimAddress r = claim_ClaimAddress c /\
    claim_ValueAsHex r = claim_ValueAsHex c.
Proof. intros (i & s & ->). by destruct c. Qed.
Lemma row_of_fits c r : row_of c r -> fits c -> fits r.
Proof. intros (i & s & ->) []. by split. Qed.

(** ** What the updates guarantee *)


(** An updated claim fits its columns: content type within 162 bytes, descriptor hash within
    120, source URL and email within 255, media type within 254 runes and license within 500;
    its identity (key, transaction, name, claim id, address, height, bid state) is the old
    one. *)
Theorem UpdateClaimData_fits helper claim c w c' w' :
  UpdateClaimData BlockChainName helper claim c w = (Ok c', w') -> fits c' /\ ident c' = ident c.
Proof.
  intros E. split; [by eapply UpdateClaimData_lengths | by eapply UpdateClaimData_ident].
Qed.

(** Cutting a text to [n] runes leaves its first [n] runes, and a text that is cut is valid
    UTF-8 whatever it was before. *)
Theorem limit_runes_spec n s :
  runes (limit_runes n s) = take n (runes s) /\
  (limit_runes n s = s \/ ValidString (limit_runes n s) = true).
Proof.
  split; [apply runes_limit |]. unfold limit_runes.
  destruct (n <? _)%nat; [right | by left].
  apply ValidString_string_of_runes, Forall_take, runes_scalar.
Qed.

(** What the name of a script and its transaction say about the row. *)
Record describes (name claimid pkscript_address txHash hex : string) (vout : Z) (c : Claim) : Prop := {
  desc_name : claim_Name c = name;
  desc_claimid : claim_ClaimID c = claimid;
  desc_address : claim_ClaimAddress c = pkscript_address;
  desc_tx : claim_TransactionHashUpdate c = Some txHash;
  desc_vout : claim_VoutUpdate c = Some vout;
  desc_value : claim_ValueAsHex c = hex;
}.

Lemma describes_ident name claimid a tx hex vout c c' :
  ident c' = ident c -> describes name claimid a tx hex vout c ->
  describes name claimid a tx hex vout c'.
Proof. intros [=] []. split; congruence. Qed.
Lemma describes_row name claimid a tx hex vout c r :
  row_of c r -> describes name claimid a tx hex vout c -> describes name claimid a tx hex vout r.
Proof. intros (i & s & ->) []. by split. Qed.

(** C15: When a claim name script is processed without an error and its value decodes, the claim
    table holds a row with the claim id of the outpoint, the name and the address of the script,
    the transaction and output as the last update and the value in hex, within the lengths of
    its columns. *)
Theorem processClaimNameScript_stores script vout tx blockHeight w claimid helper pb name value
  pkscript r w' :
  ClaimIDFromOutpoint (out_TransactionHash vout) (out_Vout vout) = Ok claimid ->
  ParseClaimNameScript script = Ok (name, value, pkscript) ->
  DecodeClaimBytes value BlockChainName = Ok helper -> sh_Claim helper = Some pb ->
  processClaimNameScript BlockChainName script vout tx blockHeight w = (Ok r, w') ->
  r = (name, claimid, pkscript) /\
  exists c, c ∈ claim_rows (db w') /\ fits c /\
    describes name claimid (GetAddressFromPublicKeyScript BlockChainName pkscript)
      (txn_Hash tx) (hex_encode value) (out_Vout vout) c.
Proof.
  intros Hid Hparse Hdec Hpb. unfold processClaimNameScript. rewrite Hid, Hparse.
  intros E. apply mbind_Ok in E as (i & w1 & [= <- <-] & E).
  apply mbind_Ok in E as (p & w2 & E2%prefixed_Ok & E). injection E2 as <- <-.
  rewrite Hdec, Hpb in E.
  apply mbind_Ok in E as (found & w3 & _ & E). apply mbind_Ok in E as (c0 & w4 & _ & E).
  cbv zeta in E. apply mbind_Ok in E as (c1 & w5 & E5 & E).
  apply mbind_Ok in E as (c2 & w6 & E6%PutClaim_stored & [= <- <-]).
  split; [done |]. destruct E6 as [Hrow Hin]. exists c2. split; [done |].
  unfold processClaim in E5. split.
  - eapply row_of_fits, UpdateClaimData_lengths; eauto.
  - eapply describes_row, describes_ident; [done | by eapply UpdateClaimData_ident |].
    unfold stamp_claim. split; repeat case_match; reflexivity.
Qed.
End Updates.

(** ** Worked examples *)

Module ClaimExamples.
Import Demo.

(** The id of the claim [bb] made. *)
Definition made_id : string :=
  match claim_rows (db demo_world2) with c :: _ => claim_ClaimID c | [] => "" end.
Definition old_claim : Claim := new_claim "name" made_id "bb" 0.
(** The same claim with the metadata of another value. *)
Definition stale_claim : Claim :=
  old_claim <| claim_Title := Some "old" |> <| claim_IsNSFW := true |>
    <| claim_Email := Some "mail" |> <| claim_PublisherID := Some "p" |>
    <| claim_ValueAsJSON := Some "old" |>.


Definition updated : res Claim * World :=
  UpdateClaimData chain demo_helper demo_claim stale_claim demo_world2.
Definition updated_claim : Claim :=
  match fst updated with Ok c => c | _ => stale_claim end.
Lemma UpdateClaimData_fits_witness :
  fits updated_claim /\ claim_Title updated_claim = Some "title".
Proof.
  assert (E : UpdateClaimData chain demo_helper demo_claim stale_claim demo_world2 =
    (Ok updated_claim, snd updated)) by (vm_compute; reflexivity).
  split; [| vm_compute; reflexivity].
  exact (proj1 (UpdateClaimData_fits chain demo_helper demo_claim _ _ _ _ E)).
Defined.

Definition stored_tx : Transaction := mkTransaction 2 (Some "b1") 1 1 None 100 "bb" 1 0 50 f64_zero.
Definition claim_output : Output :=
  new_output <| out_TransactionHash := "bb" |> <| out_TransactionID := 2 |>.
Definition after_claim : res script_result * World :=
  processClaimNameScript chain claim_script claim_output stored_tx 1 demo_world2.
Definition claim_answer : script_result :=
  match fst after_claim with Ok r => r | _ => ("", "", []) end.

Lemma processClaimNameScript_stores_witness :
  exists c, c ∈ claim_rows (db (snd after_claim)) /\ claim_Name c = "name".
Proof.
  destruct (processClaimNameScript_stores chain claim_script claim_output stored_tx 1 demo_world2
    (snd (fst claim_answer)) demo_helper demo_claim "name" [x01] bob_script claim_answer
    (snd after_claim)) as [_ (c & Hc & _ & Hd)].
  - vm_compute; reflexivity.
  - vm_compute; reflexivity.
  - reflexivity.
  - reflexivity.
  - vm_compute; reflexivity.
  - exists c. split; [exact Hc | exact (desc_name _ _ _ _ _ _ _ Hd)].
Defined.
End ClaimExamples.
