(* ===== verification/TransactionTheorems.v ===== *)
(** * Transactions: what processing one guarantees

    [ProcessTx_complete]: the outputs of a processed transaction are stored, its inputs are
    stored and the outputs they spend are marked.  [cleanup_resets]: an aborted block's marks
    are taken back. *)
From S2P Require Import Prelude Bytes Script Lbrycrd Scheduler Rows Store Datastore StoreFacts.
From S2P Require Import Keyed Claims Transactions TransactionFacts BlockSync DemoWorld.

(** ** The input and output tables *)

Definition input_rows (d : DB) : list Input := rows (t_inputs d).
Definition output_rows (d : DB) : list Output := rows (t_outputs d).

(** Distinct keys; the keys of the inputs are positive, and so is the next one. *)
Record io_ok (d : DB) : Prop := {
  io_inputs : keys_ok (input_rows d);
  io_positive : forall i, i ∈ input_rows d -> 0 < in_ID i;
  io_auto : 0 < auto (t_inputs d);
  io_outputs : keys_ok (output_rows d);
}.

(** [i] is the input of transaction [txHash] for [v]. *)
Definition input_of (txHash : string) (v : Vin) (i : Input) : Prop :=
  in_TransactionHash i = txHash /\ in_PrevoutHash i = Some (vin_TxID v) /\
  in_PrevoutN i = Some (vin_Vout v) /\ in_IsCoinbase i = false.

(** The input for [v] is stored and the output it spends is marked as spent by it. *)
Definition spends (txHash : string) (v : Vin) (d : DB) : Prop :=
  exists i o, i ∈ input_rows d /\ input_of txHash v i /\
    o ∈ output_rows d /\ output_at (vin_TxID v) (vin_Vout v) o = true /\
    out_IsSpent o = true /\ out_SpentByInputID o = Some (in_ID i).

Section Puts.
Context `{Faults}.

(** What a put of an input can do to the tables. *)
Definition input_put (vin : Input) (d d' : DB) : Prop :=
  io_ok d' /\ t_outputs d' = t_outputs d /\
  forall i, i ∈ input_rows d -> i ∈ input_rows d' \/ in_ID i = in_ID vin.

Lemma PutInput_new vin w vin' w' :
  io_ok (db w) -> in_ID vin = 0 -> PutInput vin w = (Ok vin', w') ->
  existsb (same_input vin) (input_rows (db w)) = true /\ vin' = vin /\ db w' = db w \/
  existsb (same_input vin) (input_rows (db w)) = false /\
    vin' = vin <| in_ID := auto (t_inputs (db w)) |> /\
    vin' ∈ input_rows (db w') /\ io_ok (db w') /\ t_outputs (db w') = t_outputs (db w) /\
    forall i, i ∈ input_rows (db w) -> i ∈ input_rows (db w').
Proof.
  intros Hok Hid E%prefixed_Ok. apply mbind_Ok in E as (found & w1 & [Hf Hdb]%existsG_Ok & E).
  cbn in Hf. change (rows (t_inputs (db w))) with (input_rows (db w)) in Hf.
  destruct found; [left | right].
  - apply mbind_Ok in E as ([] & w2 & E & [= <- <-]). split; [done | split; [done |]].
    apply updateG_Ok in E. rewrite Hdb in E. destruct (List.find _ _) as [x |] eqn:Ex; [| done].
    apply find_some in Ex as [Hx Hk]. cbn in Hx, Hk. apply list_elem_of_In in Hx.
    apply (io_positive _ Hok) in Hx. lia.
  - apply insertG_keyed in E as (Hvin & Hdb' & Hnew). rewrite Hdb in *.
    split; [done |]. cbn in Hvin. replace (in_ID vin =? 0) with true in Hvin by lia.
    split; [done |]. unfold table_rows in *. rewrite Hdb in *. cbn in Hnew.
    assert (Hin : vin' ∈ input_rows (db w')).
    { rewrite Hdb'. cbn. apply elem_of_app. right. by left. }
    split; [done |]. split; [| rewrite Hdb'; split; [done |]].
    + destruct Hok as [Hi Hp Ha Ho]. rewrite Hdb'. split; cbn; [| | lia | done].
      * apply keys_ok_app; [done |]. intros x Hx. by apply Hnew.
      * intros i [Hi' | ->%list_elem_of_singleton]%elem_of_app; [by apply Hp |].
        rewrite Hvin. exact Ha.
    + intros i Hi. cbn. apply elem_of_app. by left.
Qed.

(** Whatever put, the rows with another key stay. *)
Lemma PutInput_keeps vin w vin' w' :
  io_ok (db w) -> in_ID vin = 0 \/ (exists f, f ∈ input_rows (db w) /\ in_ID vin = in_ID f) ->
  PutInput vin w = (Ok vin', w') ->
  io_ok (db w') /\ t_outputs (db w') = t_outputs (db w) /\
  forall i, i ∈ input_rows (db w) -> in_ID i <> in_ID vin -> i ∈ input_rows (db w').
Proof.
  intros Hok [Hid | (f & Hf & Hid)] E.
  - destruct (PutInput_new vin w vin' w' Hok Hid E) as [(_ & _ & ->) | (_ & _ & _ & H1 & H2 & H3)];
      [done |]. split; [done | split; [done |]]. auto.
  - apply prefixed_Ok, mbind_Ok in E as (found & w1 & [_ Hdb]%existsG_Ok & E). destruct found.
    + apply mbind_Ok in E as ([] & w2 & E & [= _ <-]).
      apply (updateG_keyed vin f) in E; [| unfold table_rows; rewrite Hdb; by try apply Hok..| done].
      unfold table_rows in E. rewrite Hdb in E. rewrite E.
      destruct Hok as [Hi Hp Ha Ho].
      split; [split; cbn; [by apply replace_row_ok | | done | done] | split; [done |]].
      * intros i Hin%(elem_of_replace_row vin f); [| done..].
        destruct Hin as [-> | [Hin _]]; [rewrite Hid |]; by apply Hp.
      * intros i Hin Hne. by apply replace_row_keeps.
    + apply insertG_keyed in E as (Hvin & _ & Hnew). rewrite Hdb in *.
      exfalso. unfold table_rows in Hnew. rewrite Hdb in Hnew.
      destruct (Hnew f Hf) as [Hne _]. apply Hne. rewrite Hvin. cbn.
      apply (io_positive _ Hok) in Hf. replace (in_ID vin =? 0) with false by lia. congruence.
Qed.

Lemma PutInput_old vin f w vin' w' :
  io_ok (db w) -> f ∈ input_rows (db w) -> same_input vin f = true -> in_ID vin = in_ID f ->
  PutInput vin w = (Ok vin', w') ->
  vin' = vin /\ vin' ∈ input_rows (db w') /\ input_put vin' (db w) (db w').
Proof.
  intros Hok Hf Hs Hid E%prefixed_Ok.
  apply mbind_Ok in E as (found & w1 & [Hfound Hdb]%existsG_Ok & E).
  assert (found = true) as ->.
  { rewrite Hfound. apply existsb_exists. exists f. split; [by apply list_elem_of_In | done]. }
  apply mbind_Ok in E as ([] & w2 & E & [= <- <-]). split; [done |].
  apply (updateG_keyed vin f) in E; [| unfold table_rows; rewrite Hdb; by try apply Hok..| done].
  unfold table_rows in E. rewrite Hdb in E. rewrite E.
  split; [by apply (elem_of_replace_row vin f); [| | left] |].
  destruct Hok as [Hi Hp Ha Ho]. split; [split; cbn; [by apply replace_row_ok | | done | done] |].
  - intros i Hin%(elem_of_replace_row vin f); [| done..].
    destruct Hin as [-> | [Hin _]]; [rewrite Hid |]; by apply Hp.
  - split; [done |]. intros i Hin. destruct (Z.eq_dec (in_ID i) (in_ID vin)); [by right | left].
    by apply replace_row_keeps.
Qed.
End Puts.

Section Spending.
Context `{Faults, !Healthy, Stake, Hashes, AddressCodec, PurchaseCodec, JsonStrings}.
Context (BlockChainName : string).

(** Marking the source output of an input. *)
Lemma PutOutput_spent o old w o' w' :
  keys_ok (output_rows (db w)) ->
  List.find (output_at (out_TransactionHash o) (out_Vout o)) (output_rows (db w)) = Some old ->
  PutOutput o spent_columns w = (Ok o', w') ->
  t_inputs (db w') = t_inputs (db w) /\
  output_rows (db w') = replace_row
    (old <| out_IsSpent := out_IsSpent o |> <| out_SpentByInputID := out_SpentByInputID o |>)
    (output_rows (db w)).
Proof.
  intros Hok Hold E%prefixed_Ok.
  apply mbind_Ok in E as (found & w1 & Ef%one_or_none_Ok & E). destruct found as [e |].
  - apply oneG_Ok in Ef as [He Hdb]. cbn in He. change (rows _) with (output_rows (db w)) in He.
    rewrite Hold in He. injection He as <-.
    apply mbind_Ok in E as ([] & w2 & E & [= <- <-]).
    apply find_some in Hold as [Hin%list_elem_of_In _].
    apply (update_colsG_keyed _ _ old) in E;
      [| unfold table_rows; rewrite Hdb; done.. | done | done].
    unfold table_rows in E. rewrite Hdb in E. rewrite E. done.
  - destruct Ef as (e & Ef & He). apply find_some in Hold as [Hin%list_elem_of_In Hat].
    destruct (oneG_no_rows _ _ _ _ Ef He) as [Hno _]. by rewrite (Hno old Hin) in Hat.
Qed.

(** The healthy lookup of an input finds it if it is there. *)
Lemma GetInput_healthy txHash cb p n w r w' :
  GetInput txHash cb p n w = (Ok r, w') ->
  r = List.find (input_at txHash cb p n) (input_rows (db w)) /\ db w' = db w.
Proof.
  intros E%get_or_nil_Ok. destruct r as [i |].
  - apply oneG_Ok in E as [E ->]. by rewrite <- E.
  - destruct E as (e & E). revert E. unfold oneG, query, stmt. rewrite healthy. cbn.
    change (rows (t_inputs (db w))) with (input_rows (db w)).
    by destruct (List.find _ _); intros [= _ <-].
Qed.

Lemma GetOutput_Some h n w o w' :
  GetOutput h n w = (Ok (Some o), w') ->
  List.find (output_at h n) (output_rows (db w)) = Some o /\ db w' = db w.
Proof. intros E%get_or_nil_Ok. by apply oneG_Ok in E. Qed.

(** A successful lookup leaves the database as it is. *)
Lemma read_db {A} (m : M World A) w r w' :
  steps (on_db eq) m -> m w = (r, w') -> db w' = db w.
Proof. intros Hm E. specialize (Hm w). rewrite E in Hm. by symmetry. Qed.

(** Putting the input of [v], with the key of the row that is there already, if one is. *)
Lemma put_vin txHash v vin w vin' w' :
  io_ok (db w) -> input_of txHash v vin ->
  in_ID vin = match List.find (input_at txHash false (vin_TxID v) (vin_Vout v)) (input_rows (db w)) with
              | Some f => in_ID f | None => 0 end ->
  PutInput vin w = (Ok vin', w') ->
  input_of txHash v vin' /\ vin' ∈ input_rows (db w') /\ io_ok (db w') /\
  t_outputs (db w') = t_outputs (db w) /\
  forall x, x ∈ input_rows (db w) -> x ∈ input_rows (db w') \/ input_of txHash v x.
Proof.
  intros Hok (Hh & Hp & Hn & Hcb) Hid E.
  assert (Hsame : forall x, same_input vin x = true -> input_at txHash false (vin_TxID v) (vin_Vout v) x = true).
  { intros x. unfold same_input, input_at, opt_eqb. by rewrite Hh, Hp, Hn, Hcb. }
  destruct (List.find _ (input_rows (db w))) as [f |] eqn:Ef.
  - apply find_some in Ef as [Hf%list_elem_of_In Hat].
    assert (Hof : input_of txHash v f).
    { unfold input_at in Hat. rewrite !andb_true_iff, !bool_decide_eq_true in Hat.
      destruct Hat as [[[? ?%eqb_prop] ?] ?]. done. }
    destruct (PutInput_old vin f w vin' w' Hok Hf) as (-> & Hin & Hok' & Ho & Hrows); [| done | done |].
    { unfold input_at in Hat. unfold same_input, opt_eqb. by rewrite Hh, Hp, Hn, Hcb. }
    split; [done | split; [done | split; [done | split; [done |]]]].
    intros x Hx. destruct (Hrows x Hx) as [? | Hxid]; [by left | right].
    assert (x = f) as ->; [| done].
    eapply (keys_ok_eq (input_rows (db w))); [apply Hok | done | done | cbn; congruence].
  - destruct (PutInput_new vin w vin' w' Hok Hid E) as [(Hex & _) | (_ & Hvin & Hin & Hput)].
    + apply existsb_exists in Hex as (x & Hx & Hs).
      specialize (Hsame x Hs). by rewrite (find_none _ _ Ef x Hx) in Hsame.
    + destruct Hput as (Hok' & Ho & Hrows). rewrite Hvin at 1.
      split; [done | split; [done | split; [done | split; [done |]]]]. auto.
Qed.

(** What a successful run on an input that is not a coinbase does. *)
Lemma ProcessVin_Ok v tx dc n w dc' w' :
  io_ok (db w) -> vin_Coinbase v = "" ->
  ProcessVin BlockChainName v tx dc n w = (Ok dc', w') ->
  exists i o, i ∈ input_rows (db w') /\ input_of (txn_Hash tx) v i /\
    o ∈ output_rows (db w) /\ output_at (vin_TxID v) (vin_Vout v) o = true /\
    output_rows (db w') = replace_row
      (o <| out_IsSpent := true |> <| out_SpentByInputID := Some (in_ID i) |>) (output_rows (db w)) /\
    io_ok (db w') /\
    forall x, x ∈ input_rows (db w) -> x ∈ input_rows (db w') \/ input_of (txn_Hash tx) v x.
Proof.
  intros Hok Hcb. unfold ProcessVin. cbn [in_IsCoinbase new_input]. rewrite Hcb. cbn [negb bool_decide].
  intros E. apply mbind_Ok in E as (found & w1 & [-> Hdb1]%GetInput_healthy & E).
  set (vin1 := match List.find _ _ with Some f => _ | None => _ end) in E.
  assert (Hid1 : in_ID vin1 = match List.find (input_at (txn_Hash tx) false (vin_TxID v) (vin_Vout v))
    (input_rows (db w)) with Some f => in_ID f | None => 0 end)
    by (unfold vin1; by destruct (List.find _ _)).
  assert (Hof : input_of (txn_Hash tx) v vin1).
  { unfold vin1, new_input. rewrite Hcb. cbn [negb bool_decide]. by destruct (List.find _ _). }
  clearbody vin1. pose proof Hof as (_ & _ & _ & Hcb1). rewrite Hcb1 in E.
  destruct (vin_ScriptSig v) as [sig |]; [| done].
  apply mbind_Ok in E as (src & w2 & E2 & E). destruct src as [src |]; [| done].
  cbn in E2. destruct Hof as (Hh & Hp & Hn & _). rewrite Hp, Hn in E2. cbn in E2.
  apply GetOutput_Some in E2 as [Hsrc Hdb2]. rewrite Hdb1 in Hsrc.
  apply mbind_Ok in E as (address & w3 & E3 & E).
  apply read_db in E3; [| apply steps_vin_source_address; typeclasses eauto].
  destruct address as [address |]; cycle 1.
  { exfalso. revert E. unfold no_vin_address, mlift. by repeat case_match. }
  apply mbind_Ok in E as (vin2 & w4 & E4 & E).
  apply (put_vin (txn_Hash tx) v) in E4 as (Hof2 & Hin2 & Hok2 & Ho2 & Hrows2).
  all: rewrite ?E3, ?Hdb2, ?Hdb1 in *; try done.
  assert (Hout : output_rows (db w4) = output_rows (db w)) by (unfold output_rows; by rewrite Ho2).
  pose proof Hsrc as [Hsin%list_elem_of_In Hat]%find_some.
  assert (Hsat : out_TransactionHash src = vin_TxID v /\ out_Vout src = vin_Vout v).
  { unfold output_at in Hat. apply andb_true_iff in Hat as [Ha%bool_decide_eq_true Hb].
    split; [done | lia]. }
  apply mbind_Ok in E as (o2 & w5 & E5 & E).
  apply (PutOutput_spent _ src) in E5 as [Hi5 Ho5].
  2: by rewrite Hout; apply Hok.
  2: { cbn. destruct Hsat as [-> ->]. by rewrite Hout. }
  apply mbind_Ok in E as (txa & w6 & E6 & E).
  apply read_db in E6; [| apply steps_GetTxAddress; typeclasses eauto].
  destruct txa; [| done]. injection E as _ <-. rewrite E6.
  exists vin2, src. unfold input_rows in *. rewrite Hi5. rewrite Ho5, Hout.
  do 4 (split; [done |]). split; [done |]. split; [| done].
  destruct Hok2 as [Hki Hpos Hauto _]. split; unfold input_rows; rewrite ?Hi5; [done.. |].
  rewrite Ho5, Hout. apply replace_row_ok, Hok.
Qed.

(** The frame of an input: an input with another source keeps what it has. *)
Lemma ProcessVin_spends v v2 tx dc n w dc' w' :
  io_ok (db w) -> ProcessVin BlockChainName v2 tx dc n w = (Ok dc', w') ->
  io_ok (db w') /\
  (vin_Coinbase v2 = "" -> spends (txn_Hash tx) v2 (db w')) /\
  (spends (txn_Hash tx) v (db w) -> spends (txn_Hash tx) v (db w')).
Proof.
  intros Hok E. destruct (decide (vin_Coinbase v2 = "")) as [Hcb | Hcb].
  - destruct (ProcessVin_Ok v2 tx dc n w dc' w' Hok Hcb E)
      as (i & o & Hi & Hof & Ho & Hat & Hrows & Hok' & Hold).
    set (o' := o <| out_IsSpent := true |> <| out_SpentByInputID := Some (in_ID i) |>) in Hrows.
    assert (Hmem : forall x, x ∈ output_rows (db w') <-> x = o' \/ (x ∈ output_rows (db w) /\ key x <> key o')).
    { intros x. rewrite Hrows. by apply (elem_of_replace_row o' o). }
    assert (Hnew : spends (txn_Hash tx) v2 (db w')).
    { exists i, o'. split; [done | split; [done | split; [apply Hmem; by left | done]]]. }
    split; [done | split; [done |]]. intros (j & p & Hj & Hofj & Hp & Hatp & Hsp & Hby).
    assert (Hsame : vin_TxID v = vin_TxID v2 -> vin_Vout v = vin_Vout v2 -> spends (txn_Hash tx) v (db w')).
    { intros Ht Hn. unfold spends, input_of. by rewrite Ht, Hn. }
    destruct (Hold j Hj) as [Hj' | (_ & Hp2 & Hn2 & _)]; cycle 1.
    { destruct Hofj as (_ & Hp1 & Hn1 & _). apply Hsame; congruence. }
    destruct (Z.eq_dec (key p) (key o')) as [Hk | Hk].
    + assert (p = o) as ->
        by (eapply (keys_ok_eq (output_rows (db w))); [apply Hok | done | done | exact Hk]).
      unfold output_at in Hat, Hatp.
      apply andb_true_iff in Hat as [Ha%bool_decide_eq_true Hb].
      apply andb_true_iff in Hatp as [Hc%bool_decide_eq_true Hd]. apply Hsame; [congruence | lia].
    + exists j, p. split; [done | split; [done | split; [| done]]]. apply Hmem. by right.
  - unfold ProcessVin in E. cbn [in_IsCoinbase new_input] in E.
    rewrite bool_decide_false in E by done. cbn [negb] in E.
    apply mbind_Ok in E as (found & w1 & [-> Hdb1]%GetInput_healthy & E).
    set (vin1 := match List.find _ _ with Some f => _ | None => _ end) in E.
    assert (Hcb1 : in_IsCoinbase vin1 = true).
    { unfold vin1, new_input. rewrite bool_decide_false by done. by destruct (List.find _ _). }
    rewrite Hcb1 in E. apply mbind_Ok in E as (vin2 & w2 & E & [= _ <-]).
    apply PutInput_keeps in E as (Hok' & Hout & Hkeep); rewrite ?Hdb1; [| done |].
    + rewrite Hdb1 in *. split; [done | split; [done |]].
      intros (i & o & Hi & Hof & Ho & Hrest). exists i, o. unfold output_rows in *. rewrite Hout.
      split; [| done]. apply Hkeep; [done |]. unfold vin1.
      destruct (List.find _ _) as [f |] eqn:Ef; cbn; cycle 1.
      { apply (io_positive _ Hok) in Hi. lia. }
      apply find_some in Ef as [Hf%list_elem_of_In Hat]. intros Heq.
      assert (i = f) as -> by (eapply (keys_ok_eq (input_rows (db w))); [apply Hok | done..]).
      destruct Hof as (_ & _ & _ & Hcbf). unfold input_at in Hat. rewrite Hcbf in Hat.
      by rewrite andb_false_r in Hat.
    + unfold vin1. destruct (List.find _ _) as [f |] eqn:Ef; [right | by left].
      apply find_some in Ef as [Hf%list_elem_of_In _]. by exists f.
Qed.

(** ** The jobs of the workers *)


Lemma run_all_stuck {A} (jobs : list A)
  (process : txDebitCredits -> A -> M World txDebitCredits) dc errs w r w' :
  mfold jobs (fun acc job =>
      let* r := mtry (process acc.1 job) in
      match r with
      | inl txDC => mret (txDC, acc.2)
      | inr e => mret (acc.1, acc.2 ++ [e])
      end) (dc, errs) w = (Ok r, w') -> errs <> [] -> r.2 <> [].
Proof.
  revert dc errs w. induction jobs as [| x jobs IH]; intros dc errs w; cbn; [by intros [= <- _] |].
  intros E. apply mbind_Ok in E as (acc & w1 & E1 & E).
  apply mbind_Ok in E1 as (t & w2 & _ & E1). intros Hne.
  destruct t; injection E1 as <- <-; cbn in E; apply IH in E; auto;
    by intros [_ [=]]%app_eq_nil.
Qed.

(** A successful run of the jobs, each of which keeps [J], establishes its fact and keeps the
    facts of the others. *)
Lemma run_jobs_Ok {A} (J : World -> Prop) (F : A -> World -> Prop) p (o : pool_order A)
  (jobs : list A) (process : txDebitCredits -> A -> M World txDebitCredits) :
  order_ok o ->
  (forall x dc w dc' w', x ∈ jobs -> J w -> process dc x w = (Ok dc', w') ->
     J w' /\ F x w' /\ forall y, F y w -> F y w') ->
  forall dc w dc' w', J w -> run_jobs p o jobs process dc w = (Ok dc', w') ->
    J w' /\ (forall y, F y w -> F y w') /\ forall x, x ∈ jobs -> F x w'.
Proof.
  intros [Hperm Herr] Hstep dc w dc' w' Hw E. unfold run_jobs in E.
  apply mbind_Ok in E as ([dc1 errs] & w1 & E & E').
  specialize (Herr errs). destruct (error_order o errs) as [| e l]; [| done]. injection E' as _ <-.
  apply Permutation_nil_l in Herr. subst errs. unfold run_all in E.
  setoid_rewrite <- (Hperm jobs). assert (Hs : forall x dc w dc' w', x ∈ run_order o jobs -> J w ->
    process dc x w = (Ok dc', w') -> J w' /\ F x w' /\ forall y, F y w -> F y w').
  { intros x dc2 w2 dc3 w3 Hx. apply Hstep. by rewrite <- (Hperm jobs). }
  clear Hstep. rename Hs into Hstep. revert Hstep E. generalize (run_order o jobs) as l.
  clear jobs. intros jobs. revert dc w Hw. induction jobs as [| x jobs IH]; intros dc w Hw Hstep E; cbn in E.
  { injection E as _ <-. split; [done | split; [auto | set_solver]]. }
  apply mbind_Ok in E as (acc & w2 & E2 & E). apply mbind_Ok in E2 as (t & w3 & E3%mtry_Ok & E2).
  destruct t as [dc3 | e]; injection E2 as <- <-; cbn in E.
  - destruct (Hstep x dc w dc3 w3 (list_elem_of_here _ _) Hw E3) as (Hw3 & Hx & Hkeep).
    destruct (IH dc3 w3 Hw3) as (Hw1 & Hk & Hall); [| done |].
    { intros y dc4 w4 dc5 w5 Hy. by apply Hstep, list_elem_of_further. } split; [done | split; [auto |]].
    intros y [-> | Hy]%elem_of_cons; auto.
  - by apply run_all_stuck in E.
Qed.

(** ** The outputs of a transaction *)

(** [o] is the output of transaction [txHash] for [v]. *)
Definition output_of (txHash : string) (v : Vout) (o : Output) : Prop :=
  out_TransactionHash o = txHash /\ out_Vout o = vout_N v /\
  out_Value o = Some (vout_Value v) /\
  out_ScriptPubKeyHex o = Some (spk_Hex (vout_ScriptPubKey v)) /\
  out_Type o = Some (spk_Type (vout_ScriptPubKey v)).

(** The rows of other outputs stay, and the inputs. *)
Definition vout_frame (txHash : string) (n : Z) : relation DB := fun d d' =>
  keys_ok (output_rows d) ->
  t_inputs d' = t_inputs d /\ keys_ok (output_rows d') /\
  forall o, o ∈ output_rows d -> output_at txHash n o = false -> o ∈ output_rows d'.
#[export] Instance vout_frame_preorder txHash n : PreOrder (vout_frame txHash n).
Proof.
  split; [by intros d Hok | intros d1 d2 d3 Ha Hb Hok].
  destruct (Ha Hok) as (Hi & Hok2 & Ho). destruct (Hb Hok2) as (Hi2 & Hok3 & Ho3).
  split; [congruence | split; [done |]]. auto.
Qed.

Lemma vout_frame_ignores txHash n T `{Row T} :
  (forall t d, t_inputs (set_table t d) = t_inputs d) ->
  (forall t d, t_outputs (set_table t d) = t_outputs d) -> Ignores (vout_frame txHash n) T.
Proof.
  intros Hi Ho t d Hok. unfold output_rows. rewrite Hi, Ho. done.
Qed.
#[local] Hint Extern 1 (Ignores (vout_frame _ _) _) =>
  (apply vout_frame_ignores; intros ? []; reflexivity) : typeclass_instances.

Lemma output_at_true h n o :
  output_at h n o = true <-> out_TransactionHash o = h /\ out_Vout o = n.
Proof. unfold output_at. by rewrite andb_true_iff, bool_decide_eq_true, Z.eqb_eq. Qed.

(** The frame of an output's own put. *)
Notation own_frame o := (vout_frame (out_TransactionHash o) (out_Vout o)).

Lemma update_output_frame o old w :
  old ∈ output_rows (db w) -> out_ID o = out_ID old ->
  output_at (out_TransactionHash o) (out_Vout o) old = true ->
  own_frame o (db w) (db (update_colsG (infer o) o w).2).
Proof.
  intros Hold Hid Hat Hok.
  destruct (update_colsG (infer o) o w) as [r w'] eqn:E. destruct r as [u | e | e]; cycle 1.
  1,2: pose proof (stmt_failed (update_rows (infer o) o) w) as Hf; unfold update_colsG in E;
    rewrite E in Hf; cbn in *; rewrite Hf by done; done.
  apply (update_colsG_keyed _ _ old) in E; [| done..]. unfold infer in E.
  cbn [snd]. rewrite E. unfold table_rows.
  split; [done | split; [by apply replace_row_ok |]]. intros x Hx Hne.
  apply replace_row_keeps; [done |]. cbn. intros Hk.
  assert (x = old) as ->; [| congruence].
  eapply (keys_ok_eq (output_rows (db w))); [done.. | cbn; congruence].
Qed.

Lemma steps_insert_output o : steps (on_db (own_frame o)) (insertG o).
Proof.
  unfold insertG. apply steps_bind; [typeclasses eauto | | intros o'; go_steps].
  apply steps_stmt; [typeclasses eauto |]. intros d o' d' E Hok. unfold insert_row in E.
  destruct (existsb _ _) eqn:Enew in E; [done |].
  destruct (negb _); [done |]. injection E as <- <-.
  split; [done | split; cbn].
  - apply keys_ok_app; [done |]. intros x Hx Hk. apply not_true_iff_false in Enew.
    apply Enew, existsb_exists. exists x. split; [by apply list_elem_of_In |].
    apply orb_true_iff. left. rewrite same_key_key. by apply Z.eqb_eq.
  - intros x Hx _. apply elem_of_app. by left.
Qed.

Lemma steps_PutOutput_own o : steps (on_db (own_frame o)) (PutOutput o infer).
Proof.
  unfold PutOutput. apply steps_prefixed; [typeclasses eauto |]. intros w. unfold mbind.
  destruct (one_or_none _ w) as [r w1] eqn:E.
  pose proof (read_db _ w r w1 (steps_one_or_none _ _ (steps_oneG eq _)) E) as Hdb.
  destruct r as [[old |] | e | e]; cbn [snd]; unfold on_db; rewrite <- ?Hdb; try done.
  - apply one_or_none_Ok, oneG_found in E as (Hold & Hat & _).
    change (rows _) with (output_rows (db w)) in Hold. rewrite <- Hdb in Hold.
    match goal with |- context [update_colsG (infer ?x) ?x w1] =>
      pose proof (update_output_frame x old w1 Hold eq_refl Hat) as Hu end.
    by destruct (update_colsG _ _ w1) as [[u | e | e] w2].
  - apply steps_insert_output.
Qed.

(** Putting the output of [v] keeps the other outputs, and stores it. *)
Lemma steps_PutOutput_of h v o :
  output_of h v o -> steps (on_db (vout_frame h (vout_N v))) (PutOutput o infer).
Proof. intros (<- & <- & _). apply steps_PutOutput_own. Qed.

Lemma PutOutput_of h v o w o' w' :
  output_of h v o -> PutOutput o infer w = (Ok o', w') -> output_of h v o'.
Proof.
  intros Ho E%prefixed_Ok. apply mbind_Ok in E as ([old |] & w1 & _ & E).
  - apply mbind_Ok in E as ([] & w2 & _ & [= <- _]). done.
  - apply insertG_Ok in E as (-> & _). cbn. by case_match.
Qed.

Lemma PutOutput_in o w o' w' :
  keys_ok (output_rows (db w)) -> PutOutput o infer w = (Ok o', w') -> o' ∈ output_rows (db w').
Proof.
  intros Hok E%prefixed_Ok. apply mbind_Ok in E as ([old |] & w1 & E1%one_or_none_Ok & E).
  - apply oneG_found in E1 as (Hold & _ & Hdb).
    apply mbind_Ok in E as ([] & w2 & E & [= <- <-]).
    apply (update_colsG_keyed _ _ old) in E; unfold table_rows; rewrite ?Hdb; [| done..].
    unfold output_rows. rewrite E. cbn. unfold table_rows. rewrite Hdb.
    by apply (elem_of_replace_row _ old); [| | left].
  - apply insertG_keyed in E as (-> & Hdb & _).
    unfold output_rows. rewrite Hdb. cbn. apply elem_of_app. right. by left.
Qed.

#[local] Opaque PutOutput.
(** The output is stored, whatever was stored before. *)
Definition stored (txHash : string) (v : Vout) (d : DB) : Prop :=
  exists o, o ∈ output_rows d /\ output_of txHash v o.

Lemma stored_same h v d d' : t_outputs d = t_outputs d' -> stored h v d -> stored h v d'.
Proof. intros E (o & Ho). exists o. unfold output_rows. by rewrite <- E. Qed.

Lemma claimed_output_of h v o (c : option Claim) :
  output_of h v o ->
  output_of h v (match c with Some c => o <| out_ClaimID := Some (claim_ClaimID c) |> | None => o end).
Proof. by destruct c. Qed.

Lemma PutOutput_stored h v o w o' w' :
  output_of h v o -> keys_ok (output_rows (db w)) -> PutOutput o infer w = (Ok o', w') ->
  stored h v (db w').
Proof.
  intros Ho Hok E. exists o'. split; [by eapply PutOutput_in | by eapply PutOutput_of].
Qed.

Section Vout.
Context (v : Vout) (tx : Transaction).
Notation frame := (vout_frame (txn_Hash tx) (vout_N v)).

Lemma steps_put o : output_of (txn_Hash tx) v o -> steps (on_db frame) (PutOutput o infer).
Proof. apply steps_PutOutput_of. Qed.
Hint Resolve steps_put claimed_output_of : go.

Lemma steps_finish_vout o dc a h :
  output_of (txn_Hash tx) v o -> steps (on_db frame) (finish_vout BlockChainName o v tx dc a h).
Proof.
  intros Ho. unfold finish_vout.
  apply (steps_bind_val _ (output_of (txn_Hash tx) v)); [auto with go | |].
  - intros w o' w'. by apply PutOutput_of.
  - intros o' Ho'. go_steps.
Qed.

Lemma finish_vout_stored o dc a h w dc' w' :
  output_of (txn_Hash tx) v o -> keys_ok (output_rows (db w)) ->
  finish_vout BlockChainName o v tx dc a h w = (Ok dc', w') -> stored (txn_Hash tx) v (db w').
Proof.
  intros Ho Hok E. unfold finish_vout in E. apply mbind_Ok in E as (o1 & w1 & E1 & E).
  pose proof (steps_put _ Ho w) as Hf. rewrite E1 in Hf. destruct (Hf Hok) as (_ & Hok1 & _).
  assert (Hst : stored (txn_Hash tx) v (db w1)) by (by apply (PutOutput_stored _ _ o w o1)).
  apply (PutOutput_of (txn_Hash tx) v) in E1; [| done].
  apply mbind_Ok in E as (txa & w2 & E2 & E).
  apply read_db in E2; [| apply steps_GetTxAddress; typeclasses eauto].
  destruct txa as [txa |]; [| done]. apply mbind_Ok in E as (c & w3 & E3 & E).
  assert (Hsame : t_outputs (db w1) = t_outputs (db w3)).
  { pose proof (steps_processScriptForClaim (same t_outputs) BlockChainName o1 tx h w2) as Hs.
    rewrite E3 in Hs. rewrite <- E2. exact Hs. }
  destruct c as [claimid |]; [| injection E as _ <-; by eapply stored_same].
  apply mbind_Ok in E as (claim & w4 & E4 & E).
  apply read_db in E4; [| apply steps_GetClaim; typeclasses eauto].
  apply mbind_Ok in E as (o5 & w5 & E5 & [= _ <-]).
  eapply PutOutput_stored; [by apply claimed_output_of | | exact E5].
  unfold output_rows in *. rewrite E4, <- Hsame. done.
Qed.

Lemma fill_output_of old : output_of (txn_Hash tx) v (fill_output old v tx).
Proof. done. Qed.
Lemma with_addresses_of o l :
  output_of (txn_Hash tx) v o -> output_of (txn_Hash tx) v (o <| out_AddressList := l |>).
Proof. done. Qed.
Hint Resolve fill_output_of with_addresses_of steps_finish_vout : go.

#[local] Opaque finish_vout fill_output.
Lemma steps_ProcessVout_frame dc h :
  steps (on_db frame) (ProcessVout BlockChainName v tx dc h).
Proof. unfold ProcessVout. go_steps. Qed.

Lemma ProcessVout_stored dc h w dc' w' :
  keys_ok (output_rows (db w)) -> ProcessVout BlockChainName v tx dc h w = (Ok dc', w') ->
  stored (txn_Hash tx) v (db w').
Proof.
  intros Hok E. unfold ProcessVout in E. apply mbind_Ok in E as (old & w1 & E1 & E).
  apply read_db in E1; [| apply steps_GetOutput; typeclasses eauto]. rewrite <- E1 in Hok.
  pose proof (fill_output_of (default new_output old)) as Ho.
  destruct (bool_decide _).
  { apply mbind_Ok in E as (u & w2 & E2 & E). apply mbind_Ok in E as (o & w3 & E3 & [= _ <-]).
    eapply PutOutput_stored; [exact Ho | | exact E3].
    pose proof (steps_processNullDataVout (same t_outputs) tx v h w1) as Hs. rewrite E2 in Hs.
    change (t_outputs (db w1) = t_outputs (db w2)) in Hs.
    unfold output_rows in *. rewrite <- Hs. done. }
  assert (Hfin : forall a l w2 r, db w2 = db w1 ->
    finish_vout BlockChainName (fill_output (default new_output old) v tx <| out_AddressList := l |>)
      v tx dc a h w2 = (Ok dc', r) -> stored (txn_Hash tx) v (db r)).
  { intros a l w2 r Hdb. apply finish_vout_stored; [by apply with_addresses_of | by rewrite Hdb]. }
  destruct (spk_Addresses _) as [| first rest].
  - apply mbind_Ok in E as (a & w2 & E2 & E).
    assert (db w2 = db w1) as Hdb by (revert E2; unfold mlift; by intros [= _ <-]).
    destruct (bool_decide _).
    + apply mbind_Ok in E as (o & w3 & E3 & [= _ <-]).
      eapply PutOutput_stored; [exact Ho | by rewrite Hdb | exact E3].
    + apply mbind_Ok in E as (ad & w3 & E3 & E).
      apply read_db in E3; [| apply steps_GetAddress; typeclasses eauto].
      destruct ad as [ad |]; [| done]. eapply Hfin; [| exact E]. congruence.
  - apply mbind_Ok in E as (ad & w3 & E3 & E).
    apply read_db in E3; [| apply steps_GetAddress; typeclasses eauto].
    destruct ad as [ad |]; [| done]. eapply Hfin; [| exact E]. congruence.
Qed.
End Vout.

(** ** The whole transaction *)

(** What is said of inputs and outputs does not depend on the other tables. *)
Definition same_io : relation DB := both (same t_inputs) (same t_outputs).

Lemma io_ok_same d d' : same_io d d' -> io_ok d -> io_ok d'.
Proof.
  intros [Hi Ho] [Hk Hp Ha Hko]. unfold same in *.
  split; unfold input_rows, output_rows in *; rewrite <- ?Hi, <- ?Ho; done.
Qed.
Lemma spends_same h v d d' : same_io d d' -> spends h v d -> spends h v d'.
Proof.
  intros [Hi Ho]. unfold same, spends, input_rows, output_rows in *. by rewrite Hi, Ho.
Qed.

Lemma vout_frame_io h n d d' : io_ok d -> vout_frame h n d d' -> io_ok d'.
Proof.
  intros [Hk Hp Ha Hko] Hf. destruct (Hf Hko) as (Hi & Hko' & _).
  split; unfold input_rows; rewrite ?Hi; done.
Qed.
Lemma vout_frame_spends h v n d d' :
  io_ok d -> vin_TxID v <> h -> vout_frame h n d d' -> spends h v d -> spends h v d'.
Proof.
  intros [_ _ _ Hko] Hne Hf (i & o & Hi & Hof & Ho & Hat & Hs). destruct (Hf Hko) as (Hi' & _ & Hk).
  exists i, o. unfold input_rows in *. rewrite Hi'. split; [done | split; [done | split; [| done]]].
  apply Hk; [done |]. apply not_true_iff_false. rewrite output_at_true.
  apply output_at_true in Hat as [Ha _]. intros [Hb _]. congruence.
Qed.
Lemma vout_frame_stored h v n d d' :
  io_ok d -> vout_N v <> n -> vout_frame h n d d' -> stored h v d -> stored h v d'.
Proof.
  intros [_ _ _ Hko] Hne Hf (o & Ho & Hof). destruct (Hf Hko) as (_ & _ & Hk).
  exists o. split; [| done]. apply Hk; [done |]. apply not_true_iff_false.
  rewrite output_at_true. destruct Hof as (_ & Hn & _). lia.
Qed.

Lemma saveUpdateTransaction_hash jsonTx w t w' :
  saveUpdateTransaction jsonTx w = (Ok t, w') -> txn_Hash t = tx_Txid jsonTx.
Proof.
  intros E. apply mbind_Ok in E as ([old |] & w1 & _ & E).
  - apply mbind_Ok in E as (u & w2 & _ & [= <- _]). done.
  - apply insertG_Ok in E as (-> & _). by unfold fill_key; cbn.
Qed.

Context (vin_order : pool_order (Z * Vin)) (vout_order : pool_order Vout).
Hypothesis vin_order_ok : order_ok vin_order.
Hypothesis vout_order_ok : order_ok vout_order.

Lemma saveUpdateInputs_spends t jsonTx dc w dc' w' :
  io_ok (db w) -> saveUpdateInputs BlockChainName vin_order t jsonTx dc w = (Ok dc', w') ->
  io_ok (db w') /\
  forall v, v ∈ tx_Vin jsonTx -> vin_Coinbase v = "" -> spends (txn_Hash t) v (db w').
Proof.
  intros Hok E.
  eapply (run_jobs_Ok (fun w => io_ok (db w)) (fun (job : Z * Vin) w =>
    vin_Coinbase job.2 = "" -> spends (txn_Hash t) job.2 (db w)) _ _ _ _ vin_order_ok) in E as (Hok' & _ & Hall);
    [| | exact Hok].
  - split; [done |]. intros v [i Hi]%list_elem_of_lookup. apply (Hall (Z.of_nat i, v)).
    apply elem_of_lookup_imap. by exists i, v.
  - intros [i x] dc1 w1 dc2 w2 _ Hok1 E1.
    destruct (ProcessVin_spends x x t dc1 i w1 dc2 w2 Hok1 E1) as (Hok2 & Hx & _).
    split; [done | split; [done |]]. intros [j y] Hy Hcb.
    apply (ProcessVin_spends y x t dc1 i w1 dc2 w2 Hok1 E1), Hy, Hcb.
Qed.

Lemma saveUpdateOutputs_stored t jsonTx dc h w dc' w' :
  io_ok (db w) -> NoDup (vout_N <$> tx_Vout jsonTx) ->
  (forall v, v ∈ tx_Vin jsonTx -> vin_Coinbase v = "" ->
     vin_TxID v <> txn_Hash t /\ spends (txn_Hash t) v (db w)) ->
  saveUpdateOutputs BlockChainName vout_order t jsonTx dc h w = (Ok dc', w') ->
  io_ok (db w') /\
  (forall v, v ∈ tx_Vin jsonTx -> vin_Coinbase v = "" -> spends (txn_Hash t) v (db w')) /\
  forall v, v ∈ tx_Vout jsonTx -> stored (txn_Hash t) v (db w').
Proof.
  intros Hok Hnd Hsp E.
  eapply (run_jobs_Ok
    (fun w => io_ok (db w) /\ forall v, v ∈ tx_Vin jsonTx -> vin_Coinbase v = "" ->
       vin_TxID v <> txn_Hash t /\ spends (txn_Hash t) v (db w))
    (fun v w => v ∈ tx_Vout jsonTx -> stored (txn_Hash t) v (db w)) _ _ _ _ vout_order_ok)
    in E as ((Hok' & Hsp') & _ & Hall); [| | exact (conj Hok Hsp)].
  - split; [done | split; [intros v ? ?; by apply Hsp' |]].
    intros v Hv. by apply Hall.
  - intros x dc1 w1 dc2 w2 Hx [Hok1 Hsp1] E1.
    pose proof (steps_ProcessVout_frame x t dc1 h w1) as Hf. rewrite E1 in Hf. unfold on_db in Hf.
    cbn [snd] in Hf. split; [| split].
    + split; [by eapply vout_frame_io |]. intros v Hv Hcb.
      destruct (Hsp1 v Hv Hcb) as [Hne Hs]. split; [done |]. by eapply vout_frame_spends.
    + intros _. eapply ProcessVout_stored; [apply Hok1 | exact E1].
    + intros y Hy Hyin. destruct (decide (vout_N y = vout_N x)) as [Hn | Hn];
        [| by eapply vout_frame_stored; eauto].
      assert (y = x) as ->; [| eapply ProcessVout_stored; [apply Hok1 | exact E1]].
      apply list_elem_of_lookup in Hyin as [a Ha]. apply list_elem_of_lookup in Hx as [b Hb].
      assert (a = b) as ->; [| congruence]. eapply (NoDup_lookup _ a b (vout_N x) Hnd);
        rewrite list_lookup_fmap; [rewrite Ha | by rewrite Hb]. cbn. by rewrite Hn.
Qed.

(** C11: In a database without failures, when [ProcessTx] reports success, whatever order its
    workers took the inputs and outputs in, every input of the transaction that is not a
    coinbase is stored and the output it spends is marked as spent by it, every output of the
    transaction is stored with its value, script and type, and the input and output tables keep
    distinct keys.  The transaction does not spend an output of its own, as none can.  (With
    failures the code can report success without an input: it swallows the error of the lookup
    [GetInput].) *)
Theorem ProcessTx_complete jsonTx blockTime blockHeight w u w' :
  io_ok (db w) -> NoDup (vout_N <$> tx_Vout jsonTx) ->
  (forall v, v ∈ tx_Vin jsonTx -> vin_TxID v <> tx_Txid jsonTx) ->
  ProcessTx BlockChainName vin_order vout_order jsonTx blockTime blockHeight w = (Ok u, w') ->
  io_ok (db w') /\
  (forall v, v ∈ tx_Vin jsonTx -> vin_Coinbase v = "" -> spends (tx_Txid jsonTx) v (db w')) /\
  (forall v, v ∈ tx_Vout jsonTx -> stored (tx_Txid jsonTx) v (db w')).
Proof.
  intros Hok Hnd Hself E. unfold ProcessTx in E.
  apply mbind_Ok in E as (t & w1 & E1 & E).
  assert (Hok1 : io_ok (db w1)).
  { eapply io_ok_same; [| exact Hok].
    enough (Hs : steps (on_db same_io) (saveUpdateTransaction jsonTx))
      by (specialize (Hs w); by rewrite E1 in Hs).
    unfold saveUpdateTransaction, same_io. go_steps. }
  apply saveUpdateTransaction_hash in E1. rewrite <- E1 in *. clear E1.
  apply mbind_Ok in E as (u2 & w2 & E2 & E). apply mbind_Ok in E as (r3 & w3 & E3 & E).
  assert (Hok3 : io_ok (db w3)).
  { eapply io_ok_same; [| exact Hok1]. unfold same_io. transitivity (db w2).
    - enough (Hs : steps (on_db same_io) (prefixed "Vout Address Creation Error"
        (createUpdateVoutAddresses BlockChainName t (tx_Vout jsonTx) blockTime)))
        by (specialize (Hs w1); by rewrite E2 in Hs). unfold same_io. go_steps.
    - enough (Hs : steps (on_db same_io) (mtry (createUpdateVinAddresses BlockChainName t (tx_Vin jsonTx))))
        by (specialize (Hs w2); by rewrite E3 in Hs). unfold same_io. go_steps. }
  apply mbind_Ok in E as (u4 & w4 & E4 & E).
  assert (w4 = w3) as -> by (destruct r3; [by injection E4 | done]).
  apply mbind_Ok in E as (dc & w5 & E5%saveUpdateInputs_spends & E); [| done].
  destruct E5 as [Hok5 Hsp]. apply mbind_Ok in E as (dc6 & w6 & E6 & E).
  apply saveUpdateOutputs_stored in E6 as (Hok6 & Hsp6 & Hst6); [| done.. | by auto].
  assert (Hs : same_io (db w6) (db w')).
  { enough (Hs : steps (on_db same_io) (setSendReceive t dc6)) by (specialize (Hs w6); by rewrite E in Hs).
    unfold setSendReceive, same_io. go_steps. }
  split; [by eapply io_ok_same | split].
  - intros v Hv Hcb. eapply spends_same; [exact Hs | auto].
  - intros v Hv. eapply stored_same; [apply Hs | auto].
Qed.
End Spending.

(** ** Undoing an aborted block *)

(** [o] is marked as spent by an input of one of the transactions. *)
Definition spent_by_txs (txIDs : list string) (inputs : list Input) (o : Output) : bool :=
  existsb (fun i => bool_decide (in_TransactionHash i ∈ txIDs) &&
                    opt_eqb (out_SpentByInputID o) (Some (in_ID i))) inputs.

Definition unspend (o : Output) : Output :=
  o <| out_IsSpent := false |> <| out_SpentByInputID := None |>.

Definition with_unspent (txIDs : list string) (d : DB) : DB :=
  d <| t_outputs := mkTable
    (map (fun o => if spent_by_txs txIDs (input_rows d) o then unspend o else o) (output_rows d))
    (auto (t_outputs d)) |>.

Lemma with_unspent_none txIDs d :
  (forall i, i ∈ input_rows d -> in_TransactionHash i ∉ txIDs) -> with_unspent txIDs d = d.
Proof.
  intros Hno. unfold with_unspent, output_rows. rewrite <- (map_id (rows (t_outputs d))) at 1.
  rewrite (map_ext _ (fun o => o)); [rewrite !map_id; by destruct d as [? ? ? [] ? ? ? ? ? ? ? ? ?] |].
  intros o. replace (spent_by_txs _ _ _) with false; [done |]. symmetry.
  apply not_true_iff_false. unfold spent_by_txs. rewrite existsb_exists.
  intros (i & Hi%list_elem_of_In & [Hin%bool_decide_eq_true _]%andb_true_iff). by destruct (Hno i Hi).
Qed.

(** What the query's condition says of an output. *)
Lemma spent_by_ids txIDs d o :
  match out_SpentByInputID o with
  | Some i => bool_decide (i ∈ map in_ID
      (List.filter (fun i => bool_decide (in_TransactionHash i ∈ txIDs)) (input_rows d)))
  | None => false
  end = spent_by_txs txIDs (input_rows d) o.
Proof.
  apply eq_bool_prop_intro. rewrite !Is_true_true. unfold spent_by_txs. rewrite existsb_exists.
  destruct (out_SpentByInputID o) as [n |]; split.
  - intros Hn%bool_decide_eq_true. apply list_elem_of_In, in_map_iff in Hn as (i & <- & Hi).
    apply filter_In in Hi as [Hi Hh]. exists i. split; [done |]. apply andb_true_iff.
    split; [done |]. by apply bool_decide_eq_true.
  - intros (i & Hi & [Hh [= ->]%bool_decide_eq_true]%andb_true_iff).
    apply bool_decide_eq_true, list_elem_of_In, in_map_iff. exists i. split; [done |].
    by apply filter_In.
  - done.
  - intros (i & _ & [_ Hc%bool_decide_eq_true]%andb_true_iff). done.
Qed.

Lemma with_unspent_clean txIDs d o :
  o ∈ output_rows (with_unspent txIDs d) -> spent_by_txs txIDs (input_rows d) o = false.
Proof.
  intros (o' & -> & Ho')%list_elem_of_fmap. destruct (spent_by_txs _ _ o') eqn:E; [| done].
  apply not_true_iff_false. unfold spent_by_txs. rewrite existsb_exists.
  intros (i & _ & [_ Hc%bool_decide_eq_true]%andb_true_iff). done.
Qed.

(** C14: In a database without failures [cleanupAbortedBlockTransactions] succeeds: exactly the
    outputs marked as spent by an input of one of the given transactions lose their mark,
    nothing else in the database changes, and no such mark is left (the error it has for that
    case is never returned). *)
Theorem cleanup_resets `{Healthy} txIDs w :
  exists w', cleanupAbortedBlockTransactions txIDs w = (Ok tt, w') /\
    db w' = with_unspent txIDs (db w) /\
    forall o, o ∈ output_rows (db w') -> spent_by_txs txIDs (input_rows (db w')) o = false.
Proof.
  enough (exists w', cleanupAbortedBlockTransactions txIDs w = (Ok tt, w') /\
    db w' = with_unspent txIDs (db w)) as (w' & E & Hdb).
  { exists w'. split; [done | split; [done |]]. rewrite Hdb. intros o Ho.
    by apply with_unspent_clean in Ho. }
  unfold cleanupAbortedBlockTransactions. destruct (Z.eqb_spec (len txIDs) 0) as [Hl |].
  { exists w. split; [done |]. rewrite with_unspent_none; [done |]. destruct txIDs; [set_solver | done]. }
  set (ids := map in_ID (List.filter (fun i => bool_decide (in_TransactionHash i ∈ txIDs))
    (input_rows (db w)))).
  unfold mbind. unfold allG. erewrite query_healthy; [| apply healthy | reflexivity].
  change (map in_ID _) with ids. destruct (Z.eqb_spec (len ids) 0) as [Hids |].
  { exists (ticked w). split; [done |]. symmetry. apply with_unspent_none. intros i Hi Hin.
    unfold ids, len in Hids. rewrite length_map in Hids.
    assert (Hf : i ∈ List.filter (fun i => bool_decide (in_TransactionHash i ∈ txIDs)) (input_rows (db w))).
    { apply list_elem_of_In, filter_In. split; [by apply list_elem_of_In | by apply bool_decide_eq_true]. }
    destruct (List.filter _ _); [by apply elem_of_nil in Hf | done]. }
  unfold update_outputsG. erewrite stmt_healthy; [| apply healthy | reflexivity].
  unfold countG. erewrite query_healthy; [| apply healthy | reflexivity]. cbn [db].
  assert (Hdb : db (ticked w) <| t_outputs := mkTable (map (fun o =>
      if match out_SpentByInputID o with Some i => bool_decide (i ∈ ids) | None => false end
      then o <| out_IsSpent := false |> <| out_SpentByInputID := None |> else o)
      (rows (t_outputs (db (ticked w))))) (auto (t_outputs (db (ticked w)))) |>
    = with_unspent txIDs (db w)).
  { unfold with_unspent, output_rows. do 2 f_equal. apply map_ext. intros o.
    by rewrite <- spent_by_ids. }
  rewrite Hdb. exists (ticked (mkWorld (with_unspent txIDs (db w)) (S (tick (ticked w))))).
  split; [| reflexivity].
  assert (Hc : count_if (fun o => match out_SpentByInputID o with
      Some i => bool_decide (i ∈ ids) | None => false end)
      (rows (get_table (with_unspent txIDs (db w)))) = 0%nat).
  { apply count_if_zero. intros o Ho%list_elem_of_In. unfold ids. rewrite spent_by_ids.
    by apply with_unspent_clean. }
  by rewrite Hc.
Qed.

(** ** Worked examples *)

Module Examples.
Import Demo.

#[local] Instance demo_healthy : Healthy.
Proof. intros now. reflexivity. Qed.

Definition rev_order {A} : pool_order A := mkOrder (@rev A) (fun l => l).
Definition process (jsonTx : TxRawResult) : M World unit :=
  ProcessTx chain in_order rev_order jsonTx 50 1.
Lemma in_order_ok {A} : order_ok (in_order (A:=A)).
Proof. by split. Qed.
Lemma rev_order_ok {A} : order_ok (rev_order (A:=A)).
Proof. split; intros l; [symmetry; apply Permutation_rev | done]. Qed.
(** The database with the coinbase [aa], and the one after [bb], which spends it. *)
Definition world_aa : World := snd (process tx_aa demo_world1).
Definition world_bb : World := snd (process tx_bb world_aa).

Lemma world_aa_ok : io_ok (db world_aa).
Proof.
  split.
  - apply (bool_decide_unpack _); vm_compute; exact I.
  - intros i Hi. assert (Hf : Forall (fun i => 0 < in_ID i) (input_rows (db world_aa)))
      by (vm_compute; repeat constructor).
    rewrite Forall_forall in Hf. by apply Hf.
  - vm_compute; reflexivity.
  - apply (bool_decide_unpack _); vm_compute; exact I.
Qed.

Lemma process_bb :
  ProcessTx chain in_order rev_order tx_bb 50 1 world_aa = (Ok tt, world_bb).
Proof. vm_compute; reflexivity. Qed.
Lemma ProcessTx_complete_witness :
  ProcessTx chain in_order rev_order tx_bb 50 1 world_aa = (Ok tt, world_bb) /\
  spends "bb" (spend "aa") (db world_bb).
Proof.
  split; [exact process_bb |].
  destruct (ProcessTx_complete chain in_order rev_order in_order_ok rev_order_ok
    tx_bb 50 1 world_aa tt world_bb world_aa_ok)
    as (_ & Hsp & _); [| | | apply (Hsp (spend "aa"))].
  - apply (bool_decide_unpack _); vm_compute; exact I.
  - intros v ->%list_elem_of_singleton. discriminate.
  - exact process_bb.
  - apply list_elem_of_here.
  - reflexivity.
Defined.

(** Taking [bb] back frees the output of [aa]. *)
Lemma cleanup_resets_witness :
  (exists o, o ∈ output_rows (db world_bb) /\ spent_by_txs ["bb"] (input_rows (db world_bb)) o = true) /\
  exists w', cleanupAbortedBlockTransactions ["bb"] world_bb = (Ok tt, w') /\
    forall o, o ∈ output_rows (db w') -> spent_by_txs ["bb"] (input_rows (db w')) o = false.
Proof.
  split.
  - apply Exists_exists, (bool_decide_unpack _); vm_compute; exact I.
  - destruct (cleanup_resets ["bb"] world_bb) as (w' & E & _ & Hno).
    exact (ex_intro _ w' (conj E Hno)).
Defined.
End Examples.
