(* ===== verification/BlockFacts.v ===== *)
(** * Block processing: the block table under each operation

    [blocks_ok] (distinct primary keys) is preserved by everything; under it, what saving,
    linking, marking and deleting a block does to the rows of the table. *)
From S2P Require Import Prelude Bytes Lbrycrd Rows Store Datastore StoreFacts Keyed BlockSync.
From S2P Require Import BlockProcessing.

(** The block table, and that its primary keys are distinct. *)
Notation block_rows := (table_rows (R:=Block)).
Notation blocks_ok := (keys_ok (R:=Block)).

Lemma block_rows_same w w' : on_db (same t_blocks) w w' -> block_rows w' = block_rows w.
Proof. unfold on_db, same, table_rows. cbn. by intros ->. Qed.

(** ** The highest block *)

Lemma highest_by_in key l b : highest_by key l = Some b -> b ∈ l.
Proof.
  unfold highest_by.
  enough (Hg : forall best, foldl (fun best b => match best with
    | Some x => if key x <? key b then Some b else best | None => Some b end) best l = Some b ->
    best = Some b \/ b ∈ l) by (intros Hf; by destruct (Hg None Hf)).
  induction l as [| x l IH]; cbn; [by left |]. intros best Hf. destruct (IH _ Hf) as [E | ?].
  - destruct best as [y |]; [destruct (key y <? key x) |]; simplify_eq; set_solver.
  - right. by right.
Qed.

Lemma highest_by_max key l b x : highest_by key l = Some b -> x ∈ l -> key x <= key b.
Proof.
  unfold highest_by.
  enough (Hg : forall l best y, foldl (fun best b => match best with
    | Some x => if key x <? key b then Some b else best | None => Some b end) (Some best) l = Some y ->
    key best <= key y /\ forall x, x ∈ l -> key x <= key y).
  { destruct l as [| y l]; cbn; [done |]. intros [Hb Hl]%Hg [-> | Hx]%elem_of_cons; auto. }
  clear. intros l. induction l as [| z l IH]; cbn; intros best y E; [set_solver by (simplify_eq; lia) |].
  destruct (key best <? key z) eqn:Ek; apply IH in E as [Hb Hl].
  - split; [lia |]. intros x [-> | Hx]%elem_of_cons; auto.
  - split; [lia |]. intros x [-> | Hx]%elem_of_cons; [lia | auto].
Qed.

Lemma highest_by_none key l : highest_by key l = None -> l = [].
Proof.
  unfold highest_by. destruct l as [| b l]; [done |]. cbn.
  enough (Hg : forall l best, foldl (fun best b => match best with
    | Some x => if key x <? key b then Some b else best | None => Some b end) (Some best) l <> None)
    by (intros E; by destruct (Hg l b)).
  clear. intros l. induction l as [| z l IH]; cbn; [done |]. intros best.
  destruct (key best <? key z); apply IH.
Qed.

(** ** The operations *)

Section Blocks.
Context `{Faults}.

Lemma updateG_block b old w u w' :
  blocks_ok (block_rows w) -> old ∈ block_rows w -> block_ID b = block_ID old ->
  updateG b w = (Ok u, w') -> block_rows w' = replace_row b (block_rows w).
Proof. intros Hok Hold Hid E. unfold table_rows at 1. by rewrite (updateG_keyed b old w u w'). Qed.

Lemma mark_block b state w u w' :
  blocks_ok (block_rows w) -> b ∈ block_rows w ->
  markBlockProcessingState b state w = (Ok u, w') ->
  block_rows w' = replace_row (with_state state b) (block_rows w).
Proof.
  intros Hok Hb E. unfold table_rows at 1.
  by rewrite (update_colsG_keyed (with_state state) b b w u w').
Qed.

Lemma insertG_block b b' w w' :
  insertG b w = (Ok b', w') ->
  block_rows w' = block_rows w ++ [b'] /\ b' = fill_key (auto (t_blocks (db w))) b /\
  forall x, x ∈ block_rows w -> block_ID x <> block_ID b' /\ block_Hash x <> block_Hash b'.
Proof.
  intros (Hb & Hdb & Hnew)%insertG_keyed. unfold table_rows at 1. rewrite Hdb.
  split; [done | split; [done |]]. intros x Hx. destruct (Hnew x Hx) as [Hk Hc].
  split; [exact Hk | by apply bool_decide_eq_false in Hc].
Qed.

Lemma delete_block_rows b d : rows (t_blocks (delete_block b d)) = drop_row b (rows (t_blocks d)).
Proof. done. Qed.
Lemma deleteG_block_Ok b w u w' :
  deleteG_block b w = (Ok u, w') -> db w' = delete_block b (db w).
Proof. intros [E _]%stmt_Ok. by simplify_eq. Qed.

Context `{Node, TxSync, !TxSyncLaws}.
Implicit Types json : GetBlockResponse.

(** What [parseBlockInfo] leaves in the table: the block, and the other rows. *)
Record saved (h : Z) json (b : Block) (l l' : list Block) : Prop := {
  sv_ok : blocks_ok l';
  sv_in : b ∈ l';
  sv_fill : exists b0, b = fill_block h json b0;
  sv_old : forall x, x ∈ l' -> x = b \/ (x ∈ l /\ block_ID x <> block_ID b);
  sv_keep : forall x, x ∈ l -> block_Hash x <> blk_Hash json -> x ∈ l' /\ block_ID x <> block_ID b;
  sv_find : forall f p, List.find f l = Some p -> f b = false ->
    block_Hash p <> blk_Hash json -> List.find f l' = Some p;
  sv_same : (forall x, x ∈ l -> block_Hash x <> blk_Hash json) \/
    exists x, x ∈ l /\ block_Hash x = blk_Hash json /\ block_ID x = block_ID b;
}.

Lemma parseBlockInfo_Ok h json w b w' :
  blocks_ok (block_rows w) -> parseBlockInfo h json w = (Ok b, w') ->
  saved h json b (block_rows w) (block_rows w').
Proof.
  intros Hok E. apply mbind_Ok in E as (found & w1 & Ef & E). apply get_or_nil_Ok in Ef.
  destruct found as [f |].
  - apply oneG_found in Ef as (Hf & Hh%bool_decide_eq_true & Hdb).
    assert (Hr : block_rows w1 = block_rows w) by (unfold table_rows; by rewrite Hdb).
    apply mbind_Ok in E as ([] & w2 & E & [= <- <-]).
    set (b := fill_block h json f) in *. assert (Hid : block_ID b = block_ID f) by done.
    apply (updateG_block b f) in E; [| rewrite Hr; done | rewrite Hr; done | done].
    rewrite Hr in E. rewrite E.
    assert (Hne : forall x, x ∈ block_rows w -> block_Hash x <> blk_Hash json ->
      block_ID x <> block_ID b).
    { intros x Hx Hxh Heq. apply Hxh. rewrite <- Hh. f_equal.
      by eapply (keys_ok_eq (block_rows w)). }
    split.
    + by apply replace_row_ok.
    + apply (elem_of_replace_row b f); [done..| by left].
    + by exists f.
    + intros x Hx. by apply (elem_of_replace_row b f) in Hx.
    + intros x Hx Hxh. split; [| auto]. apply (elem_of_replace_row b f); [done.. |]. right. auto.
    + intros g p Hp Hb Hph. apply find_replace_row; [done.. |].
      apply find_some in Hp as [Hp%list_elem_of_In _]. intros Heq. by apply (Hne p Hp Hph).
    + right. by exists f.
  - destruct Ef as (e & Ef).
    assert (Hr : block_rows w1 = block_rows w).
    { pose proof (steps_oneG (same t_blocks)
        (fun b => bool_decide (block_Hash b = blk_Hash json)) w) as Hs.
      rewrite Ef in Hs. by apply block_rows_same. }
    apply insertG_block in E as (E & Hb & Hnew). rewrite Hr in E, Hnew. rewrite E.
    assert (Hh : block_Hash b = blk_Hash json) by (by rewrite Hb).
    split.
    + apply keys_ok_app; [done |]. intros x Hx. by apply Hnew.
    + apply elem_of_app. right. by left.
    + exists (empty_block <| block_ID := auto (t_blocks (db w1)) |>). by rewrite Hb.
    + intros x [Hx | ->%list_elem_of_singleton]%elem_of_app; [right | by left].
      split; [done | by apply Hnew].
    + intros x Hx _. split; [apply elem_of_app; by left | by apply Hnew].
    + intros g p Hp _ _. by apply find_app_left.
    + left. intros x Hx. rewrite <- Hh. by apply Hnew.
Qed.

Lemma setPreviousBlockInfo_Ok h hash w w' :
  0 < h -> blocks_ok (block_rows w) -> setPreviousBlockInfo h hash w = (Ok tt, w') ->
  exists p, List.find (fun b => block_Height b =? h - 1) (block_rows w) = Some p /\
    block_rows w' = replace_row (p <| block_NextBlockHash := Some hash |>) (block_rows w).
Proof.
  intros Hh Hok. unfold setPreviousBlockInfo. replace (h <? 1) with false by lia.
  intros E. apply mbind_Ok in E as (p & w1 & [Hp Hdb]%oneG_Ok & E).
  assert (Hr : block_rows w1 = block_rows w) by (unfold table_rows; by rewrite Hdb).
  exists p. split; [exact Hp |]. apply find_some in Hp as [Hin%list_elem_of_In _].
  rewrite <- Hr. eapply (updateG_block _ p); [by rewrite Hr | by rewrite Hr | done | exact E].
Qed.

Lemma block_rows_sync txs t h w : block_rows (sync_txs txs t h w).2 = block_rows w.
Proof. apply block_rows_same, sync_txs_blocks. Qed.

(** A successful [ProcessBlock]: the block is saved, its predecessor is linked to it, and it is
    marked complete; [l] is the table in between. *)
Lemma ProcessBlock_Ok h json w ob w' :
  0 < h -> blocks_ok (block_rows w) -> ProcessBlock h json w = (Ok (ob, None), w') ->
  exists b l p, ob = Some b /\ saved h json b (block_rows w) l /\
    List.find (fun b => block_Height b =? h - 1) l = Some p /\
    block_rows w' = replace_row (with_state BlockProcessingStateComplete b)
      (replace_row (p <| block_NextBlockHash := Some (blk_Hash json) |>) l).
Proof.
  intros Hh Hok E. unfold ProcessBlock in E.
  apply mbind_Ok in E as (parsed & w1 & Ep%mtry_Ok & E).
  destruct parsed as [b | e]; [| by simplify_eq].
  apply parseBlockInfo_Ok in Ep as Hs; [| done].
  apply mbind_Ok in E as (r & w2 & Er%mtry_Ok & E).
  destruct r as [[] | e]; simplify_eq/=. injection E as <- <-.
  apply mbind_Ok in Er as ([] & w3 & E3 & Er). apply mbind_Ok in Er as ([] & w4 & E4 & Er).
  apply setPreviousBlockInfo_Ok in E3 as (p & Hp & Hr3); [| done | apply Hs].
  assert (Hr4 : block_rows w4 = block_rows w3).
  { pose proof (block_rows_sync (blk_Tx json) (block_BlockTime b) (block_Height b) w3) as Hsy.
    by rewrite E4 in Hsy. }
  exists b, (block_rows w1), p. split; [done | split; [done | split; [done |]]].
  rewrite <- Hr3, <- Hr4. eapply mark_block; [| | exact Er]; rewrite Hr4, Hr3.
  - apply replace_row_ok, Hs.
  - apply find_some in Hp as [Hin%list_elem_of_In Hph].
    apply (elem_of_replace_row _ p); [done | done |]. right. split; [apply Hs |].
    destruct Hs as [Hok1 Hb1 [b0 ->] _ _ _ _]. intros Heq. cbn in Heq.
    assert (p = fill_block h json b0) as -> by (by eapply keys_ok_eq). cbn in Hph. lia.
Qed.

(** Between saving and marking, at most the predecessor's link changes. *)
Definition linked (json : GetBlockResponse) (l l' : list Block) : Prop :=
  l' = l \/
  exists p, p ∈ l /\ l' = replace_row (p <| block_NextBlockHash := Some (blk_Hash json) |>) l.

Lemma setPreviousBlockInfo_linked h json w :
  blocks_ok (block_rows w) ->
  linked json (block_rows w) (block_rows (setPreviousBlockInfo h (blk_Hash json) w).2).
Proof.
  intros Hok. unfold setPreviousBlockInfo. destruct (h <? 1); [by left |]. unfold mbind.
  pose proof (steps_oneG (same t_blocks) (fun b => block_Height b =? h - 1) w) as Hs.
  destruct (oneG _ w) as [[p | e | e] w1] eqn:E1;
    [| left; by apply block_rows_same..].
  apply oneG_found in E1 as (Hp & _ & Hdb).
  assert (Hr : block_rows w1 = block_rows w) by (unfold table_rows; by rewrite Hdb).
  set (p' := p <| block_NextBlockHash := _ |>).
  destruct (updateG p' w1) as [r w2] eqn:E2. cbn [snd]. destruct r as [u | e | e].
  - right. exists p. split; [done |]. rewrite <- Hr.
    eapply (updateG_block p' p); [by rewrite Hr | by rewrite Hr | done | exact E2].
  - left. rewrite <- Hr. pose proof (stmt_failed (update_rows (fun _ => p') p') w1) as Hf.
    unfold updateG in E2. rewrite E2 in Hf. unfold table_rows. cbn in Hf. by rewrite Hf.
  - left. rewrite <- Hr. pose proof (stmt_failed (update_rows (fun _ => p') p') w1) as Hf.
    unfold updateG in E2. rewrite E2 in Hf. unfold table_rows. cbn in Hf. by rewrite Hf.
Qed.

(** A [ProcessBlock] that fails after it saved the block. *)
Lemma ProcessBlock_failed h json w b e w' :
  blocks_ok (block_rows w) -> ProcessBlock h json w = (Ok (Some b, Some e), w') ->
  exists l, saved h json b (block_rows w) l /\ linked json l (block_rows w').
Proof.
  intros Hok E. unfold ProcessBlock in E.
  apply mbind_Ok in E as (parsed & w1 & Ep%mtry_Ok & E).
  destruct parsed as [b' | e']; [| by simplify_eq].
  apply parseBlockInfo_Ok in Ep as Hs; [| done].
  apply mbind_Ok in E as (r & w2 & Er%mtry_Ok & E). destruct r as [[] | e']; [by simplify_eq |].
  injection E as -> -> <-. exists (block_rows w1). split; [done |].
  pose proof (setPreviousBlockInfo_linked h json w1 (sv_ok _ _ _ _ _ Hs)) as Hl.
  unfold mbind at 1 in Er.
  destruct (setPreviousBlockInfo _ _ w1) as [[[] | e1 | e1] w3];
    cbn [snd] in Hl; [| by injection Er as -> <- | done].
  unfold mbind in Er.
  pose proof (block_rows_sync (blk_Tx json) (block_BlockTime b) (block_Height b) w3) as Hsy.
  destruct (sync_txs _ _ _ w3) as [[[] | e1 | e1] w4]; cbn [snd] in Hsy; rewrite <- Hsy in Hl;
    [| by injection Er as -> <- | done].
  pose proof (stmt_failed (update_rows (with_state BlockProcessingStateComplete) b) w4) as Hf.
  unfold markBlockProcessingState, update_colsG in Er. rewrite Er in Hf. cbn in Hf.
  unfold table_rows in *. by rewrite Hf.
Qed.

(** In a healthy database, a block that could not be saved is not in the table. *)
Lemma insertG_block_failed `{!Healthy} (b : Block) w e w' :
  insertG b w = (Err e, w') -> block_rows w' = block_rows w.
Proof.
  unfold insertG, mbind. destruct (stmt (insert_row b) w) as [[b' | e1 | e1] w1] eqn:E1.
  - apply stmt_Ok in E1 as [E1 _]. unfold oneG, query, stmt. rewrite healthy.
    destruct (List.find (same_key b') (rows (get_table (db w1)))) eqn:Ef; [done |]. exfalso.
    assert (Hin : In b' (rows (get_table (db w1)))).
    { unfold insert_row in E1. repeat case_match; try done. injection E1 as <- <-.
      cbn -[fill_key]. apply in_or_app. right. by left. }
    pose proof (find_none _ _ Ef _ Hin) as Hk. cbn in Hk. lia.
  - intros [= _ <-]. pose proof (stmt_failed (insert_row b) w) as Hf. rewrite E1 in Hf.
    cbn in Hf. unfold table_rows. by rewrite Hf.
  - done.
Qed.

Lemma ProcessBlock_not_saved `{!Healthy} h json w e w' :
  ProcessBlock h json w = (Ok (None, Some e), w') -> block_rows w' = block_rows w.
Proof.
  intros E. apply mbind_Ok in E as (parsed & w1 & Ep%mtry_Ok & E).
  destruct parsed as [b | e'].
  { apply mbind_Ok in E as ([[] | ?] & w2 & _ & E); by simplify_eq. }
  injection E as -> <-. unfold parseBlockInfo, mbind in Ep.
  pose proof (steps_get_or_nil (same t_blocks) _
    (steps_oneG _ (fun b => bool_decide (block_Hash b = blk_Hash json))) w) as Hs.
  destruct (get_or_nil _ w) as [[found | e2 | e2] w2]; cbn [snd] in Hs;
    rewrite <- (block_rows_same _ _ Hs); [| by injection Ep as _ <- | done].
  destruct found as [f |].
  - match goal with Ep : context [updateG ?b w2] |- _ =>
      pose proof (stmt_failed (update_rows (fun _ => b) b) w2) as Hf;
      change (stmt (update_rows (fun _ => b) b)) with (updateG b) in Hf;
      destruct (updateG b w2) as [[u | e3 | e3] w3]; cbn in Hf end;
      [done | | done]. injection Ep as _ <-. unfold table_rows. by rewrite Hf.
  - by apply insertG_block_failed in Ep.
Qed.

(** The retries give up only after three failures; a healthy database deletes at once. *)
Lemma deleteBlockWithRetry_healthy `{!Healthy} b w :
  deleteBlockWithRetry b w = (Ok tt, mkWorld (delete_block b (db w)) (S (tick w))).
Proof. unfold deleteBlockWithRetry, mbind, mtry, deleteG_block, stmt. cbn. by rewrite healthy. Qed.

(** ** Reorganisations *)

(** Heights above 0 are distinct (the mempool's block has height 0, like the genesis block). *)
Definition heights_ok (l : list Block) : Prop :=
  forall b b', b ∈ l -> b' ∈ l -> 0 < block_Height b -> block_Height b = block_Height b' -> b = b'.

(** The rows without those at the heights above [k] up to [top]. *)
Definition kept (k top : Z) (l : list Block) : list Block :=
  List.filter (fun b => negb ((k <? block_Height b) && (block_Height b <=? top))) l.

Lemma elem_of_kept k top l b :
  b ∈ kept k top l <-> b ∈ l /\ ~ (k < block_Height b <= top).
Proof. unfold kept. rewrite !list_elem_of_In, filter_In. naive_solver lia. Qed.
Lemma kept_all k l : kept k k l = l.
Proof.
  unfold kept. induction l as [| b l IH]; [done |]. cbn. rewrite IH.
  by replace ((k <? block_Height b) && (block_Height b <=? k)) with false by lia.
Qed.
Lemma kept_kept k m top l : k <= m -> m <= top -> kept k m (kept m top l) = kept k top l.
Proof.
  intros Hk Hm. unfold kept. induction l as [| b l IH]; [done |]. cbn.
  destruct (Z.leb_spec (block_Height b) top), (Z.ltb_spec m (block_Height b)); cbn;
    rewrite IH; destruct (Z.ltb_spec k (block_Height b)), (Z.leb_spec (block_Height b) m);
    cbn; try done; lia.
Qed.
Lemma kept_ok k top l : blocks_ok l -> blocks_ok (kept k top l).
Proof. apply keys_ok_filter. Qed.
Lemma kept_heights k top l : heights_ok l -> heights_ok (kept k top l).
Proof. intros Hu b b' [? _]%elem_of_kept [? _]%elem_of_kept. by apply Hu. Qed.

(** Deleting the block of a height above 0 is dropping that height. *)
Lemma drop_row_kept b l :
  blocks_ok l -> heights_ok l -> b ∈ l -> 0 < block_Height b ->
  drop_row b l = kept (block_Height b - 1) (block_Height b) l.
Proof.
  intros Hok Hu Hb Hpos. unfold drop_row, kept. apply filter_ext_in. intros x Hx.
  apply list_elem_of_In in Hx. f_equal. cbn.
  destruct (Z.eqb_spec (block_ID b) (block_ID x)) as [Heq | Hne].
  - assert (b = x) as <- by (by eapply keys_ok_eq). lia.
  - destruct (Z.eq_dec (block_Height b) (block_Height x)) as [Hh | Hh]; [| lia].
    destruct Hne. f_equal. by apply Hu.
Qed.

Lemma block_at_Ok h w b w' :
  block_at h w = (Ok b, w') ->
  List.find (fun b => block_Height b =? h) (block_rows w) = Some b /\ db w' = db w.
Proof.
  intros E. apply mbind_Ok in E as (b1 & w1 & [Hb Hdb]%oneG_Ok & E).
  apply mbind_Ok in E as (l & w2 & [_ Hdb2]%allG_Ok & [= <- <-]).
  split; [exact Hb | congruence].
Qed.

Lemma block_at_no_rows `{!DriverFaults} h w e w' :
  block_at h w = (Err e, w') -> unwrap e = ErrNoRows ->
  forall b, b ∈ block_rows w -> block_Height b <> h.
Proof.
  unfold block_at, mbind. destruct (oneG _ w) as [[b | e1 | e1] w1] eqn:E1; [| | done].
  - destruct (allG _ w1) as [[l | e2 | e2] w2] eqn:E2; [done | | done].
    intros [= -> <-] He. exfalso. revert E2. unfold allG, query, stmt.
    destruct (db_fault (tick w1)) as [e3 |] eqn:Ef; [| done].
    intros [= -> _]. by destruct (driver_faults _ _ Ef).
  - intros [= -> <-] He. destruct (oneG_no_rows _ _ _ _ E1 He) as [Hno _].
    intros b Hb. specialize (Hno b Hb). cbn in Hno. lia.
Qed.

Lemma steps_block_at R `{!PreOrder R} h : steps (on_db R) (block_at h).
Proof. unfold block_at. go_steps. Qed.

Lemma block_at_opt_spec `{!DriverFaults} p h w :
  block_rows (block_at_opt p h w).2 = block_rows w /\
  match (block_at_opt p h w).1 with
  | Ok (Some b) => List.find (fun b => block_Height b =? h) (block_rows w) = Some b
  | Ok None => forall b, b ∈ block_rows w -> block_Height b <> h
  | _ => True
  end.
Proof.
  unfold block_at_opt, mbind, mtry, mret, mfail, mlift.
  pose proof (steps_block_at (same t_blocks) h w) as Hs.
  assert (Hr : block_rows (block_at h w).2 = block_rows w) by (by apply block_rows_same).
  destruct (block_at h w) as [[b | e | e] w1] eqn:E; cbn in *.
  - by apply block_at_Ok in E as [? _].
  - split; [by destruct (unwrap e) |].
    destruct (unwrap e) eqn:Eu; [done.. | | done | done | done | done | done | done | done | done].
    cbn. intros b Hb. by eapply block_at_no_rows.
  - done.
Qed.

(** [hash] is the predecessor that the node, asked at some moment for the block at [height],
    reported. *)
Definition reported (height : Z) (hash : string) : Prop :=
  exists now block_hash json, node_block_hash now height = Ok block_hash /\
    node_block (S now) block_hash = Ok json /\ blk_PreviousBlockHash json = hash.

Lemma getBlockToProcess_spec h w :
  db (getBlockToProcess h w).2 = db w /\
  forall json, (getBlockToProcess h w).1 = Ok json ->
    exists hash, node_block_hash (tick w) h = Ok hash /\ node_block (S (tick w)) hash = Ok json.
Proof.
  unfold getBlockToProcess, prefixed, mbind, mtry, ask, mret, mfail, mlift.
  destruct (node_block_hash (tick w) h) as [hash | e | e]; cbn; [| done..].
  destruct (node_block (S (tick w)) hash) as [json | e | e] eqn:E; cbn; [| done..].
  split; [done |]. intros json' [= ->]. by exists hash.
Qed.

(** The blocks of [l] above [k] up to [top] are stale: the one at [top] is not [prev], and a
    lower one is not the predecessor that the node reported for the block above it. *)
Definition stale_above (k top : Z) (prev : string) (l : list Block) : Prop :=
  forall b, b ∈ l -> k < block_Height b <= top ->
    (block_Height b = top /\ block_Hash b <> prev) \/
    (block_Height b < top /\
     exists hash, reported (block_Height b + 1) hash /\ block_Hash b <> hash).

Lemma stale_above_none top prev l : stale_above top top prev l.
Proof. intros b _. lia. Qed.
Lemma stale_above_one top prev l :
  (forall b, b ∈ l -> block_Height b = top -> block_Hash b <> prev) ->
  stale_above (top - 1) top prev l.
Proof. intros Hne b Hb Hk. left. assert (block_Height b = top) by lia. auto. Qed.
Lemma stale_above_deeper k top prev prev' l :
  k <= top - 1 -> reported top prev' ->
  (forall b, b ∈ l -> block_Height b = top -> block_Hash b <> prev) ->
  stale_above k (top - 1) prev' (kept (top - 1) top l) -> stale_above k top prev l.
Proof.
  intros Hk Hrep Hne Hst b Hb Hh. destruct (Z.eq_dec (block_Height b) top) as [Ht | Ht]; [auto |].
  right. split; [lia |].
  destruct (Hst b) as [[Hb1 Hp] | [Hb1 Hp]]; [apply elem_of_kept; split; [done | lia] | lia | | done].
  exists prev'. by replace (block_Height b + 1) with top by lia.
Qed.

(** How the search for the common ancestor ends, from the table [l] with [pb] at height [top]:
    the blocks at the heights above some [k] are gone, all of them stale, and nothing else; [k]
    is the height of the answer. *)
Definition reorg_post (left : nat) (top : Z) (pb : Block) (prev : string) (l : list Block)
  (out : res reorg_result * World) : Prop :=
  exists k, top - Z.of_nat left <= k <= top /\ 0 <= k /\ block_rows out.2 = kept k top l /\
  stale_above k top prev l /\
  match out.1 with
  | Ok (MissingBlock k') => k' = k /\ k < top /\ forall b, b ∈ block_rows out.2 -> block_Height b <> k
  | Ok (StoppedAt depth k' p c) =>
      k' = k /\ Z.of_nat depth = Z.of_nat maxReorgDepth - Z.of_nat left + (top - k) /\
      p ∈ block_rows out.2 /\ block_Height p = k /\
      (k = top -> p = pb /\ c = prev) /\ (k < top -> reported (k + 1) c)
  | _ => True
  end.

Lemma delete_prefixed_spec p b w :
  block_rows (prefixed p (deleteG_block b) w).2 =
    match (prefixed p (deleteG_block b) w).1 with
    | Ok _ => drop_row b (block_rows w)
    | _ => block_rows w
    end.
Proof.
  destruct (prefixed_spec p (deleteG_block b) w) as [-> ->]. unfold table_rows.
  destruct (deleteG_block b w) as [[u | e | e] w1] eqn:E; cbn [fst snd].
  1: by rewrite (deleteG_block_Ok b w u w1 E).
  all: pose proof (stmt_failed (fun d => Ok (tt, delete_block b d)) w) as Hf;
    unfold deleteG_block in E; rewrite E in Hf; cbn in Hf; by rewrite Hf.
Qed.

Lemma get_prefixed_spec p h w :
  block_rows (prefixed p (getBlockToProcess h) w).2 = block_rows w /\
  forall json, (prefixed p (getBlockToProcess h) w).1 = Ok json ->
    reported h (blk_PreviousBlockHash json).
Proof.
  destruct (prefixed_spec p (getBlockToProcess h) w) as [-> ->].
  destruct (getBlockToProcess_spec h w) as [Hdb Hrep].
  split; [unfold table_rows; by rewrite Hdb |]. intros json Hj.
  destruct (Hrep json) as (hash & H1' & H2'); [by destruct (getBlockToProcess h w).1 |].
  by exists (tick w), hash, json.
Qed.

Lemma reorg_post_stop left top pb prev w :
  (left <= maxReorgDepth)%nat -> 0 <= top -> pb ∈ block_rows w -> block_Height pb = top ->
  reorg_post left top pb prev (block_rows w)
    (Ok (StoppedAt (maxReorgDepth - left) top pb prev), w).
Proof.
  intros Hl Ht Hpb Hh. exists top. cbn [fst snd]. rewrite kept_all.
  split; [lia | split; [done | split; [done | split; [apply stale_above_none |]]]].
  split; [done | split; [lia | split; [done | split; [done |]]]]. split; [done | lia].
Qed.

(** One block deeper. *)
Lemma reorg_post_deeper left top pb prev pb' prev' l out :
  0 < top -> reported top prev' ->
  (forall b, b ∈ l -> block_Height b = top -> block_Hash b <> prev) ->
  reorg_post left (top - 1) pb' prev' (kept (top - 1) top l) out ->
  reorg_post (S left) top pb prev l out.
Proof.
  intros Hpos Hrep Hne (k & Hk & Hk0 & Hr & Hst & Hpost). exists k.
  split; [lia | split; [done | split; [by rewrite Hr, kept_kept by lia |]]].
  split; [eapply stale_above_deeper; [lia | done..] |].
  destruct out.1 as [[k' | depth k' p c] | |]; [| | done..].
  - destruct Hpost as (-> & ? & ?). split; [done | split; [lia | done]].
  - destruct Hpost as (-> & Hd & Hin & Hh & Heq & Hlt).
    split; [done | split; [lia | split; [done | split; [done |]]]].
    split; [lia |]. intros _. destruct (Z.eq_dec k (top - 1)) as [-> | Hk1].
    + destruct (Heq eq_refl) as [_ ->]. by replace (top - 1 + 1) with top by lia.
    + apply Hlt. lia.
Qed.

Lemma reorg_loop_spec `{!DriverFaults} left top pb prev w :
  (left <= maxReorgDepth)%nat -> 0 <= top ->
  blocks_ok (block_rows w) -> heights_ok (block_rows w) ->
  pb ∈ block_rows w -> block_Height pb = top ->
  reorg_post left top pb prev (block_rows w) (reorg_loop left top pb prev w).
Proof.
  revert top pb prev w. induction left as [| left IH]; intros top pb prev w Hleft Htop Hok Hu Hpb Hh;
    cbn [reorg_loop]; case_bool_decide as Hne; try (by apply reorg_post_stop).
  destruct (Z.leb_spec top 0) as [? | Hpos]; [by apply reorg_post_stop |].
  set (l := block_rows w) in *.
  assert (Hnone : forall b, b ∈ l -> block_Height b = top -> block_Hash b <> prev).
  { intros b Hb Hbh. assert (b = pb) as -> by (apply Hu; [done | done | lia | lia]). done. }
  assert (Hfail : forall (r : res reorg_result) k w1, top - 1 <= k <= top ->
    block_rows w1 = kept k top l -> (forall x, r <> Ok x) ->
    reorg_post (S left) top pb prev l (r, w1)).
  { intros r k w1 Hk Hr1 Hno. exists k.
    split; [lia | split; [lia | split; [done | split]]].
    - destruct (Z.eq_dec k top) as [-> | Hkt]; [apply stale_above_none |].
      replace k with (top - 1) by lia. by apply stale_above_one.
    - by destruct r as [x | |]; [destruct (Hno x) |..]. }
  unfold mbind at 1.
  match goal with |- context [prefixed ?p (deleteG_block pb) w] =>
    pose proof (delete_prefixed_spec p pb w) as Hd;
    destruct (prefixed p (deleteG_block pb) w) as [[[] | e | e] w1] eqn:E1 end;
    cbn [fst snd] in Hd; fold l in Hd.
  2, 3: apply (Hfail _ top); [lia | by rewrite kept_all | done].
  rewrite (drop_row_kept pb l Hok Hu Hpb), Hh in Hd by lia.
  unfold mbind at 1.
  match goal with |- context [prefixed ?p (getBlockToProcess top) w1] =>
    pose proof (get_prefixed_spec p top w1) as [Hg Hrep];
    destruct (prefixed p (getBlockToProcess top) w1) as [[json | e | e] w2] eqn:E2 end;
    cbn [fst snd] in Hg, Hrep; rewrite Hd in Hg.
  2, 3: apply (Hfail _ (top - 1)); [lia | done | done].
  unfold mbind at 1.
  match goal with |- context [block_at_opt ?p (top - 1) w2] =>
    pose proof (block_at_opt_spec p (top - 1) w2) as [Hb Hfind];
    destruct (block_at_opt p (top - 1) w2) as [[[pb' |] | e | e] w3] eqn:E3 end;
    cbn [fst snd] in Hb, Hfind; rewrite Hg in Hb; try rewrite Hg in Hfind.
  3, 4: apply (Hfail _ (top - 1)); [lia | done | done].
  - apply find_some in Hfind as [Hin%list_elem_of_In Hph].
    eapply reorg_post_deeper; [done | by apply Hrep | done |]. rewrite <- Hb.
    apply IH; rewrite ?Hb; [lia | lia | by apply kept_ok | by apply kept_heights | done | lia].
  - exists (top - 1). cbn [fst snd]. split; [lia | split; [lia | split; [done |]]].
    split; [by apply stale_above_one |]. split; [done | split; [lia |]]. intros b Hin. apply Hfind. rewrite <- Hb. exact Hin.
Qed.

(** ** The head *)

Section Head.
Context `{!Healthy}.

Lemma triple_query {A} (f : DB -> res A) d a :
  f d = Ok a -> triple (fun w => db w = d) (query f) (fun x w => x = a /\ db w = d).
Proof.
  intros E w <-. exists a, (ticked w). split; [| done].
  apply query_healthy; [apply healthy | done].
Qed.
Lemma triple_stmt {A} (f : DB -> res (A * DB)) d a d' :
  f d = Ok (a, d') -> triple (fun w => db w = d) (stmt f) (fun x w => x = a /\ db w = d').
Proof.
  intros E w <-. exists a, (mkWorld d' (S (tick w))). split; [| done].
  apply stmt_healthy; [apply healthy | done].
Qed.
(** Sequencing of operations that return a known value. *)
Lemma triple_seq {A B} d d1 a (m : M World A) (f : A -> M World B) Q :
  triple (fun w => db w = d) m (fun x w => x = a /\ db w = d1) ->
  triple (fun w => db w = d1) (f a) Q -> triple (fun w => db w = d) (mbind m f) Q.
Proof.
  intros Hm Hf. eapply triple_bind; [exact Hm |]. intros x w [-> Hw]. by apply Hf.
Qed.
Lemma triple_return {A} d (a : A) :
  triple (fun w => db w = d) (mret a) (fun x w => x = a /\ db w = d).
Proof. by apply triple_ret. Qed.

(** A transaction has the inputs and outputs it announced; a block has the transactions it
    announced, all of them with theirs. *)
Definition tx_intact (d : DB) (t : Transaction) : bool :=
  (Z.of_nat (count_if (fun i => bool_decide (in_TransactionHash i = txn_Hash t))
     (rows (t_inputs d))) =? txn_InputCount t) &&
  (Z.of_nat (count_if (fun o => bool_decide (out_TransactionHash o = txn_Hash t))
     (rows (t_outputs d))) =? txn_OutputCount t).
Definition block_txs (d : DB) (b : Block) : list Transaction :=
  List.filter (fun t => bool_decide (txn_BlockHashID t = Some (block_Hash b)))
    (rows (t_transactions d)).
Definition block_intact (d : DB) (b : Block) : bool :=
  (len (block_txs d b) =? block_TXCount b) && forallb (tx_intact d) (block_txs d b).

Lemma triple_tx_intact d t :
  triple (fun w => db w = d) (transactionHasExpectedChildren t)
    (fun x w => x = tx_intact d t /\ db w = d).
Proof.
  eapply triple_seq; [by apply triple_query |]. eapply triple_seq; [by apply triple_query |].
  apply triple_return.
Qed.
Lemma triple_block_intact d b :
  triple (fun w => db w = d) (blockHasExpectedTransactions b)
    (fun x w => x = block_intact d b /\ db w = d).
Proof.
  unfold blockHasExpectedTransactions, block_intact.
  eapply triple_seq; [by apply triple_query |]. change (List.filter _ (rows (get_table d))) with (block_txs d b). cbn beta.
  destruct (len (block_txs d b) =? block_TXCount b); cbn [negb andb]; [| apply triple_return].
  induction (block_txs d b) as [| t l IH]; cbn [all_children forallb]; [apply triple_return |].
  eapply triple_seq; [apply triple_tx_intact |]. destruct (tx_intact d t); [exact IH |].
  apply triple_return.
Qed.
End Head.
End Blocks.
