(* ===== verification/BlockTheorems.v ===== *)
(** * Block processing: what it guarantees

    Theorems about reorganisations, the processing of one block, the start-up clean-up and
    the deletion of blocks, for all behaviours of the node and (where it is not said otherwise)
    of a database whose statements fail at will. *)
From S2P Require Import Prelude Bytes Lbrycrd Rows Store Datastore StoreFacts Keyed BlockSync.
From S2P Require Import DemoWorld BlockProcessing BlockSyncProofs BlockFacts.

Section Theorems.
Context `{Faults, Node, TxSync, !TxSyncLaws}.

(** The search for the common ancestor, as one case analysis. *)
Lemma reorg_outcome `{!DriverFaults} h prev w :
  0 < h -> blocks_ok (block_rows w) -> heights_ok (block_rows w) ->
  let out := checkHandleReorg h prev w in
  exists k, h - 101 <= k < h /\ 0 <= k /\ block_rows out.2 = kept k (h - 1) (block_rows w) /\
  stale_above k (h - 1) prev (block_rows w) /\
  forall r, out.1 = Ok r ->
    (r = h /\ k = h - 1 /\
     exists p, List.find (fun b => block_Height b =? h - 1) (block_rows w) = Some p /\
       block_Hash p = prev) \/
    (r = k /\
     ((forall b, b ∈ block_rows out.2 -> block_Height b <> r) \/
      exists p, p ∈ block_rows out.2 /\ block_Height p = r /\ reported (r + 1) (block_Hash p))).
Proof.
  intros Hpos Hok Hu. cbn zeta. unfold checkHandleReorg.
  replace (0 <? h) with true by lia. unfold mbind.
  match goal with |- context [block_at_opt ?p (h - 1) w] =>
    pose proof (block_at_opt_spec p (h - 1) w) as [Hb Hfind];
    destruct (block_at_opt p (h - 1) w) as [[[pb |] | e | e] w1] end; cbn [fst snd] in Hb, Hfind.
  2, 3, 4: unfold mret; cbn [fst snd]; exists (h - 1); rewrite kept_all;
    split; [lia | split; [lia | split; [exact Hb | split; [apply stale_above_none |]]]]; try done.
  2: intros r [= <-]; right; split; [done | left]; intros b; rewrite Hb; apply Hfind.
  pose proof Hfind as [Hin%list_elem_of_In Hph]%find_some.
  pose proof (reorg_loop_spec maxReorgDepth (h - 1) pb prev w1) as Hloop. rewrite Hb in Hloop.
  destruct Hloop as (k & Hk & Hk0 & Hr & Hst & Hpost); [lia | lia | done | done | done | lia |].
  change (Z.of_nat maxReorgDepth) with 100 in *. exists k.
  destruct (reorg_loop _ _ _ _ w1) as [[[k' | depth k' p c] | e | e] w2]; unfold mret, mfail, mlift;
    cbn [fst snd] in *.
  3, 4: split; [lia | split; [done | split; [done | split; done]]].
  - destruct Hpost as (-> & Hlt & Hno).
    split; [lia | split; [done | split; [done | split; [done |]]]].
    intros r [= <-]. right. split; [done | by left].
  - destruct Hpost as (-> & Hd & Hp & Hkp & Heq & Hlt).
    case_bool_decide as Hhash; cbn [negb fst snd];
      (split; [lia | split; [done | split; [done | split; [done |]]]]); [| done].
    intros r [= <-]. destruct (Nat.ltb_spec 0 depth).
    + right. split; [done |]. right. exists p. split; [done | split; [done |]].
      rewrite Hhash. apply Hlt. lia.
    + left. assert (k = h - 1) as -> by lia. split; [done | split; [done |]].
      exists p. destruct (Heq eq_refl) as [-> ->]. auto.
Qed.

(** C10: reorganisations delete exactly the stale end of the chain.  Whatever happens,
    [checkHandleReorg] at height [h] removes the blocks above some height [k >= h - 101] and
    below [h], and no other block.  Every block it removes is stale: the one at [h - 1] is not
    the predecessor it was given, and a lower one is not the predecessor that the node reports
    for the height above.  It answers [h] only if the table is unchanged and the stored block
    at [h - 1] is the predecessor it was given.  It answers a lower [r] only if the blocks
    between [r] and [h] are gone and either there is no block at [r] or the block stored there
    is the predecessor that the node reports for the block at [r + 1]. *)
Theorem checkHandleReorg_spec `{!DriverFaults} h prev w :
  0 < h -> blocks_ok (block_rows w) -> heights_ok (block_rows w) ->
  let out := checkHandleReorg h prev w in
  (exists k, h - 101 <= k < h /\ 0 <= k /\ block_rows out.2 = kept k (h - 1) (block_rows w) /\
     stale_above k (h - 1) prev (block_rows w)) /\
  forall r, out.1 = Ok r ->
    (r = h /\ block_rows out.2 = block_rows w /\
     exists p, List.find (fun b => block_Height b =? h - 1) (block_rows w) = Some p /\
       block_Hash p = prev) \/
    (0 <= r < h /\ h - 101 <= r /\ block_rows out.2 = kept r (h - 1) (block_rows w) /\
     stale_above r (h - 1) prev (block_rows w) /\
     ((forall b, b ∈ block_rows out.2 -> block_Height b <> r) \/
      exists p, p ∈ block_rows out.2 /\ block_Height p = r /\ reported (r + 1) (block_Hash p))).
Proof.
  intros Hpos Hok Hu.
  destruct (reorg_outcome h prev w Hpos Hok Hu) as (k & Hk & Hk0 & Hrows & Hst & Hans).
  cbn zeta. split; [by exists k |]. intros r Hr. destruct (Hans r Hr) as [(-> & -> & Hp) | (-> & Hp)].
  - left. rewrite kept_all in Hrows. auto.
  - right. split; [lia | split; [lia | auto]].
Qed.

(** What the run at height [h] got to see: the node's answer for that height. *)
Lemma RunBlockProcessing_inv h w r w' :
  0 < h -> RunBlockProcessing h w = (Ok r, w') ->
  (exists w1, db w1 = db w /\ r = h - 1 /\ w' = w1) \/
  exists hash json w1, node_block_hash (tick w) h = Ok hash /\
    node_block (S (tick w)) hash = Ok json /\ db w1 = db w /\
    let out := checkHandleReorg h (blk_PreviousBlockHash json) w1 in
    ((exists e, out.1 = Err e) /\ r = h - 1 /\ w' = out.2 \/
     (exists k, out.1 = Ok k /\ k <> h /\ r = k /\ w' = out.2) \/
     out.1 = Ok h /\ exists ob oe w2, ProcessBlock h json out.2 = (Ok (ob, oe), w2) /\
       match oe, ob with
       | None, _ => r = h /\ w' = w2
       | Some _, None => r = h - 1 /\ w' = w2
       | Some _, Some b => r = h - 1 /\ w' = (mtry (deleteBlockWithRetry b) w2).2
       end).
Proof.
  intros Hpos. unfold RunBlockProcessing. replace (h =? 0) with false by lia.
  intros E. apply mbind_Ok in E as (answer & w1 & Eg%mtry_Ok & E).
  pose proof (getBlockToProcess_spec h w) as [Hdb Hans]. rewrite
  (surjective_pairing (getBlockToProcess h w)) in Eg.
  destruct answer as [json | e]; injection Eg as Eg <-; cycle 1.
  { left. injection E as <- <-. by eexists. }
  right. destruct (Hans json Eg) as (hash & Hhash & Hblock).
  exists hash, json, (getBlockToProcess h w).2. do 3 (split; [done |]). cbn zeta.
  set (w1 := (getBlockToProcess h w).2) in *. clearbody w1.
  apply mbind_Ok in E as (ro & w2 & Er%mtry_Ok & E).
  rewrite (surjective_pairing (checkHandleReorg _ _ w1)) in Er.
  destruct ro as [k | e]; injection Er as Er <-; cycle 1.
  { left. injection E as <- <-. split; [by exists e | done]. }
  right. destruct (Z.eqb_spec k h) as [-> | Hne]; cbn [negb] in E; cycle 1.
  { left. injection E as <- <-. by exists k. }
  right. split; [done |]. apply mbind_Ok in E as ([ob oe] & w3 & Ep & E).
  exists ob, oe, w3. split; [done |]. destruct oe as [e |]; [| by injection E as <- <-].
  apply mbind_Ok in E as ([] & w4 & Ed & E). injection E as <- <-.
  destruct ob as [b |]; [| by injection Ed as <-]. split; [done |].
  unfold mbind in Ed. destruct (mtry (deleteBlockWithRetry b) w3) as [[x | x | x] w5]; [| done..].
  by injection Ed as <-.
Qed.

(** C8: what a processed block is.  If [RunBlockProcessing] answers the height it was given,
    the block that the node reported for that height is stored there, marked complete, with
    its number of transactions; the block it names as its predecessor is stored one below and
    names it as its successor.  (The node does not report a block as its own predecessor.) *)
Theorem RunBlockProcessing_complete `{!DriverFaults} h w w' :
  0 < h -> blocks_ok (block_rows w) -> heights_ok (block_rows w) ->
  (forall now hash json, node_block now hash = Ok json ->
     blk_PreviousBlockHash json <> blk_Hash json) ->
  RunBlockProcessing h w = (Ok h, w') ->
  exists hash json b p, node_block_hash (tick w) h = Ok hash /\
    node_block (S (tick w)) hash = Ok json /\
    b ∈ block_rows w' /\ block_Hash b = blk_Hash json /\ block_Height b = h /\
    block_TXCount b = blk_NTx json /\
    block_ProcessingState b = Some BlockProcessingStateComplete /\
    block_PreviousBlockHash b = Some (blk_PreviousBlockHash json) /\
    p ∈ block_rows w' /\ block_Height p = h - 1 /\
    block_Hash p = blk_PreviousBlockHash json /\
    block_NextBlockHash p = Some (blk_Hash json).
Proof.
  intros Hpos Hok Hu Hnode E.
  destruct (RunBlockProcessing_inv h w h w' Hpos E) as [(? & _ & ? & _) | Hinv]; [lia |].
  destruct Hinv as (hash & json & w1 & Hhash & Hblock & Hdb & Hrun). cbn zeta in Hrun.
  exists hash, json.
  assert (Hrows : block_rows w1 = block_rows w) by (unfold table_rows; by rewrite Hdb).
  destruct (reorg_outcome h (blk_PreviousBlockHash json) w1 Hpos) as (k & Hk & _ & Hkept & _ & Hans);
    [by rewrite Hrows.. |]. rewrite Hrows in Hans, Hkept.
  destruct Hrun as [(_ & ? & _) | [(k' & _ & ? & ? & _) | (Hh & ob & oe & w2 & Ep & Hend)]];
    [lia | lia |].
  destruct (Hans h Hh) as [(_ & -> & p & Hp & Hprev) | (? & _)]; [| lia].
  rewrite kept_all in Hkept. rename Hkept into Hr.
  destruct oe as [e |]; [destruct ob; lia |]. destruct Hend as [_ ->].
  apply ProcessBlock_Ok in Ep as (b & l & p' & -> & Hs & Hp' & Hrows'); [| done | by rewrite Hr].
  rewrite Hr in Hs. pose proof (Hnode _ _ _ Hblock) as Hne.
  pose proof (sv_fill _ _ _ _ _ Hs) as [b0 Hb0].
  assert (p' = p) as ->.
  { rewrite (sv_find _ _ _ _ _ Hs _ p Hp) in Hp'; [congruence | | congruence].
    rewrite Hb0. cbn. lia. }
  apply find_some in Hp' as [Hpin%list_elem_of_In Hph].
  assert (Hid : block_ID p <> block_ID b).
  { intros Heq. assert (p = b) as ->; [| rewrite Hb0 in Hph; cbn in Hph; lia].
    eapply keys_ok_eq; [apply Hs | done | apply Hs | done]. }
  set (p1 := p <| block_NextBlockHash := Some (blk_Hash json) |>) in *.
  assert (Hin1 : forall x, x ∈ replace_row p1 l <-> x = p1 \/ (x ∈ l /\ block_ID x <> block_ID p1))
    by (intros x; exact (elem_of_replace_row p1 p l x Hpin eq_refl)).
  assert (Hb1 : b ∈ replace_row p1 l).
  { apply Hin1. right. split; [apply Hs |]. intros Heq. by apply Hid. }
  assert (Hin2 := fun x => elem_of_replace_row
    (with_state BlockProcessingStateComplete b) b (replace_row p1 l) x Hb1 eq_refl).
  exists (with_state BlockProcessingStateComplete b), p1. rewrite Hrows'.
  do 2 (split; [done |]). split; [apply Hin2; by left |].
  rewrite Hb0. do 5 (split; [done |]). split; [| split; [cbn; lia | split; [exact Hprev | done]]].
  rewrite <- Hb0. apply Hin2. right. split; [apply Hin1; by left | exact Hid].
Qed.

(** A row of the block table, up to the link to its successor. *)
Definition same_block_row (b b' : Block) : Prop :=
  exists next, b' = b <| block_NextBlockHash := next |>.

Lemma same_block_row_refl b : same_block_row b b.
Proof. by exists (block_NextBlockHash b); destruct b. Qed.

(** The hash is a unique key of the table. *)
Definition hashes_ok (l : list Block) : Prop :=
  forall b b', b ∈ l -> b' ∈ l -> block_Hash b = block_Hash b' -> block_ID b = block_ID b'.

(** What a failed block leaves behind, once its row is deleted. *)
Lemma failed_rows h json b l0 l l1 x :
  saved h json b l0 l -> linked json l l1 -> x ∈ drop_row b l1 ->
  exists y, y ∈ l0 /\ same_block_row y x.
Proof.
  intros Hs Hl [Hx Hne]%elem_of_drop_row.
  assert (Hold : forall y, y ∈ l -> block_ID y <> block_ID b -> y ∈ l0).
  { intros y Hy Hyne. by destruct (sv_old _ _ _ _ _ Hs y Hy) as [-> | [? _]]. }
  destruct Hl as [-> | (p & Hp & ->)].
  - exists x. split; [by apply Hold | apply same_block_row_refl].
  - set (p1 := p <| block_NextBlockHash := _ |>) in Hx.
    assert (Hid : key p1 = key p) by done.
    apply (elem_of_replace_row p1 p l x Hp Hid) in Hx as [-> | [Hx _]].
    + exists p. split; [by apply Hold | by eexists].
    + exists x. split; [by apply Hold | apply same_block_row_refl].
Qed.

(** Nor a row of the block itself: the table had at most one, and that one was updated. *)
Lemma failed_rows_hash h json b l0 l l1 x :
  hashes_ok l0 -> saved h json b l0 l -> linked json l l1 -> x ∈ drop_row b l1 ->
  block_Hash x <> blk_Hash json.
Proof.
  intros Hu Hs Hl [Hx Hne]%elem_of_drop_row.
  assert (Hold : forall y, y ∈ l -> block_ID y <> block_ID b -> block_Hash y <> blk_Hash json).
  { intros y Hy Hyne Hh. destruct (sv_old _ _ _ _ _ Hs y Hy) as [-> | [Hy0 _]]; [done |].
    destruct (sv_same _ _ _ _ _ Hs) as [Hno | (z & Hz & Hzh & Hzid)]; [by destruct (Hno y) |].
    apply Hyne. rewrite <- Hzid. apply Hu; [done | done | congruence]. }
  destruct Hl as [-> | (p & Hp & ->)]; [by apply Hold |].
  set (p1 := p <| block_NextBlockHash := _ |>) in Hx.
  assert (Hid : key p1 = key p) by done.
  apply (elem_of_replace_row p1 p l x Hp Hid) in Hx as [-> | [Hx _]]; [| by apply Hold].
  exact (Hold p Hp Hne).
Qed.

(** C9: a failed block is rolled back.  With a healthy database, when [RunBlockProcessing]
    does not answer the height it was given it answers a lower one, at most 101 below.  Either
    the run wrote no row at all: the table holds what was stored before, without the blocks that
    a reorganisation removed.  Or the run had saved the block that the node named at that
    height, and no row with the hash of that block is left, and every row that is left was
    there before in the same processing state: only the link to its successor may have changed.
    So neither a half-processed block nor a block marked complete by mistake remains, whatever
    the node, the synchronisation of the transactions and the reorganisation did. *)
Theorem RunBlockProcessing_rollback `{!Healthy} h w r w' :
  0 < h -> blocks_ok (block_rows w) -> heights_ok (block_rows w) -> hashes_ok (block_rows w) ->
  RunBlockProcessing h w = (Ok r, w') -> r <> h ->
  0 <= r < h /\ h - 101 <= r /\
  ((exists k, h - 101 <= k < h /\ block_rows w' = kept k (h - 1) (block_rows w)) \/
   exists hash json, r = h - 1 /\ node_block_hash (tick w) h = Ok hash /\
     node_block (S (tick w)) hash = Ok json /\
     forall b', b' ∈ block_rows w' -> block_Hash b' <> blk_Hash json /\
       exists b, b ∈ block_rows w /\ same_block_row b b').
Proof.
  intros Hpos Hok Hu Hh E Hr.
  destruct (RunBlockProcessing_inv h w r w' Hpos E) as [(w1 & Hdb & -> & ->) | Hinv].
  { split; [lia | split; [lia |]]. left. exists (h - 1). rewrite kept_all.
    split; [lia |]. unfold table_rows at 1. by rewrite Hdb. }
  destruct Hinv as (hash & json & w1 & Hhash & Hblock & Hdb & Hrun). cbn zeta in Hrun.
  assert (Hrows : block_rows w1 = block_rows w) by (unfold table_rows; by rewrite Hdb).
  destruct (reorg_outcome h (blk_PreviousBlockHash json) w1 Hpos) as (k & Hk & Hk0 & Hkept & _ & Hans);
    [by rewrite Hrows.. |]. rewrite Hrows in Hans, Hkept.
  destruct Hrun as [(Herr & -> & ->) | [(k' & Hk' & Hne & -> & ->) | (Hh' & ob & oe & w2 & Ep & Hend)]].
  - split; [lia | split; [lia |]]. left. exists k. split; [lia | done].
  - destruct (Hans k' Hk') as [(? & _) | (-> & _)]; [done |].
    split; [lia | split; [lia |]]. left. exists k. split; [lia | done].
  - destruct (Hans h Hh') as [(_ & -> & _) | (? & _)]; [| lia].
    rewrite kept_all in Hkept. rename Hkept into Hr1.
    destruct oe as [e |]; [| by destruct Hend].
    destruct ob as [b |]; destruct Hend as [-> ->]; (split; [lia | split; [lia |]]).
    + right. exists hash, json. do 3 (split; [done |]).
      apply ProcessBlock_failed in Ep as (l & Hs & Hl); [| by rewrite Hr1]. rewrite Hr1 in Hs.
      unfold mtry. rewrite deleteBlockWithRetry_healthy. intros x Hx.
      split; [by eapply failed_rows_hash | by eapply failed_rows].
    + left. exists (h - 1). rewrite kept_all. split; [lia |].
      apply ProcessBlock_not_saved in Ep. by rewrite Ep.
Qed.

(** ** The head at start-up *)

(** What the clean-up should leave: the highest block is kept if it was marked complete and
    has its transactions; one from before the marks existed is then marked; otherwise it is
    deleted with everything that hangs on it. *)
Definition head_cleaned (d : DB) : DB :=
  match highest_by block_Height (List.filter not_mempool (rows (t_blocks d))) with
  | None => d
  | Some head =>
      if negb (block_intact d head) || state_is BlockProcessingStateProcessing head ||
         state_is BlockProcessingStateIncomplete head then delete_block head d
      else
        match block_ProcessingState head with
        | Some _ => d
        | None => d <| t_blocks := mkTable
            (replace_row (with_state BlockProcessingStateComplete head) (rows (t_blocks d)))
            (auto (t_blocks d)) |>
        end
  end.

(** Deleting a block is not affected by marking it first. *)
Lemma delete_marked b state d :
  blocks_ok (rows (t_blocks d)) -> b ∈ rows (t_blocks d) ->
  delete_block (with_state state b) (d <| t_blocks := mkTable
    (replace_row (with_state state b) (rows (t_blocks d))) (auto (t_blocks d)) |>) =
  delete_block b d.
Proof.
  intros Hok Hb. unfold delete_block. cbn [t_blocks set_field rows auto].
  set (b' := with_state state b).
  assert (Hin : b' ∈ replace_row b' (rows (t_blocks d)))
    by (apply (elem_of_replace_row b' b); [done | done | by left]).
  rewrite (filter_key (rows (t_blocks d)) b Hok Hb).
  rewrite (filter_key _ b' (replace_row_ok b' _ Hok) Hin).
  assert (Hrows : keep_rows (fun x => negb (same_key b' x))
      (mkTable (replace_row b' (rows (t_blocks d))) (auto (t_blocks d))) =
    keep_rows (fun x => negb (same_key b x)) (t_blocks d)).
  { unfold keep_rows. cbn [rows auto]. f_equal. by apply drop_replace_row. }
  unfold set_field. cbn [t_blocks delete_transactions rows auto]. rewrite Hrows. reflexivity.
Qed.

Lemma triple_mark `{!Healthy} b state d :
  blocks_ok (rows (t_blocks d)) -> hashes_ok (rows (t_blocks d)) -> b ∈ rows (t_blocks d) ->
  triple (fun w => db w = d) (markBlockProcessingState b state) (fun x w => x = tt /\
    db w = d <| t_blocks := mkTable (replace_row (with_state state b) (rows (t_blocks d)))
                              (auto (t_blocks d)) |>).
Proof.
  intros Hok Hh Hb. apply triple_stmt. unfold update_rows.
  cbn [get_table row_block set_table fk_ok parent_ok negb].
  rewrite (find_key _ b b Hok Hb eq_refl), bool_decide_eq_true_2 by done.
  replace (existsb _ _) with false; [done |]. symmetry. apply not_true_iff_false.
  intros (x & Hx%list_elem_of_In & Hc)%existsb_exists.
  apply andb_true_iff in Hc as [Hk Hc%bool_decide_eq_true]. cbn in Hk, Hc.
  specialize (Hh x b Hx Hb Hc). lia.
Qed.

Lemma triple_cleanup `{!Healthy} d :
  blocks_ok (rows (t_blocks d)) -> hashes_ok (rows (t_blocks d)) ->
  triple (fun w => db w = d) cleanupIncompleteHead (fun _ w => db w = head_cleaned d).
Proof.
  intros Hok Hh. unfold cleanupIncompleteHead, head_cleaned.
  destruct (highest_by block_Height (List.filter not_mempool (rows (t_blocks d)))) as [head |] eqn:E.
  - eapply (triple_seq d d (Some head)).
    { intros w Hw. exists (Some head), (ticked w). unfold one_or_none, mbind, mtry.
      unfold chainHeadBlock, best_block. erewrite query_healthy; [done | apply healthy |].
      rewrite Hw. by rewrite E. }
    assert (Hb : head ∈ rows (t_blocks d)).
    { apply highest_by_in, list_elem_of_In, filter_In in E as [E _]. by apply list_elem_of_In. }
    eapply triple_seq; [apply triple_block_intact |].
    destruct (negb (block_intact d head) || _ || _).
    + eapply triple_seq; [apply (triple_mark head _ d Hok Hh Hb) |].
      intros w Hw. eexists _, _. rewrite deleteBlockWithRetry_healthy. split; [done |].
      cbn [db]. rewrite Hw. by apply delete_marked.
    + destruct (block_ProcessingState head); [by apply triple_ret |].
      eapply triple_conseq; [apply (triple_mark head _ d Hok Hh Hb) | done |]. by intros [] w [_ ->].
  - intros w <-. exists tt, (ticked w). split; [| done].
    unfold one_or_none, mbind, mtry, chainHeadBlock, best_block, query, stmt.
    rewrite healthy, E. done.
Qed.

(** C13: the clean-up of the head.  With a healthy database [CleanupIncompleteHead] succeeds
    and does to the database exactly what [head_cleaned] says: a head that is not marked
    complete, or lacks transactions, inputs or outputs it announced, goes with everything that
    hangs on it; any other block, and the mempool's, stays untouched. *)
Theorem cleanupIncompleteHead_spec `{!Healthy} d :
  blocks_ok (rows (t_blocks d)) -> hashes_ok (rows (t_blocks d)) ->
  triple (fun w => db w = d) cleanupIncompleteHead (fun _ w => db w = head_cleaned d).
Proof. apply triple_cleanup. Qed.

(** ** Deletions *)

Lemma delete_attempts b d t :
  deleteBlockWithRetry b (mkWorld d t) =
  match db_fault t, db_fault (S t), db_fault (S (S t)) with
  | None, _, _ => (Ok tt, mkWorld (delete_block b d) (S t))
  | _, None, _ => (Ok tt, mkWorld (delete_block b d) (S (S t)))
  | _, _, None => (Ok tt, mkWorld (delete_block b d) (S (S (S t))))
  | _, _, Some e => (Err e, mkWorld d (S (S (S t))))
  end.
Proof.
  unfold deleteBlockWithRetry, blockDeleteRetryAttempts, mbind, mtry, deleteG_block, stmt. cbn.
  destruct (db_fault t); cbn; [| done]. destruct (db_fault (S t)); cbn; [| done].
  by destruct (db_fault (S (S t))).
Qed.

(** Deleting a block is tried three times.  The first of three consecutive statements
    that does not fail deletes the block with everything that hangs on it, and nothing more is
    sent; when all three fail the database is untouched and the last failure is the error. *)
Theorem deleteBlockWithRetry_spec b w :
  (forall k, (k < 3)%nat -> db_fault (tick w + k) = None ->
     (forall j, (j < k)%nat -> db_fault (tick w + j) <> None) ->
     deleteBlockWithRetry b w = (Ok tt, mkWorld (delete_block b (db w)) (tick w + S k))) /\
  (forall e, (forall k, (k < 3)%nat -> db_fault (tick w + k) <> None) ->
     db_fault (tick w + 2) = Some e ->
     deleteBlockWithRetry b w = (Err e, mkWorld (db w) (tick w + 3))).
Proof.
  destruct w as [d t]. cbn [db tick]. rewrite delete_attempts.
  assert (E0 : (t + 0)%nat = t) by lia. assert (E1 : (t + 1)%nat = S t) by lia.
  assert (E2 : (t + 2)%nat = S (S t)) by lia. assert (E3 : (t + 3)%nat = S (S (S t))) by lia.
  split.
  - intros [| [| [| k]]] Hk Hnone Hprev; [| | | lia]; rewrite ?E0, ?E1, ?E2, ?E3 in *.
    + by rewrite Hnone.
    + specialize (Hprev 0%nat ltac:(lia)). rewrite E0 in Hprev.
      destruct (db_fault t); [| done]. by rewrite Hnone.
    + pose proof (Hprev 0%nat ltac:(lia)) as Hp0. pose proof (Hprev 1%nat ltac:(lia)) as Hp1.
      rewrite ?E0, ?E1 in *.
      destruct (db_fault t); [| done]. destruct (db_fault (S t)); [| done]. by rewrite Hnone.
  - intros e Hall He. pose proof (Hall 0%nat ltac:(lia)) as Hp0.
    pose proof (Hall 1%nat ltac:(lia)) as Hp1. rewrite ?E0, ?E1, ?E2, ?E3 in *.
    destruct (db_fault t); [| done]. destruct (db_fault (S t)); [| done]. by rewrite He.
Qed.

(** The outputs of a state are among those of an earlier one. *)
Definition outputs_shrink : relation DB := fun d d' =>
  forall o, o ∈ rows (t_outputs d') -> o ∈ rows (t_outputs d).
#[export] Instance outputs_shrink_preorder : PreOrder outputs_shrink.
Proof. split; [by intros d o | intros d1 d2 d3 H1' H2' o Ho; auto]. Qed.

Lemma steps_delete_shrink b : steps (on_db outputs_shrink) (deleteG_block b).
Proof.
  apply steps_stmt; [typeclasses eauto |]. intros d [] d' [= <-] o Ho. cbn in Ho.
  apply list_elem_of_In, filter_In in Ho as [Ho _]. by apply list_elem_of_In.
Qed.
Hint Resolve steps_delete_shrink : go.

Lemma steps_getBlockToProcess (R : relation DB) `{!PreOrder R} h :
  steps (on_db R) (getBlockToProcess h).
Proof. pose proof (@steps_ask). unfold getBlockToProcess. go_steps. Qed.
Hint Resolve steps_getBlockToProcess steps_block_at : go.

Lemma shrink_reorg_loop left h pb prev : steps (on_db outputs_shrink) (reorg_loop left h pb prev).
Proof.
  revert h pb prev. induction left as [| left IH]; intros h pb prev; cbn [reorg_loop];
    unfold block_at_opt; go_steps.
Qed.
Hint Resolve shrink_reorg_loop : go.

(** C39: a reorganisation does not touch the outputs that survive it.  Every output left in the
    table is as it was, with its spent mark and the id of the input that spent it: an output
    of the common part of the chain that was spent by a deleted transaction stays marked as
    spent, by an input that is no longer there. *)
Theorem reorg_keeps_spent_marks h prev w o :
  o ∈ rows (t_outputs (db (checkHandleReorg h prev w).2)) -> o ∈ rows (t_outputs (db w)).
Proof.
  assert (Hs : steps (on_db outputs_shrink) (checkHandleReorg h prev))
    by (unfold checkHandleReorg, block_at_opt; go_steps).
  apply (Hs w o).
Qed.
End Theorems.

(** ** Worked examples *)

Import Demo.

Module Examples.
#[export] Instance demo_healthy : Healthy.
Proof. done. Defined.
#[export] Instance demo_txsync : TxSync := block_sync chain 4 3 demo_schedule.
#[export] Instance demo_txsync_laws : TxSyncLaws := block_sync_laws chain 4 3 demo_schedule.

(** The stored block [x1] at height 1 is stale; its transaction 2 spends an output of
    transaction 1, of the genesis block, by its input 9. *)
Definition spent_output : Output :=
  mkOutput 1 1 "t1" None 0 None None None None None true (Some 9) None.
Definition stale_db : DB :=
  demo_db
    <| t_blocks := mkTable [stored_block 1 0 "g" None (Some "complete");
                            stored_block 2 1 "x1" (Some "g") (Some "complete")] 3 |>
    <| t_transactions := mkTable
         [mkTransaction 1 (Some "g") 0 1 None 0 "t1" 1 0 0 f64_zero;
          mkTransaction 2 (Some "x1") 1 0 None 0 "t2" 1 0 0 f64_zero] 3 |>
    <| t_inputs := mkTable
         [mkInput 9 2 "t2" None false None (Some "t1") (Some 0) 0 None None None (Some 0) None] 10 |>
    <| t_outputs := mkTable [spent_output] 2 |>.
Definition stale_world : World := mkWorld stale_db 0.

Lemma stale_ok : blocks_ok (block_rows stale_world).
Proof. apply (bool_decide_unpack _). vm_compute. exact I. Defined.
Lemma stale_heights : heights_ok (block_rows stale_world).
Proof.
  intros b b' Hb Hb' _ Heq. cbn in Hb, Hb'.
  rewrite !elem_of_cons, elem_of_nil in Hb, Hb'.
  destruct Hb as [-> | [-> | []]], Hb' as [-> | [-> | []]]; done.
Defined.
Lemma genesis_ok : blocks_ok (block_rows demo_world).
Proof. apply (bool_decide_unpack _). vm_compute. exact I. Defined.
Lemma genesis_heights : heights_ok (block_rows demo_world).
Proof.
  intros b b' Hb Hb' _ _. cbn in Hb, Hb'. rewrite elem_of_cons, elem_of_nil in Hb, Hb'.
  destruct Hb as [-> | []], Hb' as [-> | []]. done.
Defined.
End Examples.
Import Examples.

(** The stale block goes, and processing resumes from the genesis block. *)
Lemma checkHandleReorg_spec_witness :
  (checkHandleReorg 2 "b1" stale_world).1 = Ok 0 /\
  block_rows (checkHandleReorg 2 "b1" stale_world).2 = kept 0 1 (block_rows stale_world).
Proof.
  assert (E : (checkHandleReorg 2 "b1" stale_world).1 = Ok 0) by (vm_compute; reflexivity).
  split; [exact E |].
  destruct (checkHandleReorg_spec 2 "b1" stale_world) as [_ Hans];
    [lia | exact stale_ok | exact stale_heights |].
  destruct (Hans 0 E) as [(Hcontra & _) | (_ & _ & Hrows & _)]; [lia | exact Hrows].
Defined.

Lemma RunBlockProcessing_complete_witness :
  exists b, b ∈ block_rows (RunBlockProcessing 1 demo_world).2 /\ block_Hash b = "b1" /\
    block_ProcessingState b = Some BlockProcessingStateComplete.
Proof.
  destruct (RunBlockProcessing_complete 1 demo_world (RunBlockProcessing 1 demo_world).2)
    as (hash & json & b & p & Hhash & Hjson & Hb & Hbh & _ & _ & Hst & _).
  - lia.
  - exact genesis_ok.
  - exact genesis_heights.
  - intros now hash json. cbn. case_bool_decide; [| discriminate]. intros [= <-]. discriminate.
  - vm_compute. reflexivity.
  - exists b. split; [exact Hb | split; [| exact Hst]]. rewrite Hbh.
    vm_compute in Hhash. injection Hhash as <-. vm_compute in Hjson. injection Hjson as <-.
    reflexivity.
Defined.

(** The rounds of the coordinator do not suffice for block 1: its synchronisation fails after
    the block was saved, and the block is gone again.  And the node has no block 2: the table is
    as it was. *)
Module FailingSync.
Definition short_schedule : schedule :=
  {| sc_vins := sc_vins demo_schedule; sc_vouts := sc_vouts demo_schedule;
     sc_fetches := sc_fetches demo_schedule; sc_fetch_stop := None; sc_choices := [] |}.
#[local] Instance short_txsync : TxSync := block_sync chain 4 3 short_schedule.
#[local] Instance short_txsync_laws : TxSyncLaws := block_sync_laws chain 4 3 short_schedule.
Definition failed_run : res Z * World := RunBlockProcessing 1 demo_world.

Lemma genesis_hashes : hashes_ok (block_rows demo_world).
Proof.
  intros b b' Hb Hb' _. cbn in Hb, Hb'. rewrite elem_of_cons, elem_of_nil in Hb, Hb'.
  destruct Hb as [-> | []], Hb' as [-> | []]. reflexivity.
Defined.

Lemma RunBlockProcessing_rollback_witness :
  failed_run.1 = Ok 0 /\
  forall b', b' ∈ block_rows failed_run.2 -> exists b, b ∈ block_rows demo_world /\ same_block_row b b'.
Proof.
  split; [vm_compute; reflexivity |].
  destruct (RunBlockProcessing_rollback 1 demo_world 0 failed_run.2)
    as (_ & _ & [(k & _ & Hk) | (hash & json & _ & _ & _ & Hleft)]).
  - lia.
  - exact genesis_ok.
  - exact genesis_heights.
  - exact genesis_hashes.
  - vm_compute. reflexivity.
  - lia.
  - rewrite Hk. intros b' [Hb' _]%elem_of_kept. exists b'. split; [exact Hb' | apply same_block_row_refl].
  - intros b' Hb'. exact (proj2 (Hleft b' Hb')).
Defined.
End FailingSync.

(** The head [x1] announced no transaction but has one: it is deleted. *)
Lemma cleanupIncompleteHead_spec_witness :
  exists w', cleanupIncompleteHead stale_world = (Ok tt, w') /\
    db w' = delete_block (stored_block 2 1 "x1" (Some "g") (Some "complete")) stale_db.
Proof.
  destruct (cleanupIncompleteHead_spec stale_db) with (w := stale_world) as ([] & w' & E & Hdb).
  - exact stale_ok.
  - intros b b' Hb Hb' Heq. cbn in Hb, Hb'.
    rewrite !elem_of_cons, elem_of_nil in Hb, Hb'.
    destruct Hb as [-> | [-> | []]], Hb' as [-> | [-> | []]]; done.
  - reflexivity.
  - exists w'. split; [exact E |]. rewrite Hdb. vm_compute. reflexivity.
Defined.

Lemma reorg_keeps_spent_marks_witness :
  rows (t_inputs (db (checkHandleReorg 2 "b1" stale_world).2)) = [] /\
  spent_output ∈ rows (t_outputs (db (checkHandleReorg 2 "b1" stale_world).2)) /\
  spent_output ∈ rows (t_outputs stale_db).
Proof.
  assert (Hin : spent_output ∈ rows (t_outputs (db (checkHandleReorg 2 "b1" stale_world).2))).
  { replace (rows _) with [spent_output]; [by left | vm_compute; reflexivity]. }
  split; [vm_compute; reflexivity | split; [exact Hin |]].
  exact (reorg_keeps_spent_marks 2 "b1" stale_world spent_output Hin).
Defined.

(** The second attempt succeeds. *)
Definition one_fault : Faults :=
  {| db_fault now := if (now =? 0)%nat then Some (ErrMySQL 1205) else None |}.
Lemma deleteBlockWithRetry_spec_witness :
  deleteBlockWithRetry (H := one_fault) (stored_block 2 1 "x1" None None) stale_world =
    (Ok tt, mkWorld (delete_block (stored_block 2 1 "x1" None None) stale_db) 2).
Proof.
  destruct (deleteBlockWithRetry_spec (H := one_fault) (stored_block 2 1 "x1" None None)
    stale_world) as [Hok _].
  apply (Hok 1%nat); [lia | reflexivity |]. intros j Hj. assert (j = 0%nat) as -> by lia. discriminate.
Defined.
