(* ===== verification/Daemon.v ===== *)
(** * The daemon ([daemon/daemon.go])

    A ticker starts an iteration when none is running; the iteration asks for the node's height
    and hands one height after the other to the block worker, over a channel without buffer,
    waiting for each answer; a watchdog looks at the block in flight.  The goroutines are the
    program points of a state machine whose steps are the communications, the timeouts and the
    calls between them.  Logging, stack dumps, metrics and the sleep between blocks are left
    out; so are the jobs, which work on the database beside the block worker. *)
From S2P Require Import Prelude Bytes Lbrycrd Rows Store Datastore StoreFacts BlockSync.
From S2P Require Import BlockProcessing.

(** ** Time: [time.Time] in nanoseconds *)

(** [time.Time{}] *)
Definition never : Z := -62135596800 * 1000000000.
Definition Second : Z := 1000000000.
Definition Minute : Z := 60 * Second.
Definition Millisecond : Z := 1000000.
(** [t.Sub(u)] saturates. *)
Definition Sub_time (t u : Z) : Z := Z.max (- 2 ^ 63) (Z.min (2 ^ 63 - 1) (t - u)).

(** ** Settings *)

Definition beastmode : Z := 0.
Definition slowsteadymode : Z := 1.
Definition daemonmode : Z := 3.

Record DaemonSettings := {
  DaemonMode : Z;
  ProcessingDelay : Z;
  DaemonDelay : Z;
  BlockProcessingTimeout : Z;
  BlockProcessingDumpInterval : Z;
  ExitOnBlockProcessingTimeout : bool;
}.

(** The package's variables that [ApplySettings] sets. *)
Record configuration := {
  processingMode : Z;
  processingDelay : Z;
  daemonDelay : Z;
  blockProcessingTimeout : Z;
  blockProcessingDumpDelay : Z;
  exitOnBlockProcessingTimeout : bool;
}.

Definition ApplySettings (settings : DaemonSettings) : configuration :=
  let delay := if DaemonDelay settings <=? 0 then Second else DaemonDelay settings in
  {| processingMode := DaemonMode settings;
     daemonDelay := delay;
     processingDelay :=
       if DaemonMode settings =? beastmode then 0 * Millisecond
       else if DaemonMode settings =? slowsteadymode then 100 * Millisecond
       else if DaemonMode settings =? daemonmode then delay
       else ProcessingDelay settings;
     blockProcessingTimeout := BlockProcessingTimeout settings;
     blockProcessingDumpDelay :=
       if BlockProcessingDumpInterval settings <=? 0 then BlockProcessingTimeout settings
       else BlockProcessingDumpInterval settings;
     exitOnBlockProcessingTimeout := ExitOnBlockProcessingTimeout settings |}.

(** ** The watchdog's record *)

Record blockWatchdogState := {
  lastSuccessAt : Z;
  inflightStartedAt : Z;
  lastDumpAt : Z;
  lastSuccessHeight : Z;
  targetHeight : Z;
  inflightHeight : Z;
}.
#[export] Instance eta_watchdog : Eta blockWatchdogState := fun r =>
  {| lastSuccessAt := lastSuccessAt r; inflightStartedAt := inflightStartedAt r;
     lastDumpAt := lastDumpAt r; lastSuccessHeight := lastSuccessHeight r;
     targetHeight := targetHeight r; inflightHeight := inflightHeight r |}.

Definition initial_watchdog : blockWatchdogState :=
  {| lastSuccessAt := never; inflightStartedAt := never; lastDumpAt := never;
     lastSuccessHeight := 0; targetHeight := 0; inflightHeight := 0 |}.

Record blockWatchdogSnapshot := {
  snap_lastSuccessAt : Z;
  snap_inflightStartedAt : Z;
  snap_lastSuccessHeight : Z;
  snap_targetHeight : Z;
  snap_inflightHeight : Z;
  snap_elapsed : Z;
}.

Definition recordDaemonTarget (now lastHeightProcessed height : Z) (s : blockWatchdogState)
  : blockWatchdogState :=
  let s := s <| targetHeight := height |> in
  if lastSuccessAt s =? never then
    s <| lastSuccessAt := now |> <| lastSuccessHeight := lastHeightProcessed |>
  else s.

Definition recordBlockStart (now height : Z) (s : blockWatchdogState) : blockWatchdogState :=
  s <| inflightHeight := height |> <| inflightStartedAt := now |>.

Definition recordBlockSuccess (now height : Z) (s : blockWatchdogState) : blockWatchdogState :=
  s <| lastSuccessHeight := height |> <| lastSuccessAt := now |>.

Definition clearInFlightBlock (height : Z) (s : blockWatchdogState) : blockWatchdogState :=
  if inflightHeight s =? height then
    s <| inflightHeight := 0 |> <| inflightStartedAt := never |>
  else s.

Definition recordBlockFinished (now height processedHeight : Z) (s : blockWatchdogState)
  : blockWatchdogState :=
  clearInFlightBlock height s <| lastSuccessHeight := processedHeight |>
                              <| lastSuccessAt := now |>.

Section Daemon.
Context `{Faults, Node, TxSync} (cfg : configuration).

Definition nextBlockProcessingDumpDelay : Z :=
  if 0 <? blockProcessingDumpDelay cfg then blockProcessingDumpDelay cfg
  else blockProcessingTimeout cfg.

Definition blockWatchdogInterval : Z :=
  if (0 <? blockProcessingTimeout cfg) && (blockProcessingTimeout cfg <? Minute)
  then blockProcessingTimeout cfg else Minute.

Definition blockTimeoutSnapshot (force : bool) (now : Z) (s : blockWatchdogState)
  : option blockWatchdogSnapshot * blockWatchdogState :=
  if (blockProcessingTimeout cfg <=? 0) || (inflightStartedAt s =? never) then (None, s)
  else
    let elapsed := Sub_time now (inflightStartedAt s) in
    if elapsed <? blockProcessingTimeout cfg then (None, s)
    else if negb force && negb (lastDumpAt s =? never) &&
            (Sub_time now (lastDumpAt s) <? nextBlockProcessingDumpDelay) then (None, s)
    else
      let s := s <| lastDumpAt := now |> in
      (Some {| snap_inflightHeight := inflightHeight s;
               snap_targetHeight := targetHeight s;
               snap_lastSuccessHeight := lastSuccessHeight s;
               snap_lastSuccessAt := lastSuccessAt s;
               snap_inflightStartedAt := inflightStartedAt s;
               snap_elapsed := elapsed |}, s).

(** ** The block worker *)

Definition rollbackBlockHeight (height : Z) : Z := if height =? 0 then 0 else u64 (height - 1).

(** [defer func() { recover() ... }]: what runs when [m] panics. *)
Definition mrecover {A} (m : M World A) (handler : M World A) : M World A := fun w =>
  match m w with
  | (Panic _, w') => handler w'
  | out => out
  end.

Definition processBlockWithRecover (height : Z) : M World Z :=
  mrecover (RunBlockProcessing height)
    (let* _ := mtry (MarkIncompleteBlockHeight height) in
     let* _ := mtry cleanupIncompleteHead in
     mret (rollbackBlockHeight height)).

(** ** The goroutines *)

(** An iteration: before the request for the height, in [sendBlockHeight], in
    [waitForBlockProcessed], at the head of the loop.  [first] tells the call for height 0
    before the loop from the one inside. *)
Inductive iteration_pc :=
| GetTarget
| Sending (first : bool) (height : Z)
| Awaiting (first : bool) (height : Z)
| LoopHead.

(** The worker: at the queue, in [processBlockWithRecover], at the answer, returned. *)
Inductive worker_pc :=
| Receiving
| Running (height : Z)
| Reporting (processedHeight : Z)
| WorkerStopped.

(** [runs] records the heights the worker worked on and what it answered, the last first;
    [send_timed_out] that a send gave up. *)
Record daemon := mkDaemon {
  world : World;
  lastHeightProcessed : Z;
  blockHeight : Z;
  running : bool;
  iteration : option iteration_pc;
  worker : worker_pc;
  watchdog : blockWatchdogState;
  jobsInitialized : bool;
  looping : bool;
  stopped : bool;
  exited : bool;
  runs : list (Z * Z);
  send_timed_out : bool;
}.
#[export] Instance eta_daemon : Eta daemon := fun r =>
  mkDaemon (world r) (lastHeightProcessed r) (blockHeight r) (running r) (iteration r) (worker r)
    (watchdog r) (jobsInitialized r) (looping r) (stopped r) (exited r) (runs r) (send_timed_out r).

(** [runDaemon] up to its loop; [reindex] is false.  The error of the query is dropped. *)
Definition start_daemon (now : Z) : M World daemon :=
  let* lastBlock := mtry (best_block (fun _ => true) block_Height) in
  let* w := mget in
  let d := mkDaemon w 0 0 false None Receiving initial_watchdog false true false false [] false in
  mret (match lastBlock with
        | inl b => d <| lastHeightProcessed := block_Height b |>
                     <| watchdog := recordBlockSuccess now (block_Height b) (watchdog d) |>
        | inr _ => d
        end).

(** The start of the program: [CleanupIncompleteHead], fatal when it fails. *)
Definition DoYourThing (now : Z) : M World daemon :=
  let* r := mtry cleanupIncompleteHead in
  match r with
  | inl _ => start_daemon now
  | inr e => mpanic (ErrPrefix "could not clean up incomplete head block" e)
  end.

(** The end of an iteration: [running.Store(false)], the jobs at the first time. *)
Definition end_iteration (d : daemon) : daemon :=
  d <| running := false |> <| jobsInitialized := true |> <| iteration := None |>.

(** [return] without [running.Store(false)] *)
Definition abandon_iteration (d : daemon) : daemon := d <| iteration := None |>.

(** The head of [processBlockHeight]. *)
Definition start_block (now : Z) (first : bool) (height : Z) (d : daemon) : daemon :=
  d <| watchdog := recordBlockStart now height (watchdog d) |>
    <| iteration := Some (Sending first height) |>.

(** [!ok]: the end of [processBlockHeight] and of the iteration. *)
Definition give_up_block (height : Z) (d : daemon) : daemon :=
  abandon_iteration (d <| watchdog := clearInFlightBlock height (watchdog d) |>).

(** From [GetBlockCount]'s answer to the loop. *)
Definition with_target (now height : Z) (d : daemon) : daemon :=
  let d := d <| blockHeight := height |> in
  let d := d <| watchdog := recordDaemonTarget now (lastHeightProcessed d) height (watchdog d) |> in
  if lastHeightProcessed d =? 0 then start_block now true (lastHeightProcessed d) d
  else d <| iteration := Some LoopHead |>.

(** The end of a round: [workToDo]. *)
Definition end_round (d : daemon) : daemon :=
  if (lastHeightProcessed d <? blockHeight d) && negb (lastHeightProcessed d =? 0)
  then d <| iteration := Some LoopHead |>
  else end_iteration d.

(** A round of the loop up to the send. *)
Definition loop_round (now : Z) (d : daemon) : daemon :=
  if stopped d then abandon_iteration d
  else
    let next := u64 (lastHeightProcessed d + 1) in
    if next <=? blockHeight d then start_block now false next d else end_round d.

(** The worker's answer arrives. *)
Definition block_processed (now : Z) (first : bool) (height processedHeight : Z) (d : daemon)
  : daemon :=
  let d := d <| watchdog := recordBlockFinished now height processedHeight (watchdog d) |>
             <| lastHeightProcessed := processedHeight |> <| worker := Receiving |> in
  if first then d <| iteration := Some LoopHead |> else end_round d.

(** [handleBlockProcessingTimeout] and the watchdog's turn. *)
Definition observe_timeout (force : bool) (now : Z) (d : daemon) : daemon :=
  let (snapshot, s) := blockTimeoutSnapshot force now (watchdog d) in
  let d := d <| watchdog := s |> in
  match snapshot with
  | Some _ => if exitOnBlockProcessingTimeout cfg then d <| exited := true |> else d
  | None => d
  end.

(** ** The steps *)

Inductive step : daemon -> daemon -> Prop :=
| step_tick d :
    exited d = false -> looping d = true -> running d = false ->
    step d (d <| running := true |> <| iteration := Some GetTarget |>)
| step_daemon_stops d :
    exited d = false -> stopped d = true -> looping d = true -> step d (d <| looping := false |>)
| step_no_target d :
    exited d = false -> iteration d = Some GetTarget ->
    step d (d <| running := false |> <| iteration := None |>)
| step_target d now height :
    exited d = false -> iteration d = Some GetTarget -> never < now -> 0 <= height < 2 ^ 64 ->
    step d (with_target now height d)
| step_round d now :
    exited d = false -> iteration d = Some LoopHead -> never < now ->
    step d (loop_round now d)
| step_send d first height :
    exited d = false -> iteration d = Some (Sending first height) -> worker d = Receiving ->
    step d (d <| iteration := Some (Awaiting first height) |> <| worker := Running height |>)
| step_send_stopped d first height :
    exited d = false -> iteration d = Some (Sending first height) -> stopped d = true ->
    step d (give_up_block height d)
| step_send_timeout d first height now :
    exited d = false -> iteration d = Some (Sending first height) ->
    0 < blockProcessingTimeout cfg ->
    step d (give_up_block height (observe_timeout true now d) <| send_timed_out := true |>)
| step_run d height r w' :
    exited d = false -> worker d = Running height ->
    processBlockWithRecover height (world d) = (Ok r, w') ->
    step d (d <| world := w' |> <| worker := Reporting r |> <| runs := (height, r) :: runs d |>)
(* a panic on another goroutine, or [logrus.Fatal] *)
| step_crash d height e w' :
    exited d = false -> worker d = Running height ->
    RunBlockProcessing height (world d) = (Panic e, w') ->
    step d (d <| world := w' |> <| exited := true |>)
| step_report d first height r now :
    exited d = false -> iteration d = Some (Awaiting first height) -> worker d = Reporting r ->
    never < now -> step d (block_processed now first height r d)
| step_await_stopped d first height :
    exited d = false -> iteration d = Some (Awaiting first height) -> stopped d = true ->
    step d (give_up_block height d)
| step_await_timeout d first height now :
    exited d = false -> iteration d = Some (Awaiting first height) ->
    0 < blockProcessingTimeout cfg -> step d (observe_timeout true now d)
| step_worker_stops d :
    exited d = false -> stopped d = true ->
    (worker d = Receiving \/ exists r, worker d = Reporting r) ->
    step d (d <| worker := WorkerStopped |>)
| step_watchdog d now : exited d = false -> step d (observe_timeout false now d)
| step_stop d : exited d = false -> step d (d <| stopped := true |>).

Definition reachable (d0 : daemon) : daemon -> Prop := rtc step d0.
End Daemon.
