(* ===== verification/ProcessFacts.v ===== *)
(** * What the processing of blocks respects

    A relation on databases that the statements on each table respect ([Stable]) is respected by
    the synchronisation of a block's transactions, and one that the synchronisation respects
    ([SyncRespects]) by block processing as a whole, on every branch. *)
From S2P Require Import Prelude Bytes Script Lbrycrd Scheduler Rows Store Datastore StoreFacts.
From S2P Require Import Claims Transactions TransactionFacts BlockSync BlockProcessing.
From S2P Require Import BlockSyncProofs Daemon Jobs.

Class SyncRespects (R : relation DB) `{TxSync} : Prop := {
  sync_txs_steps txs t h : steps (on_db R) (sync_txs txs t h);
  process_tx_steps tx t h : steps (on_db R) (process_tx tx t h);
}.
#[export] Hint Resolve steps_ask : go.

Lemma steps_mrecover {A} (R : relation World) `{!PreOrder R} (m k : M World A) :
  steps R m -> steps R k -> steps R (mrecover m k).
Proof.
  intros Hm Hk w. unfold mrecover. specialize (Hm w). destruct (m w) as [[a | e | e] w'];
    [done.. |]. etrans; [exact Hm | apply Hk].
Qed.

Section Sync.
Context `{Faults, Stake, Hashes, AddressCodec, PurchaseCodec, JsonStrings, Node}.
Context (BlockChainName : string) (MaxParallelTxProcessing MaxFailures : Z) (sc : schedule).
Context (R : relation DB) `{!PreOrder R}.
Context `{!Workers R, !Stable R Transaction, !StableOutputs R}.
Context `{!Stable R Address, !Stable R TransactionAddress}.

Lemma steps_sync_loop t h wc cs s :
  steps (on_db R) (world_loop BlockChainName MaxFailures sc t h wc cs s).
Proof.
  revert s. induction cs as [| c cs IH]; intros s; cbn [world_loop]; [go_steps |].
  unfold realize, run_job. go_steps.
Qed.

#[export] Instance block_sync_respects :
  @SyncRespects R (block_sync BlockChainName MaxParallelTxProcessing MaxFailures sc).
Proof.
  split; intros; cbn; [| auto with go]. pose proof steps_sync_loop.
  unfold syncTransactionsOfBlock, fetch_events, fetch_job, run_scheduler. go_steps.
Qed.
End Sync.

Section Blocks.
Context `{Faults, Node, TxSync} (R : relation DB) `{!PreOrder R}.
Context `{!SyncRespects R, !Stable R Block, !StableDelete R}.
#[local] Hint Resolve sync_txs_steps process_tx_steps : go.

Lemma steps_reorg_loop n h b prev : steps (on_db R) (reorg_loop n h b prev).
Proof.
  revert h b prev. induction n as [| n IH]; intros h b prev; cbn [reorg_loop];
    unfold block_at_opt, block_at, getBlockToProcess; go_steps.
Qed.
#[local] Hint Resolve steps_reorg_loop : go.

Lemma steps_RunBlockProcessing h : steps (on_db R) (RunBlockProcessing h).
Proof.
  unfold RunBlockProcessing, processGenesisBlock, ProcessBlock, parseBlockInfo,
    setPreviousBlockInfo, markBlockProcessingState, checkHandleReorg, block_at_opt,
    getBlockToProcess, deleteBlockWithRetry, blockDeleteRetryAttempts. go_steps.
Qed.
Lemma steps_all_children l : steps (on_db R) (all_children l).
Proof.
  induction l as [| t l IH]; cbn [all_children]; unfold transactionHasExpectedChildren; go_steps.
Qed.
#[local] Hint Resolve steps_RunBlockProcessing steps_all_children : go.
Lemma steps_cleanupIncompleteHead : steps (on_db R) cleanupIncompleteHead.
Proof.
  unfold cleanupIncompleteHead, chainHeadBlock, best_block, blockHasExpectedTransactions,
    markBlockProcessingState, deleteBlockWithRetry, blockDeleteRetryAttempts. go_steps.
Qed.
Lemma steps_MarkIncompleteBlockHeight h : steps (on_db R) (MarkIncompleteBlockHeight h).
Proof. unfold MarkIncompleteBlockHeight, best_block, markBlockProcessingState. go_steps. Qed.
Lemma steps_backfill limit : steps (on_db R) (backfillLegacyBlockStates limit).
Proof.
  unfold backfillLegacyBlockStates, chainHeadBlock, best_block, legacy_blocks,
    blockHasExpectedTransactions, markBlockProcessingState. go_steps.
Qed.
#[local] Hint Resolve steps_cleanupIncompleteHead steps_MarkIncompleteBlockHeight : go.
Lemma steps_processBlockWithRecover h : steps (on_db R) (processBlockWithRecover h).
Proof.
  unfold processBlockWithRecover. apply steps_mrecover; [typeclasses eauto | auto with go | go_steps].
Qed.
End Blocks.
#[export] Hint Resolve steps_RunBlockProcessing steps_cleanupIncompleteHead steps_backfill
  steps_MarkIncompleteBlockHeight steps_processBlockWithRecover : go.

(** ** The rows of the jobs *)

Section JobRows.
Context `{Faults, Clock} (R : relation DB) `{!PreOrder R, !Stable R JobStatus} (error_text : error -> string).

Lemma steps_time_now : steps (on_db R) time_now.
Proof. unfold time_now. go_steps. Qed.
Lemma steps_upsert_job j : steps (on_db R) (upsert_job j).
Proof.
  apply steps_stmt; [typeclasses eauto |]. intros d u d' E.
  destruct (row_exists _ d); [by apply (stable_updateG (R:=R) (T:=JobStatus) _ _ _ _ E) |].
  apply rbind_Ok in E as ([r d1] & Ei & [= _ <-]). by apply (stable_insert (R:=R) (T:=JobStatus) _ _ _ _ Ei).
Qed.
#[local] Hint Resolve steps_upsert_job : go.
Lemma steps_saveJobError j e : steps (on_db R) (saveJobError error_text j e).
Proof. unfold saveJobError. go_steps. Qed.
End JobRows.
#[export] Hint Resolve steps_time_now steps_upsert_job steps_saveJobError : go.
