(* ===== verification/ChainFacts.v ===== *)
(** * The stored chain under block processing

    [chain_below top]: the block table has distinct keys, hashes and (above 0) heights, and no
    block above [top].  Every operation of block processing keeps such a bound, [parseBlockInfo]
    raises it to the height it saves, and an answer of the block worker is again a bound. *)
From S2P Require Import Prelude Bytes Lbrycrd Rows Store Datastore StoreFacts Keyed BlockSync.
From S2P Require Import BlockProcessing BlockSyncProofs BlockFacts BlockTheorems Daemon.

Record chain_below (top : Z) (l : list Block) : Prop := {
  cb_keys : blocks_ok l;
  cb_hashes : hashes_ok l;
  cb_heights : heights_ok l;
  cb_top : forall b, b ∈ l -> block_Height b <= top;
  cb_mempool : forall b, b ∈ l -> 0 < block_Height b -> not_mempool b = true;
}.

Lemma chain_below_mono top top' l : chain_below top l -> top <= top' -> chain_below top' l.
Proof. intros [? ? ? Ht ?] Hle. split; try done. intros b Hb. specialize (Ht b Hb). lia. Qed.

Lemma chain_below_filter f top l : chain_below top l -> chain_below top (List.filter f l).
Proof.
  intros [Hk Hh Hu Ht Hm].
  assert (Hin : forall b, b ∈ List.filter f l -> b ∈ l).
  { intros b Hb%list_elem_of_In. apply list_elem_of_In. by apply filter_In in Hb as [? _]. }
  split; [by apply keys_ok_filter | | | naive_solver..].
  - intros b b' Hb Hb'. by apply Hh; auto.
  - intros b b' Hb Hb'. by apply Hu; auto.
Qed.

(** Replacing the row of [old] by [b], which keeps its hash and has a height of its own. *)
Lemma chain_below_replace top b old l :
  chain_below top l -> old ∈ l -> block_ID b = block_ID old -> block_Hash b = block_Hash old ->
  block_Height b <= top ->
  (0 < block_Height b -> forall x, x ∈ l -> block_ID x <> block_ID b ->
     block_Height x <> block_Height b) ->
  (0 < block_Height b -> not_mempool b = true) ->
  chain_below top (replace_row b l).
Proof.
  intros [Hk Hh Hu Ht Hm] Hold Hid Hhash Htop Hnew Hmem.
  assert (Hin : forall x, x ∈ replace_row b l -> x = b \/ x ∈ l /\ block_ID x <> block_ID b)
    by (intros x Hx; by apply (elem_of_replace_row b old) in Hx).
  split.
  - by apply replace_row_ok.
  - intros x y [-> | [Hx Hxi]]%Hin [-> | [Hy Hyi]]%Hin Heq; [done | | | by apply Hh].
    + rewrite Hid. apply Hh; [done.. |]. by rewrite <- Hhash.
    + rewrite Hid. apply Hh; [done.. |]. by rewrite <- Hhash.
  - intros x y [-> | [Hx Hxi]]%Hin [-> | [Hy Hyi]]%Hin Hpos Heq; [done | | | by apply Hu].
    + by destruct (Hnew Hpos y Hy Hyi).
    + destruct (Hnew ltac:(lia) x Hx Hxi). lia.
  - intros x [-> | [Hx _]]%Hin; [done | by apply Ht].
  - intros x [-> | [Hx _]]%Hin; [done | by apply Hm].
Qed.

(** A row with its height, hash and key unchanged. *)
Lemma chain_below_update top b old l :
  chain_below top l -> old ∈ l -> block_ID b = block_ID old -> block_Hash b = block_Hash old ->
  block_Height b = block_Height old -> chain_below top (replace_row b l).
Proof.
  intros Hc Hold Hid Hhash Hh. pose proof Hc as [Hk _ Hu Ht Hm].
  eapply chain_below_replace; [done.. | | |]; rewrite Hh.
  - by apply Ht.
  - intros Hpos x Hx Hne Heq. apply Hne. rewrite Hid. by rewrite (Hu old x).
  - intros Hpos. unfold not_mempool. rewrite Hhash. by apply Hm.
Qed.

Lemma chain_below_app top h b l :
  chain_below top l -> top <= h -> (0 < h -> top < h) -> block_Height b = h ->
  (forall x, x ∈ l -> block_ID x <> block_ID b /\ block_Hash x <> block_Hash b) ->
  (0 < h -> not_mempool b = true) -> chain_below h (l ++ [b]).
Proof.
  intros [Hk Hh Hu Ht Hm] Hle Hlt Hb Hnew Hmem. split.
  - apply keys_ok_app; [done |]. intros x Hx. by apply Hnew.
  - intros x y [Hx | ->%list_elem_of_singleton]%elem_of_app [Hy | ->%list_elem_of_singleton]%elem_of_app Heq;
      [by apply Hh | | | done]; [by destruct (Hnew x Hx) | by destruct (Hnew y Hy)].
  - intros x y [Hx | ->%list_elem_of_singleton]%elem_of_app [Hy | ->%list_elem_of_singleton]%elem_of_app Hpos Heq;
      [by apply Hu | | | done].
    + specialize (Ht x Hx). lia.
    + specialize (Ht y Hy). lia.
  - intros x [Hx | ->%list_elem_of_singleton]%elem_of_app; [| lia]. specialize (Ht x Hx). lia.
  - intros x [Hx | ->%list_elem_of_singleton]%elem_of_app; [by apply Hm | rewrite Hb; by auto].
Qed.

(** ** The operations, on every outcome *)

Section Chain.
Context `{Faults, Node, TxSync, !TxSyncLaws}.

Definition chain_ok (top : Z) (d : DB) : Prop := chain_below top (rows (t_blocks d)).

(** The node's blocks are not the mempool's. *)
Definition honest_hashes : Prop :=
  (forall now hash json, node_block now hash = Ok json -> blk_Hash json <> MempoolBlockHash).

Lemma same_blocks_keep top {A} (m : M World A) :
  steps (on_db (same t_blocks)) m -> steps (on_db (keeps (chain_ok top))) m.
Proof.
  intros Hm w. specialize (Hm w). unfold on_db, same, keeps, chain_ok in *. by rewrite Hm.
Qed.

Lemma parse_below top h (json : GetBlockResponse) w :
  chain_ok top (db w) -> top <= h -> (0 < h -> top < h) ->
  (0 < h -> blk_Hash json <> MempoolBlockHash) ->
  chain_ok h (db (parseBlockInfo h json w).2).
Proof.
  intros Hc Hle Hlt Hne. unfold parseBlockInfo, mbind.
  assert (Hmem : forall b, 0 < h -> block_Hash b = blk_Hash json -> not_mempool b = true).
  { intros b Hpos Hb. specialize (Hne Hpos). unfold not_mempool. rewrite Hb. by rewrite bool_decide_false. }
  pose proof (steps_get_or_nil (same t_blocks) _
    (steps_oneG _ (fun b => bool_decide (block_Hash b = blk_Hash json))) w) as Hs.
  destruct (get_or_nil _ w) as [[found | e | e] w1] eqn:Ef; cbn [snd] in *;
    unfold on_db, same in Hs; [| unfold chain_ok; rewrite <- Hs; by eapply chain_below_mono..].
  apply get_or_nil_Ok in Ef. destruct found as [f |].
  - apply oneG_found in Ef as (Hf & Hh%bool_decide_eq_true & Hdb).
    change (default empty_block (Some f)) with f. set (b := fill_block h json f).
    pose proof (stmt_failed (update_rows (fun _ => b) b) w1) as Hfail.
    destruct (updateG b w1) as [[[] | e | e] w2] eqn:Eu; unfold updateG in Eu; rewrite Eu in Hfail;
      cbn [fst snd] in *; try (rewrite (Hfail ltac:(done)); unfold chain_ok; rewrite <- Hs; by eapply chain_below_mono).
    unfold mret. cbn [snd].
    assert (Hr : block_rows w1 = rows (t_blocks (db w))) by (unfold table_rows; cbn; by rewrite <- Hs).
    assert (Hok : blocks_ok (block_rows w1)) by (rewrite Hr; apply Hc).
    apply (updateG_block b f) in Eu; [| done | by rewrite Hr | done].
    unfold chain_ok. unfold table_rows in Eu at 1. cbn in Eu. rewrite Eu, Hr.
    eapply chain_below_replace; [by eapply chain_below_mono | exact Hf | done | done | cbn; lia | |].
    + cbn. intros Hpos x Hx _ Heq. pose proof (cb_top _ _ Hc x Hx). lia.
    + intros Hpos. by apply Hmem.
  - assert (Hw1 : chain_ok h (db w1)) by (unfold chain_ok; rewrite <- Hs; by eapply chain_below_mono).
    unfold insertG, mbind. change (default empty_block None) with empty_block.
    set (b := fill_block h json empty_block).
    pose proof (stmt_failed (insert_row b) w1) as Hfail.
    destruct (stmt (insert_row b) w1) as [[b' | e | e] w2] eqn:Ei; cbn [fst snd] in *;
      try (by rewrite (Hfail ltac:(done))).
    assert (Hw2 : chain_ok h (db w2)).
    { apply stmt_Ok in Ei as [(-> & -> & Hnew)%insert_row_keyed _].
      unfold chain_ok. cbn [t_blocks set_table row_block rows get_table] in *. rewrite <- Hs in Hnew |- *.
      eapply (chain_below_app top); [exact Hc | done | done | done | |].
      - intros x Hx. destruct (Hnew x Hx) as [? Hcl%bool_decide_eq_false]. done.
      - intros Hpos. by apply Hmem. }
    pose proof (steps_oneG (same t_blocks) (same_key b') w2) as Ho. unfold on_db, same in Ho.
    destruct (oneG (same_key b') w2) as [[x | e | e] w3]; cbn [snd] in Ho;
      unfold chain_ok; cbn [snd mret]; rewrite <- Ho; exact Hw2.
Qed.

Lemma keep_mark top b state : steps (on_db (keeps (chain_ok top))) (markBlockProcessingState b state).
Proof.
  apply steps_stmt; [typeclasses eauto |]. intros d [] d' E Hc. unfold update_rows in E.
  destruct (List.find (same_key b) (rows (get_table d))) as [old |] eqn:Ef; [| by simplify_eq].
  repeat case_match; simplify_eq. unfold chain_ok. cbn.
  apply find_some in Ef as [Hin%list_elem_of_In Hk]. cbn in Hk.
  replace (map _ _) with (replace_row (with_state state old) (rows (t_blocks d))).
  { by eapply chain_below_update. }
  apply map_ext. intros x. cbn. by replace (block_ID old) with (block_ID b) by lia.
Qed.

Lemma keep_delete top b : steps (on_db (keeps (chain_ok top))) (deleteG_block b).
Proof.
  apply steps_stmt; [typeclasses eauto |]. intros d [] d' [= <-] Hc. by apply chain_below_filter.
Qed.

Lemma keep_link top h (json : GetBlockResponse) :
  steps (on_db (keeps (chain_ok top))) (setPreviousBlockInfo h (blk_Hash json)).
Proof.
  intros w Hc. pose proof (setPreviousBlockInfo_linked h json w (cb_keys _ _ Hc)) as [E | (p & Hp & E)];
    unfold table_rows in E; cbn in E; unfold chain_ok; rewrite E; [done |].
  by eapply chain_below_update.
Qed.

Lemma keep_retry top b : steps (on_db (keeps (chain_ok top))) (deleteBlockWithRetry b).
Proof.
  pose proof (keep_delete top b). unfold deleteBlockWithRetry, blockDeleteRetryAttempts. go_steps.
Qed.

Lemma keep_intact top b : steps (on_db (keeps (chain_ok top))) (blockHasExpectedTransactions b).
Proof.
  assert (Hall : forall l, steps (on_db (keeps (chain_ok top))) (all_children l)).
  { induction l; unfold all_children, transactionHasExpectedChildren; go_steps. }
  unfold blockHasExpectedTransactions. go_steps.
Qed.

Lemma keep_cleanup top : steps (on_db (keeps (chain_ok top))) cleanupIncompleteHead.
Proof.
  pose proof (keep_intact top). pose proof (keep_mark top). pose proof (keep_retry top).
  unfold cleanupIncompleteHead, chainHeadBlock, best_block. go_steps.
Qed.

Lemma keep_mark_height top h : steps (on_db (keeps (chain_ok top))) (MarkIncompleteBlockHeight h).
Proof. pose proof (keep_mark top). unfold MarkIncompleteBlockHeight, best_block. go_steps. Qed.

Lemma keep_reorg top h prev : steps (on_db (keeps (chain_ok top))) (checkHandleReorg h prev).
Proof.
  pose proof (keep_delete top).
  assert (Hget : forall h, steps (on_db (keeps (chain_ok top))) (getBlockToProcess h)).
  { intros h'. apply steps_getBlockToProcess. typeclasses eauto. }
  assert (Hat : forall p h, steps (on_db (keeps (chain_ok top))) (block_at_opt p h)).
  { intros p h'. unfold block_at_opt, block_at. go_steps. }
  assert (Hloop : forall left h b prev, steps (on_db (keeps (chain_ok top))) (reorg_loop left h b prev)).
  { induction left as [| left IH]; intros h' b prev'; cbn; go_steps. }
  unfold checkHandleReorg. go_steps.
Qed.

Lemma process_below top h (json : GetBlockResponse) w :
  chain_ok top (db w) -> top <= h -> (0 < h -> top < h) ->
  (0 < h -> blk_Hash json <> MempoolBlockHash) ->
  chain_ok h (db (ProcessBlock h json w).2).
Proof.
  intros Hc Hle Hlt Hne. pose proof (parse_below top h json w Hc Hle Hlt Hne) as Hp.
  unfold ProcessBlock. unfold mbind at 1, mtry at 1.
  destruct (parseBlockInfo h json w) as [[b | e | e] w1]; cbn [snd] in Hp; [| done..].
  pose proof (keep_link h h json). pose proof (keep_mark h b BlockProcessingStateComplete).
  assert (Hsync : forall txs t i, steps (on_db (keeps (chain_ok h))) (sync_txs txs t i))
    by (intros; apply same_blocks_keep, sync_txs_blocks).
  revert Hp. match goal with |- context [mbind ?m ?f w1] =>
    assert (Hs : steps (on_db (keeps (chain_ok h))) (mbind m f)) by go_steps; exact (Hs w1) end.
Qed.

Lemma genesis_below w : chain_ok 0 (db w) -> chain_ok 0 (db (processGenesisBlock w).2).
Proof.
  intros Hc. unfold processGenesisBlock, mbind at 1, ask. destruct (node_genesis _) as [[v g] | e | e];
    [| done..]. unfold mbind at 1.
  pose proof (parse_below 0 0 g (ticked w) Hc ltac:(lia) ltac:(lia) ltac:(lia)) as Hp.
  destruct (parseBlockInfo 0 g (ticked w)) as [[b | e | e] w1]; cbn [snd] in Hp; [| done..].
  pose proof (keep_mark 0 b BlockProcessingStateComplete).
  assert (Hsync : forall tx t i, steps (on_db (keeps (chain_ok 0))) (process_tx tx t i))
    by (intros; apply same_blocks_keep, process_tx_blocks).
  revert Hp. match goal with |- context [mbind ?m ?f w1] =>
    assert (Hs : steps (on_db (keeps (chain_ok 0))) (mbind m f)) by go_steps; exact (Hs w1) end.
Qed.

(** The worker's call, whatever happens in it. *)
Lemma run_below top h w :
  honest_hashes -> (h = 0 /\ top = 0 \/ 0 < h /\ top = h - 1) ->
  chain_ok top (db w) -> chain_ok h (db (RunBlockProcessing h w).2).
Proof.
  intros Hhon Hh Hc. unfold RunBlockProcessing. destruct (Z.eqb_spec h 0) as [-> | Hne].
  { destruct Hh as [[_ ->] | ?]; [| lia]. pose proof (genesis_below w Hc) as Hg.
    unfold mbind, mtry. by destruct (processGenesisBlock w) as [[? | ? | ?] ?]. }
  destruct Hh as [[? _] | [Hpos ->]]; [lia |]. unfold mbind at 1, mtry at 1.
  pose proof (getBlockToProcess_spec h w) as [Hdb Hans].
  assert (Hc1 : chain_ok (h - 1) (db (getBlockToProcess h w).2)) by (by rewrite Hdb).
  destruct (getBlockToProcess h w) as [[json | e | e] w1] eqn:Eg; cbn [fst snd] in *;
    [| by eapply chain_below_mono; [exact Hc1 | lia]..].
  destruct (Hans json eq_refl) as (hash & _ & Hblock).
  pose proof (keep_reorg (h - 1) h (blk_PreviousBlockHash json) w1 Hc1) as Hc2.
  unfold mbind at 1, mtry at 1.
  destruct (checkHandleReorg _ _ w1) as [[k | e | e] w2]; cbn [snd] in Hc2;
    [| by eapply chain_below_mono; [exact Hc2 | lia]..].
  destruct (k =? h); cbn [negb]; [| by eapply chain_below_mono; [exact Hc2 | lia]].
  pose proof (process_below (h - 1) h json w2 Hc2 ltac:(lia) ltac:(lia)
    (fun _ => Hhon _ _ _ Hblock)) as Hp. unfold mbind at 1.
  destruct (ProcessBlock h json w2) as [[[ob oe] | e | e] w3]; cbn [snd] in Hp; [| done..].
  pose proof (keep_retry h). revert Hp.
  match goal with |- context [_ -> chain_ok h (db (?m w3).2)] =>
    assert (Hs : steps (on_db (keeps (chain_ok h))) m) by go_steps; exact (Hs w3) end.
Qed.

(** ** Answers of the worker *)

Lemma kept_below k top l : chain_below top l -> chain_below k (kept k top l).
Proof.
  intros Hc. destruct (chain_below_filter (fun b => negb ((k <? block_Height b) && (block_Height b <=? top))) _ _ Hc)
    as [Hk Hh Hu _ Hm].
  split; [exact Hk | exact Hh | exact Hu | | exact Hm].
  intros b [Hb Hn]%elem_of_kept. pose proof (cb_top _ _ Hc b Hb). lia.
Qed.

(** An answer below the height: the tables of the failure branches. *)
Lemma run_answer `{!Healthy} h w r w' :
  honest_hashes -> 0 < h -> chain_ok (h - 1) (db w) ->
  RunBlockProcessing h w = (Ok r, w') -> 0 <= r <= h /\ chain_ok r (db w').
Proof.
  intros Hhon Hpos Hc E. pose proof (run_below (h - 1) h w Hhon ltac:(lia) Hc) as Hb.
  rewrite E in Hb. cbn [snd] in Hb.
  assert (Hkeys : blocks_ok (block_rows w)) by apply Hc.
  assert (Hheights : heights_ok (block_rows w)) by apply Hc.
  destruct (RunBlockProcessing_inv h w r w' Hpos E) as [(w1 & Hdb & -> & ->) | Hinv].
  { split; [lia |]. unfold chain_ok. by rewrite Hdb. }
  destruct Hinv as (hash & json & w1 & _ & _ & Hdb & Hrun). cbn zeta in Hrun.
  assert (Hrows : block_rows w1 = block_rows w) by (unfold table_rows; by rewrite Hdb).
  destruct (reorg_outcome h (blk_PreviousBlockHash json) w1 Hpos) as (k & Hk & Hk0 & Hkept & _ & Hans);
    [by rewrite Hrows.. |]. rewrite Hrows in Hans, Hkept.
  assert (Hout : chain_ok k (db (checkHandleReorg h (blk_PreviousBlockHash json) w1).2)).
  { unfold chain_ok. unfold table_rows in Hkept at 1. cbn in Hkept. rewrite Hkept.
    apply kept_below, Hc. }
  destruct Hrun as [(_ & -> & ->) | [(k' & Hk' & Hne & -> & ->) | (Hh & ob & oe & w2 & Ep & Hend)]].
  - split; [lia |]. eapply chain_below_mono; [exact Hout | lia].
  - destruct (Hans k' Hk') as [(? & _) | (-> & _)]; [done |]. split; [lia | exact Hout].
  - destruct (Hans h Hh) as [(_ & -> & _) | (? & _)]; [| lia].
    destruct oe as [e |]; [| destruct Hend as [-> ->]; split; [lia | exact Hb]].
    rewrite kept_all in Hkept. destruct ob as [b |]; destruct Hend as [-> ->]; (split; [lia |]).
    + apply ProcessBlock_failed in Ep as (l & Hs & Hl); [| by rewrite Hkept]. rewrite Hkept in Hs.
      destruct Hb as [Hk1 Hh1 Hu1 _ Hm1]. split; [exact Hk1 | exact Hh1 | exact Hu1 | | exact Hm1].
      clear Hk1 Hh1 Hu1 Hm1. unfold mtry. rewrite deleteBlockWithRetry_healthy. intros x Hx.
      destruct (failed_rows h json b _ l _ x Hs Hl Hx) as (y & Hy & next & ->).
      exact (cb_top _ _ Hc y Hy).
    + apply ProcessBlock_not_saved in Ep. unfold chain_ok, table_rows in *. cbn in Ep. by rewrite Ep.
Qed.

(** What [MarkIncompleteBlockHeight] leaves. *)
Definition at_height (h : Z) (d : DB) : option Block :=
  highest_by block_ID
    (List.filter (fun b => (block_Height b =? h) && not_mempool b) (rows (t_blocks d))).
Definition height_marked (h : Z) (d : DB) : DB :=
  match at_height h d with
  | None => d
  | Some b => d <| t_blocks := mkTable
      (replace_row (with_state BlockProcessingStateIncomplete b) (rows (t_blocks d)))
      (auto (t_blocks d)) |>
  end.

Lemma at_height_spec h d :
  match at_height h d with
  | Some b => b ∈ rows (t_blocks d) /\ block_Height b = h /\ not_mempool b = true
  | None => forall b, b ∈ rows (t_blocks d) -> block_Height b = h -> not_mempool b = false
  end.
Proof.
  unfold at_height. destruct (highest_by _ _) as [b |] eqn:E.
  - apply highest_by_in, list_elem_of_In, filter_In in E as [Hin Hb].
    rewrite andb_true_iff, Z.eqb_eq in Hb. split; [by apply list_elem_of_In | exact Hb].
  - apply highest_by_none in E. intros b Hb%list_elem_of_In Hh.
    destruct (not_mempool b) eqn:Em; [| done]. exfalso. eapply (in_nil (a:=b)). rewrite <- E.
    apply filter_In. split; [done |]. rewrite Em. lia.
Qed.

Lemma triple_mark_height `{!Healthy} top h d :
  chain_ok top d ->
  triple (fun w => db w = d) (MarkIncompleteBlockHeight h)
    (fun x w => x = tt /\ db w = height_marked h d).
Proof.
  intros Hc. unfold MarkIncompleteBlockHeight.
  apply (triple_seq d d (at_height h d)).
  - intros w <-. exists (at_height h (db w)), (ticked w). split; [| done].
    unfold one_or_none, mbind, mtry, best_block, query, stmt. rewrite healthy.
    unfold at_height. by destruct (highest_by block_ID _).
  - unfold height_marked. pose proof (at_height_spec h d) as Hspec.
    destruct (at_height h d) as [b |]; [| by apply triple_return].
    apply triple_mark; [apply Hc | apply Hc | apply Hspec].
Qed.

Lemma height_marked_ok top h d : chain_ok top d -> chain_ok top (height_marked h d).
Proof.
  intros Hc. unfold height_marked. pose proof (at_height_spec h d) as Hspec.
  destruct (at_height h d) as [b |]; [| exact Hc]. destruct Hspec as [Hb _].
  unfold chain_ok. eapply (chain_below_update _ _ b); [exact Hc | exact Hb | reflexivity..].
Qed.

(** Marking the block of a height and cleaning the head leaves nothing at that height or
    above. *)
Lemma head_cleaned_below h d :
  0 < h -> chain_ok h d -> chain_ok (h - 1) (head_cleaned (height_marked h d)).
Proof.
  intros Hpos Hc. set (d1 := height_marked h d). pose proof (at_height_spec h d) as Hspec.
  assert (Hd1 : chain_ok h d1) by (by apply height_marked_ok).
  (* a row at the height is the marked one *)
  assert (Hat : forall x, x ∈ rows (t_blocks d1) -> block_Height x = h ->
    state_is BlockProcessingStateIncomplete x = true).
  { intros x Hx Hxh. unfold d1, height_marked in Hx.
    destruct (at_height h d) as [b |].
    - destruct Hspec as (Hb & Hbh & _). cbn in Hx.
      apply (elem_of_replace_row _ b) in Hx as [-> | [Hx Hne]]; [done | | done | done].
      destruct Hne. cbn. f_equal. apply (cb_heights _ _ Hc); [done | done | lia | lia].
    - exfalso. specialize (Hspec x Hx Hxh). pose proof (cb_mempool _ _ Hc x Hx). lia. }
  assert (Hlow : (forall x, x ∈ rows (t_blocks d1) -> block_Height x <> h) -> chain_ok (h - 1) d1).
  { intros Hno. split; try apply Hd1. intros x Hx. specialize (Hno x Hx).
    pose proof (cb_top _ _ Hd1 x Hx). lia. }
  unfold head_cleaned. fold d1.
  destruct (highest_by block_Height (List.filter not_mempool (rows (t_blocks d1)))) as [head |] eqn:E.
  - pose proof (highest_by_in _ _ _ E) as Hin. apply list_elem_of_In, filter_In in Hin as [Hin%list_elem_of_In _].
    assert (Hmax : forall x, x ∈ rows (t_blocks d1) -> 0 < block_Height x ->
      block_Height x <= block_Height head).
    { intros x Hx Hxp. apply (highest_by_max _ _ _ _ E), list_elem_of_In, filter_In.
      split; [by apply list_elem_of_In | by apply (cb_mempool _ _ Hd1)]. }
    destruct (Z.eq_dec (block_Height head) h) as [Hh | Hh].
    + rewrite (Hat head Hin Hh), orb_true_r. unfold chain_ok. cbn [delete_block].
      split; try apply (chain_below_filter _ _ _ Hd1).
      intros x [Hx Hne]%elem_of_drop_row. pose proof (cb_top _ _ Hd1 x Hx).
      destruct (Z.eq_dec (block_Height x) h) as [Hxh |]; [| lia]. destruct Hne. f_equal.
      apply (cb_heights _ _ Hd1); [done | done | lia | lia].
    + assert (Hno : forall x, x ∈ rows (t_blocks d1) -> block_Height x <> h).
      { intros x Hx Hxh. pose proof (Hmax x Hx). pose proof (cb_top _ _ Hd1 head Hin). lia. }
      specialize (Hlow Hno).
      destruct (negb (block_intact d1 head) || _ || _); [by apply chain_below_filter |].
      destruct (block_ProcessingState head); [exact Hlow |].
      unfold chain_ok. eapply (chain_below_update _ _ head); [exact Hlow | exact Hin | reflexivity..].
  - apply Hlow. intros x Hx Hxh. apply highest_by_none in E.
    eapply (in_nil (a:=x)). rewrite <- E. apply filter_In. split; [by apply list_elem_of_In |].
    apply (cb_mempool _ _ Hd1); [done | lia].
Qed.

(** One block by the worker: its answer bounds the chain again. *)
Lemma worker_answer `{!Healthy} h top w r w' :
  honest_hashes -> (h = 0 /\ top = 0 \/ 0 < h < 2 ^ 64 /\ top = h - 1) ->
  chain_ok top (db w) -> processBlockWithRecover h w = (Ok r, w') ->
  0 <= r <= h /\ chain_ok r (db w').
Proof.
  intros Hhon Hh Hc. unfold processBlockWithRecover, mrecover.
  pose proof (run_below top h w Hhon ltac:(lia) Hc) as Hb.
  destruct (RunBlockProcessing h w) as [[r1 | e | e] w1] eqn:E; cbn [snd] in Hb; [| done |].
  - intros [= -> ->]. destruct (Z.eq_dec h 0) as [-> |].
    + unfold RunBlockProcessing in E. cbn in E. apply mbind_Ok in E as ([[] | ?] & w2 & _ & E);
        [| done]. by injection E as <- <-.
    + eapply run_answer; [done | lia | | exact E]. by destruct Hh as [[? _] | [_ ->]].
  - unfold rollbackBlockHeight, mbind, mtry. destruct (Z.eqb_spec h 0) as [-> |].
    + pose proof (keep_mark_height 0 0 w1 Hb) as Hm1.
      destruct (MarkIncompleteBlockHeight 0 w1) as [[? | ? | ?] w2]; cbn [snd] in Hm1; [| | done];
        pose proof (keep_cleanup 0 w2 Hm1) as Hm2;
        destruct (cleanupIncompleteHead w2) as [[? | ? | ?] w3]; cbn [snd] in Hm2; try done;
        intros [= <- <-]; split; try lia; exact Hm2.
    + destruct (triple_mark_height h h (db w1) Hb w1 eq_refl) as ([] & w2 & -> & _ & Hd2).
      assert (Hc2 : chain_ok h (db w2)) by (rewrite Hd2; by apply height_marked_ok).
      destruct (triple_cleanup (db w2) ltac:(apply Hc2) ltac:(apply Hc2) w2 eq_refl)
        as ([] & w3 & -> & Hd3).
      intros [= <- <-]. rewrite u64_small by lia. split; [lia |]. rewrite Hd3, Hd2.
      apply head_cleaned_below; [lia | exact Hb].
Qed.
End Chain.
