(* ===== verification/DaemonTheorems.v ===== *)
(** * The daemon: what its goroutines guarantee

    [blocks_in_order]: the workers' runs are one block after the other, each at the height after
    the last answer.  [stored_chain_bounded]: with the block operations this keeps the stored
    chain below the last answer.  [gap_is_permanent]: a missing block is never filled in.
    [watchdog_accurate]: the watchdog's record is the block in flight.  [wedged_for_good]: an
    iteration that was abandoned is never followed by another. *)
From stdpp Require Import pretty.
From S2P Require Import Prelude Bytes Lbrycrd Rows Store Datastore StoreFacts Keyed BlockSync.
From S2P Require Import DemoWorld BlockProcessing BlockSyncProofs BlockFacts BlockTheorems Daemon.
From S2P Require Import ChainFacts.

Section Theorems.
Context `{Faults, Node, TxSync} (cfg : configuration).
Implicit Types d : daemon.

Notation reachable := (reachable cfg).

(** ** The sequential specification *)

(** The height after an answer; height 0 is tried again as long as the answer is 0. *)
Definition follows (last h : Z) : Prop := h = u64 (last + 1) \/ h = 0 /\ last = 0.

Definition answer (last0 : Z) (runs : list (Z * Z)) : Z :=
  match runs with [] => last0 | (_, r) :: _ => r end.

(** Blocks processed one after the other, starting in [w0] after height [last0]. *)
Inductive one_by_one (w0 : World) (last0 : Z) : list (Z * Z) -> World -> Prop :=
| one_by_one_start : one_by_one w0 last0 [] w0
| one_by_one_block runs w h r w' :
    one_by_one w0 last0 runs w -> follows (answer last0 runs) h ->
    processBlockWithRecover h w = (Ok r, w') ->
    one_by_one w0 last0 ((h, r) :: runs) w'.

(** ** The protocol of the goroutines *)

(** The block an iteration waits for. *)
Definition block_of (it : option iteration_pc) : option Z :=
  match it with
  | Some (Sending _ h) | Some (Awaiting _ h) => Some h
  | _ => None
  end.
Definition in_flight (d : daemon) : option Z := block_of (iteration d).

(** The worker's block is awaited, unless the program is stopping. *)
Definition awaited (it : option iteration_pc) (run st : bool) (h : Z) : Prop :=
  (exists first, it = Some (Awaiting first h)) \/ it = None /\ run = true /\ st = true.

(** What holds between the iteration [it] and the worker [wk], with the last height [last],
    the flags [running], [stopped] and [send_timed_out] and the runs so far. *)
Record protocol_at (last0 last : Z) (it : option iteration_pc) (wk : worker_pc)
  (run st to : bool) (rs : list (Z * Z)) : Prop := {
  pr_running : run = false -> it = None;
  pr_abandoned : it = None -> run = true -> st = true \/ to = true;
  pr_follows : forall h, block_of it = Some h -> follows last h;
  pr_worker :
    match wk with
    | WorkerStopped => st = true
    | Receiving => last = answer last0 rs /\ forall first h, it <> Some (Awaiting first h)
    | Running h => last = answer last0 rs /\ follows last h /\ awaited it run st h
    | Reporting r => exists h rs', rs = (h, r) :: rs' /\ awaited it run st h
    end;
}.
Definition protocol (last0 : Z) (d : daemon) : Prop :=
  protocol_at last0 (lastHeightProcessed d) (iteration d) (worker d) (running d) (stopped d)
    (send_timed_out d) (runs d).

(** The state right after [runDaemon] set up its goroutines. *)
Definition fresh (d : daemon) : Prop :=
  running d = false /\ iteration d = None /\ worker d = Receiving /\ runs d = [] /\
  inflightStartedAt (watchdog d) = never /\ exited d = false.

Lemma fresh_protocol d : fresh d -> protocol (lastHeightProcessed d) d.
Proof.
  intros (Hr & Hi & Hw & Hruns & _). unfold protocol. rewrite Hr, Hi, Hw, Hruns.
  split; naive_solver.
Qed.

(** A timeout only touches the watchdog's last dump, and may end the process. *)
Lemma observe_timeout_fields force now d :
  exists t e, observe_timeout cfg force now d =
    d <| watchdog := watchdog d <| lastDumpAt := t |> |> <| exited := e |>.
Proof.
  unfold observe_timeout, blockTimeoutSnapshot.
  exists (lastDumpAt (observe_timeout cfg force now d).(watchdog)), (exited (observe_timeout cfg force now d)).
  unfold observe_timeout, blockTimeoutSnapshot.
  repeat (case_match; cbn); destruct d as [? ? ? ? ? ? [] ? ? ? ? ? ?]; simplify_eq/=; done.
Qed.

(** The cases of a step, with the state's fields written out. *)
Ltac step_cases Hs :=
  destruct Hs; unfold give_up_block, abandon_iteration, end_iteration, with_target, loop_round,
    block_processed, end_round, end_iteration, start_block;
  try (match goal with |- context [observe_timeout cfg ?f ?n ?d] =>
     let t := fresh "t" in let ex := fresh "ex" in
     destruct (observe_timeout_fields f n d) as (t & ex & ->) end);
  match goal with d : daemon |- _ =>
    destruct d as [w last bh run it wk wd ji lp st ex' rs to] end; cbn in *; simplify_eq.

Lemma step_protocol last0 d d' : step cfg d d' -> protocol last0 d -> protocol last0 d'.
Proof.
  unfold protocol. intros Hs. step_cases Hs; intros [Hrun Hab Hfol Hw];
    repeat case_match; cbn in *; simplify_eq.
  all: try (specialize (Hrun eq_refl); subst).
  all: repeat match goal with
    | Ho : _ /\ _ |- _ => destruct Ho
    | Ho : _ \/ _ |- _ => destruct Ho; simplify_eq
    | Ho : exists _, _ |- _ => destruct Ho; simplify_eq
    | Ho : awaited _ _ _ _ |- _ => destruct Ho as [[? ?] | (? & ? & ?)]; simplify_eq
    end.
  all: split; [intros; cbn in *; simplify_eq; try done .. |].
  all: try discriminate (Hrun eq_refl).
  all: try (assert (run = true) as -> by (destruct run; [done | discriminate (Hrun eq_refl)])).
  all: unfold awaited; try solve [ auto | congruence | unfold follows; lia
    | split; [done | intros; congruence]
    | split_and!; [tauto | first [done | by apply Hfol] | first [by right | left; by eexists]]
    | eexists _, _; split; [reflexivity | first [by right | left; by eexists]] ].
Qed.

Lemma reachable_protocol d0 d :
  fresh d0 -> reachable d0 d -> protocol (lastHeightProcessed d0) d.
Proof.
  intros Hf%fresh_protocol Hr. revert Hf. generalize (lastHeightProcessed d0). intros last0.
  induction Hr as [| d0 d1 d Hs _ IH]; [done |]. intros Hp. by eapply IH, step_protocol.
Qed.

(** ** Refinement *)

(** What the worker has done so far, when the process has not died in the middle of a block. *)
Definition worked (d0 d : daemon) : Prop :=
  exists w, one_by_one (world d0) (lastHeightProcessed d0) (runs d) w /\
    (world d = w \/ exited d = true).

(** Only the worker's call touches the database and the record of runs. *)
Lemma step_frame d d' :
  step cfg d d' -> exited d = false /\
  (runs d' = runs d /\ (world d' = world d \/ exited d' = true) \/
   exists h r, worker d = Running h /\ runs d' = (h, r) :: runs d /\
     processBlockWithRecover h (world d) = (Ok r, world d') /\ exited d' = false).
Proof.
  intros Hs. split; [by destruct Hs |].
  step_cases Hs; repeat case_match; cbn; try (left; tauto); right; eexists _, _; eauto.
Qed.

Lemma reachable_worked d0 d : fresh d0 -> reachable d0 d -> worked d0 d.
Proof.
  intros Hf Hr. revert d Hr. refine (rtc_ind_r _ _ _ _).
  - exists (world d0). destruct Hf as (_ & _ & _ & -> & _). split; [constructor | by left].
  - intros d1 d Hr Hs (w & Hw & Hd). pose proof (reachable_protocol d0 d1 Hf Hr) as Hp.
    destruct (step_frame d1 d Hs) as [Hex [(Hruns & Hwd) | (h & r & Hwk & Hruns & Hrun & He)]].
    + exists w. rewrite Hruns. split; [done |]. destruct Hd as [<- | ?]; [| congruence].
      destruct Hwd as [-> | ?]; [by left | by right].
    + destruct Hd as [<- | ?]; [| congruence]. exists (world d). split; [| by left].
      rewrite Hruns. destruct Hp as [_ _ _ Hpw]. rewrite Hwk in Hpw.
      destruct Hpw as (Hl & Hfol & _). rewrite Hl in Hfol. by econstructor.
Qed.

Lemma start_fresh now w d0 w0 : start_daemon now w = (Ok d0, w0) -> fresh d0 /\ world d0 = w0.
Proof.
  intros E. apply mbind_Ok in E as (lb & w1 & _ & E). apply mbind_Ok in E as (w2 & w3 & [= -> ->] & E).
  injection E as <- <-. by destruct lb.
Qed.

(** C5: the daemon processes blocks one at a time and in order.  Whatever the interleaving of
    the ticker, the iterations, the worker, the watchdog, the timeouts and the shutdown, what
    the worker has done is a run of the sequential specification: one block after the other,
    each at the height after the previous answer (height 0 again while the answer is 0), each
    on the database the previous one left.  The block an iteration waits for is the one after
    the last height; a working worker has that block, unless the program is stopping. *)
Theorem blocks_in_order now w d0 w0 d :
  start_daemon now w = (Ok d0, w0) -> reachable d0 d ->
  (exists w1, one_by_one w0 (lastHeightProcessed d0) (runs d) w1 /\
     (world d = w1 \/ exited d = true)) /\
  (forall h, in_flight d = Some h -> follows (lastHeightProcessed d) h) /\
  forall h, worker d = Running h ->
    follows (answer (lastHeightProcessed d0) (runs d)) h /\ (in_flight d = Some h \/ stopped d = true).
Proof.
  intros [Hf <-]%start_fresh Hr. pose proof (reachable_protocol d0 d Hf Hr) as [_ _ Hfol Hw].
  split; [by apply reachable_worked | split; [exact Hfol |]].
  intros h Hh. rewrite Hh in Hw. destruct Hw as (<- & Hfo & Haw). split; [done |].
  destruct Haw as [[first E] | (_ & _ & ?)]; [left | by right]. unfold in_flight. by rewrite E.
Qed.

(** ** Abandoned iterations *)

(** An iteration that ended without clearing [running]. *)
Definition abandoned (d : daemon) : Prop := iteration d = None /\ running d = true.

(** Nothing but the block already in the worker's hands can still be processed. *)
Definition last_block (d d' : daemon) : Prop :=
  worker d' = worker d /\ runs d' = runs d \/
  (forall h, worker d' <> Running h) /\
    (runs d' = runs d \/ exists h r, worker d = Running h /\ runs d' = (h, r) :: runs d).

Lemma step_abandoned d d' : step cfg d d' -> abandoned d -> abandoned d' /\ last_block d d'.
Proof.
  unfold abandoned, last_block. intros Hs [Hi Hr]. step_cases Hs;
    (split; [tauto |]); try (left; done); right; split; eauto 8.
Qed.

Lemma last_block_trans d1 d2 d3 : last_block d1 d2 -> last_block d2 d3 -> last_block d1 d3.
Proof.
  unfold last_block.
  intros [[Hw Hr] | [Hw Hr]] [[Hw' Hr'] | [Hw' [Hr' | (h & r & Hh & Hr')]]]; rewrite Hr', ?Hw', ?Hw.
  - by left.
  - right. auto.
  - right. split; [done |]. right. exists h, r. rewrite <- Hw, <- Hr. done.
  - right. auto.
  - right. auto.
  - by destruct (Hw h).
Qed.

(** C40: an abandoned iteration wedges the daemon.  [running] stays set without an iteration
    only when the program is stopping or the send of a height timed out; from then on no
    iteration ever starts again, and at most the block that is already in the worker's hands
    is still processed. *)
Theorem wedged_for_good now w d0 w0 d :
  start_daemon now w = (Ok d0, w0) -> reachable d0 d -> abandoned d ->
  (stopped d = true \/ send_timed_out d = true) /\
  forall d', reachable d d' -> abandoned d' /\ last_block d d'.
Proof.
  intros [Hf _]%start_fresh Hr Ha. pose proof (reachable_protocol d0 d Hf Hr) as [_ Hab _ _].
  split; [apply Hab; apply Ha |]. intros d' Hd'. clear -Ha Hd'. revert d' Hd'.
  refine (rtc_ind_r _ _ _ _); [split; [done | by left] |].
  intros d1 d' _ Hs [Ha1 Hl]. destruct (step_abandoned d1 d' Hs Ha1) as [Ha' Hl'].
  split; [done | by eapply last_block_trans].
Qed.

(** ** The watchdog *)

Definition watchdog_at (it : option iteration_pc) (s : blockWatchdogState) : Prop :=
  match block_of it with
  | Some h => inflightHeight s = h /\ inflightStartedAt s <> never
  | None => inflightStartedAt s = never
  end.

Lemma clear_in_flight h s : inflightHeight s = h -> inflightStartedAt (clearInFlightBlock h s) = never.
Proof. intros <-. unfold clearInFlightBlock. by rewrite Z.eqb_refl. Qed.

Lemma step_watchdog_at d d' :
  step cfg d d' -> (running d = false -> iteration d = None) ->
  watchdog_at (iteration d) (watchdog d) -> watchdog_at (iteration d') (watchdog d').
Proof.
  intros Hs. step_cases Hs; intros Hrun; repeat case_match; cbn; try done.
  all: try (rewrite Hrun by done; done).
  all: try (intros; split; [done | lia]).
  all: try (unfold recordDaemonTarget; cbn; by case_match).
  all: intros [Hh _]; by apply clear_in_flight.
Qed.

(** C24: the watchdog sees the block in flight.  In every state its record names the height an
    iteration is sending or waiting for, with the time it started, and nothing when there is
    none; so a report of a stalled block is about that block, after at least the configured
    timeout, and two unforced reports are at least the dump delay apart. *)
Theorem watchdog_accurate now w d0 w0 d :
  start_daemon now w = (Ok d0, w0) -> reachable d0 d ->
  (forall h, in_flight d = Some h ->
     inflightHeight (watchdog d) = h /\ inflightStartedAt (watchdog d) <> never) /\
  forall force t snapshot s', blockTimeoutSnapshot cfg force t (watchdog d) = (Some snapshot, s') ->
    in_flight d = Some (snap_inflightHeight snapshot) /\
    0 < blockProcessingTimeout cfg <= Sub_time t (inflightStartedAt (watchdog d)) /\
    lastDumpAt s' = t /\
    (force = false -> lastDumpAt (watchdog d) <> never ->
     nextBlockProcessingDumpDelay cfg <= Sub_time t (lastDumpAt (watchdog d))).
Proof.
  intros [Hf _]%start_fresh Hr.
  assert (Hwd : watchdog_at (iteration d) (watchdog d)).
  { revert d Hr. refine (rtc_ind_r _ _ _ _).
    - destruct Hf as (_ & Hi & _ & _ & Hn & _). by rewrite Hi.
    - intros d1 d Hr Hs Hd1. pose proof (reachable_protocol d0 d1 Hf Hr) as [Hrun _ _ _].
      by eapply step_watchdog_at. }
  unfold watchdog_at in Hwd. fold (in_flight d) in Hwd. split.
  - intros h Hh. by rewrite Hh in Hwd.
  - intros force t snapshot s' E. unfold blockTimeoutSnapshot in E.
    destruct (_ || _) eqn:E1; [done |]. apply orb_false_iff in E1 as [E1 E2].
    destruct (Sub_time t _ <? _) eqn:E3; [done |]. destruct (negb force && _ && _) eqn:E4; [done |].
    injection E as <- <-. cbn. destruct (in_flight d) as [h |]; [| lia].
    destruct Hwd as [<- _]. split; [done | split; [lia | split; [done |]]].
    intros -> Hl. cbn in E4. destruct (lastDumpAt (watchdog d) =? never) eqn:E5; [lia |].
    cbn in E4. lia.
Qed.

(** ** A missing block *)

(** The heights of the later table are among those of the earlier one. *)
Definition heights_shrink : relation DB := fun (d d' : DB) =>
  forall b, b ∈ rows (t_blocks d') -> exists b0, b0 ∈ rows (t_blocks d) /\ block_Height b0 = block_Height b.
#[export] Instance heights_shrink_preorder : PreOrder heights_shrink.
Proof.
  split; [intros e b Hb; by exists b |]. intros d1 d2 d3 H12 H23 b Hb.
  destruct (H23 b Hb) as (b1 & Hb1 & <-). apply H12, Hb1.
Qed.

Lemma shrink_mark b state : steps (on_db heights_shrink) (markBlockProcessingState b state).
Proof.
  apply steps_stmt; [typeclasses eauto |]. intros d [] d' E. unfold update_rows in E.
  destruct (List.find (same_key b) (rows (get_table d))) as [old |] eqn:Ef; [| by simplify_eq].
  repeat case_match; simplify_eq. cbn. intros x Hx.
  apply find_some in Ef as [Hin%list_elem_of_In _].
  apply list_elem_of_fmap in Hx as (y & -> & Hy). cbn.
  destruct (block_ID b =? block_ID y); [by exists old | by exists y].
Qed.
Lemma shrink_delete b : steps (on_db heights_shrink) (deleteG_block b).
Proof.
  apply steps_stmt; [typeclasses eauto |]. intros d [] d' [= <-] x Hx. exists x.
  by apply list_elem_of_In, filter_In in Hx as [Hx%list_elem_of_In _].
Qed.

Lemma shrink_recovery h :
  steps (on_db heights_shrink)
    (let* _ := mtry (MarkIncompleteBlockHeight h) in
     let* _ := mtry cleanupIncompleteHead in mret (rollbackBlockHeight h)).
Proof.
  pose proof shrink_mark. pose proof shrink_delete.
  assert (Hall : forall l, steps (on_db heights_shrink) (all_children l)).
  { induction l; unfold all_children, transactionHasExpectedChildren; go_steps. }
  unfold MarkIncompleteBlockHeight, cleanupIncompleteHead, chainHeadBlock, best_block,
    blockHasExpectedTransactions, deleteBlockWithRetry, blockDeleteRetryAttempts.
  go_steps.
Qed.

Definition gap (l : Z) (w : World) : Prop := forall b, b ∈ block_rows w -> block_Height b <> l.

Lemma gap_shrinks l w w' : heights_shrink (db w) (db w') -> gap l w -> gap l w'.
Proof. intros Hs Hg b Hb. destruct (Hs b Hb) as (b0 & Hb0 & <-). by apply Hg. Qed.

(** An outcome that leaves the block table alone and answers [l], if it answers. *)
Definition stays (l : Z) (w : World) (out : res Z * World) : Prop :=
  block_rows out.2 = block_rows w /\ forall r, out.1 = Ok r -> r = l.

(** Above a missing block, every way through [RunBlockProcessing] ends where it began. *)
Lemma check_above_gap l prev w :
  0 <= l -> gap l w -> stays l w (checkHandleReorg (l + 1) prev w).
Proof.
  intros Hl Hg. unfold checkHandleReorg. replace (0 <? l + 1) with true by lia.
  replace (l + 1 - 1) with l by lia. unfold mbind at 1.
  assert (Hs : steps (on_db (same t_blocks)) (block_at_opt ("error getting block@" +:+ pretty l) l)).
  { unfold block_at_opt, block_at. go_steps. }
  specialize (Hs w). apply block_rows_same in Hs. unfold stays.
  destruct (block_at_opt _ l w) as [[[b |] | e | e] w2] eqn:Eb; cbn [fst snd] in *; rewrite <- ?Hs; try done.
  - exfalso. unfold block_at_opt in Eb. apply mbind_Ok in Eb as (rb & w3 & Eb%mtry_Ok & E).
    destruct rb as [b' | e]; [| destruct (unwrap e); done]. injection E as -> ->.
    apply mbind_Ok in Eb as (b1 & w4 & (Hin & Hb & _)%oneG_found & E).
    apply mbind_Ok in E as (? & ? & _ & [= -> _]). apply (Hg b Hin). lia.
  - split; [done |]. by intros r [= <-].
Qed.

Lemma run_above_gap l w : 0 <= l -> gap l w -> stays l w (RunBlockProcessing (l + 1) w).
Proof.
  intros Hl Hg. unfold RunBlockProcessing. replace (l + 1 =? 0) with false by lia.
  unfold mbind at 1, mtry at 1. pose proof (getBlockToProcess_spec (l + 1) w) as [Hdb _].
  assert (Hr1 : block_rows (getBlockToProcess (l + 1) w).2 = block_rows w)
    by (unfold table_rows; by rewrite Hdb).
  destruct (getBlockToProcess (l + 1) w) as [[json | e | e] w1]; cbn [fst snd] in *;
    [| split; [done | intros r [= <-]; lia] | done].
  destruct (check_above_gap l (blk_PreviousBlockHash json) w1 Hl) as [Hrows Hans];
    [unfold gap; by rewrite Hr1 |].
  unfold mbind at 1, mtry at 1.
  destruct (checkHandleReorg _ _ w1) as [[k | e | e] w2]; cbn [fst snd] in *;
    rewrite Hr1 in Hrows; [| split; [done | intros r [= <-]; lia] | done].
  rewrite (Hans k eq_refl). replace (l =? l + 1) with false by lia.
  split; [exact Hrows | by intros r [= <-]].
Qed.

Lemma worker_above_gap l w r w' :
  0 <= l < 2 ^ 64 - 1 -> gap l w -> processBlockWithRecover (l + 1) w = (Ok r, w') -> r = l /\ gap l w'.
Proof.
  intros Hl Hg. unfold processBlockWithRecover, mrecover.
  destruct (run_above_gap l w ltac:(lia) Hg) as [Hrows Hans].
  assert (Hg1 : gap l (RunBlockProcessing (l + 1) w).2) by (unfold gap; by rewrite Hrows).
  destruct (RunBlockProcessing (l + 1) w) as [[r1 | e | e] w1]; cbn [fst snd] in *; [| done |].
  - intros [= -> ->]. by split; [apply Hans |].
  - intros E. pose proof (shrink_recovery (l + 1) w1) as Hs. rewrite E in Hs. cbn in Hs.
    split; [| by eapply gap_shrinks].
    apply mbind_Ok in E as (? & ? & _ & E). apply mbind_Ok in E as (? & ? & _ & [= <- _]).
    unfold rollbackBlockHeight. replace (l + 1 =? 0) with false by lia. rewrite u64_small by lia. lia.
Qed.

(** C23: a missing block is never filled in.  When the last answer is a height at which no
    block is stored (a reorganisation can delete the block and then fail to reach the node),
    every later block the worker gets is the one above the gap, its answer is the gap's height
    again, and the gap stays, whatever the node and the database do: the daemon makes no
    progress any more, although [checkHandleReorg] reports that it steps back to fill the gap. *)
Theorem gap_is_permanent now w d0 w0 d l :
  start_daemon now w = (Ok d0, w0) -> reachable d0 d -> worker d = Receiving ->
  lastHeightProcessed d = l -> 0 < l < 2 ^ 64 - 1 -> gap l (world d) ->
  forall d', reachable d d' ->
    (exists n, runs d' = replicate n (l + 1, l) ++ runs d) /\
    (exited d' = false -> gap l (world d') /\ (worker d' = Receiving -> lastHeightProcessed d' = l)).
Proof.
  intros [Hf _]%start_fresh Hr Hw Hl Hrange Hg.
  pose proof (reachable_protocol d0 d Hf Hr) as Hp.
  assert (Hans : answer (lastHeightProcessed d0) (runs d) = l).
  { destruct Hp as [_ _ _ Hpw]. rewrite Hw in Hpw. destruct Hpw as [<- _]. done. }
  enough (Hinv : forall d', reachable d d' ->
    (exists n, runs d' = replicate n (l + 1, l) ++ runs d) /\ (exited d' = false -> gap l (world d')) /\
    answer (lastHeightProcessed d0) (runs d') = l).
  { intros d' Hd'. destruct (Hinv d' Hd') as (Hn & Hgd & Ha). split; [done |]. intros Hex.
    split; [auto |]. intros Hw'.
    destruct (reachable_protocol d0 d' Hf (rtc_trans _ _ _ Hr Hd')) as [_ _ _ Hpw]. rewrite Hw' in Hpw.
    destruct Hpw as [-> _]. done. }
  clear Hw Hl Hp. refine (rtc_ind_r _ _ _ _); [split; [by exists 0%nat | done] |].
  intros d1 d' Hd1 Hs (Hn & Hg1 & Ha1).
  destruct (reachable_protocol d0 d1 Hf (rtc_trans _ _ _ Hr Hd1)) as [_ _ _ Hpw].
  destruct (step_frame d1 d' Hs) as [Hex [(Hruns & Hwd) | (h & r & Hwk & Hruns & Hrun & He)]].
  - rewrite Hruns. split; [done | split; [| done]]. intros Hex'. destruct Hwd as [-> | ?]; [auto | congruence].
  - rewrite Hwk in Hpw. destruct Hpw as (Hlast & Hfo & _). rewrite Hlast, Ha1 in Hfo.
    assert (h = l + 1) as -> by (destruct Hfo as [-> | [? ?]]; [apply u64_small |]; lia).
    destruct (worker_above_gap l (world d1) r (world d') ltac:(lia) (Hg1 Hex) Hrun) as [-> Hg'].
    rewrite Hruns. split; [| done]. destruct Hn as [n ->]. by exists (S n).
Qed.

(** ** The stored chain *)

(** What [DoYourThing] starts from. *)
Lemma start_chain `{!Healthy} now w top d0 w0 :
  chain_ok top (db w) -> (forall b, b ∈ rows (t_blocks (db w)) -> 0 <= block_Height b) ->
  start_daemon now w = (Ok d0, w0) ->
  0 <= lastHeightProcessed d0 /\ chain_ok (lastHeightProcessed d0) (db w0).
Proof.
  intros Hc Hpos. unfold start_daemon, best_block, query, stmt, mtry, mbind, mget, mret.
  rewrite healthy. cbn [rbind].
  destruct (highest_by block_Height _) as [b |] eqn:E; cbn; intros [= <- <-]; cbn.
  - replace (List.filter _ _) with (rows (t_blocks (db w))) in E
      by (symmetry; generalize (rows (t_blocks (db w))); induction l; cbn; congruence).
    split; [by apply Hpos, (highest_by_in block_Height) |].
    split; try apply Hc. intros x Hx. by apply (highest_by_max _ _ _ _ E).
  - apply highest_by_none in E. split; [done |]. split; try apply Hc. intros x Hx.
    apply list_elem_of_In in Hx. exfalso. eapply (in_nil (a:=x)). rewrite <- E. by apply filter_In.
Qed.

(** Heights for which [last + 1] does not wrap around. *)
Definition heights_fit (d0 d : daemon) : Prop :=
  lastHeightProcessed d0 < 2 ^ 64 - 1 /\ forall h r, (h, r) ∈ runs d -> h < 2 ^ 64 - 1.

(** C6: the stored chain never gets ahead of the daemon.  Started on a database whose blocks
    have distinct keys, hashes and heights, and with a healthy database, at every moment no
    block is stored above the last answer of the worker, and keys, hashes and heights are
    still distinct: after successes, failures, reorganisations and recovered panics alike, for
    every node (that does not pass off the mempool's marker as a block hash) and every
    behaviour of the transactions' synchronisation. *)
Theorem stored_chain_bounded `{!TxSyncLaws, !Healthy} now w top d0 w0 d :
  honest_hashes -> chain_ok top (db w) ->
  (forall b, b ∈ rows (t_blocks (db w)) -> 0 <= block_Height b) ->
  start_daemon now w = (Ok d0, w0) -> reachable d0 d -> exited d = false -> heights_fit d0 d ->
  chain_ok (answer (lastHeightProcessed d0) (runs d)) (db (world d)).
Proof.
  intros Hhon Hc Hpos Hstart Hr Hex [Hl0 Hfit].
  destruct (start_chain now w top d0 w0 Hc Hpos Hstart) as [Hnn Hc0].
  apply start_fresh in Hstart as [Hf <-].
  destruct (reachable_worked d0 d Hf Hr) as (w1 & Hob & [-> | ?]); [| congruence].
  enough (0 <= answer (lastHeightProcessed d0) (runs d) < 2 ^ 64 - 1 /\
    chain_ok (answer (lastHeightProcessed d0) (runs d)) (db w1)) by tauto.
  clear Hr Hex. revert Hob Hfit. generalize (runs d). intros rs Hob.
  induction Hob as [| rs wb h r wa Hob IH Hfo Hrun]; intros Hfit; cbn; [done |].
  destruct IH as [Hran Hok]; [intros; apply (Hfit h0 r0); by right |].
  pose proof (Hfit h r ltac:(by left)) as Hh.
  destruct (worker_answer h (answer (lastHeightProcessed d0) rs) wb r wa Hhon) as [? ?];
    [| done | done | split; [lia | done]].
  destruct Hfo as [-> | [-> ->]]; [right; rewrite u64_small by lia | left]; lia.
Qed.
End Theorems.

(** ** Worked examples *)

Import Demo BlockTheorems.Examples.

(** The node moved to another block 1, whose hash it does not tell: the stale block [x1] is
    deleted and block 2 fails. *)
Module DaemonExamples.
#[export] Instance gap_node : Node := {|
  node_block_hash _ h := if h =? 2 then Ok "b2" else no_answer;
  node_block _ hash :=
    if bool_decide (hash = "b2") then Ok (block_json "b2" "b1" []) else no_answer;
  node_genesis _ := no_answer;
  node_transaction _ _ := no_answer;
|}.
Definition demo_config : configuration := ApplySettings
  {| DaemonMode := daemonmode; ProcessingDelay := 0; DaemonDelay := Second;
     BlockProcessingTimeout := Minute; BlockProcessingDumpInterval := 0;
     ExitOnBlockProcessingTimeout := false |}.

Definition d0 : daemon := mkDaemon (ticked stale_world) 1 0 false None Receiving
  (recordBlockSuccess 5 1 initial_watchdog) false true false false [] false.
Definition d1 : daemon := d0 <| running := true |> <| iteration := Some GetTarget |>.
Definition d2 : daemon := with_target 6 2 d1.
Definition d3 : daemon := loop_round 7 d2.
Definition d4 : daemon :=
  d3 <| iteration := Some (Awaiting false 2) |> <| worker := Running 2 |>.
Definition w5 : World := snd (processBlockWithRecover 2 (world d4)).
Definition d5 : daemon :=
  d4 <| world := w5 |> <| worker := Reporting 1 |> <| runs := (2, 1) :: runs d4 |>.
Definition d6 : daemon := block_processed 8 false 2 1 d5.
(** The send of block 2 gives up. *)
Definition d3' : daemon :=
  give_up_block 2 (observe_timeout demo_config true 100 d3) <| send_timed_out := true |>.

Lemma start_d0 : start_daemon 5 stale_world = (Ok d0, ticked stale_world).
Proof. vm_compute. reflexivity. Qed.

Lemma reach_d3 : reachable demo_config d0 d3.
Proof.
  eapply rtc_l; [apply (step_tick demo_config d0); reflexivity |].
  eapply rtc_l; [apply (step_target demo_config d1 6 2); [reflexivity | reflexivity | by vm_compute | lia] |].
  apply rtc_once, (step_round demo_config d2 7); [reflexivity | reflexivity | by vm_compute].
Qed.
Lemma reach_d6 : reachable demo_config d0 d6.
Proof.
  eapply rtc_trans; [exact reach_d3 |].
  eapply rtc_l; [apply (step_send demo_config d3 false 2); reflexivity |].
  eapply rtc_l; [apply (step_run demo_config d4 2 1 w5); [reflexivity | reflexivity |] |].
  { unfold w5. vm_compute. reflexivity. }
  apply rtc_once, (step_report demo_config d5 false 2 1 8); [reflexivity | reflexivity | reflexivity |].
  by vm_compute.
Qed.
Lemma reach_d3' : reachable demo_config d0 d3'.
Proof.
  eapply rtc_trans; [exact reach_d3 |].
  apply rtc_once, (step_send_timeout demo_config d3 false 2 100); [reflexivity | reflexivity | by vm_compute].
Qed.

Lemma stale_chain : chain_ok 1 (db stale_world).
Proof.
  split; [exact stale_ok | | exact stale_heights | |].
  - intros b b' Hb Hb' Heq. cbn in Hb, Hb'. rewrite !elem_of_cons, elem_of_nil in Hb, Hb'.
    destruct Hb as [-> | [-> | []]], Hb' as [-> | [-> | []]]; done.
  - intros b Hb. cbn in Hb. rewrite !elem_of_cons, elem_of_nil in Hb.
    destruct Hb as [-> | [-> | []]]; cbn; lia.
  - intros b Hb _. cbn in Hb. rewrite !elem_of_cons, elem_of_nil in Hb.
    destruct Hb as [-> | [-> | []]]; vm_compute; reflexivity.
Qed.

Lemma blocks_in_order_witness :
  runs d6 = [(2, 1)] /\ exists w1, one_by_one (ticked stale_world) 1 (runs d6) w1 /\
    (world d6 = w1 \/ exited d6 = true).
Proof.
  split; [reflexivity |].
  exact (proj1 (blocks_in_order demo_config 5 stale_world d0 (ticked stale_world) d6 start_d0 reach_d6)).
Defined.

Lemma watchdog_accurate_witness :
  in_flight d3 = Some 2 /\ inflightHeight (watchdog d3) = 2.
Proof.
  split; [reflexivity |].
  apply (proj1 (watchdog_accurate demo_config 5 stale_world d0 (ticked stale_world) d3 start_d0 reach_d3)).
  reflexivity.
Defined.

Lemma wedged_for_good_witness :
  stopped d3' = false /\ forall d', reachable demo_config d3' d' -> abandoned d'.
Proof.
  split; [reflexivity |]. intros d' Hr.
  apply (proj2 (wedged_for_good demo_config 5 stale_world d0 (ticked stale_world) d3' start_d0 reach_d3'
    (conj eq_refl eq_refl)) d' Hr).
Defined.

Lemma gap_d6 : gap 1 (world d6).
Proof.
  assert (E : block_rows (world d6) = [stored_block 1 0 "g" None (Some "complete")])
    by (vm_compute; reflexivity).
  intros b Hb. rewrite E, elem_of_cons, elem_of_nil in Hb. by destruct Hb as [-> | []].
Qed.

(** Block 1 is gone: block 2 is tried for ever. *)
Lemma gap_is_permanent_witness :
  runs d6 = [(2, 1)] /\
  forall d', reachable demo_config d6 d' -> exists n, runs d' = replicate n (2, 1) ++ [(2, 1)].
Proof.
  split; [reflexivity |]. intros d' Hr.
  apply (proj1 (gap_is_permanent demo_config 5 stale_world d0 (ticked stale_world) d6 1
    start_d0 reach_d6 eq_refl eq_refl ltac:(lia)
    gap_d6 d' Hr)).
Defined.

Lemma stored_chain_bounded_witness : chain_ok 1 (db (world d6)).
Proof.
  apply (stored_chain_bounded demo_config 5 stale_world 1 d0 (ticked stale_world) d6).
  - intros now hash json. cbn. case_bool_decide; [| discriminate]. intros [= <-]. discriminate.
  - exact stale_chain.
  - intros b Hb. cbn in Hb. rewrite !elem_of_cons, elem_of_nil in Hb.
    destruct Hb as [-> | [-> | []]]; cbn; lia.
  - exact start_d0.
  - exact reach_d6.
  - reflexivity.
  - split; [cbn; lia |]. intros h r Hr. change (runs d6) with [(2, 1)] in Hr.
    apply list_elem_of_singleton in Hr as [= -> ->]. lia.
Defined.
End DaemonExamples.
