(* ===== verification/ChainValidation.v ===== *)
(** * Chain validation ([daemon/jobs/chainvalidation.go])

    The job compares the stored chain with the node's, height by height: transactions that are
    not stored under their block, and transactions with other numbers of inputs or outputs than
    the node reports.  Debug output is left out. *)
From stdpp Require Import pretty.
From S2P Require Import Prelude Bytes Lbrycrd Rows Store Datastore StoreFacts BlockSync.
From S2P Require Import Keyed BlockProcessing BlockSyncProofs BlockFacts Jobs DemoWorld.

Record BlockData := mkBlockData {
  bd_Block : Z;
  bd_TxHash : string;
  bd_MissingOutputs : Z;
  bd_MissingInputs : Z;
}.

Section Validation.
Context `{Faults, Node, Clock} (block_count : nat -> res Z) (error_text : error -> string).

(** [for ... { if equal { tx = transaction } }]: the last one. *)
Definition find_last {A} (f : A -> bool) (l : list A) : option A :=
  foldl (fun found x => if f x then Some x else found) None l.

Definition checkTx (lbryBlock : GetBlockResponse) (transactions : list Transaction)
  (missingData : list BlockData) (lbryTxHash : string) : M World (list BlockData) :=
  match find_last (fun t => bool_decide (txn_Hash t = lbryTxHash)) transactions with
  | Some tx =>
      let* lbryTx := ask (fun now => node_transaction now lbryTxHash) in
      let* nrOutputs := countG (fun o => out_TransactionID o =? txn_ID tx) in
      let* nrInputs := countG (fun i => in_TransactionID i =? txn_ID tx) in
      if negb (nrOutputs =? len (tx_Vout lbryTx)) || negb (nrInputs =? len (tx_Vin lbryTx)) then
        mret (missingData ++ [mkBlockData (u64 (blk_Height lbryBlock)) lbryTxHash
                                (len (tx_Vout lbryTx) - nrOutputs) (len (tx_Vin lbryTx) - nrInputs)])
      else mret missingData
  | None => mret (missingData ++ [mkBlockData (u64 (blk_Height lbryBlock)) lbryTxHash 0 0])
  end.

Definition checkTxs (missingData : list BlockData) (lbryBlock : GetBlockResponse)
  (transactions : list Transaction) : M World (list BlockData) :=
  mfold (blk_Tx lbryBlock) (checkTx lbryBlock transactions) missingData.

(** The body of the loop: one height. *)
Definition validate_height (from : Z) (missingData : list BlockData) : M World (list BlockData) :=
  let* haveBlock := existsG (fun b => block_Height b =? from) in
  let* block := oneG (fun b => block_Height b =? from) in
  if (haveBlock : bool) then
    let* hash := ask (fun now => node_block_hash now from) in
    let* lbryBlock := ask (fun now => node_block now hash) in
    let* transactions := allG (fun t => bool_decide (txn_BlockHashID t = Some (block_Hash block))) in
    checkTxs missingData lbryBlock transactions
  else mret (missingData ++ [mkBlockData from "" 0 0]).

(** [for *from <= *to { ...; *from++ }]; the fuel is the number of heights. *)
Definition out_of_fuel : error := ErrMsg "fuel".
Fixpoint validate_range (fuel : nat) (from to : Z) (missingData : list BlockData)
  : M World (list BlockData) :=
  if from <=? to then
    match fuel with
    | O => mfail out_of_fuel
    | S fuel' =>
        let* missingData := validate_height from missingData in
        validate_range fuel' (u64 (from + 1)) to missingData
    end
  else mret missingData.

Definition ValidateChainRange (from to : option Z) : M World (list BlockData) :=
  let from := default 0 from in
  let* to := (match to with Some to => mret to | None => ask block_count end) in
  validate_range (Z.to_nat (to - from + 1)) from to [].

(** The text that names the number of differences. *)
Definition missing_text (n : Z) : string := pretty n +:+ " pieces of missing data".

Definition chainValidationJob : string := "chainvalidationjob".

(** The goroutine of [ValidateChain]. *)
Definition ValidateChain : M World unit :=
  let is_job (j : JobStatus) := bool_decide (status_JobName j = chainValidationJob) in
  let* exists_ := mtry (existsG is_job) in
  match exists_ with
  | inr _ => mret tt
  | inl exists_ =>
      let* job :=
        (if (exists_ : bool) then mtry (oneG is_job)
         else mret (inl (mkJobStatus chainValidationJob zero_time false None None))) in
      match job with
      | inr _ => mret tt
      | inl job =>
          let* missingData := mtry (ValidateChainRange (Some 0) None) in
          let job :=
            match missingData with
            | inr e => job <| status_ErrorMessage := Some (error_text e) |> <| status_IsSuccess := false |>
            | inl [] => job
            | inl l => job <| status_ErrorMessage := Some (missing_text (len l)) |>
            end in
          let* now := time_now in
          let* _ := mtry (upsert_job (job <| status_LastSync := now |>)) in
          mret tt
      end
  end.
End Validation.

(** ** What the validation reports *)

Section Report.
Context `{Faults, Node}.

(** The node's answers do not change meanwhile. *)
Definition steady : Prop :=
  (forall n h, node_block_hash n h = node_block_hash 0 h) /\
  (forall n h, node_block n h = node_block 0 h) /\
  (forall n h, node_transaction n h = node_transaction 0 h).

Definition stored_txs (d : DB) (b : Block) : list Transaction :=
  List.filter (fun t => bool_decide (txn_BlockHashID t = Some (block_Hash b)))
    (rows (t_transactions d)).
Definition output_count (d : DB) (t : Transaction) : Z :=
  Z.of_nat (count_if (fun o => out_TransactionID o =? txn_ID t) (rows (t_outputs d))).
Definition input_count (d : DB) (t : Transaction) : Z :=
  Z.of_nat (count_if (fun i => in_TransactionID i =? txn_ID t) (rows (t_inputs d))).

Definition tx_report (d : DB) (lbryBlock : GetBlockResponse) (b : Block) (hash : string)
  : list BlockData :=
  let height := u64 (blk_Height lbryBlock) in
  match find_last (fun t => bool_decide (txn_Hash t = hash)) (stored_txs d b) with
  | None => [mkBlockData height hash 0 0]
  | Some t =>
      match node_transaction 0 hash with
      | Ok tx =>
          let outs := len (tx_Vout tx) - output_count d t in
          let ins := len (tx_Vin tx) - input_count d t in
          if (outs =? 0) && (ins =? 0) then [] else [mkBlockData height hash outs ins]
      | _ => []
      end
  end.

Definition stored_at (d : DB) (h : Z) : option Block :=
  List.find (fun b => block_Height b =? h) (rows (t_blocks d)).

Definition node_block_at (h : Z) : res GetBlockResponse :=
  let? hash := node_block_hash 0 h in node_block 0 hash.

Definition height_report (d : DB) (h : Z) : list BlockData :=
  match node_block_at h, stored_at d h with
  | Ok lbryBlock, Some b => flat_map (tx_report d lbryBlock b) (blk_Tx lbryBlock)
  | _, _ => []
  end.

(** A report lists what is not as the node says: nothing is reported exactly when every
    transaction of the node's block is stored under the block, with its inputs and outputs. *)
Lemma ask_Ok {A} (f : nat -> res A) w a w' : ask f w = (Ok a, w') -> f (tick w) = Ok a /\ db w' = db w.
Proof. unfold ask. by intros [= <- <-]. Qed.
Lemma countG_Ok `{Row R} f w n w' :
  countG (R:=R) f w = (Ok n, w') ->
  n = Z.of_nat (count_if f (rows (get_table (db w)))) /\ db w' = db w.
Proof. intros [E ->]%query_Ok. by simplify_eq. Qed.

Lemma checkTx_Ok d lbryBlock b acc hash w acc' w' :
  steady -> db w = d -> checkTx lbryBlock (stored_txs d b) acc hash w = (Ok acc', w') ->
  db w' = d /\ acc' = acc ++ tx_report d lbryBlock b hash.
Proof.
  intros (_ & _ & Hsteady) Hw E. unfold checkTx, tx_report in *.
  destruct (find_last _ _) as [t |]; [| by injection E as <- <-].
  apply mbind_Ok in E as (tx & w1 & [Htx Hd1]%ask_Ok & E). rewrite Hsteady in Htx. rewrite Htx.
  apply mbind_Ok in E as (outs & w2 & [Ho Hd2]%countG_Ok & E).
  apply mbind_Ok in E as (ins & w3 & [Hi Hd3]%countG_Ok & E).
  rewrite Hd1, Hw in Ho. rewrite Hd2, Hd1, Hw in Hi. cbn in Ho, Hi.
  assert (Hd : db w3 = d) by congruence. clear Hd1 Hd2 Hd3.
  unfold output_count, input_count. rewrite <- Ho, <- Hi.
  destruct (negb _ || negb _) eqn:Ec; injection E as <- <-; (split; [done |]).
  - replace (_ && _) with false by lia. done.
  - replace (_ && _) with true by lia. by rewrite app_nil_r.
Qed.

Lemma checkTxs_Ok d lbryBlock b acc w acc' w' :
  steady -> db w = d -> checkTxs acc lbryBlock (stored_txs d b) w = (Ok acc', w') ->
  db w' = d /\ acc' = acc ++ flat_map (tx_report d lbryBlock b) (blk_Tx lbryBlock).
Proof.
  intros Hs. unfold checkTxs. revert acc w. induction (blk_Tx lbryBlock) as [| hash l IH]; intros acc w Hw E.
  - injection E as <- <-. by rewrite app_nil_r.
  - apply mbind_Ok in E as (acc1 & w1 & E1 & E). apply checkTx_Ok in E1 as [Hw1 ->]; [| done..].
    apply IH in E as [? ->]; [| done]. split; [done |]. cbn. by rewrite app_assoc.
Qed.

Lemma validate_height_Ok d h acc w acc' w' :
  steady -> db w = d -> validate_height h acc w = (Ok acc', w') ->
  db w' = d /\ acc' = acc ++ height_report d h /\ exists b, stored_at d h = Some b.
Proof.
  intros Hs Hw E. unfold validate_height in E. pose proof Hs as (Hhash & Hblock & _).
  apply mbind_Ok in E as (have & w1 & [Hhave Hd1]%existsG_Ok & E).
  apply mbind_Ok in E as (b & w2 & [Hb Hd2]%oneG_Ok & E).
  rewrite Hd1 in Hb. rewrite Hw in Hb, Hhave. cbn in Hb, Hhave.
  assert (have = true) as ->.
  { rewrite Hhave. apply existsb_exists. apply find_some in Hb. by exists b. }
  apply mbind_Ok in E as (hash & w3 & [Hh Hd3]%ask_Ok & E). rewrite Hhash in Hh.
  apply mbind_Ok in E as (lbryBlock & w4 & [Hl Hd4]%ask_Ok & E). rewrite Hblock in Hl.
  apply mbind_Ok in E as (txs & w5 & [Ht Hd5]%allG_Ok & E).
  assert (Hd : db w5 = d) by congruence. rewrite Hd4, Hd3, Hd2, Hd1, Hw in Ht. cbn in Ht.
  rewrite Ht in E. apply (checkTxs_Ok d) in E as [? ->]; [| done..].
  unfold height_report, node_block_at, stored_at. rewrite Hh. cbn. rewrite Hl, Hb. eauto.
Qed.

(** The heights of a range. *)
Definition heights (from to : Z) : list Z := seqZ from (to - from + 1).

Lemma heights_cons from to : from <= to -> heights from to = from :: heights (from + 1) to.
Proof. intros Hle. unfold heights. rewrite seqZ_cons by lia. do 2 f_equal; lia. Qed.
Lemma heights_nil from to : to < from -> heights from to = [].
Proof. intros Hlt. unfold heights. apply seqZ_nil. lia. Qed.

Lemma validate_range_Ok d to : steady -> to < 2 ^ 64 - 1 ->
  forall fuel from acc w acc' w', 0 <= from -> db w = d ->
  validate_range fuel from to acc w = (Ok acc', w') ->
  db w' = d /\ acc' = acc ++ flat_map (height_report d) (heights from to) /\
  forall h, from <= h <= to -> exists b, stored_at d h = Some b.
Proof.
  intros Hs Hto fuel. induction fuel as [| fuel IH]; intros from acc w acc' w' Hf Hw; cbn;
    (destruct (Z.leb_spec from to) as [Hle | Hlt];
     [| intros [= <- <-]; rewrite heights_nil by done; cbn; rewrite app_nil_r;
        split; [done | split; [done | lia]]]); [done |].
  intros E. apply mbind_Ok in E as (acc1 & w1 & E1 & E).
  apply (validate_height_Ok d) in E1 as (Hw1 & -> & Hb); [| done..].
  rewrite u64_small in E by lia. apply IH in E as (? & -> & Hall); [| lia | done].
  split; [done |]. rewrite (heights_cons from to Hle). cbn. rewrite app_assoc. split; [done |].
  intros h Hh. destruct (Z.eq_dec h from) as [-> | ?]; [done | apply Hall; lia].
Qed.

(** ** It succeeds when everything can be read *)

(** The node answers for the height and for the transactions that are looked at. *)
Definition answered (d : DB) (h : Z) : Prop :=
  exists lbryBlock b, node_block_at h = Ok lbryBlock /\ stored_at d h = Some b /\
    forall hash, hash ∈ blk_Tx lbryBlock ->
      find_last (fun t => bool_decide (txn_Hash t = hash)) (stored_txs d b) <> None ->
      exists tx, node_transaction 0 hash = Ok tx.

Lemma triple_ask {A} (f : nat -> res A) d a :
  (forall n, f n = Ok a) -> triple (fun w => db w = d) (ask f) (fun x w => x = a /\ db w = d).
Proof. intros Hf w Hw. exists a, (ticked w). unfold ask. by rewrite Hf. Qed.

(** Success of a fold whose steps succeed and leave the database alone. *)
Lemma succeeds_fold {A B} (l : list A) (f : B -> A -> M World B) d :
  (forall b x, x ∈ l -> triple (fun w => db w = d) (f b x) (fun _ w => db w = d)) ->
  forall b, triple (fun w => db w = d) (mfold l f b) (fun _ w => db w = d).
Proof.
  induction l as [| x l IH]; intros Hf b; cbn; [by apply triple_ret |].
  eapply triple_bind; [apply Hf; by left |]. intros b'. apply IH. intros. apply Hf. by right.
Qed.

Lemma triple_drop {A} d a (m : M World A) :
  triple (fun w => db w = d) m (fun x w => x = a /\ db w = d) ->
  triple (fun w => db w = d) m (fun _ w => db w = d).
Proof. intros Hm. eapply triple_conseq; [exact Hm | done |]. by intros ? ? [_ ?]. Qed.

Lemma validate_height_total `{!Healthy} d h acc :
  steady -> answered d h ->
  triple (fun w => db w = d) (validate_height h acc) (fun _ w => db w = d).
Proof.
  intros (Hhash & Hblock & Htx) (lbryBlock & b & Hn & Hb & Hall).
  apply rbind_Ok in Hn as (hash & Hh & Hl). unfold validate_height.
  eapply (triple_seq d d true).
  { apply triple_query. do 2 f_equal. apply existsb_exists. exists b. by apply find_some in Hb. }
  eapply (triple_seq d d b); [apply triple_query; cbn; unfold stored_at in Hb; by rewrite Hb |]. cbn.
  eapply (triple_seq d d hash); [apply triple_ask; intros; by rewrite Hhash |].
  eapply (triple_seq d d lbryBlock); [apply triple_ask; intros; by rewrite Hblock |].
  eapply (triple_seq d d (stored_txs d b)); [by apply triple_query |].
  apply succeeds_fold. intros acc' txh Hin. unfold checkTx. specialize (Hall txh Hin).
  destruct (find_last _ _) as [t |]; [| by apply triple_ret].
  destruct Hall as [tx Hraw]; [done |].
  eapply (triple_seq d d tx); [apply triple_ask; intros; by rewrite Htx |].
  eapply (triple_seq d d (output_count d t)); [by apply triple_query |].
  eapply (triple_seq d d (input_count d t)); [by apply triple_query |].
  case_match; by apply triple_ret.
Qed.

Lemma validate_range_total `{!Healthy} d to :
  steady -> to < 2 ^ 64 - 1 ->
  forall fuel from acc, 0 <= from -> to - from < Z.of_nat fuel ->
  (forall h, from <= h <= to -> answered d h) ->
  triple (fun w => db w = d) (validate_range fuel from to acc) (fun _ w => db w = d).
Proof.
  intros Hs Hto fuel. induction fuel as [| fuel IH]; intros from acc Hf Hfuel Hall; cbn;
    (destruct (Z.leb_spec from to) as [Hle | Hlt]; [| by apply triple_ret]); [lia |].
  eapply triple_bind; [apply validate_height_total; [done | apply Hall; lia] |]. intros acc'. cbn.
  rewrite u64_small by lia. apply IH; [lia | lia |]. intros h Hh. apply Hall. lia.
Qed.

(** C30: what the validation of a range of heights reports.  As long as the node's answers stay
    the same: if it ends with a result, the database is untouched, a block is stored at every
    height of the range, and the result lists, height by height and in the node's order,
    exactly the transactions that are not stored under that block or that have other numbers
    of inputs or outputs than the node says.  It does end with a result when the database and
    the node answer and a block is stored at every height.  So a missing block is never part
    of a result: it aborts the validation. *)
Theorem ValidateChainRange_spec block_count from to w :
  steady -> 0 <= from -> to < 2 ^ 64 - 1 ->
  (forall missing w', ValidateChainRange block_count (Some from) (Some to) w = (Ok missing, w') ->
     db w' = db w /\ missing = flat_map (height_report (db w)) (heights from to) /\
     forall h, from <= h <= to -> exists b, stored_at (db w) h = Some b) /\
  (Healthy -> (forall h, from <= h <= to -> answered (db w) h) ->
   exists missing w', ValidateChainRange block_count (Some from) (Some to) w = (Ok missing, w')).
Proof.
  intros Hs Hf Hto. split.
  - intros missing w' E. by apply (validate_range_Ok (db w)) in E.
  - intros Hh Hall.
    destruct (validate_range_total (db w) to Hs Hto (Z.to_nat (to - from + 1)) from [])
      with (w := w) as (missing & w' & E & _); [lia | lia | done | done |].
    by exists missing, w'.
Qed.
End Report.

Import Demo.

Module ValidationExample.
#[export] Instance demo_healthy : Healthy.
Proof. done. Defined.
(** Block 1 as the demo node has it, and with an output of [aa] lost. *)
Definition lost_db : DB :=
  db demo_world2 <| t_outputs := keep_rows (fun o => negb (bool_decide (out_TransactionHash o = "aa")))
    (t_outputs (db demo_world2)) |>.
Definition lost_world : World := mkWorld lost_db 0.

Lemma validation_steady : steady.
Proof. done. Qed.

Lemma ValidateChainRange_spec_witness :
  (exists w', ValidateChainRange (fun _ => Ok 1) (Some 1) (Some 1) lost_world =
     (Ok [mkBlockData 0 "aa" 1 0], w')) /\
  [mkBlockData 0 "aa" 1 0] = flat_map (height_report lost_db) (heights 1 1).
Proof.
  assert (E : exists w', ValidateChainRange (fun _ => Ok 1) (Some 1) (Some 1) lost_world =
    (Ok [mkBlockData 0 "aa" 1 0], w')) by (eexists; vm_compute; reflexivity).
  split; [exact E |]. destruct E as [w' E].
  destruct (ValidateChainRange_spec (fun _ => Ok 1) 1 1 lost_world validation_steady) as [Hres _]; [lia | lia |].
  exact (proj1 (proj2 (Hres _ _ E))).
Defined.
End ValidationExample.
