(* ===== verification/ValueSync.v ===== *)
(** * Derived columns ([daemon/jobs/valuesync.go], [daemon/jobs/outputfixsync.go])

    Jobs that recompute columns from other tables: the balances of addresses, the values of
    transactions, the number of claims in a channel, and the bid state of claims marked as
    spent whose output is not.  What MySQL makes of SUM over amounts, and how many rows it
    reports as changed, are parameters. *)
From S2P Require Import Prelude Bytes Lbrycrd Rows Store Datastore StoreFacts BlockSync.
From S2P Require Import BlockProcessing Jobs ClaimTrie.

Class SqlSums := {
  sum_differences : list (float64 * float64) -> float64;
  sum_amounts : list float64 -> float64;
  changed_rows : DB -> DB -> Z;
}.

Section Values.
Context `{Faults, Clock, SqlSums}.

(** [UPDATE ...] with its [RowsAffected]. *)
Definition exec_update (f : DB -> DB) : M World Z := stmt (fun d => Ok (changed_rows d (f d), f d)).

(** ** Balances of addresses *)

Definition balance (d : DB) (a : Address) : float64 :=
  sum_differences (map (fun ta => (txaddr_CreditAmount ta, txaddr_DebitAmount ta))
    (List.filter (fun ta => txaddr_AddressID ta =? addr_ID a) (rows (t_tx_addresses d)))).

Definition syncAddressBalanceSet (from batchSize : Z) : M World Z :=
  prefixed "SyncAddressBalances: " (exec_update (fun d => d <| t_addresses := mkTable
    (map (fun a => if (from <? addr_ID a) && (addr_ID a <? u64 (from + batchSize))
                   then a <| addr_Balance := balance d a |> else a)
       (rows (t_addresses d))) (auto (t_addresses d)) |>)).

(** [for lastAddressID < addressesAdjusted] *)
Fixpoint balance_batches (fuel : nat) (lastAddressID addressesAdjusted : Z) : M World Z :=
  if lastAddressID <? addressesAdjusted then
    match fuel with
    | O => mret addressesAdjusted
    | S fuel' =>
        let* adjusted := syncAddressBalanceSet lastAddressID 10000 in
        balance_batches fuel' (u64 (lastAddressID + 10000)) (u64 (addressesAdjusted + adjusted))
    end
  else mret addressesAdjusted.

Definition latest_address : M World Address :=
  query (fun d =>
    match foldl (fun best a => match best with
                               | Some x => if addr_ID x <? addr_ID a then Some a else best
                               | None => Some a
                               end) None (rows (t_addresses d)) with
    | Some a => Ok a
    | None => Err ErrNoRows
    end).

Definition SyncAddressBalances (fuel : nat) : M World Z :=
  let* latestAddress := latest_address in
  balance_batches fuel (addr_ID latestAddress) 0.

(** ** Values of transactions *)

Definition transaction_value (d : DB) (t : Transaction) : float64 :=
  sum_amounts (map txaddr_CreditAmount
    (List.filter (fun ta => txaddr_TransactionID ta =? txn_ID t) (rows (t_tx_addresses d)))).

(** The block the transaction is joined with. *)
Definition in_block_between (d : DB) (from to : Z) (t : Transaction) : bool :=
  existsb (fun b => bool_decide (txn_BlockHashID t = Some (block_Hash b)) &&
                    (from <=? block_Height b) && (block_Height b <=? to)) (rows (t_blocks d)).

Definition set_values_between (from to : Z) (d : DB) : DB :=
  d <| t_transactions := mkTable
    (map (fun t => if in_block_between d from to t
                   then t <| txn_Value := transaction_value d t |> else t)
       (rows (t_transactions d))) (auto (t_transactions d)) |>.

Definition latest_height (p : string) : M World Z :=
  let* latestBlock := prefixed p (best_block (fun _ => true) block_Height) in
  if block_Height latestBlock =? 0 then mfail (ErrPrefix p (ErrMsg "latest height = 0"))
  else mret (block_Height latestBlock).

Definition updateIncrement : Z := 5000.

Definition SyncTransactionValue : M World Z :=
  let* latestHeight := latest_height "SyncTransactionValues: " in
  let updateIncrement := if latestHeight <=? updateIncrement then latestHeight else updateIncrement in
  mfold (seqZ 0 (latestHeight / updateIncrement)) (fun affected i =>
    let from := i * updateIncrement in
    let to := Z.min ((i + 1) * updateIncrement) latestHeight in
    let* rowsAffected := prefixed "SyncTransactionValues: " (exec_update (set_values_between from to)) in
    mret (affected + rowsAffected)) 0.

(** ** Claims in a channel *)

(** [SELECT COUNT( * ) FROM claim WHERE claim.publisher_id = ?] *)
Definition claims_in (channel : Claim) (c : Claim) : bool :=
  bool_decide (claim_PublisherID c = Some (claim_ClaimID channel)).

Definition set_claim_count (cnt now : Z) (c : Claim) : Claim :=
  c <| claim_ClaimCount := cnt |> <| claim_ModifiedAt := now |>.

Definition count_channel (channel : Claim) : M World unit :=
  prefixed "SyncClaimsInChannel: "
    (let* cnt := countG (claims_in channel) in
     if claim_ClaimCount channel =? cnt then mret tt
     else let* now := time_now in update_colsG (set_claim_count cnt now) channel).

(** [for i := 0; i < latestHeight; i = i + updateIncrement] *)
Definition batch_starts (latestHeight : Z) : list Z :=
  map (fun k => k * updateIncrement)
    (seqZ 0 ((latestHeight + updateIncrement - 1) / updateIncrement)).

Definition channels_between (from to : Z) (c : Claim) : bool :=
  (from <=? claim_Height c) && (claim_Height c <=? to) && (claim_ClaimType c =? 2).

Definition SyncClaimCntInChannel : M World unit :=
  let* latestHeight := latest_height "SyncClaimsInChannel: " in
  mfor (batch_starts latestHeight) (fun i =>
    let to := Z.min (i + updateIncrement) latestHeight in
    let* channelsToProcess := prefixed "SyncClaimsInChannel: " (allG (channels_between i to)) in
    mfor channelsToProcess count_channel).

(** ** Claims that are not really spent *)

Definition is_spent_output (claim : Claim) (o : Output) : bool :=
  bool_decide (out_ClaimID o = Some (claim_ClaimID claim)) &&
  bool_decide (out_TransactionHash o = default "" (claim_TransactionHashUpdate claim)) &&
  (out_Vout o =? default 0 (claim_VoutUpdate claim)) && out_IsSpent o.

Definition activate (now : Z) (c : Claim) : Claim :=
  c <| claim_BidState := "Active" |> <| claim_ModifiedAt := now |>.

Definition fix_output (claim : Claim) : M World unit :=
  let* isSpent := existsG (is_spent_output claim) in
  if (isSpent : bool) then mret tt
  else let* now := time_now in update_colsG (activate now) claim.

(** The pages of claims marked as spent, by increasing id as long as the database returns them
    that way; the producer sends a page before it asks for the next one. *)
Fixpoint spent_pages (fuel : nat) (lastClaimRecordID : Z) (work : list Claim -> M World unit)
  : M World unit :=
  let* claims := allG (fun c => bool_decide (claim_BidState c = "Spent") &&
                                (lastClaimRecordID <? claim_ID c)) in
  match fuel, last (take pageLimit claims) with
  | S fuel', Some c =>
      let* _ := work (take pageLimit claims) in spent_pages fuel' (claim_ID c) work
  | _, _ => mret tt
  end.

(** A worker that meets an error reports it and ends; the others go on.  Here each claim's
    worker is one job, run when its page is sent. *)
Definition fixOutputs : M World unit :=
  let* w := mget in
  spent_pages (S (length (rows (t_claims (db w))))) 0 (fun claims =>
    mfor claims (fun c => let* _ := mtry (fix_output c) in mret tt)).
End Values.
