(* ===== verification/ValueSyncTheorems.v ===== *)
(** * Derived columns: what the jobs compute

    [channel_counts_spec]: after the channel job every channel counts its claims, and nothing
    else changed.  [transaction_values_spec]: the heights the job for the values covers;
    [SyncAddressBalances_idle]: the balances are never recomputed. *)
From Stdlib Require Import Floats.SpecFloat.
From S2P Require Import Prelude Bytes Lbrycrd Rows Store Datastore StoreFacts Keyed BlockSync.
From S2P Require Import DemoWorld BlockProcessing BlockSyncProofs BlockFacts ClaimTrie ClaimTable ClaimTrieTheorems.
From S2P Require Import Jobs ValueSync.

Section Channels.
Context `{Faults, Clock, !Healthy}.
Context (d : DB) (Hok : claims_ok d).

(** The number of claims of a channel; updates of the counts do not change it. *)
Definition channel_size (c : Claim) : Z := Z.of_nat (count_if (claims_in c) (claim_rows d)).
(** A channel counted at a time, which is written when the count has changed. *)
Definition counted (now : Z) (c : Claim) : Claim :=
  if claim_ClaimCount c =? channel_size c then c else set_claim_count (channel_size c) now c.

(** The database in which the channels with these ids were counted at these times. *)
Definition count_of (done : gmap Z Z) (c : Claim) : Claim :=
  match done !! claim_ID c with Some now => counted now c | None => c end.
Definition counted_db (done : gmap Z Z) : DB := map_claims (count_of done) d.
Definition clock_time (now : Z) : Prop := exists n, now = clock n.
Definition times_ok (done : gmap Z Z) : Prop := map_Forall (fun _ => clock_time) done.

Lemma counted_ident now c : same_ident c (counted now c).
Proof. unfold counted, same_ident. by case_match. Qed.
Lemma count_of_ident done c : same_ident c (count_of done c).
Proof. unfold count_of. case_match; [apply counted_ident | done]. Qed.

Lemma counted_db_ok done : claims_ok (counted_db done).
Proof. apply claims_ok_map; [apply count_of_ident | exact Hok]. Qed.

Lemma count_of_publisher done c : claim_PublisherID (count_of done c) = claim_PublisherID c.
Proof. unfold count_of, counted. by repeat case_match. Qed.
Lemma claims_in_counted done done' c c' :
  claims_in (count_of done c) (count_of done' c') = claims_in c c'.
Proof.
  unfold claims_in. rewrite count_of_publisher.
  by destruct (count_of_ident done c) as (_ & _ & _ & ->).
Qed.

Lemma count_if_map {A B} (g : A -> B) (f : B -> bool) l :
  count_if f (map g l) = count_if (fun x => f (g x)) l.
Proof. induction l as [| x l IH]; [done |]. cbn [map]. by rewrite !count_if_cons, IH. Qed.

Lemma count_of_new done c now :
  claim_ClaimCount c = channel_size c \/ done !! claim_ID c = None ->
  count_of (<[claim_ID c := now]> done) c =
    if claim_ClaimCount (count_of done c) =? channel_size c then count_of done c
    else set_claim_count (channel_size c) now (count_of done c).
Proof.
  intros Hnew. unfold count_of at 1. rewrite lookup_insert_eq. unfold count_of.
  destruct Hnew as [Heq | ->]; [| done]. unfold counted. rewrite Heq, Z.eqb_refl.
  destruct (done !! claim_ID c); by rewrite Heq, Z.eqb_refl.
Qed.

(** One more channel counted, or a second time. *)
Lemma count_channel_run done c w :
  c ∈ claim_rows d -> db w = counted_db done -> times_ok done ->
  exists w' done', count_channel (count_of done c) w = (Ok tt, w') /\
    db w' = counted_db done' /\ times_ok done' /\ is_Some (done' !! claim_ID c) /\
    forall i, i <> claim_ID c -> done' !! i = done !! i.
Proof.
  intros Hc Hw Ht. unfold count_channel.
  assert (Hcnt : countG (claims_in (count_of done c)) w = (Ok (channel_size c), ticked w)).
  { unfold countG. apply query_healthy; [apply healthy |]. rewrite Hw. cbn [get_table row_claim].
    change (rows _) with (map (count_of done) (claim_rows d)). rewrite count_if_map.
    unfold channel_size. rewrite (count_if_ext _ (claims_in c)); [done |].
    intros x _. apply claims_in_counted. }
  assert (Hid : claim_ID (count_of done c) = claim_ID c) by apply count_of_ident.
  assert (Hother : forall now x, x ∈ claim_rows d ->
    count_of (<[claim_ID c := now]> done) x =
    if claim_ID x =? claim_ID c then count_of (<[claim_ID c := now]> done) c else count_of done x).
  { intros now x Hx. destruct (Z.eqb_spec (claim_ID x) (claim_ID c)) as [Heq | Hne].
    - by rewrite (keys_ok_eq (claim_rows d) x c (claims_keys _ Hok) Hx Hc Heq).
    - unfold count_of. by rewrite lookup_insert_ne. }
  destruct (Z.eqb_spec (claim_ClaimCount (count_of done c)) (channel_size c)) as [Heq | Hne].
  - destruct (done !! claim_ID c) as [now |] eqn:Ed.
    { exists (ticked w), done. rewrite prefixed_Ok. unfold mbind. rewrite Hcnt.
      rewrite Heq, Z.eqb_refl, Ed. by split_and!. }
    exists (ticked w), (<[claim_ID c := clock 0]> done). rewrite prefixed_Ok. unfold mbind. rewrite Hcnt.
    rewrite Heq, Z.eqb_refl, lookup_insert_eq. split_and!; [done | | | done |].
    + cbn. rewrite Hw. apply map_claims_ext. intros x Hx. rewrite (Hother _ x Hx).
      rewrite count_of_new, Heq, Z.eqb_refl by by right.
      destruct (Z.eqb_spec (claim_ID x) (claim_ID c)) as [Hxc |]; [| done].
      by rewrite (keys_ok_eq (claim_rows d) x c (claims_keys _ Hok) Hx Hc Hxc).
    + apply map_Forall_insert_2; [by exists 0%nat | done].
    + intros i Hi. by rewrite lookup_insert_ne.
  - assert (Ed : done !! claim_ID c = None).
    { destruct (done !! claim_ID c) as [now |] eqn:Ed; [| done]. destruct Hne.
      unfold count_of, counted. rewrite Ed. by destruct (Z.eqb_spec (claim_ClaimCount c) (channel_size c)). }
    eexists _, (<[claim_ID c := clock (tick (ticked w))]> done). rewrite prefixed_Ok. unfold mbind. rewrite Hcnt.
    replace (_ =? channel_size c) with false by lia. rewrite lookup_insert_eq.
    unfold time_now, ask. cbn [db ticked tick]. erewrite (update_claim _ _ (count_of done c)).
    + split_and!; [reflexivity | | | done |].
      * cbn [db ticked]. rewrite Hw, Hid. unfold counted_db. rewrite map_claims_comp.
        apply map_claims_ext. intros x Hx. rewrite (Hother _ x Hx), (proj1 (count_of_ident done x)).
        rewrite count_of_new by by right. replace (_ =? channel_size c) with false by lia.
        destruct (Z.eqb_spec (claim_ID x) (claim_ID c)) as [Hxc |]; [| done].
        by rewrite (keys_ok_eq (claim_rows d) x c (claims_keys _ Hok) Hx Hc Hxc).
      * apply map_Forall_insert_2; [by eexists | done].
      * intros i Hi. by rewrite lookup_insert_ne.
    + cbn. rewrite Hw. apply counted_db_ok.
    + cbn. rewrite Hw. by apply list_elem_of_fmap_2.
    + done.
    + done.
Qed.

(** A batch, read when the channels [done0] were counted. *)
Lemma count_channels_run l : forall done0 done w,
  (forall c, c ∈ l -> c ∈ claim_rows d /\ done !! claim_ID c = done0 !! claim_ID c) ->
  NoDup (claim_ID <$> l) -> db w = counted_db done -> times_ok done ->
  exists w' done', mfor (map (count_of done0) l) count_channel w = (Ok tt, w') /\
    db w' = counted_db done' /\ times_ok done' /\
    forall i, is_Some (done' !! i) <-> is_Some (done !! i) \/ i ∈ claim_ID <$> l.
Proof.
  induction l as [| c l IH]; intros done0 done w Hl Hnd Hw Ht.
  { exists w, done. split_and!; [done.. |]. intros i. rewrite elem_of_nil. tauto. }
  rewrite fmap_cons, NoDup_cons in Hnd. destruct Hnd as [Hc Hnd].
  destruct (Hl c (list_elem_of_here _ _)) as [Hin Hsame].
  destruct (count_channel_run done c w Hin Hw Ht) as (w1 & done1 & E1 & Hw1 & Ht1 & Hd1 & Hkeep).
  destruct (IH done0 done1 w1) as (w2 & done2 & E2 & Hw2 & Ht2 & Hd2); [| done.. |].
  - intros x Hx. destruct (Hl x (list_elem_of_further _ _ _ Hx)) as [? Hix]. split; [done |].
    rewrite Hkeep; [done |]. intros Heq. destruct Hc. rewrite <- Heq. by apply list_elem_of_fmap_2.
  - exists w2, done2. split_and!; [| done.. |].
    + cbn. unfold mbind. replace (count_of done0 c) with (count_of done c); [by rewrite E1 |].
      unfold count_of. by rewrite Hsame.
    + intros i. rewrite Hd2, fmap_cons, elem_of_cons. destruct (decide (i = claim_ID c)) as [-> | Hi].
      * split; [by right; left | by left].
      * rewrite Hkeep by done. naive_solver.
Qed.

(** The batches, from the claims of the heights they ask for. *)
Lemma channels_counted from to done c :
  channels_between from to (count_of done c) = channels_between from to c.
Proof. unfold count_of, counted. by repeat case_match. Qed.

Lemma batches_run latestHeight starts : forall done w,
  db w = counted_db done -> times_ok done ->
  exists w' done', mfor starts (fun i =>
      let to := Z.min (i + updateIncrement) latestHeight in
      let* channelsToProcess := prefixed "SyncClaimsInChannel: " (allG (channels_between i to)) in
      mfor channelsToProcess count_channel) w = (Ok tt, w') /\
    db w' = counted_db done' /\ times_ok done' /\
    forall c, c ∈ claim_rows d -> is_Some (done' !! claim_ID c) <->
      is_Some (done !! claim_ID c) \/ exists i, i ∈ starts /\
        channels_between i (Z.min (i + updateIncrement) latestHeight) c = true.
Proof.
  induction starts as [| i starts IH]; intros done w Hw Ht.
  { exists w, done. split_and!; [done.. |]. set_solver. }
  set (to := Z.min (i + updateIncrement) latestHeight).
  set (batch := List.filter (channels_between i to) (claim_rows d)).
  assert (Hbatch : forall c, c ∈ batch <-> c ∈ claim_rows d /\ channels_between i to c = true).
  { intros c. unfold batch. by rewrite list_elem_of_In, filter_In, <- list_elem_of_In. }
  destruct (count_channels_run batch done done (ticked w)) as (w1 & done1 & E1 & Hw1 & Ht1 & Hd1);
    [by intros c [Hc _]%Hbatch | apply (keys_ok_filter _ _ (claims_keys _ Hok)) | done.. |].
  destruct (IH done1 w1 Hw1 Ht1) as (w2 & done2 & E2 & Hw2 & Ht2 & Hd2).
  exists w2, done2. split_and!; [| done.. |].
  - cbn [mfor]. unfold mbind at 1. cbv zeta. fold to. unfold mbind at 1.
    assert (Hfl : List.filter (channels_between i to) (map (count_of done) (claim_rows d)) =
      map (count_of done) batch).
    { unfold batch. clear. induction (claim_rows d) as [| x l IHl]; [done |]. cbn.
      rewrite channels_counted, IHl. by destruct (channels_between i to x). }
    assert (Hall : prefixed "SyncClaimsInChannel: " (allG (channels_between i to)) w =
      (Ok (map (count_of done) batch), ticked w)).
    { rewrite prefixed_Ok. unfold allG. apply query_healthy; [apply healthy |]. rewrite Hw.
      change (rows _) with (map (count_of done) (claim_rows d)). by rewrite Hfl. }
    rewrite Hall, E1. exact E2.
  - intros c Hc. rewrite Hd2, Hd1 by done. split.
    + intros [[? | (c' & Hid & [Hc' Hch]%Hbatch)%list_elem_of_fmap] | (j & Hj & Hch)]; [by left | |].
      * right. exists i. split; [by left |].
        by rewrite (keys_ok_eq (claim_rows d) c c' (claims_keys _ Hok)).
      * right. exists j. split; [by right | done].
    + intros [? | (j & [-> | Hj]%elem_of_cons & Hch)]; [by left; left | | right; by exists j].
      left. right. by apply list_elem_of_fmap_2, Hbatch.
Qed.
End Channels.

(** Every height from 0 to the latest is in a batch. *)
Lemma batch_of latest h :
  0 < latest -> 0 <= h <= latest ->
  exists i, i ∈ batch_starts latest /\ i <= h <= Z.min (i + updateIncrement) latest.
Proof.
  intros Hl Hh. unfold batch_starts, updateIncrement.
  set (k := if h =? latest then (latest - 1) / 5000 else h / 5000).
  assert (Hk : 5000 * k <= h <= 5000 * k + 5000 /\ 0 <= k < (latest + 5000 - 1) / 5000).
  { unfold k. pose proof (Z.div_mod h 5000). pose proof (Z.mod_pos_bound h 5000).
    pose proof (Z.div_mod (latest - 1) 5000). pose proof (Z.mod_pos_bound (latest - 1) 5000).
    replace (latest + 5000 - 1) with (latest - 1 + 1 * 5000) by lia. rewrite Z.div_add by lia.
    destruct (Z.eqb_spec h latest); lia. }
  exists (k * 5000). split; [| lia]. apply list_elem_of_fmap. exists k. split; [done |].
  apply elem_of_seqZ. lia.
Qed.

Section Spec.
Context `{Faults, Clock, !Healthy}.

Lemma latest_height_run p w latest :
  highest_by block_Height (rows (t_blocks (db w))) = Some latest -> 0 < block_Height latest ->
  latest_height p w = (Ok (block_Height latest), ticked w).
Proof.
  intros Hlat Hpos. unfold latest_height, mbind. replace (prefixed _ _ w) with (Ok latest, ticked w).
  - by replace (block_Height latest =? 0) with false by lia.
  - symmetry. rewrite prefixed_Ok. unfold best_block. apply query_healthy; [apply healthy |].
    rewrite <- (filter_true (rows (t_blocks (db w)))) in Hlat. by rewrite Hlat.
Qed.

(** C29: the channel job.  In a healthy database that respects the constraints of the claim
    table and has a block above height 0, the job succeeds; then every channel up to the
    height of the highest block has as its claim count the number of claims that name it as
    their publisher.  Of such a channel nothing is written when it had that count, else the
    count and the time; nothing else has changed: the batches of 5000 heights, which share
    their boundaries, are together one pass over these channels. *)
Theorem channel_counts_spec w latest :
  claims_ok (db w) ->
  highest_by block_Height (rows (t_blocks (db w))) = Some latest -> 0 < block_Height latest ->
  exists w' (time : Claim -> Z), SyncClaimCntInChannel w = (Ok tt, w') /\
    (forall c, exists n, time c = clock n) /\
    db w' = map_claims (fun c =>
      if (0 <=? claim_Height c) && (claim_Height c <=? block_Height latest) && (claim_ClaimType c =? 2) &&
         negb (claim_ClaimCount c =? channel_size (db w) c)
      then c <| claim_ClaimCount := channel_size (db w) c |> <| claim_ModifiedAt := time c |>
      else c) (db w).
Proof.
  intros Hok Hlat Hpos. set (h := block_Height latest) in *.
  assert (Hl : latest_height "SyncClaimsInChannel: " w = (Ok h, ticked w)) by (by apply latest_height_run).
  destruct (batches_run (db w) Hok h (batch_starts h) ∅ (ticked w)) as (w' & done & E & Hdb & Ht & Hdone).
  { unfold counted_db. rewrite map_claims_id; [done |]. intros c _. done. }
  { apply map_Forall_empty. }
  exists w', (fun c => default (clock 0) (done !! claim_ID c)).
  split; [unfold SyncClaimCntInChannel, mbind at 1; by rewrite Hl | split].
  { intros c. destruct (done !! claim_ID c) as [t |] eqn:Ed; [by apply (Ht _ _ Ed) | by exists 0%nat]. }
  rewrite Hdb. apply map_claims_ext. intros c Hc. unfold count_of, counted, set_claim_count.
  specialize (Hdone c Hc). unfold channels_between in Hdone.
  destruct (done !! claim_ID c) as [t |] eqn:Ed.
  - destruct (proj1 Hdone) as [[? Hno] | (i & Hi & Hch)]; [by eexists | by rewrite lookup_empty in Hno |].
    assert (Hin : (0 <=? claim_Height c) && (claim_Height c <=? h) && (claim_ClaimType c =? 2) = true).
    { apply list_elem_of_fmap in Hi as (k & -> & Hk%elem_of_seqZ). unfold updateIncrement in *. lia. }
    rewrite Hin. by destruct (claim_ClaimCount c =? channel_size (db w) c).
  - destruct (_ && negb _) eqn:Ec; [| done]. destruct (is_Some_None (A:=Z)). apply Hdone. right.
    destruct (batch_of h (claim_Height c)) as (i & Hi & Hrange); [done | lia |].
    exists i. split; [done | lia].
Qed.

(** ** Values of transactions *)

Context `{SqlSums}.

(** [for lastAddressID < addressesAdjusted] with [addressesAdjusted] zero: no balance is ever
    recomputed. *)
Lemma SyncAddressBalances_idle fuel w r w' :
  (forall a, a ∈ rows (t_addresses (db w)) -> 0 <= addr_ID a) ->
  SyncAddressBalances fuel w = (Ok r, w') -> r = 0 /\ db w' = db w.
Proof.
  intros Hids E. apply mbind_Ok in E as (a & w1 & [Ea Hdb]%query_Ok & E).
  assert (Hin : forall l best, (forall x, best = Some x -> 0 <= addr_ID x) ->
    (forall x, x ∈ l -> 0 <= addr_ID x) ->
    forall x, foldl (fun best a => match best with
      | Some x => if addr_ID x <? addr_ID a then Some a else best
      | None => Some a end) best l = Some x -> 0 <= addr_ID x).
  { clear. induction l as [| y l IH]; cbn; intros best Hb Hl; [exact Hb |]. apply IH.
    - intros x. specialize (Hl y (list_elem_of_here _ _)). destruct best as [z |].
      + destruct (addr_ID z <? addr_ID y); [by intros [= ->] | apply Hb].
      + by intros [= ->].
    - intros x Hx. apply Hl. by right. }
  destruct (foldl _ _ _) as [x |] eqn:Ef in Ea; [| done]. injection Ea as ->.
  assert (0 <= addr_ID a) by (eapply Hin, Ef; [done | exact Hids]).
  destruct fuel; cbn in E; replace (addr_ID a <? 0) with false in E by lia;
    injection E as <- <-; done.
Qed.

Lemma in_block_union d from mid to t :
  from <= mid -> mid <= to ->
  in_block_between d from to t = in_block_between d mid to t || in_block_between d from mid t.
Proof.
  intros Hfm Hmt. unfold in_block_between. induction (rows (t_blocks d)) as [| x l IH]; [done |].
  cbn. rewrite IH. clear IH. destruct (bool_decide _); cbn; [| done].
  destruct (existsb _ l), (existsb _ l); rewrite ?orb_true_r, ?orb_false_r; try done. lia.
Qed.

Lemma set_values_comp from mid to d :
  from <= mid -> mid <= to ->
  set_values_between mid to (set_values_between from mid d) = set_values_between from to d.
Proof.
  intros Hfm Hmt. unfold set_values_between at 1 3.
  set (d1 := set_values_between from mid d).
  assert (Hm : map (fun t => if in_block_between d1 mid to t then t <| txn_Value := transaction_value d1 t |> else t)
      (rows (t_transactions d1)) =
    map (fun t => if in_block_between d from to t then t <| txn_Value := transaction_value d t |> else t)
      (rows (t_transactions d))).
  { unfold d1, set_values_between. cbn [rows t_transactions set_field]. cbn. rewrite map_map.
    apply map_ext. intros t. rewrite (in_block_union d from mid to t Hfm Hmt).
    change (in_block_between (set_values_between from mid d)) with (in_block_between d).
    destruct (in_block_between d from mid t) eqn:E1.
    - rewrite orb_true_r. change (in_block_between _ mid to (t <| txn_Value := transaction_value d t |>))
        with (in_block_between d mid to t). by destruct (in_block_between d mid to t).
    - rewrite orb_false_r. change (in_block_between _ mid to t) with (in_block_between d mid to t).
      by destruct (in_block_between d mid to t). }
  rewrite Hm. reflexivity.
Qed.

Lemma exec_update_run p f w :
  prefixed p (exec_update f) w =
    (Ok (changed_rows (db w) (f (db w))), mkWorld (f (db w)) (S (tick w))).
Proof. apply prefixed_Ok, stmt_healthy; [apply healthy | reflexivity]. Qed.

(** The database after the batches below [i]. *)
Definition valued (d : DB) (inc i : Z) : DB :=
  if i =? 0 then d else set_values_between 0 (inc * i) d.

Lemma valued_step d inc i :
  0 < inc -> 0 <= i ->
  set_values_between (i * inc) ((i + 1) * inc) (valued d inc i) = valued d inc (i + 1).
Proof.
  intros Hinc Hi. unfold valued. replace (i + 1 =? 0) with false by lia.
  replace ((i + 1) * inc) with (inc * (i + 1)) by lia.
  destruct (Z.eqb_spec i 0) as [-> |]; [done |].
  replace (i * inc) with (inc * i) by lia. apply set_values_comp; nia.
Qed.

Lemma value_batches_run d inc latestHeight n : forall i affected w,
  0 < inc -> 0 <= i -> (i + Z.of_nat n) * inc <= latestHeight -> db w = valued d inc i ->
  exists affected' w', mfold (seqZ i (Z.of_nat n)) (fun affected i =>
      let from := i * inc in
      let to := Z.min ((i + 1) * inc) latestHeight in
      let* rowsAffected := prefixed "SyncTransactionValues: " (exec_update (set_values_between from to)) in
      mret (affected + rowsAffected)) affected w = (Ok affected', w') /\
    db w' = valued d inc (i + Z.of_nat n).
Proof.
  induction n as [| n IH]; intros i affected w Hinc Hi Hle Hw.
  - exists affected, w. split; [done |]. by rewrite Z.add_0_r.
  - rewrite seqZ_cons by lia. replace (Z.succ i) with (i + 1) by lia.
    replace (Z.pred (Z.of_nat (S n))) with (Z.of_nat n) by lia. cbn [mfold].
    unfold mbind at 1. cbv zeta. unfold mbind at 1. rewrite exec_update_run. unfold mret at 1.
    rewrite Z.min_l by nia. rewrite Hw, valued_step by done.
    destruct (IH (i + 1) (affected + changed_rows (valued d inc i) (valued d inc (i + 1)))
      (mkWorld (valued d inc (i + 1)) (S (tick w)))) as (a & w' & E & Hdb); [done | lia | nia | done |].
    exists a, w'. rewrite <- E. split; [done |]. rewrite Hdb. f_equal. lia.
Qed.

(** The job for the transactions' values.  In a healthy database with a block above height
    0 the job succeeds, and what its batches do together is one recomputation of the values of
    the transactions in the blocks from height 0 to the last full batch; the blocks above the
    last multiple of 5000 (when there are more than 5000) are left out, so up to 4999 blocks
    keep the values they had. *)
Theorem transaction_values_spec w latest :
  highest_by block_Height (rows (t_blocks (db w))) = Some latest -> 0 < block_Height latest ->
  exists affected w', SyncTransactionValue w = (Ok affected, w') /\
    db w' = set_values_between 0
      (if block_Height latest <=? 5000 then block_Height latest
       else 5000 * (block_Height latest / 5000)) (db w).
Proof.
  intros Hlat Hpos. set (h := block_Height latest) in *.
  assert (Hl : latest_height "SyncTransactionValues: " w = (Ok h, ticked w)) by (by apply latest_height_run).
  unfold SyncTransactionValue, mbind at 1. rewrite Hl. unfold updateIncrement.
  set (inc := if h <=? 5000 then h else 5000).
  assert (Hinc : 0 < inc <= h) by (unfold inc; destruct (Z.leb_spec h 5000); lia).
  assert (Hq : 1 <= h / inc) by (apply Z.div_le_lower_bound; lia).
  destruct (value_batches_run (db w) inc h (Z.to_nat (h / inc)) 0 0 (ticked w)) as (a & w' & E & Hdb);
    [lia | lia | pose proof (Z.mul_div_le h inc); nia | done |].
  exists a, w'. rewrite Z2Nat.id in E, Hdb by lia. split; [exact E |]. rewrite Hdb.
  unfold valued. replace (0 + h / inc =? 0) with false by lia. f_equal. unfold inc.
  destruct (Z.leb_spec h 5000); [rewrite Z.div_same by lia |]; lia.
Qed.
End Spec.

Module ValueExamples.
Import Demo TrieExamples.
#[local] Instance demo_healthy : Healthy.
Proof. intros now. reflexivity. Qed.
#[export] Instance demo_clock : Clock := {| clock now := Z.of_nat now |}.
#[export] Instance demo_sums : SqlSums := {|
  sum_differences _ := f64_zero; sum_amounts l := default f64_zero (last l); changed_rows _ _ := 1;
|}.

(** Claim 1 is a channel; the two others name it as their publisher. *)
Definition channel_db : DB :=
  map_claims (fun c => if claim_ID c =? 1 then c <| claim_ClaimType := 2 |>
                       else c <| claim_PublisherID := Some "a" |>)
    (trie_db <| t_blocks := mkTable [stored_block 1 7 "b" None None] 2 |>).

Lemma channel_db_ok : claims_ok channel_db.
Proof.
  apply claims_ok_map; [intros c; by case_match |].
  destruct trie_ok as [Hk Hp Hf Hu]. split; [exact Hk | exact Hp | exact Hf | exact Hu].
Qed.

Lemma channel_counts_spec_witness :
  exists w', SyncClaimCntInChannel (mkWorld channel_db 0) = (Ok tt, w') /\
    claim_ClaimCount <$> claim_rows (db w') = [2; 0; 0] /\
    claim_ModifiedAt <$> tail (claim_rows (db w')) = [0; 0].
Proof.
  destruct (channel_counts_spec (mkWorld channel_db 0) (stored_block 1 7 "b" None None) channel_db_ok)
    as (w' & time & E & _ & Hdb); [vm_compute; reflexivity | cbn; lia |].
  exists w'. split; [exact E |]. rewrite Hdb. split; vm_compute; reflexivity.
Defined.

Definition f64_one : float64 := S754_finite false 1 0.
(** With 5001 blocks, the transaction of the last one is left out. *)
Definition values_db : DB :=
  empty_db <| t_blocks := mkTable [stored_block 1 5000 "b" None None; stored_block 2 5001 "c" None None] 3 |>
    <| t_transactions := mkTable
         [mkTransaction 1 (Some "b") 0 0 None 0 "aa" 0 0 0 f64_zero;
          mkTransaction 2 (Some "c") 0 0 None 0 "bb" 0 0 0 f64_zero] 3 |>
    <| t_tx_addresses := mkTable [mkTransactionAddress 1 1 f64_zero f64_one;
                                  mkTransactionAddress 2 1 f64_zero f64_one] 3 |>.
Lemma transaction_values_spec_witness :
  exists affected w', SyncTransactionValue (mkWorld values_db 0) = (Ok affected, w') /\
    txn_Value <$> rows (t_transactions (db w')) = [f64_one; f64_zero].
Proof.
  destruct (transaction_values_spec (mkWorld values_db 0) (stored_block 2 5001 "c" None None))
    as (a & w' & E & Hdb); [vm_compute; reflexivity | cbn; lia |].
  exists a, w'. split; [exact E |]. rewrite Hdb. vm_compute. reflexivity.
Defined.
End ValueExamples.
