(* ===== verification/TransactionTable.v ===== *)
(** * The transaction table

    [txs_ok]: the constraints of the table.  [TxRowsLaws]: what [ProcessTx] does to it, for the
    jobs that call it on transactions they find missing or incomplete; [BlockSync] keeps the
    promise. *)
From S2P Require Import Prelude Bytes Script Lbrycrd Scheduler Rows Store Datastore StoreFacts Keyed.
From S2P Require Import Claims Transactions TransactionFacts BlockSync BlockProcessing BlockSyncProofs.

Definition tx_rows (d : DB) : list Transaction := rows (t_transactions d).

(** Keys and hashes of the stored transactions are distinct. *)
Record txs_ok (d : DB) : Prop := {
  txs_keys : keys_ok (tx_rows d);
  txs_hashes : NoDup (txn_Hash <$> tx_rows d);
}.

Lemma txs_ok_rows d d' : tx_rows d' = tx_rows d -> txs_ok d -> txs_ok d'.
Proof. intros E [Hk Hh]. split; by rewrite E. Qed.

Lemma txs_ok_filter p d d' : tx_rows d' = List.filter p (tx_rows d) -> txs_ok d -> txs_ok d'.
Proof. intros E [Hk Hh]. split; rewrite E; by apply fmap_filter_nodup. Qed.

(** A row replaced by one with its key and its hash. *)
Lemma txs_ok_replace old t d d' :
  old ∈ tx_rows d -> key t = key old -> txn_Hash t = txn_Hash old ->
  tx_rows d' = replace_row t (tx_rows d) -> txs_ok d -> txs_ok d'.
Proof.
  intros Hold Hk Hh E Hok. pose proof Hok as [Hnk Hnh]. split; rewrite E; [by apply replace_row_ok |].
  replace (txn_Hash <$> replace_row t (tx_rows d)) with (txn_Hash <$> tx_rows d); [done |].
  unfold replace_row. rewrite <- list_fmap_compose. apply list_fmap_ext. intros i x Hx. cbn.
  destruct (Z.eqb_spec (txn_ID t) (txn_ID x)) as [Heq |]; [| done].
  rewrite Hh. f_equal. apply (keys_ok_eq (tx_rows d)); [done | by eapply list_elem_of_lookup_2 | done |].
  cbn in *. lia.
Qed.

(** Everything but the row of one transaction stays. *)
Definition other_txs (h : string) (d d' : DB) : Prop :=
  txs_ok d -> txs_ok d' /\
    forall x, x ∈ tx_rows d -> txn_Hash x <> h -> x ∈ tx_rows d'.
#[export] Instance other_txs_preorder h : PreOrder (other_txs h).
Proof.
  split; [by intros d Hd |]. intros d1 d2 d3 K12 K23 K1.
  destruct (K12 K1) as [K2 F1]. destruct (K23 K2) as [K3 F2]. split; [done | auto].
Qed.
Lemma other_txs_rows h d d' : tx_rows d' = tx_rows d -> other_txs h d d'.
Proof. intros E Hok. split; [by eapply txs_ok_rows | by rewrite E]. Qed.
Lemma other_txs_replace h old t d d' :
  old ∈ tx_rows d -> key t = key old -> txn_Hash old = h -> txn_Hash t = h ->
  tx_rows d' = replace_row t (tx_rows d) -> other_txs h d d'.
Proof.
  intros Hold Hk Ho Ht E Hok. split; [eapply txs_ok_replace; [exact Hold | done | congruence | done..] |].
  intros x Hx Hne. rewrite E. apply replace_row_keeps; [done |]. intros Heq.
  destruct Hne. rewrite <- Ho. f_equal. apply (keys_ok_eq (tx_rows d)); [apply Hok | done | done |].
  by rewrite Heq.
Qed.

(** A new row for the transaction. *)
Inductive adds (tx : TxRawResult) (d d' : DB) : Prop :=
| adds_row t :
    txn_Hash t = tx_Txid tx -> txn_BlockHashID t = Some (tx_BlockHash tx) ->
    (forall x, x ∈ tx_rows d -> key x <> key t /\ txn_Hash x <> txn_Hash t) ->
    tx_rows d' = tx_rows d ++ [t] -> adds tx d d'.

Definition tx_absent (id : string) (d : DB) : Prop :=
  forall t, t ∈ tx_rows d -> txn_Hash t <> id.

Lemma txs_ok_adds tx d d' : adds tx d d' -> txs_ok d -> txs_ok d'.
Proof.
  intros [t Hh _ Hk E] [Hnk Hnh]. split; rewrite E.
  { apply keys_ok_app; [done |]. intros x Hx. by apply Hk. }
  rewrite fmap_app. apply NoDup_app. split; [done | split; [| by apply NoDup_singleton]].
  intros h (x & -> & Hx)%list_elem_of_fmap Hn%list_elem_of_singleton. by destruct (Hk x Hx).
Qed.

(** The promise of [ProcessTx] on a transaction that is not stored: it adds at most its row,
    exactly its row when it succeeds, and leaves the blocks alone. *)
Class TxRowsLaws `{TxSync} : Prop := {
  process_tx_rows tx t h w r w' :
    tx_absent (tx_Txid tx) (db w) -> process_tx tx t h w = (r, w') ->
    adds tx (db w) (db w') \/ (is_Ok r = false /\ tx_rows (db w') = tx_rows (db w));
  process_tx_others tx t h : steps (on_db (other_txs (tx_Txid tx))) (process_tx tx t h);
  process_tx_keeps_blocks tx t h : steps (on_db (same t_blocks)) (process_tx tx t h);
}.

(** ** [ProcessTx] keeps the promise *)

Section Promise.
Context `{Faults, Stake, Hashes, AddressCodec, PurchaseCodec, JsonStrings}.

Lemma insert_transaction t w r w' :
  insertG t w = (r, w') ->
  (exists t', txn_Hash t' = txn_Hash t /\ txn_BlockHashID t' = txn_BlockHashID t /\
     (forall x, x ∈ tx_rows (db w) -> key x <> key t' /\ txn_Hash x <> txn_Hash t') /\
     tx_rows (db w') = tx_rows (db w) ++ [t']) \/
  (is_Ok r = false /\ tx_rows (db w') = tx_rows (db w)).
Proof.
  intros E. unfold insertG, mbind in E.
  destruct (stmt (insert_row t) w) as [[t' | e | e] w1] eqn:Es; cycle 1.
  1-2: injection E as <- <-; right; split; [done |];
    pose proof (stmt_failed (insert_row t) w) as Hf; rewrite Es in Hf; cbn in Hf;
    rewrite Hf; [done | by intros a].
  left. apply stmt_Ok in Es as [Hi _]. apply insert_row_keyed in Hi as (-> & Hd & Hk).
  set (t' := fill_key _ t) in *.
  assert (Hf : txn_Hash t' = txn_Hash t /\ txn_BlockHashID t' = txn_BlockHashID t).
  { subst t'. unfold fill_key, row_transaction. cbv zeta. destruct (_ =? 0); done. }
  exists t'. split; [apply Hf | split; [apply Hf | split]].
  - intros x Hx. destruct (Hk x Hx) as [Hkx Hcl]. split; [done |].
    by apply bool_decide_eq_false in Hcl.
  - assert (Hq : db w' = db w1).
    { pose proof (steps_oneG eq (same_key t') w1) as Hs. unfold on_db in Hs.
      destruct (oneG (same_key t') w1) as [[a | e | e] w2]; unfold mret in E;
        cbn in Hs; injection E as _ <-; by rewrite Hs. }
    rewrite Hq, Hd. unfold tx_rows. change t_transactions with (get_table (R:=Transaction)).
    by rewrite get_set.
Qed.

Lemma saveUpdateTransaction_rows tx w r w' :
  tx_absent (tx_Txid tx) (db w) -> saveUpdateTransaction tx w = (r, w') ->
  adds tx (db w) (db w') \/ (is_Ok r = false /\ tx_rows (db w') = tx_rows (db w)).
Proof.
  intros Habs. unfold saveUpdateTransaction. unfold mbind at 1.
  set (f := fun t => _). pose proof (steps_get_or_nil eq _ (steps_oneG eq f) w) as Hd.
  unfold on_db in Hd. destruct (get_or_nil _ w) as [[found | e | e] w0] eqn:Eg; cbn in Hd;
    [| intros [= <- <-]; right; by rewrite Hd ..].
  apply get_or_nil_Ok in Eg. destruct found as [t |].
  { apply oneG_found in Eg as (Hin & Hf & _). subst f. cbn in Hf.
    destruct (Habs t Hin). by apply bool_decide_eq_true in Hf. }
  cbn [default]. intros E. apply insert_transaction in E. rewrite <- Hd in E.
  destruct E as [(t' & Hh & Hb & Hk & E) | E]; [left; by econstructor | by right].
Qed.

(** After the row of the transaction nothing touches the table any more. *)
Lemma ProcessTx_rows chain vins vouts tx t h w r w' :
  tx_absent (tx_Txid tx) (db w) -> ProcessTx chain vins vouts tx t h w = (r, w') ->
  adds tx (db w) (db w') \/ (is_Ok r = false /\ tx_rows (db w') = tx_rows (db w)).
Proof.
  intros Habs. unfold ProcessTx. unfold mbind at 1.
  destruct (saveUpdateTransaction tx w) as [s w1] eqn:Es.
  apply saveUpdateTransaction_rows in Es; [| done].
  destruct s as [t1 | e | e]; [| intros [= <- <-]; destruct Es as [? | [_ ?]]; eauto ..].
  destruct Es as [[t' Hh Hb Hk Ht] | [? _]]; [| done]. intros E. left.
  exists t'; [done.. |]. rewrite <- Ht.
  match type of E with ?m w1 = _ => assert (Hm : steps (on_db (same t_transactions)) m) end.
  { unfold saveUpdateInputs, saveUpdateOutputs, run_jobs, run_all, setSendReceive. go_steps. }
  specialize (Hm w1). rewrite E in Hm. unfold on_db, same in Hm. cbn [snd] in Hm.
  unfold tx_rows. by rewrite <- Hm.
Qed.

Lemma steps_after_row (R : relation DB) (Hpre : PreOrder R) chain vins vouts tx t h :
  (forall d d', tx_rows d' = tx_rows d -> R d d') ->
  steps (on_db R) (saveUpdateTransaction tx) -> steps (on_db R) (ProcessTx chain vins vouts tx t h).
Proof.
  intros HR Hs. apply steps_bind; [typeclasses eauto | exact Hs |]. intros t1 w.
  match goal with |- on_db R w (snd (?m w)) => assert (Hm : steps (on_db (same t_transactions)) m) end.
  { unfold saveUpdateInputs, saveUpdateOutputs, run_jobs, run_all, setSendReceive. go_steps. }
  specialize (Hm w). apply HR. unfold tx_rows. by rewrite Hm.
Qed.

Lemma ProcessTx_others chain vins vouts tx t h :
  steps (on_db (other_txs (tx_Txid tx))) (ProcessTx chain vins vouts tx t h).
Proof.
  apply steps_after_row; [typeclasses eauto | apply other_txs_rows |].
  intros w. unfold saveUpdateTransaction. unfold mbind at 1.
  set (f := fun t => _). pose proof (steps_get_or_nil eq _ (steps_oneG eq f) w) as Hd.
  unfold on_db in Hd |- *. destruct (get_or_nil _ w) as [[found | e | e] w0] eqn:Eg; cbn in Hd;
    [| cbn; rewrite Hd; reflexivity ..].
  apply get_or_nil_Ok in Eg. rewrite Hd. destruct found as [t0 |].
  - apply oneG_found in Eg as (Hin & Hf & _). apply bool_decide_eq_true in Hf. rewrite Hd in Hin.
    cbn [default]. unfold mbind. match goal with |- context [updateG ?t w0] => set (t1 := t) end.
    intros Hok. destruct (updateG t1 w0) as [[[] | e | e] w1] eqn:Eu; cycle 1.
    1-2: pose proof (stmt_failed (update_rows (fun _ => t1) t1) w0) as Hw; unfold updateG in Eu;
      rewrite Eu in Hw; cbn [snd] in *; rewrite Hw; [by split | by intros a].
    pose proof (updateG_keyed t1 t0 w0 tt w1 (txs_keys _ Hok) Hin eq_refl Eu) as Hw.
    revert Hok. apply (other_txs_replace _ t0 t1); [exact Hin | done | exact Hf | done |].
    cbn [snd mret]. rewrite Hw. unfold tx_rows.
    change t_transactions with (get_table (R:=Transaction)). by rewrite get_set.
  - cbn [default]. destruct (insertG _ w0) as [r w1] eqn:Ei. cbn [snd].
    apply insert_transaction in Ei as [(t' & Hh & Hb & Hk & E) | [_ E]]; [| by apply other_txs_rows].
    intros Hok. split; [apply (txs_ok_adds tx (db w0)); [by econstructor | done] |].
    intros x Hx _. rewrite E. apply elem_of_app. by left.
Qed.
End Promise.

#[export] Instance block_sync_rows `{Faults, Stake, Hashes, AddressCodec, PurchaseCodec, JsonStrings, Node}
  chain mp mf sc : @TxRowsLaws (block_sync chain mp mf sc).
Proof.
  split; [apply ProcessTx_rows | intros; apply ProcessTx_others | intros; apply (@process_tx_blocks _ (block_sync_laws chain mp mf sc))].
Qed.
