(* ===== verification/MempoolSync.v ===== *)
(** * The memory pool ([daemon/jobs/mempoolsync.go])

    Transactions of the node's pool are processed against a block row with the hash [MEMPOOL];
    rows of that block that are older than an hour and left the pool are deleted.  The pass
    holds [BlockLock] from the first statement to the last, so that no block is processed
    meanwhile.  What Go leaves open, the order in which a map is ranged over, is a parameter, as
    are the column [created_at], which the database fills, and the answers of the node. *)
From S2P Require Import Prelude Bytes Lbrycrd Rows Store Datastore BlockSync BlockProcessing.
From S2P Require Import Jobs.

(** ** What the node reports of its pool *)

Record MempoolFees := {
  fees_Base : float64; fees_Modified : float64; fees_Ancestor : float64;
  fees_Descendant : float64;
}.

Record GetRawMempoolVerboseResult := {
  mp_Vsize : Z; mp_Size : Z; mp_Weight : Z; mp_Fee : float64; mp_ModifiedFee : float64;
  mp_Time : Z; mp_Height : Z; mp_DescendantCount : Z; mp_DescendantSize : Z;
  mp_DescendantFees : float64; mp_AncestorCount : Z; mp_AncestorSize : Z;
  mp_AncestorFees : float64; mp_WtxID : string; mp_Fees : MempoolFees;
  mp_Depends : list string; mp_SpentBy : list string;
}.

Definition RawMempoolVerboseResponse := gmap string GetRawMempoolVerboseResult.

Class MempoolNode := { node_mempool : nat -> res RawMempoolVerboseResponse }.

(** [range] over the pool and over the stale transactions: every entry once. *)
Class MapOrder := {
  range_pool : list (string * GetRawMempoolVerboseResult) ->
    list (string * GetRawMempoolVerboseResult);
  range_stale : list (string * Transaction) -> list (string * Transaction);
}.
Class MapOrderLaws `{MapOrder} : Prop := {
  range_pool_perm : forall l, Permutation (range_pool l) l;
  range_stale_perm : forall l, Permutation (range_stale l) l;
}.

(** The column [transaction.created_at] at a tick. *)
Class Created := { transaction_CreatedAt : nat -> Transaction -> Z }.

Section Mempool.
Context `{Faults, Node, TxSync, Clock, MempoolNode, MapOrder, Created}.

Definition GetRawMempool : M World RawMempoolVerboseResponse := ask node_mempool.

(** ** The transactions of the pool and those they depend on *)

Definition txIDs_of (txSet : RawMempoolVerboseResponse) : gset string :=
  map_fold (fun txID txDetails ids => {[txID]} ∪ list_to_set (mp_Depends txDetails) ∪ ids)
    ∅ txSet.

Definition fetchMempoolRawTransactions (txSet : RawMempoolVerboseResponse)
  : M World (gmap string TxRawResult) :=
  let orderedTxIDs := sort_strings (elements (txIDs_of txSet)) in
  mfold orderedTxIDs (fun rawTxs txID =>
    let* txjson := ask (fun now => node_transaction now txID) in
    mret (<[txID := txjson]> rawTxs)) ∅.

(** ** One transaction *)

Definition processMempoolTx (txid : string) (block : Block) (txjson : option TxRawResult)
  : M World unit :=
  let* existingTx := one_or_none (oneG (fun t => bool_decide (txn_Hash t = txid))) in
  match existingTx with
  | Some _ => mret tt
  | None =>
      match txjson with
      | None => mfail (ErrMsg ("missing fetched mempool transaction " +:+ txid))
      | Some txjson =>
          process_tx
            {| tx_Txid := tx_Txid txjson; tx_Hash := tx_Hash txjson;
               tx_Version := tx_Version txjson; tx_Size := tx_Size txjson;
               tx_Vsize := tx_Vsize txjson; tx_Weight := tx_Weight txjson;
               tx_LockTime := tx_LockTime txjson; tx_Vin := tx_Vin txjson;
               tx_Vout := tx_Vout txjson; tx_Hex := tx_Hex txjson;
               tx_BlockHash := block_Hash block;
               tx_Confirmations := tx_Confirmations txjson; tx_Time := tx_Time txjson;
               tx_Blocktime := tx_Blocktime txjson |}
            (block_BlockTime block) (block_Height block)
      end
  end.

(** ** The pass *)

(** "Are we at the top of the chain?"  Heights are [uint64]. *)
Definition shouldProcessMempoolTransaction (lastBlock : Block)
  (txDetails : GetRawMempoolVerboseResult) : bool :=
  u64 (mp_Height txDetails) <=? u64 (block_Height lastBlock + 1).

(** The first loop of [processTxSet]: [inl] the stale transactions that are left, [inr tt] when
    the pool is ahead of the stored chain. *)
Fixpoint process_pool (block lastBlock : Block) (rawTxs : gmap string TxRawResult)
  (pool : list (string * GetRawMempoolVerboseResult)) (currTxMap : gmap string Transaction)
  : M World (gmap string Transaction + unit) :=
  match pool with
  | [] => mret (inl currTxMap)
  | (txid, txDetails) :: pool' =>
      let currTxMap := delete txid currTxMap in
      if shouldProcessMempoolTransaction lastBlock txDetails then
        let* _ := mfor (mp_Depends txDetails) (fun dependentTxID =>
          processMempoolTx dependentTxID block (rawTxs !! dependentTxID)) in
        let currTxMap := foldl (fun m id => delete id m) currTxMap (mp_Depends txDetails) in
        let* _ := processMempoolTx txid block (rawTxs !! txid) in
        process_pool block lastBlock rawTxs pool' currTxMap
      else mret (inr tt)
  end.

Definition in_mempool_block (t : Transaction) : bool :=
  bool_decide (txn_BlockHashID t = Some MempoolBlockHash).

Definition delete_stale (tx : Transaction) : M World unit :=
  let* staleTx := one_or_none (oneG (fun t =>
    bool_decide (txn_Hash t = txn_Hash tx) && in_mempool_block t)) in
  match staleTx with
  | None => mret tt
  | Some staleTx => deleteG_transaction staleTx
  end.

Definition processTxSet (block : Block) (txSet : RawMempoolVerboseResponse)
  (rawTxs : gmap string TxRawResult) (lastBlock : option Block) (staleTxs : list Transaction)
  : M World bool :=
  match lastBlock with
  | None => mfail (ErrMsg "cannot process mempool without a chain head block")
  | Some lastBlock =>
      let currTxMap := foldl (fun m tx => <[txn_Hash tx := tx]> m) ∅ staleTxs in
      let* r := process_pool block lastBlock rawTxs (range_pool (map_to_list txSet)) currTxMap in
      match r with
      | inr _ => mret true
      | inl currTxMap =>
          let* _ := mfor (range_stale (map_to_list currTxMap)) (fun e => delete_stale e.2) in
          mret false
      end
  end.

Definition new_mempool_block : Block :=
  mkBlock 0 "" "" 0 f64_zero MempoolBlockHash 0 "" "" 0 None None 0 0 0 "" 0 None.

Definition getMempoolBlock : M World Block :=
  let* mempoolBlock :=
    one_or_none (oneG (fun b => bool_decide (block_Hash b = MempoolBlockHash))) in
  match mempoolBlock with
  | Some b => mret b
  | None => insertG new_mempool_block
  end.

(** [time.Now().Add(-1 * time.Hour)] *)
Definition select_stale : M World (list Transaction) :=
  let* now := time_now in
  let* w := mget in
  allG (fun t => in_mempool_block t && (transaction_CreatedAt (tick w) t <=? now - 3600)).

(** ** The job *)

(** The package's variables. *)
Record mempool_job := { mempoolSyncIsRunning : bool; mempoolBlock : option Block }.

Definition finishMempoolSync (block : option Block) : M World mempool_job :=
  mret {| mempoolSyncIsRunning := false; mempoolBlock := block |}.

(** [delayMempoolSyncReset], a minute later. *)
Definition delayMempoolSyncReset (j : mempool_job) : mempool_job :=
  {| mempoolSyncIsRunning := false; mempoolBlock := mempoolBlock j |}.

(** Every error is logged and ends the pass, but for those of the two selects in the middle,
    whose results are then nil. *)
Definition MempoolSync (j : mempool_job) : M World mempool_job :=
  if mempoolSyncIsRunning j then mret j
  else
    let* txSet := mtry GetRawMempool in
    match txSet with
    | inr _ => finishMempoolSync (mempoolBlock j)
    | inl txSet =>
        let* rawTxs := mtry (fetchMempoolRawTransactions txSet) in
        match rawTxs with
        | inr _ => finishMempoolSync (mempoolBlock j)
        | inl rawTxs =>
            let* block :=
              (match mempoolBlock j with
               | Some b => mret (Some b)
               | None => get_or_nil getMempoolBlock
               end) in
            match block with
            | None => finishMempoolSync None
            | Some block =>
                let* lastBlock := get_or_nil chainHeadBlock in
                let* staleTxs := get_or_nil select_stale in
                let* running :=
                  mtry (processTxSet block txSet rawTxs lastBlock (default [] staleTxs)) in
                match running with
                | inl true => mret {| mempoolSyncIsRunning := true; mempoolBlock := Some block |}
                | _ => finishMempoolSync (Some block)
                end
            end
        end
    end.
End Mempool.
