(* ===== verification/MempoolTheorems.v ===== *)
(** * The memory pool does not touch the chain

    [MempoolSync_keeps_chain]: whatever fails, the stored chain stays.  [processTxSet_spec]: what
    a pass that went through has done. *)
From S2P Require Import Prelude Bytes Script Lbrycrd Scheduler Rows Store Datastore StoreFacts Keyed.
From S2P Require Import Claims Transactions TransactionFacts BlockSync BlockProcessing Jobs.
From S2P Require Import TransactionTable BlockSyncProofs DemoWorld MempoolSync.

(** ** One transaction *)

Section Pass.
Context `{Faults, Node, TxSync, Clock, MempoolNode, MapOrder, Created}.
Context `{!DriverFaults, !TxRowsLaws}.

(** The transactions and the blocks of the chain. *)
Definition chain_txs (d : DB) : list Transaction :=
  List.filter (fun t => negb (in_mempool_block t)) (tx_rows d).
Definition chain_blocks (d : DB) : list Block := List.filter not_mempool (rows (t_blocks d)).

Definition chain_kept (d d' : DB) : Prop :=
  txs_ok d -> txs_ok d' /\ chain_txs d' = chain_txs d /\ chain_blocks d' = chain_blocks d.
#[export] Instance chain_kept_preorder : PreOrder chain_kept.
Proof.
  split; [by intros d Hd |]. intros d1 d2 d3 K12 K23 K1.
  destruct (K12 K1) as (Hd2 & E1 & E2). destruct (K23 Hd2) as (? & -> & ->). auto.
Qed.

(** [List.find] without a match. *)
Lemma one_or_none_absent {R} `{Row R} (f : R -> bool) w w' :
  one_or_none (oneG f) w = (Ok None, w') ->
  (forall r, r ∈ rows (get_table (db w)) -> f r = false) /\ db w' = db w.
Proof. intros (e & E & He)%one_or_none_Ok. by eapply oneG_no_rows. Qed.

Lemma one_or_none_db {R} `{Row R} (f : R -> bool) w : db (one_or_none (oneG f) w).2 = db w.
Proof. symmetry. apply (steps_one_or_none eq), steps_oneG; typeclasses eauto. Qed.

(** The row the pass adds for a transaction. *)
Definition pool_row (ids : list string) (t : Transaction) : Prop :=
  in_mempool_block t = true /\ txn_Hash t ∈ ids.

(** What processing transactions of the pool does to the table. *)
Definition grown (ids : list string) (d d' : DB) : Prop :=
  txs_ok d -> txs_ok d' /\ t_blocks d' = t_blocks d /\
    exists new, tx_rows d' = tx_rows d ++ new /\ Forall (pool_row ids) new.

#[export] Instance grown_preorder ids : PreOrder (grown ids).
Proof.
  split.
  - intros d Hd. split; [done | split; [done |]]. exists []. by rewrite app_nil_r.
  - intros d1 d2 d3 K12 K23 K1. destruct (K12 K1) as (K2 & B1 & n1 & E1 & F1).
    destruct (K23 K2) as (K3 & B2 & n2 & E2 & F2). split; [done | split; [congruence |]].
    exists (n1 ++ n2). rewrite E2, E1, app_assoc, Forall_app. done.
Qed.

Lemma grown_mono ids ids' d d' : ids ⊆ ids' -> grown ids d d' -> grown ids' d d'.
Proof.
  intros Hs Hg Hd. destruct (Hg Hd) as (? & ? & new & E & Hf). split; [done | split; [done |]].
  exists new. split; [done |]. eapply Forall_impl; [exact Hf |]. intros t [? ?]. split; auto.
Qed.

Lemma grown_kept ids d d' : grown ids d d' -> chain_kept d d'.
Proof.
  intros Hg Hd. destruct (Hg Hd) as (? & Hb & new & E & Hf). split; [done | split].
  - unfold chain_txs. rewrite E, List.filter_app.
    assert (List.filter (fun t => negb (in_mempool_block t)) new = []) as ->; [| apply app_nil_r].
    clear E. induction Hf as [| t new [Ht _] _ IH]; [done |]. cbn. by rewrite Ht.
  - unfold chain_blocks. by rewrite Hb.
Qed.

Definition raw_ok (id : string) (tx : option TxRawResult) : Prop :=
  forall x, tx = Some x -> tx_Txid x = id.

Lemma processMempoolTx_spec id block tx w r w' :
  block_Hash block = MempoolBlockHash -> raw_ok id tx ->
  processMempoolTx id block tx w = (r, w') ->
  grown [id] (db w) (db w') /\
  (is_Ok r = true -> exists t, t ∈ tx_rows (db w') /\ txn_Hash t = id).
Proof.
  intros Hbl Hraw. unfold processMempoolTx, mbind.
  set (f := fun t => _). pose proof (one_or_none_db f w) as Hd.
  destruct (one_or_none (oneG f) w) as [[found | e | e] w0] eqn:Ef; cbn in Hd;
    [| intros [= <- <-]; rewrite Hd; by split ..].
  destruct found as [t |].
  { intros [= <- <-]. rewrite Hd. split; [reflexivity |]. intros _.
    apply one_or_none_Ok, oneG_found in Ef as (Hin & Hf & _). exists t. split; [done |].
    by apply bool_decide_eq_true in Hf. }
  apply one_or_none_absent in Ef as [Habs _].
  destruct tx as [tx |]; [| intros [= <- <-]; rewrite Hd; by split].
  set (tx' := Build_TxRawResult _ _ _ _ _ _ _ _ _ _ _ _ _ _). intros E.
  assert (Hid : tx_Txid tx' = id) by by exact (Hraw tx eq_refl).
  assert (Ha : tx_absent (tx_Txid tx') (db w0)).
  { rewrite Hd, Hid. intros t Ht Hh. specialize (Habs t Ht). subst f. cbn in Habs.
    by rewrite Hh, bool_decide_eq_false in Habs. }
  pose proof (process_tx_keeps_blocks tx' (block_BlockTime block) (block_Height block) w0) as Hb.
  rewrite E in Hb. unfold on_db, same in Hb. cbn in Hb. rewrite <- Hd.
  destruct (process_tx_rows _ _ _ _ _ _ Ha E) as [Hadd | [Hno Hrows]].
  - split.
    + intros Hok. split; [by eapply txs_ok_adds | split; [done |]].
      destruct Hadd as [t Hh Hbh _ Et]. exists [t]. split; [done |]. apply Forall_singleton.
      split; [| by rewrite Hh, Hid, list_elem_of_singleton].
      unfold in_mempool_block. rewrite Hbh. cbn. by rewrite Hbl, bool_decide_eq_true.
    + intros _. destruct Hadd as [t Hh _ _ Et]. exists t. rewrite Et. split; [set_solver | congruence].
  - split; [| congruence]. intros Hok. split; [by eapply txs_ok_rows | split; [done |]].
    exists []. by rewrite app_nil_r.
Qed.

(** ** The first loop *)

Definition stored (id : string) (d : DB) : Prop := exists t, t ∈ tx_rows d /\ txn_Hash t = id.

Lemma grown_stored ids id d d' : txs_ok d -> grown ids d d' -> stored id d -> stored id d'.
Proof.
  intros Hok Hg (t & Ht & Hh). destruct (Hg Hok) as (_ & _ & new & E & _). exists t.
  rewrite E. split; [set_solver | done].
Qed.

Lemma process_list_spec block (rawTxs : gmap string TxRawResult) ids w r w' :
  block_Hash block = MempoolBlockHash -> (forall id, raw_ok id (rawTxs !! id)) ->
  txs_ok (db w) ->
  mfor ids (fun id => processMempoolTx id block (rawTxs !! id)) w = (r, w') ->
  grown ids (db w) (db w') /\ (is_Ok r = true -> forall id, id ∈ ids -> stored id (db w')).
Proof.
  intros Hbl Hraw. revert w. induction ids as [| id ids IH]; intros w Hok; cbn [mfor].
  { intros [= <- <-]. split; [reflexivity |]. by intros _ id ?%elem_of_nil. }
  unfold mbind. destruct (processMempoolTx id block (rawTxs !! id) w) as [s w1] eqn:Ep.
  apply processMempoolTx_spec in Ep as [Hg Hs]; [| done..].
  assert (Hg' : grown (id :: ids) (db w) (db w1)) by (eapply grown_mono; [| done]; set_solver).
  destruct s as [[] | e | e]; [| intros [= <- <-]; by split ..]. intros E.
  destruct (Hg Hok) as [Hok1 _]. apply IH in E as [Hg2 Hs2]; [| done].
  split; [etrans; [exact Hg' |]; eapply grown_mono; [| done]; set_solver |].
  intros Hr x [-> | Hx]%elem_of_cons; [| by apply Hs2].
  eapply grown_stored; [exact Hok1 | exact Hg2 |]. by apply Hs.
Qed.

(** The transactions the loop visits. *)
Definition visited (pool : list (string * GetRawMempoolVerboseResult)) : list string :=
  concat (map (fun e => e.1 :: mp_Depends e.2) pool).

Lemma delete_all_lookup {A} (ids : list string) (m : gmap string A) x :
  foldl (fun m id => delete id m) m ids !! x = if bool_decide (x ∈ ids) then None else m !! x.
Proof.
  revert m. induction ids as [| id ids IH]; intros m; [done |]. cbn. rewrite IH.
  destruct (decide (x = id)) as [-> |].
  - rewrite lookup_delete_eq, (bool_decide_eq_true_2 (id ∈ id :: ids)) by set_solver. by case_match.
  - rewrite lookup_delete_ne by done.
    rewrite (bool_decide_ext (x ∈ id :: ids) (x ∈ ids)) by set_solver. done.
Qed.

Lemma process_pool_spec block lastBlock rawTxs pool m w r w' :
  block_Hash block = MempoolBlockHash -> (forall id, raw_ok id (rawTxs !! id)) ->
  txs_ok (db w) ->
  process_pool block lastBlock rawTxs pool m w = (r, w') ->
  grown (visited pool) (db w) (db w') /\
  forall m', r = Ok (inl m') ->
    (forall id, id ∈ visited pool -> stored id (db w')) /\
    forall h, m' !! h = if bool_decide (h ∈ visited pool) then None else m !! h.
Proof.
  intros Hbl Hraw. revert m w. induction pool as [| [id dt] pool IH]; intros m w Hok; cbn [process_pool].
  { intros [= <- <-]. split; [reflexivity |]. intros m' [= <-].
    split; [by intros id ?%elem_of_nil | done]. }
  destruct (shouldProcessMempoolTransaction lastBlock dt); cycle 1.
  { intros [= <- <-]. split; [reflexivity | done]. }
  unfold mbind. destruct (mfor _ _ w) as [s w1] eqn:E1.
  apply process_list_spec in E1 as [Hg1 Hs1]; [| done..].
  assert (G1 : grown (visited ((id, dt) :: pool)) (db w) (db w1))
    by (eapply grown_mono; [| exact Hg1]; cbn; set_solver).
  destruct s as [[] | e | e]; [| intros [= <- <-]; by split ..].
  destruct (Hg1 Hok) as [Hok1 _].
  destruct (processMempoolTx id block (rawTxs !! id) w1) as [s w2] eqn:E2.
  apply processMempoolTx_spec in E2 as [Hg2 Hs2]; [| done..].
  assert (G2 : grown (visited ((id, dt) :: pool)) (db w1) (db w2))
    by (eapply grown_mono; [| exact Hg2]; cbn; set_solver).
  destruct s as [[] | e | e]; [| intros [= <- <-]; split; [by etrans | done] ..].
  destruct (Hg2 Hok1) as [Hok2 _]. intros E. apply IH in E as [Hg3 Hs3]; [| done].
  assert (G3 : grown (visited ((id, dt) :: pool)) (db w2) (db w'))
    by (eapply grown_mono; [| exact Hg3]; cbn; set_solver).
  split; [by do 2 (etrans; [eassumption |]) |].
  intros m' Hm'. destruct (Hs3 m' Hm') as [Hst Hlk]. split.
  - intros x Hx. cbn in Hx. apply elem_of_cons in Hx as [-> | Hx].
    { eapply grown_stored; [exact Hok2 | exact G3 |]. by apply Hs2. }
    apply elem_of_app in Hx as [Hx | Hx]; [| by apply Hst].
    eapply grown_stored; [exact Hok2 | exact G3 |]. eapply grown_stored; [exact Hok1 | exact G2 |].
    by apply Hs1.
  - intros h. rewrite Hlk, delete_all_lookup. cbn.
    destruct (decide (h = id)) as [-> |].
    + rewrite (bool_decide_eq_true_2 (id ∈ id :: _)) by set_solver.
      rewrite lookup_delete_eq. by repeat case_match.
    + rewrite lookup_delete_ne by done. repeat case_bool_decide; set_solver.
Qed.

(** ** The second loop *)

(** A stale transaction, by the hashes that are stale. *)
Definition stale_in (hs : list string) (t : Transaction) : bool :=
  in_mempool_block t && bool_decide (txn_Hash t ∈ hs).

Definition shrunk (hs : list string) (d d' : DB) : Prop :=
  txs_ok d -> txs_ok d' /\ t_blocks d' = t_blocks d /\
    tx_rows d' = List.filter (fun t => negb (stale_in hs t)) (tx_rows d).

Lemma shrunk_same hs d d' :
  d' = d -> (forall t, t ∈ tx_rows d -> stale_in hs t = false) -> shrunk hs d d'.
Proof.
  intros -> Hno Hok. split; [done | split; [done |]]. symmetry. apply filter_all.
  intros t Ht. by rewrite (Hno t Ht).
Qed.

Lemma shrunk_app hs1 hs2 d1 d2 d3 :
  shrunk hs1 d1 d2 -> shrunk hs2 d2 d3 -> shrunk (hs1 ++ hs2) d1 d3.
Proof.
  intros K12 K23 K1. destruct (K12 K1) as (K2 & B1 & E1). destruct (K23 K2) as (K3 & B2 & E2).
  split; [done | split; [congruence |]]. rewrite E2, E1, filter_filter.
  apply List.filter_ext. intros t. unfold stale_in. rewrite <- negb_orb, <- andb_orb_distrib_r.
  do 2 f_equal. repeat case_bool_decide; set_solver.
Qed.

Lemma shrunk_kept hs d d' : shrunk hs d d' -> chain_kept d d'.
Proof.
  intros Hs Hd. destruct (Hs Hd) as (? & Hb & E). unfold chain_blocks, chain_txs.
  split; [done | split; [| by rewrite Hb]]. rewrite E, filter_filter. apply List.filter_ext.
  intros t. unfold stale_in. by destruct (in_mempool_block t); cbn; rewrite ?andb_false_r.
Qed.

(** The row found goes; when there is none, or something fails, everything stays. *)
Lemma delete_stale_spec tx w r w' :
  delete_stale tx w = (r, w') ->
  shrunk [txn_Hash tx] (db w) (db w') \/ (is_Ok r = false /\ db w' = db w).
Proof.
  unfold delete_stale, mbind. set (f := fun t => _).
  pose proof (one_or_none_db f w) as Hd.
  destruct (one_or_none (oneG f) w) as [[found | e | e] w0] eqn:Ef; cbn in Hd;
    [| intros [= <- <-]; by right ..].
  assert (Hf : forall t, f t = stale_in [txn_Hash tx] t).
  { intros t. subst f. cbn. unfold stale_in. rewrite andb_comm. f_equal.
    apply bool_decide_ext. by rewrite list_elem_of_singleton. }
  destruct found as [s |]; cycle 1.
  { intros [= <- <-]. left. apply shrunk_same; [done |]. intros t Ht.
    rewrite <- Hf. by apply one_or_none_absent in Ef as [Habs _]; apply Habs. }
  apply one_or_none_Ok, oneG_found in Ef as (Hin & Hs & _). rewrite <- Hd. intros E.
  destruct r as [[] | e | e]; cycle 1.
  1-2: right; split; [done |]; pose proof (stmt_failed (fun d => Ok (tt, delete_transactions (same_key s) d)) w0) as Hw;
    unfold deleteG_transaction in E; rewrite E in Hw; by apply Hw.
  left. apply stmt_Ok in E as [[= E] _]. intros Hok.
  assert (Hrows : tx_rows (db w') =
    List.filter (fun t => negb (stale_in [txn_Hash tx] t)) (tx_rows (db w0))).
  { rewrite <- E. unfold tx_rows. cbn [delete_transactions t_transactions keep_rows rows].
    apply filter_ext_in. intros t Ht%list_elem_of_In. f_equal. rewrite <- Hf.
    change (txn_ID s =? txn_ID t) with (key s =? key t).
    rewrite Hd in *. destruct (Z.eqb_spec (key s) (key t)) as [Hk | Hk].
    - by rewrite (keys_ok_eq _ _ _ (txs_keys _ Hok) Hin Ht Hk) in Hs.
    - destruct (f t) eqn:Et; [| done]. destruct Hk. f_equal.
      apply (fmap_inj _ _ _ _ (txs_hashes _ Hok) Hin Ht). subst f. cbn in Hs, Et.
      apply andb_true_iff in Hs as [Hs%bool_decide_eq_true _].
      apply andb_true_iff in Et as [Et%bool_decide_eq_true _]. congruence. }
  split; [by eapply txs_ok_filter | split; [by rewrite <- E | done]].
Qed.

Lemma delete_all_spec l w r w' :
  mfor l (fun e : string * Transaction => delete_stale e.2) w = (r, w') ->
  exists done, shrunk done (db w) (db w') /\
    (is_Ok r = true -> done = map (fun e => txn_Hash e.2) l).
Proof.
  revert w. induction l as [| [h tx] l IH]; intros w; cbn [mfor map].
  { intros [= <- <-]. exists []. split; [| done]. apply shrunk_same; [done |]. intros t _.
    unfold stale_in. by rewrite bool_decide_eq_false_2, andb_false_r by apply not_elem_of_nil. }
  unfold mbind. destruct (delete_stale _ w) as [s w1] eqn:Ed. cbn [snd] in Ed.
  apply delete_stale_spec in Ed as Hd.
  destruct s as [[] | e | e]; cycle 1.
  1-2: intros [= <- <-]; destruct Hd as [Hd | [_ Hd]]; [by exists [txn_Hash tx] |];
    exists []; split; [| done]; apply shrunk_same; [done |]; intros t _; unfold stale_in;
    by rewrite bool_decide_eq_false_2, andb_false_r by apply not_elem_of_nil.
  destruct Hd as [Hd | [? _]]; [| done]. intros (hs & Hs & Hall)%IH.
  exists ([txn_Hash tx] ++ hs). split; [by eapply shrunk_app |].
  intros Hr. by rewrite Hall.
Qed.

(** ** The pass *)

Context `{!MapOrderLaws}.

Lemma txIDs_of_spec txSet x :
  x ∈ txIDs_of txSet <-> exists id dt, txSet !! id = Some dt /\ (x = id \/ x ∈ mp_Depends dt).
Proof.
  unfold txIDs_of, RawMempoolVerboseResponse in *.
  induction txSet as [| id dt m Hm Hf IH] using map_first_key_ind.
  { rewrite map_fold_empty. split; [set_solver | by intros (? & ? & ? & _)]. }
  rewrite map_fold_insert_first_key by done. rewrite !elem_of_union, IH, elem_of_singleton.
  rewrite elem_of_list_to_set. split.
  - intros [[-> | Hd] | (i & d & Hi & Hx)].
    + exists id, dt. rewrite lookup_insert_eq. auto.
    + exists id, dt. rewrite lookup_insert_eq. auto.
    + exists i, d. rewrite lookup_insert_ne by congruence. auto.
  - intros (i & d & Hi & Hx). destruct (decide (i = id)) as [-> | Hne].
    + rewrite lookup_insert_eq in Hi. simplify_eq. tauto.
    + rewrite lookup_insert_ne in Hi by done. right. eauto.
Qed.

Lemma visited_spec txSet x :
  x ∈ visited (range_pool (map_to_list txSet)) <-> x ∈ txIDs_of txSet.
Proof.
  rewrite txIDs_of_spec. unfold visited, RawMempoolVerboseResponse in *. rewrite list_elem_of_In, in_concat. split.
  - intros (l & ([id dt] & <- & Hin)%in_map_iff & Hx%list_elem_of_In). exists id, dt.
    apply list_elem_of_In in Hin. rewrite range_pool_perm, elem_of_map_to_list in Hin.
    by apply elem_of_cons in Hx.
  - intros (id & dt & Hin & Hx). exists (id :: mp_Depends dt).
    split; [| by apply list_elem_of_In, elem_of_cons].
    apply in_map_iff. exists (id, dt). split; [done |].
    by rewrite <- list_elem_of_In, range_pool_perm, elem_of_map_to_list.
Qed.

Lemma stale_map_spec (l : list Transaction) (m : gmap string Transaction) :
  forall h, is_Some (foldl (fun m tx => <[txn_Hash tx := tx]> m) m l !! h) <-> h ∈ map txn_Hash l \/ is_Some (m !! h).
Proof.
  revert m. induction l as [| t l IH]; intros m h; cbn; [set_solver |]. rewrite (IH _ h).
  rewrite lookup_insert_is_Some', elem_of_cons. naive_solver.
Qed.
Lemma stale_map_hash (l : list Transaction) (m : gmap string Transaction) :
  map_Forall (fun h t => txn_Hash t = h) m ->
  map_Forall (fun h t => txn_Hash t = h) (foldl (fun m tx => <[txn_Hash tx := tx]> m) m l).
Proof.
  revert m. induction l as [| t l IH]; intros m Hm; cbn; [done |].
  apply IH. by apply map_Forall_insert_2.
Qed.

(** What happens to the table whatever the outcome. *)
Lemma processTxSet_kept block txSet rawTxs lastBlock stale w r w' :
  block_Hash block = MempoolBlockHash -> (forall id, raw_ok id (rawTxs !! id)) ->
  processTxSet block txSet rawTxs lastBlock stale w = (r, w') -> chain_kept (db w) (db w').
Proof.
  intros Hbl Hraw. unfold processTxSet. destruct lastBlock as [lastBlock |];
    [| intros [= <- <-]; reflexivity].
  intros E Hok. unfold mbind in E. destruct (process_pool _ _ _ _ _ w) as [s w1] eqn:Ep.
  apply process_pool_spec in Ep as [Hg _]; [| done..]. apply grown_kept in Hg as Hk.
  destruct s as [[m' | []] | e | e]; [| injection E as <- <-; by apply Hk ..].
  destruct (mfor _ _ w1) as [s w2] eqn:Ed.
  apply delete_all_spec in Ed as (hs & Hs & _). apply shrunk_kept in Hs.
  revert Hok. change (chain_kept (db w) (db w')). etrans; [exact Hk |].
  by destruct s as [[] | e | e]; injection E as <- <-.
Qed.

(** C17: what a pass over the pool that went through has done to the stored transactions.  The
    rows that go are those of the mempool block that were selected as stale and are neither in
    the pool nor a dependency of the pool; all other rows stay as they are; the rows that come
    are of the mempool block and of the pool; and every transaction of the pool and every
    dependency is stored, in whatever order the maps are ranged over. *)
Theorem processTxSet_spec block txSet rawTxs lastBlock staleTxs w w' :
  block_Hash block = MempoolBlockHash -> (forall id, raw_ok id (rawTxs !! id)) ->
  txs_ok (db w) ->
  processTxSet block txSet rawTxs lastBlock staleTxs w = (Ok false, w') ->
  let gone t := in_mempool_block t && bool_decide (txn_Hash t ∈ map txn_Hash staleTxs) &&
                negb (bool_decide (txn_Hash t ∈ txIDs_of txSet)) in
  (exists new, tx_rows (db w') = List.filter (fun t => negb (gone t)) (tx_rows (db w)) ++ new /\
     Forall (fun t => in_mempool_block t = true /\ txn_Hash t ∈ txIDs_of txSet) new) /\
  forall id, id ∈ txIDs_of txSet -> stored id (db w').
Proof.
  intros Hbl Hraw Hok E gone. unfold processTxSet in E. destruct lastBlock as [lastBlock |]; [| done].
  apply mbind_Ok in E as (s & w1 & Ep & E). apply process_pool_spec in Ep as [Hg Hp]; [| done..].
  destruct s as [m' | []]; [| done]. destruct (Hp m' eq_refl) as [Hst Hlk]. clear Hp.
  destruct (Hg Hok) as (Hok1 & _ & new & Enew & Hnew).
  apply mbind_Ok in E as ([] & w2 & Ed & [= <-]).
  apply delete_all_spec in Ed as (hs & Hs & Hhs). specialize (Hhs eq_refl).
  destruct (Hs Hok1) as (_ & _ & Erows).
  set (m0 := foldl _ _ _) in Hlk.
  assert (Hm' : forall h, h ∈ hs <-> h ∈ map txn_Hash staleTxs /\ h ∉ txIDs_of txSet).
  { intros h. rewrite <- visited_spec, Hhs. split.
    - intros ([h' t] & -> & Hin)%list_elem_of_fmap. cbn.
      rewrite range_stale_perm, elem_of_map_to_list, Hlk in Hin. case_bool_decide; [done |].
      assert (Hh : txn_Hash t = h') by (by eapply (stale_map_hash staleTxs ∅)).
      rewrite Hh. split; [| done]. destruct (stale_map_spec staleTxs ∅ h') as [Hst' _].
      destruct Hst' as [? | [? ?]]; [by eexists | done | done].
    - intros [Hin Hno]. destruct (stale_map_spec staleTxs ∅ h) as [_ [t Ht]]; [by left |].
      apply list_elem_of_fmap. exists (h, t). cbn.
      split; [symmetry; by eapply (stale_map_hash staleTxs ∅) |].
      rewrite range_stale_perm, elem_of_map_to_list, Hlk, bool_decide_eq_false_2 by done. done. }
  assert (Hgone : forall t, stale_in hs t = gone t).
  { intros t. unfold stale_in, gone. rewrite <- andb_assoc, <- bool_decide_not, <- bool_decide_and.
    f_equal. by apply bool_decide_ext. }
  assert (Hkeep : forall t, t ∈ new -> negb (stale_in hs t) = true).
  { intros t Ht. rewrite Forall_forall in Hnew. destruct (Hnew t Ht) as [_ Hin%visited_spec].
    rewrite Hgone. unfold gone. by rewrite (bool_decide_eq_true_2 _ Hin), andb_false_r. }
  split.
  - exists new. rewrite Erows, Enew, List.filter_app, (filter_all _ new) by done. split.
    + f_equal. apply List.filter_ext. intros t. by rewrite Hgone.
    + eapply Forall_impl; [exact Hnew |]. intros t [? Hin%visited_spec]. done.
  - intros id Hid. rewrite <- visited_spec in Hid. destruct (Hst id Hid) as (t & Ht & Hh).
    exists t. split; [| done]. rewrite Erows, list_elem_of_In, filter_In, <- list_elem_of_In.
    split; [done |]. rewrite Hgone. unfold gone.
    rewrite <- Hh, visited_spec in Hid. by rewrite (bool_decide_eq_true_2 _ Hid), andb_false_r.
Qed.

(** ** The job *)

(** The node answers with the transaction it was asked for. *)
Context (node_ids : forall now id tx, node_transaction now id = Ok tx -> tx_Txid tx = id).
#[local] Hint Resolve steps_ask : go.

Lemma fetch_raw_ok txSet w rawTxs w' :
  fetchMempoolRawTransactions txSet w = (Ok rawTxs, w') -> forall id, raw_ok id (rawTxs !! id).
Proof.
  unfold fetchMempoolRawTransactions. generalize (sort_strings (elements (txIDs_of txSet))) as ids.
  assert (Hinit : forall id, raw_ok id ((∅ : gmap string TxRawResult) !! id)) by done.
  revert Hinit. generalize (∅ : gmap string TxRawResult) as m. intros m Hm ids. revert m w Hm.
  induction ids as [| id ids IH]; intros m w Hm; cbn [mfold]; [by intros [= <- _] |].
  intros (m' & w1 & E1 & E)%mbind_Ok. eapply IH; [| exact E].
  apply mbind_Ok in E1 as (tx & w2 & Et & [= <- _]). intros i x Hx.
  destruct (decide (i = id)) as [-> | Hne].
  - rewrite lookup_insert_eq in Hx. simplify_eq. injection Et as Et _. by eapply node_ids.
  - rewrite lookup_insert_ne in Hx by done. by apply Hm.
Qed.

(** The global [mempoolBlock] is unset or the row of the pool. *)
Definition job_ok (j : mempool_job) : Prop :=
  forall b, mempoolBlock j = Some b -> block_Hash b = MempoolBlockHash.

Lemma getMempoolBlock_hash w b w' :
  getMempoolBlock w = (Ok b, w') -> block_Hash b = MempoolBlockHash.
Proof.
  unfold getMempoolBlock. intros (o & w1 & E1 & E)%mbind_Ok. destruct o as [x |].
  - injection E as <- _. apply one_or_none_Ok, oneG_found in E1 as (_ & Hf & _).
    by apply bool_decide_eq_true in Hf.
  - apply insertG_keyed in E as (-> & _). unfold fill_key, row_block. by case_match.
Qed.

Lemma steps_getMempoolBlock : steps (on_db chain_kept) getMempoolBlock.
Proof.
  unfold getMempoolBlock. apply steps_bind; [typeclasses eauto | auto with go |].
  intros [b |]; [auto with go |]. unfold insertG.
  apply steps_bind; [typeclasses eauto | | intros r; go_steps].
  apply steps_stmt; [typeclasses eauto |]. intros d b d' (-> & -> & _)%insert_row_keyed Hok.
  split; [by apply (txs_ok_rows d) | split; [done |]]. unfold chain_blocks. cbn.
  rewrite List.filter_app. by rewrite app_nil_r.
Qed.

Lemma block_of_job_hash j w b w' :
  job_ok j ->
  (match mempoolBlock j with
   | Some b => mret (Some b) | None => get_or_nil getMempoolBlock end) w = (Ok (Some b), w') ->
  block_Hash b = MempoolBlockHash.
Proof.
  intros Hj. destruct (mempoolBlock j) as [x |] eqn:Ej; [intros [= -> _]; by apply Hj |].
  intros E%get_or_nil_Ok. by eapply getMempoolBlock_hash.
Qed.

Lemma steps_MempoolSync j : job_ok j -> steps (on_db chain_kept) (MempoolSync j).
Proof.
  intros Hj. unfold MempoolSync, finishMempoolSync. destruct (mempoolSyncIsRunning j); [go_steps |].
  apply steps_bind; [typeclasses eauto | unfold GetRawMempool; go_steps |].
  intros [txSet | e]; [| go_steps].
  apply (steps_bind_val _ (fun r => forall raw, r = inl raw -> forall id, raw_ok id (raw !! id)));
    [unfold fetchMempoolRawTransactions; go_steps | |].
  { intros w [raw | e] w' E raw' [=]; simplify_eq. apply mtry_Ok in E. by eapply fetch_raw_ok. }
  intros [rawTxs | e] Hraw; [| go_steps]. specialize (Hraw _ eq_refl).
  apply (steps_bind_val _ (fun o => forall b, o = Some b -> block_Hash b = MempoolBlockHash)).
  { destruct (mempoolBlock j); [go_steps |].
    apply steps_get_or_nil, steps_getMempoolBlock; typeclasses eauto. }
  { intros w o w' E b ->. by eapply block_of_job_hash. }
  intros [block |] Hb; [| go_steps]. specialize (Hb _ eq_refl).
  apply steps_bind; [typeclasses eauto | unfold chainHeadBlock, best_block; go_steps |].
  intros lastBlock.
  apply steps_bind; [typeclasses eauto | unfold select_stale, time_now; go_steps |].
  intros stale. apply steps_bind; [typeclasses eauto | apply steps_try | intros r; go_steps].
  intros w. destruct (processTxSet _ _ _ _ _ w) as [r w'] eqn:E. by eapply processTxSet_kept.
Qed.

(** C16: the synchronisation of the pool never touches the chain.  Whatever the node answers,
    whichever statements fail and in whatever order the maps are ranged over: the blocks other
    than the mempool block, and the transactions that are not in it, are the same rows in the
    same order afterwards, keys and hashes stay distinct, and the job's own state stays good
    for the next run. *)
Theorem MempoolSync_keeps_chain j w r w' :
  job_ok j -> txs_ok (db w) -> MempoolSync j w = (r, w') ->
  txs_ok (db w') /\ chain_txs (db w') = chain_txs (db w) /\
  chain_blocks (db w') = chain_blocks (db w) /\
  (forall j', r = Ok j' -> job_ok j').
Proof.
  intros Hj Hok E. pose proof (steps_MempoolSync j Hj w Hok) as (? & ? & ?).
  rewrite E in *. split; [done | split; [done | split; [done |]]]. intros j' ->.
  unfold MempoolSync, finishMempoolSync in E.
  destruct (mempoolSyncIsRunning j); [by injection E as <- <- |].
  apply mbind_Ok in E as ([txSet | e] & w1 & _ & E); [| by injection E as <- _].
  apply mbind_Ok in E as ([raw | e] & w2 & _ & E); [| by injection E as <- _].
  apply mbind_Ok in E as (o & w3 & Eb & E).
  destruct o as [b |]; [| injection E as <- _; by intros b].
  apply mbind_Ok in E as (l & w4 & _ & E). apply mbind_Ok in E as (st & w5 & _ & E).
  apply mbind_Ok in E as (run & w6 & _ & E).
  intros b' Hb'. assert (b' = b) as ->.
  { destruct run as [[] | e]; injection E as <- _; by injection Hb' as <-. }
  by eapply block_of_job_hash.
Qed.
End Pass.

(** ** Worked example *)

Import Demo.

Module MempoolExamples.
#[export] Instance demo_healthy : Healthy.
Proof. done. Defined.
#[export] Instance demo_txsync : TxSync := block_sync chain 4 3 demo_schedule.
#[export] Instance demo_clock : Clock := {| clock _ := 10000 |}.
#[export] Instance demo_created : Created := {| transaction_CreatedAt _ _ := 5000 |}.
#[export] Instance demo_order : MapOrder := {| range_pool l := l; range_stale l := l |}.
#[export] Instance demo_order_laws : MapOrderLaws.
Proof. by split. Defined.

Definition no_fees : MempoolFees :=
  {| fees_Base := f64_zero; fees_Modified := f64_zero; fees_Ancestor := f64_zero;
     fees_Descendant := f64_zero |}.
Definition in_pool (height : Z) (depends : list string) : GetRawMempoolVerboseResult :=
  {| mp_Vsize := 100; mp_Size := 100; mp_Weight := 400; mp_Fee := f64_zero;
     mp_ModifiedFee := f64_zero; mp_Time := 50; mp_Height := height; mp_DescendantCount := 1;
     mp_DescendantSize := 100; mp_DescendantFees := f64_zero; mp_AncestorCount := 1;
     mp_AncestorSize := 100; mp_AncestorFees := f64_zero; mp_WtxID := ""; mp_Fees := no_fees;
     mp_Depends := depends; mp_SpentBy := [] |}.

(** [bb] spends [aa]; neither is in a block. *)
Definition demo_pool : RawMempoolVerboseResponse := {[ "bb" := in_pool 1 ["aa"] ]}.
#[export] Instance demo_mempool : MempoolNode := {| node_mempool _ := Ok demo_pool |}.

Definition tx_row (id : Z) (hash block : string) : Transaction :=
  mkTransaction id (Some block) 0 0 None 0 hash 1 0 0 f64_zero.
Definition mempool_row : Block := stored_block 2 0 MempoolBlockHash None None.
(** [yy] is in the genesis block, [zz] was in the pool once. *)
Definition pool_db : DB :=
  demo_db
    <| t_blocks := mkTable [stored_block 1 0 "g" None (Some "complete"); mempool_row] 3 |>
    <| t_transactions := mkTable [tx_row 1 "zz" MempoolBlockHash; tx_row 2 "yy" "g"] 3 |>.
Definition pool_world : World := mkWorld pool_db 0.
Definition unset_job : mempool_job := {| mempoolSyncIsRunning := false; mempoolBlock := None |}.

Lemma demo_ids now id tx : node_transaction now id = Ok tx -> tx_Txid tx = id.
Proof. cbn. repeat case_bool_decide; by intros [= <-]. Qed.
Lemma pool_db_ok : txs_ok pool_db.
Proof. split; vm_compute; repeat constructor; set_solver. Qed.

(** A pass: [aa] and [bb] come, [zz] goes. *)
Example demo_pass :
  map txn_Hash (tx_rows (db (MempoolSync unset_job pool_world).2)) = ["yy"; "aa"; "bb"].
Proof. vm_compute. reflexivity. Qed.

(** Dependencies are processed one level deep: when the grandchild [cc] is visited before its
    parent [bb], [bb] fails for want of [aa] and the pass ends; in the other order it succeeds. *)
Definition deep_raw : gmap string TxRawResult :=
  {[ "aa" := tx_aa; "bb" := tx_bb; "cc" := tx "cc" [spend "bb"] [] ]}.
Definition deep_pass (pool : list (string * GetRawMempoolVerboseResult)) : bool :=
  is_Ok (process_pool mempool_row (stored_block 1 0 "g" None None) deep_raw pool ∅ pool_world).1.
Example depends_one_level :
  deep_pass [("cc", in_pool 1 ["bb"]); ("bb", in_pool 1 ["aa"])] = false /\
  deep_pass [("bb", in_pool 1 ["aa"]); ("cc", in_pool 1 ["bb"])] = true.
Proof. split; vm_compute; reflexivity. Qed.

Definition demo_raw : gmap string TxRawResult := {[ "aa" := tx_aa; "bb" := tx_bb ]}.
Definition demo_set : M World bool :=
  processTxSet mempool_row demo_pool demo_raw (Some (stored_block 1 0 "g" None None))
    [tx_row 1 "zz" MempoolBlockHash].

Lemma processTxSet_spec_witness :
  Forall (fun id => stored id (db (demo_set pool_world).2)) (elements (txIDs_of demo_pool)).
Proof.
  destruct (processTxSet_spec mempool_row demo_pool demo_raw (Some (stored_block 1 0 "g" None None))
    [tx_row 1 "zz" MempoolBlockHash] pool_world (demo_set pool_world).2) as [_ Hst].
  - reflexivity.
  - intros id x Hx. unfold demo_raw in Hx. apply lookup_insert_Some in Hx as [[<- <-] | [_ Hx]]; [done |].
    by apply lookup_singleton_Some in Hx as [<- <-].
  - exact pool_db_ok.
  - vm_compute. reflexivity.
  - apply Forall_forall. intros id Hid. by apply Hst, elem_of_elements.
Defined.

Lemma MempoolSync_keeps_chain_witness :
  chain_txs (db (MempoolSync unset_job pool_world).2) = [tx_row 2 "yy" "g"] /\
  chain_txs pool_db = [tx_row 2 "yy" "g"].
Proof.
  destruct (MempoolSync_keeps_chain demo_ids unset_job pool_world
    (MempoolSync unset_job pool_world).1 (MempoolSync unset_job pool_world).2)
    as (_ & Hc & _).
  - intros b. discriminate.
  - exact pool_db_ok.
  - by destruct (MempoolSync unset_job pool_world).
  - split; [by rewrite Hc | reflexivity].
Defined.
End MempoolExamples.
