(* ===== verification/UpgradeTheorems.v ===== *)
(** * What the upgrades do

    [upgraded_once]: a run of the upgrades leaves the stored versions at the program's and a
    second run does nothing; [setBlockHeightOnAllClaims_spec] and [setClaimAddresses_spec]:
    the scripts that fill a column; [upgradeFrom5_spec]: which blocks are deleted;
    [upgradeFrom7_nothing]: the seventh upgrade never reprocesses a claim. *)
From S2P Require Import Prelude Bytes Script Lbrycrd Rows Store Datastore StoreFacts Schema Keyed.
From S2P Require Import BlockSync BlockProcessing BlockFacts Jobs ClaimTrie ClaimTable TransactionTable UpgradeManager.
From S2P Require Import Claims Transactions TransactionFacts BlockSyncProofs DemoWorld.

Lemma or_panic_Ok {A} (m : M World A) w a w' : or_panic m w = (Ok a, w') <-> m w = (Ok a, w').
Proof.
  unfold or_panic, mbind, mtry, mret, mpanic, mlift.
  destruct (m w) as [[x | e | e] w1]; split; intros E; by simplify_eq.
Qed.
Lemma or_panic_run {A} (m : M World A) w a w' : m w = (Ok a, w') -> or_panic m w = (Ok a, w').
Proof. by intros; apply or_panic_Ok. Qed.
Lemma steps_or_panic R `{!PreOrder R} {A} (m : M World A) : steps R m -> steps R (or_panic m).
Proof. intros. unfold or_panic. go_steps. Qed.
Lemma steps_or_return R `{!PreOrder R} {A} (m : M World A) k :
  steps R m -> (forall a, steps R (k a)) -> steps R (or_return m k).
Proof. intros. unfold or_return. go_steps. Qed.
#[export] Hint Resolve steps_or_panic steps_or_return : go.

(** A unique key: the filter finds what the search finds. *)
Lemma left_join_unique {A B} (key : A -> B) (p : A -> bool) l :
  NoDup (key <$> l) ->
  (forall a b, a ∈ l -> b ∈ l -> p a = true -> p b = true -> key a = key b) ->
  left_join (List.filter p l) = [List.find p l].
Proof.
  intros Hnd Hp. induction l as [| x l IH]; [done |].
  rewrite fmap_cons, NoDup_cons in Hnd. destruct Hnd as [Hx Hnd]. cbn.
  destruct (p x) eqn:Ex; [| apply IH; [done |]; intros a b Ha Hb; apply Hp; by right].
  replace (List.filter p l) with (@nil A); [done |]. symmetry.
  destruct (List.filter p l) as [| y l'] eqn:E; [done |]. exfalso.
  assert (Hy : y ∈ List.filter p l) by (rewrite E; by left).
  apply list_elem_of_In, filter_In in Hy as [Hy%list_elem_of_In Hpy].
  apply Hx. rewrite (Hp x y); [by apply list_elem_of_fmap_2 | by left | by right | done..].
Qed.

Lemma flat_map_single {A B} (f : A -> B) (F : A -> list B) l :
  (forall x, x ∈ l -> F x = [f x]) -> flat_map F l = map f l.
Proof.
  induction l as [| x l IH]; intros H; [done |]. cbn. rewrite H by (by left). cbn. f_equal.
  apply IH. intros y Hy. apply H. by right.
Qed.

Lemma mfor_map {W A B} (h : A -> B) l (f : B -> M W unit) :
  mfor (map h l) f = mfor l (fun x => f (h x)).
Proof. induction l as [| x l IH]; [done |]. cbn. by rewrite IH. Qed.

(** A loop over the elements for which there is something to do. *)
Lemma mfor_omap {W A B} (a : A -> option B) (f : A -> M W unit) (g : B -> M W unit) l :
  (forall x, x ∈ l -> f x = match a x with Some u => g u | None => mret tt end) ->
  mfor l f = mfor (omap a l) g.
Proof.
  induction l as [| x l IH]; intros Hf; [done |]. cbn. rewrite Hf by (by left).
  rewrite IH by (intros y Hy; apply Hf; by right). by destruct (a x).
Qed.

(** ** Scanning and writing a column *)

Lemma scan_ok {A B} (f : A -> option B) (g : Z * A -> B) l :
  (forall r, r ∈ l -> f r.2 = Some (g r)) -> scan f l = Ok (map (fun r => (r.1, g r)) l).
Proof.
  induction l as [| [id x] l IH]; intros H; [done |]. cbn.
  pose proof (H (id, x) ltac:(by left)) as Hx. cbn in Hx. rewrite Hx, IH; [done |]. intros r Hr. apply H. by right.
Qed.
Lemma scan_null {A B} (f : A -> option B) l :
  (exists r, r ∈ l /\ f r.2 = None) -> scan f l = Err err_scan_null.
Proof.
  intros (r & Hr & Hf). induction l as [| [id x] l IH]; [by apply elem_of_nil in Hr |]. cbn.
  apply elem_of_cons in Hr as [-> | Hr]; [cbn in Hf; by rewrite Hf |].
  destruct (f x); [| done]. by rewrite IH.
Qed.

(** Writing [upd c] into the claims [c] with [sel c], by their keys. *)
Lemma apply_selected (sel : Claim -> bool) (upd : Claim -> Claim -> Claim) l c :
  keys_ok l -> c ∈ l -> (forall c x, same_ident x (upd c x)) ->
  apply_updates (map (fun c => (claim_ID c, upd c)) (List.filter sel l)) c =
    if sel c then upd c c else c.
Proof.
  intros Hk Hc Hu. set (todo := map _ _).
  assert (Hids : todo.*1 = key <$> List.filter sel l).
  { unfold todo. induction (List.filter sel l) as [| x l' IH]; [done |]. cbn. by f_equal. }
  destruct (sel c) eqn:E.
  - apply (apply_updates_one _ _ (claim_ID c)); [| | done | apply Hu].
    + rewrite Hids. by apply keys_ok_filter.
    + apply list_elem_of_fmap. exists c. split; [done |].
      apply list_elem_of_In, filter_In. by rewrite <- list_elem_of_In.
  - apply apply_updates_other. rewrite Hids. intros (x & Hx & Hin)%list_elem_of_fmap.
    apply list_elem_of_In, filter_In in Hin as [Hin%list_elem_of_In Hs].
    rewrite (keys_ok_eq l c x Hk Hc Hin Hx) in E. congruence.
Qed.

Section Upgrades.
Context `{Faults, Node, TxSync, AddressCodec, !Healthy}.
Context (BlockChainName : string) (block_count : nat -> res Z).

(** A script that selects claims with a value and writes a column computed from it. *)
Lemma write_column {A} (sel : Claim -> bool) (upd : Claim -> Claim -> Claim)
  (slice : list (Z * A)) (g : Z * A -> Claim -> Claim) w :
  claims_ok (db w) -> (forall c x, same_ident x (upd c x)) ->
  map (fun r => (r.1, g r)) slice =
    map (fun c => (claim_ID c, upd c)) (List.filter sel (claim_rows (db w))) ->
  exists w', mfor (map (fun r => (r.1, g r)) slice)
      (fun u => let* _ := mtry (update_colsG u.2 (claim_key u.1)) in mret tt) w = (Ok tt, w') /\
    db w' = map_claims (fun c => if sel c then upd c c else c) (db w).
Proof.
  intros Hok Hu ->.
  destruct (update_claims_run (map (fun c => (claim_ID c, upd c))
    (List.filter sel (claim_rows (db w)))) w Hok) as (w' & E & Hw').
  { intros id u Hin x. apply list_elem_of_fmap in Hin as (c & [= -> ->] & _). apply Hu. }
  exists w'. split; [done |]. rewrite Hw'. apply map_claims_ext. intros c Hc.
  by apply apply_selected; [apply Hok | ..].
Qed.

(** ** The heights of the claims *)

Definition tx_of_claim (d : DB) (c : Claim) : option Transaction :=
  List.find (fun t => opt_clash (claim_TransactionHashID c) (Some (txn_Hash t))) (tx_rows d).
Definition block_of_claim (d : DB) (c : Claim) : option Block :=
  List.find (fun b => opt_clash (Some (block_Hash b))
      (match tx_of_claim d c with Some t => txn_BlockHashID t | None => None end)) (rows (t_blocks d)).

Definition no_height (c : Claim) : bool := claim_Height c =? 0.

Lemma claims_without_height_eq d :
  txs_ok d -> NoDup (block_Hash <$> rows (t_blocks d)) ->
  claims_without_height d =
    map (fun c => (claim_ID c, block_of_claim d c)) (List.filter no_height (claim_rows d)).
Proof.
  intros Ht Hb. unfold claims_without_height. apply flat_map_single. intros c _.
  rewrite (left_join_unique txn_Hash (fun t => opt_clash (claim_TransactionHashID c) (Some (txn_Hash t))));
    [| apply Ht | intros a b _ _ (h & ? & ?)%opt_clash_true (h' & ? & ?)%opt_clash_true; congruence].
  cbn [flat_map]. rewrite app_nil_r. fold (tx_of_claim d c).
  rewrite (left_join_unique block_Hash); [done | done |].
  intros a b _ _ (h & ? & ?)%opt_clash_true (h' & ? & ?)%opt_clash_true. unfold tx_of_claim in *. congruence.
Qed.

(** The script of the sixth upgrade gives every claim of height 0 the height of the block
    of its transaction and changes nothing else; when one of them has no block, the NULL of
    the join makes it panic before it writes anything. *)
Theorem setBlockHeightOnAllClaims_spec w :
  claims_ok (db w) -> txs_ok (db w) -> NoDup (block_Hash <$> rows (t_blocks (db w))) ->
  let height_of c := from_option block_Height 0 (block_of_claim (db w) c) in
  ((forall c, c ∈ claim_rows (db w) -> no_height c = true -> is_Some (block_of_claim (db w) c)) ->
   exists w', setBlockHeightOnAllClaims w = (Ok tt, w') /\
     db w' = map_claims (fun c => if no_height c then set_height (height_of c) c else c) (db w)) /\
  ((exists c, c ∈ claim_rows (db w) /\ no_height c = true /\ block_of_claim (db w) c = None) ->
   exists e, setBlockHeightOnAllClaims w = (Panic e, ticked w)).
Proof.
  intros Hok Ht Hb height_of. unfold setBlockHeightOnAllClaims. split.
  - intros Hall. set (sel := List.filter no_height (claim_rows (db w))).
    assert (Hs : scan (option_map block_Height) (claims_without_height (db w)) =
      Ok (map (fun c => (claim_ID c, height_of c)) sel)).
    { rewrite claims_without_height_eq by done.
      rewrite (scan_ok _ (fun r => from_option block_Height 0 r.2)).
      - by rewrite map_map.
      - intros r (c & -> & [Hc%list_elem_of_In Hn]%list_elem_of_In%filter_In)%list_elem_of_fmap.
        cbn. by destruct (Hall c Hc Hn) as [b ->]. }
    unfold mbind. erewrite or_panic_run; [| by apply query_healthy; [apply healthy | rewrite Hs]].
    destruct (write_column no_height (fun c => set_height (height_of c))
      (map (fun c => (claim_ID c, height_of c)) sel) (fun r => set_height r.2) (ticked w))
      as (w' & E & Hw'); [done | done | by rewrite map_map |].
    exists w'. split; [| done]. rewrite mfor_map in E. exact E.
  - intros (c & Hc & Hn & Hnone). exists err_scan_null.
    unfold mbind, or_panic, mbind, mtry, query, stmt. rewrite (healthy (tick w)).
    rewrite scan_null; [done |]. exists (claim_ID c, None). split; [| done].
    rewrite claims_without_height_eq, <- Hnone by done. apply list_elem_of_fmap.
    exists c. split; [done |]. apply list_elem_of_In, filter_In. by rewrite <- list_elem_of_In.
Qed.

(** ** The addresses of the claims *)

Definition no_address (c : Claim) : bool := bool_decide (claim_ClaimAddress c = "").
Definition output_of_claim (d : DB) (c : Claim) : option Output :=
  List.find (fun o => opt_clash (Some (out_TransactionHash o)) (claim_TransactionHashID c) &&
                      (out_Vout o =? claim_Vout c)) (rows (t_outputs d)).

(** The address in the script of a claim, if the script can be read and parsed. *)
Definition address_in (hex : string) : res (option string) :=
  let? scriptBytes := hex_decode hex in
  let? pks := claim_pkscript scriptBytes in
  Ok (option_map (GetAddressFromPublicKeyScript BlockChainName) pks).
Definition address_of_claim (d : DB) (c : Claim) : res (option string) :=
  match script_of (output_of_claim d c) with
  | Some hex => address_in hex
  | None => Err err_scan_null
  end.
Definition with_address (a : option string) (c : Claim) : Claim :=
  match a with Some a => set_address a c | None => c end.

(** One output per transaction and number: its unique key. *)
Definition outputs_distinct (d : DB) : Prop :=
  NoDup ((fun o => (out_TransactionHash o, out_Vout o)) <$> rows (t_outputs d)).

Lemma claims_without_address_eq d :
  outputs_distinct d ->
  claims_without_address d =
    map (fun c => (claim_ID c, output_of_claim d c)) (List.filter no_address (claim_rows d)).
Proof.
  intros Ho. unfold claims_without_address. apply flat_map_single. intros c _.
  rewrite (left_join_unique (fun o => (out_TransactionHash o, out_Vout o))); [done | done |].
  intros a b _ _ [(h & ? & ?)%opt_clash_true ?]%andb_true_iff [(h' & ? & ?)%opt_clash_true ?]%andb_true_iff.
  f_equal; [congruence | lia].
Qed.

Definition write_address (r : Z * string) : option (Z * (Claim -> Claim)) :=
  match address_in r.2 with Ok (Some a) => Some (r.1, set_address a) | _ => None end.
Definition hex_of_claim (d : DB) (c : Claim) : string := default "" (script_of (output_of_claim d c)).

Definition gets_address (d : DB) (c : Claim) : bool :=
  no_address c && match address_of_claim d c with Ok (Some _) => true | _ => false end.
Definition given_address (d : DB) (c : Claim) : Claim -> Claim :=
  match address_of_claim d c with Ok a => with_address a | _ => fun c => c end.

Lemma addresses_to_write d l :
  (forall c, c ∈ l -> no_address c = true -> is_Ok (address_of_claim d c) = true) ->
  omap write_address (map (fun c => (claim_ID c, hex_of_claim d c)) (List.filter no_address l)) =
    map (fun c => (claim_ID c, given_address d c)) (List.filter (gets_address d) l).
Proof.
  induction l as [| c l IH]; intros Hl; [done |].
  specialize (IH (fun x Hx => Hl x (list_elem_of_further _ _ _ Hx))).
  specialize (Hl c ltac:(by left)). cbn [List.filter]. unfold gets_address at 1.
  destruct (no_address c) eqn:Ec; cbn [andb]; [| exact IH]. specialize (Hl eq_refl).
  unfold address_of_claim in Hl |- *. cbn [map omap list_omap]. unfold write_address at 1.
  cbn [fst snd]. unfold hex_of_claim at 1.
  destruct (script_of (output_of_claim d c)) as [hex |] eqn:Eh; [| done].
  change (default "" (Some hex)) with hex.
  destruct (address_in hex) as [[a |] | e | e] eqn:Ea; [| exact IH | done..]. cbn [map].
  rewrite IH. unfold given_address at 2, address_of_claim. by rewrite Eh, Ea.
Qed.

(** The script of the fourth upgrade gives each claim without an address the address its
    stored script pays to; claims with an address, and claims whose script does not parse,
    stay as they are, and nothing else changes. *)
Theorem setClaimAddresses_spec w :
  claims_ok (db w) -> outputs_distinct (db w) ->
  (forall c, c ∈ claim_rows (db w) -> no_address c = true ->
     is_Ok (address_of_claim (db w) c) = true) ->
  exists w', setClaimAddresses BlockChainName w = (Ok tt, w') /\
    db w' = map_claims (fun c =>
      match address_of_claim (db w) c with
      | Ok (Some address) => if no_address c then set_address address c else c
      | _ => c
      end) (db w).
Proof.
  intros Hok Ho Hall. unfold setClaimAddresses. set (d := db w) in *.
  set (sel := List.filter no_address (claim_rows d)).
  assert (Hhex : forall c, c ∈ sel -> script_of (output_of_claim d c) = Some (hex_of_claim d c) /\
    is_Ok (address_in (hex_of_claim d c)) = true).
  { intros c [Hc%list_elem_of_In Hn]%list_elem_of_In%filter_In. specialize (Hall c Hc Hn).
    unfold address_of_claim, hex_of_claim in *. by destruct (script_of _). }
  assert (Hs : scan script_of (claims_without_address d) =
    Ok (map (fun c => (claim_ID c, hex_of_claim d c)) sel)).
  { rewrite claims_without_address_eq by done.
    rewrite (scan_ok _ (fun r => default "" (script_of r.2))).
    - by rewrite map_map.
    - intros r (c & -> & Hc)%list_elem_of_fmap. cbn. destruct (Hhex c Hc) as [Eh _]. by rewrite Eh. }
  unfold mbind at 1. erewrite or_panic_run; [| by apply query_healthy; [apply healthy | fold d; rewrite Hs]].
  rewrite (mfor_omap write_address _
    (fun u => let* _ := mtry (update_colsG u.2 (claim_key u.1)) in mret tt)); cycle 1.
  { intros r (c & -> & Hc)%list_elem_of_fmap. destruct (Hhex c Hc) as [_ Ha].
    unfold write_address, address_in in *. cbn [fst snd]. destruct (hex_decode _) as [bytes | |]; [| done..].
    cbn in Ha |- *. destruct (claim_pkscript bytes) as [[pks |] | |] eqn:Ep; [| | done..]; cbn.
    - unfold or_panic, mbind, mtry, mlift, mret. cbn. by rewrite Ep.
    - unfold or_panic, mbind, mtry, mlift, mret. cbn. by rewrite Ep. }
  unfold sel. rewrite addresses_to_write by done.
  destruct (update_claims_run (map (fun c => (claim_ID c, given_address d c))
    (List.filter (gets_address d) (claim_rows d))) (ticked w) Hok) as (w' & E & Hw').
  { intros id u Hin x. apply list_elem_of_fmap in Hin as (c & [= -> ->] & _).
    unfold given_address. by destruct (address_of_claim d c) as [[] | |]. }
  exists w'. split; [exact E |]. rewrite Hw'. apply map_claims_ext. intros c Hc.
  rewrite (apply_selected (gets_address d) (given_address d)); [| apply Hok | done |].
  - unfold gets_address, given_address. destruct (address_of_claim d c) as [[] | |];
      destruct (no_address c); reflexivity.
  - intros c' x. unfold given_address. by destruct (address_of_claim d c') as [[] | |].
Qed.

(** ** The blocks the fifth upgrade deletes *)

Definition block_rows_of (d : DB) : list Block := rows (t_blocks d).

Lemma delete_blocks_rows l d :
  block_rows_of (foldl (fun d b => delete_block b d) d l) =
    List.filter (fun x => forallb (fun b => negb (same_key b x)) l) (block_rows_of d).
Proof.
  revert d. induction l as [| b l IH]; intros d; cbn [foldl forallb].
  { symmetry. by apply filter_all. }
  rewrite IH. unfold block_rows_of. rewrite delete_block_rows. unfold drop_row. by rewrite filter_filter.
Qed.

(** The fifth upgrade deletes the blocks at most 50 below the highest one (51 heights),
    and no block at all when the chain is shorter: the subtraction wraps around. *)
Theorem upgradeFrom5_spec version head w :
  version < 6 -> keys_ok (block_rows_of (db w)) ->
  (forall b, b ∈ block_rows_of (db w) -> 0 <= block_Height b < 2 ^ 63) ->
  highest_by block_Height (block_rows_of (db w)) = Some head ->
  exists w', upgradeFrom5 version w = (Ok tt, w') /\
    block_rows_of (db w') =
      List.filter (fun b => (block_Height head <? 50) || (block_Height b <? block_Height head - 50))
        (block_rows_of (db w)).
Proof.
  intros Hv Hk Hrange Hhead. unfold upgradeFrom5. replace (version <? 6) with true by lia.
  cbn [mwhen]. unfold or_return, mbind at 1, mtry, highest_block, best_block.
  rewrite (query_healthy _ w head); cycle 1.
  { apply healthy. }
  { rewrite filter_all by done. unfold block_rows_of in Hhead. by rewrite Hhead. }
  cbv beta iota. unfold mbind at 1, allG.
  rewrite (query_healthy _ (ticked w) (List.filter
    (fun b => u64 (block_Height head - 50) <=? block_Height b) (block_rows_of (db w))));
    [| apply healthy | done].
  cbv beta iota. set (gone := List.filter _ _).
  assert (Hgone : forall b, b ∈ block_rows_of (db w) ->
    forallb (fun x => negb (same_key x b)) gone =
      ((block_Height head <? 50) || (block_Height b <? block_Height head - 50))).
  { intros b Hb. pose proof (Hrange b Hb) as Hrb.
    pose proof (Hrange head (highest_by_in _ _ _ Hhead)) as Hrh.
    pose proof (highest_by_max _ _ _ _ Hhead Hb) as Hmax.
    assert (Hu : u64 (block_Height head - 50) <=? block_Height b =
      negb ((block_Height head <? 50) || (block_Height b <? block_Height head - 50))).
    { destruct (Z.ltb_spec (block_Height head) 50); cbn [orb negb].
      - unfold u64. rewrite <- (Z_mod_plus_full _ 1), Z.mod_small; lia.
      - rewrite u64_small; lia. }
    destruct (_ || _) eqn:E; cbn in Hu.
    - apply forallb_forall. intros x [Hx%list_elem_of_In Hxg]%filter_In.
      apply negb_true_iff. rewrite same_key_key. apply Z.eqb_neq. intros Hkey.
      rewrite (keys_ok_eq _ x b Hk Hx Hb Hkey) in Hxg. congruence.
    - apply not_true_iff_false. intros Hall. rewrite forallb_forall in Hall.
      specialize (Hall b). rewrite same_key_key, Z.eqb_refl in Hall. cbn in Hall.
      enough (false = true) by done. apply Hall, filter_In. by rewrite <- list_elem_of_In. }
  destruct (Z.eqb_spec (len gone) 0) as [Elen | Elen].
  - eexists. split; [reflexivity |]. cbn. symmetry. apply filter_all. intros b Hb.
    rewrite <- Hgone by done. unfold len in Elen. by destruct gone.
  - unfold mbind, mtry, deleteAllG_blocks.
    rewrite (stmt_healthy _ (ticked (ticked w)) tt (foldl (fun d b => delete_block b d) (db w) gone));
      [| apply healthy | done].
    eexists. split; [reflexivity |]. cbn [db]. rewrite delete_blocks_rows.
    apply filter_ext_in. intros b Hb%list_elem_of_In. by apply Hgone.
Qed.
End Upgrades.

(** ** What needs no healthy database *)

Section Runs.
Context `{Faults, Node, TxSync, AddressCodec}.
Context (BlockChainName : string) (block_count : nat -> res Z).

Lemma flat_map_nil {A B} (F : A -> list B) l : (forall x, x ∈ l -> F x = []) -> flat_map F l = [].
Proof.
  induction l as [| x l IH]; intros HF; [done |]. cbn. rewrite HF by (by left). cbn.
  apply IH. intros y Hy. apply HF. by right.
Qed.

Lemma outputs_above_head d head height :
  highest_by block_Height (rows (t_blocks d)) = Some head -> block_Height head < height ->
  outputs_from_height height d = [].
Proof.
  intros Hhead Hh. unfold outputs_from_height. apply flat_map_nil. intros o _.
  apply flat_map_nil. intros t _.
  destruct (List.filter _ (rows (t_blocks d))) as [| b l] eqn:E; [done |]. exfalso.
  assert (Hb : b ∈ b :: l) by (by left).
  rewrite <- E, list_elem_of_In in Hb.
  apply filter_In in Hb as [Hb%list_elem_of_In Hp]. pose proof (highest_by_max _ _ _ _ Hhead Hb). lia.
Qed.

(** The seventh upgrade never changes the database, whatever fails: it reprocesses the
    claims from height 400155 on only when the highest block is below that height. *)
Theorem upgradeFrom7_nothing version w : db (upgradeFrom7 version w).2 = db w.
Proof.
  assert (Hq : forall {A} (f : DB -> res A) w, db (query f w).2 = db w).
  { intros A f w'. symmetry. apply (steps_query eq). }
  unfold upgradeFrom7. destruct (version <? 8); [cbn [mwhen] | done].
  unfold or_return, mbind at 1, mtry. pose proof (Hq _ (fun d =>
    match highest_by block_Height (List.filter (fun _ => true) (rows (t_blocks d))) with
    | Some b => Ok b | None => Err ErrNoRows end) w) as Hw.
  unfold highest_block, best_block. destruct (query _ w) as [[head | e | e] w1] eqn:E; [| exact Hw..].
  apply query_Ok in E as [E Hdb]. rewrite filter_all in E by done.
  destruct (highest_by _ _) as [b |] eqn:Eh; [injection E as -> | done].
  destruct (Z.ltb_spec (block_Height head) 400155) as [Hlt |]; cbn [mwhen]; [| exact Hdb].
  unfold reProcessAllClaimsFromHeight, mbind, or_panic, mbind, mtry.
  pose proof (Hq _ (fun d => Ok (outputs_from_height 400155 d)) w1) as Hw1.
  destruct (query _ w1) as [[outputs | e' | e'] w2] eqn:E2; cbn in Hw1 |- *; [| congruence..].
  apply query_Ok in E2 as [[= <-] _]. rewrite (outputs_above_head _ head) by (rewrite ?Hdb; done).
  cbn. congruence.
Qed.

(** ** The stored version *)

(** [ProcessTx] does not touch the row of the versions. *)
Class TxStatusLaws : Prop := {
  process_tx_status tx t h : steps (on_db (same t_status)) (process_tx tx t h);
}.
Context `{!TxStatusLaws}.
Notation keeps_status := (steps (on_db (same t_status))).

Lemma status_ask {A} (f : nat -> res A) : keeps_status (ask f).
Proof. intros w. done. Qed.
Lemma status_process_tx tx t h : keeps_status (process_tx tx t h).
Proof. apply process_tx_status. Qed.
#[local] Hint Resolve status_ask status_process_tx : go.

Lemma status_processClaimOut h : keeps_status (processClaimOut h).
Proof. unfold processClaimOut. go_steps. Qed.
#[local] Hint Resolve status_processClaimOut : go.
Lemma status_reProcessAllClaims : keeps_status reProcessAllClaims.
Proof. unfold reProcessAllClaims. go_steps. Qed.
Lemma status_reProcessAllClaimsFromHeight h : keeps_status (reProcessAllClaimsFromHeight h).
Proof. unfold reProcessAllClaimsFromHeight. go_steps. Qed.
Lemma status_setClaimAddresses : keeps_status (setClaimAddresses BlockChainName).
Proof. unfold setClaimAddresses. go_steps. Qed.
Lemma status_setBlockHeight : keeps_status setBlockHeightOnAllClaims.
Proof. unfold setBlockHeightOnAllClaims. go_steps. Qed.
Lemma status_deleteAll l : keeps_status (deleteAllG_blocks l).
Proof.
  apply steps_stmt; [typeclasses eauto |]. intros d a d' [= _ <-]. unfold same. revert d.
  induction l as [| b l IH]; intros d; [done |]. cbn. by rewrite <- IH.
Qed.
Lemma status_upgradeFrom12 v : keeps_status (upgradeFrom12 v).
Proof.
  unfold upgradeFrom12. go_steps. apply steps_stmt; [typeclasses eauto |].
  by intros d a d' [= _ <-].
Qed.
#[local] Hint Resolve status_reProcessAllClaims status_reProcessAllClaimsFromHeight
  status_setClaimAddresses status_setBlockHeight status_deleteAll status_upgradeFrom12 : go.

Lemma status_run_upgrades v : keeps_status (run_upgrades BlockChainName block_count v).
Proof.
  unfold run_upgrades, upgradeFrom1, upgradeFrom2, upgradeFrom3, upgradeFrom4, upgradeFrom5,
    upgradeFrom6, upgradeFrom7, upgradeFrom8, upgradeFrom9, upgradeFrom10, reactivate,
    highest_block, best_block. go_steps.
Qed.

Lemma run_upgrades_current v w :
  13 <= v -> run_upgrades BlockChainName block_count v w = (Ok false, w).
Proof.
  intros Hv. unfold run_upgrades, upgradeFrom1, upgradeFrom2, upgradeFrom3, upgradeFrom4, upgradeFrom5,
    upgradeFrom6, upgradeFrom7, upgradeFrom8, upgradeFrom9, upgradeFrom10, upgradeFrom11, upgradeFrom12.
  repeat match goal with |- context [v <? ?k] => replace (v <? k) with false by lia end. done.
Qed.

(** The row of the versions, at those of the program. *)
Definition this_version : ApplicationStatus := mkApplicationStatus 1 13 13 13.
Definition recorded (d : DB) : Prop :=
  this_version ∈ rows (t_status d) /\
  forall s, s ∈ rows (t_status d) -> app_ID s = 1 -> s = this_version.

Lemma same_key_status (a b : ApplicationStatus) : same_key a b = (app_ID a =? app_ID b).
Proof. done. Qed.

Lemma save_status_recorded s w u w' :
  app_ID s = 1 -> (exists x, x ∈ rows (t_status (db w)) /\ app_ID x = 1) ->
  save_status (upgraded s) w = (Ok u, w') -> recorded (db w').
Proof.
  intros Hs (x & Hx & Hid). unfold save_status. rewrite or_panic_Ok, prefixed_Ok.
  intros E%updateG_Ok. cbn [get_table row_status] in E.
  assert (Hup : upgraded s = this_version) by (destruct s; cbn in *; by subst).
  destruct (List.find _ _) as [y |] eqn:Ef; cycle 1.
  { apply list_elem_of_In, (find_none _ _ Ef) in Hx. cbn in Hx. lia. }
  rewrite E. unfold recorded. cbn [set_table row_status t_status rows]. rewrite Hup. split.
  - apply list_elem_of_fmap. exists x. rewrite same_key_status, Hid. done.
  - intros z (y' & -> & _)%list_elem_of_fmap. rewrite same_key_status.
    destruct (Z.eqb_spec (app_ID this_version) (app_ID y')) as [| Hne]; [done |].
    intros Hy. by destruct Hne.
Qed.

Context `{!Healthy}.

Lemma save_status_again w :
  recorded (db w) -> exists w', save_status this_version w = (Ok tt, w') /\ db w' = db w.
Proof.
  intros [Hin Hall]. exists (ticked w). split; [| done].
  unfold save_status. apply or_panic_run, prefixed_Ok. unfold updateG.
  rewrite (stmt_healthy _ w tt (db w)); [by destruct w | apply healthy |].
  unfold update_rows. cbn [get_table row_status]. destruct (List.find _ _) as [y |] eqn:Ef; [| done].
  assert (Hno : forall l : list ApplicationStatus,
    existsb (fun x => negb (same_key this_version x) && clash x this_version) l = false).
  { induction l as [| x l IH]; [done |]. cbn [existsb]. rewrite IH. cbn [clash row_status].
    by rewrite andb_false_r. }
  rewrite Hno. cbn [negb fk_ok row_status set_table].
  rewrite (map_ext_in _ (fun x => x)); [rewrite map_id |].
  { by destruct (db w) as [? ? ? ? ? ? ? ? ? ? ? ? []]. }
  intros x Hx%list_elem_of_In. rewrite same_key_status.
  destruct (Z.eqb_spec (app_ID this_version) (app_ID x)) as [Heq |]; [| done].
  symmetry. apply Hall; [done |]. by rewrite <- Heq.
Qed.

Lemma existsG_healthy {R} `{Row R} (f : R -> bool) w :
  existsG f w = (Ok (existsb f (rows (get_table (db w)))), ticked w).
Proof. unfold existsG. by rewrite (query_healthy _ w (existsb f (rows (get_table (db w))))). Qed.

(** A second run. *)
Lemma run_again w :
  recorded (db w) ->
  exists w', RunUpgradesForVersion BlockChainName block_count w = (Ok false, w') /\ db w' = db w.
Proof.
  intros Hr. pose proof Hr as [Hin Hall]. unfold RunUpgradesForVersion, mbind at 1.
  erewrite or_panic_run; [| apply existsG_healthy]. cbn [get_table row_status].
  rewrite (proj2 (existsb_exists _ _)); [cbn [negb] | by exists this_version; rewrite <- list_elem_of_In].
  unfold mbind at 1, mtry. rewrite oneG_healthy. cbn [get_table row_status db ticked].
  destruct (List.find (status_is 1) _) as [s |] eqn:Ef; cycle 1.
  { apply list_elem_of_In, (find_none _ _ Ef) in Hin. done. }
  apply find_some in Ef as [Hs%list_elem_of_In Hid]. unfold status_is in Hid.
  rewrite (Hall s Hs ltac:(lia)). unfold mbind at 1. rewrite run_upgrades_current by (cbn; lia).
  destruct (save_status_again (ticked (ticked w)) Hr) as (w' & E & Hw').
  exists w'. split; [| done]. unfold mbind. change (upgraded this_version) with this_version. by rewrite E.
Qed.

Lemma first_run w background w' :
  (exists s, s ∈ rows (t_status (db w)) /\ app_ID s = 1) \/ t_status (db w) = mkTable [] 1 ->
  RunUpgradesForVersion BlockChainName block_count w = (Ok background, w') ->
  recorded (db w') /\
  (background = true -> exists s, s ∈ rows (t_status (db w)) /\ app_AppVersion s < 12).
Proof.
  intros Hst E. unfold RunUpgradesForVersion in E.
  apply mbind_Ok in E as (found & w1 & Ex & E). apply or_panic_Ok, existsG_Ok in Ex as [Hf Hw1].
  cbn [get_table row_status] in Hf. destruct found; cbn [negb] in E.
  - symmetry in Hf. apply existsb_exists in Hf as (x & Hx%list_elem_of_In & Hxid).
    apply mbind_Ok in E as ([s | e] & w2 & Es & E); apply mtry_Ok in Es; cycle 1.
    { exfalso. rewrite oneG_healthy, Hw1 in Es. cbn [get_table row_status] in Es.
      destruct (List.find _ _) eqn:En; [done |].
      apply list_elem_of_In, (find_none _ _ En) in Hx. congruence. }
    apply oneG_found in Es as (Hs & Hid & Hw2). cbn [get_table row_status] in Hs.
    rewrite Hw1 in Hs. unfold status_is in Hid, Hxid.
    apply mbind_Ok in E as (b & w3 & Er & E). apply mbind_Ok in E as (u & w4 & Esave & E).
    injection E as <- <-. pose proof (status_run_upgrades (app_AppVersion s) w2) as Hsame.
    rewrite Er in Hsame. unfold on_db, same in Hsame. cbn [snd] in Hsame. rewrite Hw2, Hw1 in Hsame. split.
    + eapply save_status_recorded; [| | exact Esave]; [lia |]. exists x. rewrite <- Hsame. split; [done | lia].
    + intros ->. exists s. split; [done |]. apply mbind_Ok in Er as (? & ? & _ & Er).
      repeat (apply mbind_Ok in Er as (? & ? & _ & Er)). injection Er as Hb _.
      unfold upgradeFrom11 in Hb. lia.
  - destruct Hst as [(s & Hs & Hid) | Hempty].
    { exfalso. symmetry in Hf. apply not_true_iff_false in Hf. apply Hf, existsb_exists.
      exists s. rewrite <- list_elem_of_In. unfold status_is. split; [done | lia]. }
    apply mbind_Ok in E as (s & w2 & Ei & E). apply or_panic_Ok, prefixed_Ok, insertG_Ok in Ei as (Hs & _ & Hw2).
    apply mbind_Ok in E as (u & w3 & Esave & E). injection E as <- <-. split; [| done].
    rewrite Hw1 in Hs, Hw2. cbn [get_table row_status] in Hs, Hw2. rewrite Hempty in Hs, Hw2.
    cbn in Hs.
    replace s with (upgraded s) in Esave by (by rewrite Hs).
    eapply save_status_recorded; [| | exact Esave]; [by rewrite Hs |].
    exists s. rewrite Hw2, Hs. split; [by left | done].
Qed.

(** C33: in a database without failures, a run of the upgrades that returns, whatever errors
    its scripts met and logged, leaves the stored versions at those of the program, and started
    reprocessing in the background only from a version below 12.  Running the upgrades again
    starts nothing and leaves the database as it is.  (When the row of the versions cannot be
    read the code returns without raising them; the theorem leaves that out.) *)
Theorem upgraded_once w background w' :
  (exists s, s ∈ rows (t_status (db w)) /\ app_ID s = 1) \/ t_status (db w) = mkTable [] 1 ->
  RunUpgradesForVersion BlockChainName block_count w = (Ok background, w') ->
  recorded (db w') /\
  (background = true -> exists s, s ∈ rows (t_status (db w)) /\ app_AppVersion s < 12) /\
  exists w'', RunUpgradesForVersion BlockChainName block_count w' = (Ok false, w'') /\ db w'' = db w'.
Proof.
  intros Hst E. destruct (first_run w background w' Hst E) as [Hr Hb].
  split; [done | split; [done |]]. by apply run_again.
Qed.
End Runs.

#[export] Instance block_sync_status `{Faults, Stake, Hashes, AddressCodec, PurchaseCodec, JsonStrings, Node}
  chain mp mf sc : @TxStatusLaws (block_sync chain mp mf sc).
Proof. split. intros tx t h. cbn. auto with go typeclass_instances. Qed.

(** ** Worked example *)

Import Demo.

Module UpgradeExamples.
#[export] Instance demo_healthy : Healthy.
Proof. done. Defined.
#[export] Instance demo_txsync : TxSync := block_sync chain 4 3 demo_schedule.

(** The block of the demonstration, as an old version stored it: without the claim's height
    and address. *)
Definition old_db : DB :=
  db demo_world2
    <| t_claims := mkTable (map (fun c => set_address "" (set_height 0 c)) (claim_rows (db demo_world2))) 2 |>
    <| t_status := mkTable [mkApplicationStatus 1 4 4 4] 2 |>.
Definition old_world : World := mkWorld old_db 0.
Definition demo_count (_ : nat) : res Z := Ok 1.

Example demo_upgrade :
  let w := (RunUpgradesForVersion chain demo_count old_world).2 in
  (map (fun c => (claim_Height c, claim_ClaimAddress c)) (claim_rows old_db),
   map (fun c => (claim_Height c, claim_ClaimAddress c)) (claim_rows (db w)),
   rows (t_status (db w))) =
  ([(0, "")], [(1, hex_encode bob_script)], [mkApplicationStatus 1 13 13 13]).
Proof. vm_compute. reflexivity. Qed.

Lemma old_claims_ok : claims_ok old_db.
Proof.
  split.
  - vm_compute. repeat constructor; set_solver.
  - intros c Hc. vm_compute in Hc. by apply list_elem_of_singleton in Hc as ->.
  - intros c Hc. vm_compute in Hc. by apply list_elem_of_singleton in Hc as ->.
  - intros a b Ha Hb Hne. vm_compute in Ha, Hb. apply list_elem_of_singleton in Ha as ->.
    by apply list_elem_of_singleton in Hb as ->.
Qed.
Lemma old_txs_ok : txs_ok old_db.
Proof. split; vm_compute; repeat constructor; set_solver. Qed.

Lemma upgraded_once_witness :
  recorded (db (RunUpgradesForVersion chain demo_count old_world).2) /\
  (RunUpgradesForVersion chain demo_count old_world).1 = Ok true.
Proof.
  destruct (upgraded_once chain demo_count old_world true
    (RunUpgradesForVersion chain demo_count old_world).2) as (Hr & _ & _).
  - left. exists (mkApplicationStatus 1 4 4 4). split; [by left | reflexivity].
  - vm_compute. reflexivity.
  - split; [exact Hr | vm_compute; reflexivity].
Defined.

Lemma setBlockHeightOnAllClaims_spec_witness :
  exists w', setBlockHeightOnAllClaims old_world = (Ok tt, w') /\
    map claim_Height (claim_rows (db w')) = [1].
Proof.
  destruct (setBlockHeightOnAllClaims_spec old_world) as [Hset _].
  - exact old_claims_ok.
  - exact old_txs_ok.
  - vm_compute. repeat constructor; set_solver.
  - destruct Hset as (w' & E & Hw').
    + intros c Hc _. vm_compute in Hc. apply list_elem_of_singleton in Hc as ->. by eexists; vm_compute.
    + exists w'. split; [exact E | rewrite Hw'; vm_compute; reflexivity].
Defined.

Lemma setClaimAddresses_spec_witness :
  exists w', setClaimAddresses chain old_world = (Ok tt, w') /\
    map claim_ClaimAddress (claim_rows (db w')) = [hex_encode bob_script].
Proof.
  destruct (setClaimAddresses_spec chain old_world) as (w' & E & Hw').
  - exact old_claims_ok.
  - vm_compute. repeat constructor; set_solver.
  - intros c Hc _. vm_compute in Hc. apply list_elem_of_singleton in Hc as ->. vm_compute. reflexivity.
  - exists w'. split; [exact E | rewrite Hw'; vm_compute; reflexivity].
Defined.

(** Heads at 60 and at 40. *)
Definition tall_world (top : Z) : World :=
  mkWorld (empty_db <| t_blocks := mkTable [stored_block 1 5 "a" None None;
    stored_block 2 10 "b" None None; stored_block 3 top "c" None None] 4 |>) 0.
Example demo_deleted :
  map (fun top => map block_Height (block_rows_of (db (upgradeFrom5 5 (tall_world top)).2))) [60; 40] =
  [[5]; [5; 10; 40]].
Proof. vm_compute. reflexivity. Qed.

Lemma upgradeFrom5_spec_witness :
  exists w', upgradeFrom5 5 (tall_world 60) = (Ok tt, w') /\ map block_Height (block_rows_of (db w')) = [5].
Proof.
  destruct (upgradeFrom5_spec 5 (stored_block 3 60 "c" None None) (tall_world 60)) as (w' & E & Hw').
  - lia.
  - vm_compute. repeat constructor; set_solver.
  - intros b Hb. vm_compute in Hb.
    repeat (apply elem_of_cons in Hb as [-> | Hb]; [cbn; lia |]). by apply elem_of_nil in Hb.
  - reflexivity.
  - exists w'. split; [exact E | rewrite Hw'; vm_compute; reflexivity].
Defined.
End UpgradeExamples.
