(* ===== verification/ApiActions.v ===== *)
(** * The API ([apiactions/*.go], [auth/auth.go], [db/query.go], [swagger/apiserver/go/routers.go])

    The handlers behind the router, as functions from the form a request was parsed into (or
    the error [api.FormValues] of lbry.go answers) to a response, with their effects on the
    world.  The keys of the configuration authorize the handlers that write.  The range handler
    runs block processing from one height to another; its loop is bounded by fuel, and
    [process_heights_spec] and [process_heights_forever] say how much it needs: what the range
    holds, except when the upper end is the greatest 64-bit number.
    The free SQL of [SQLQueryAction] and the status of the tables go to the database as text
    and are not modelled. *)
From S2P Require Import Prelude Bytes Script Lbrycrd Scheduler Rows Store Datastore StoreFacts BlockSync.
From S2P Require Import Claims Transactions BlockProcessing Jobs ClaimTrie ChainValidation ValueSync.
From S2P Require Import BlockSyncProofs DemoWorld.

(** ** Authorization ([auth.go]) *)

Fixpoint IsAuthorized (APIKeys : list string) (key : string) : bool :=
  match APIKeys with
  | [] => false
  | k :: APIKeys => if bool_decide (k = key) then true else IsAuthorized APIKeys key
  end.

Lemma IsAuthorized_spec APIKeys key : IsAuthorized APIKeys key = bool_decide (key ∈ APIKeys).
Proof.
  induction APIKeys as [| k APIKeys IH]; [done |]. cbn. rewrite IH.
  rewrite (bool_decide_ext (key ∈ k :: APIKeys) (k = key \/ key ∈ APIKeys)) by set_solver.
  repeat case_bool_decide; tauto.
Qed.

(** The metrics are behind HTTP basic authentication: the status, and whether the wrapped
    handler serves the request. *)
Definition promBasicAuthWrapper (PromUser PromPassword : string) (credentials : option (string * string))
    : Z * bool :=
  match credentials with
  | None => (400, false)
  | Some (user, pass) =>
      if bool_decide (PromUser = "") then (412, false)
      else if bool_decide (user = PromUser) && bool_decide (pass = PromPassword) then (200, true)
      else (403, false)
  end.

(** ** Responses *)

Record Response (D : Type) := mkResponse {
  rs_Data : option D;
  rs_Error : option error;
  rs_Status : Z;
}.
Arguments mkResponse {D}. Arguments rs_Data {D}. Arguments rs_Error {D}. Arguments rs_Status {D}.

Definition StatusBadRequest : Z := 400.
Definition StatusUnauthorized : Z := 401.
Definition StatusInternalServerError : Z := 500.

(** [api.Response{Data: d}] and [api.Response{Error: err}]; lbry.go chooses the status. *)
Definition data_response {D} (d : D) : Response D := mkResponse (Some d) None 0.
Definition error_response {D} (e : error) : Response D := mkResponse None (Some e) 0.
Definition not_authorized {D} : Response D :=
  mkResponse None (Some (ErrMsg "not authorized")) StatusUnauthorized.

Record block_params := { bp_Block : option Z; bp_From : option Z; bp_To : option Z; bp_Key : string }.
Record name_params := { np_Name : string; np_Key : string }.
Record validate_params := { vp_From : Z; vp_To : option Z; vp_Key : string }.

Section Handlers.
Context `{Faults, Node, TxSync, TrieNode, SqlSums, Modified, Collation}.
Context (APIKeys : list string).

(** What the handlers begin with: the form, then the key. *)
Definition with_form {P D} (form : res P) (key : P -> string) (body : P -> M World (Response D))
    : M World (Response D) :=
  match form with
  | Ok params =>
      if negb (IsAuthorized APIKeys (key params)) then mret not_authorized else body params
  | Err e => mret (mkResponse None (Some e) StatusBadRequest)
  | Panic e => mpanic e
  end.

(** [if err != nil { return api.Response{Error: err} }] *)
Definition respond {A D} (m : M World A) (data : A -> D) : M World (Response D) :=
  let* r := mtry m in
  mret (match r with inl a => data_response (data a) | inr e => error_response e end).

(** ** Block processing on demand ([processing.go]) *)

(** [for *from <= *to { RunBlockProcessing(nil, *from); *from++ }].  Running out of fuel is
    told apart by a value no panic of the program has. *)
Fixpoint process_heights (fuel : nat) (from to : Z) : M World unit :=
  if from <=? to then
    match fuel with
    | O => mpanic out_of_fuel
    | S fuel =>
        let* _ := RunBlockProcessing from in
        process_heights fuel (u64 (from + 1)) to
    end
  else mret tt.

Definition processBlocks (fuel : nat) (block from to : option Z) : M World unit :=
  match block with
  | Some block => process_heights fuel block block
  | None =>
      let* to := (match to with Some to => mret to | None => ask node_block_count end) in
      process_heights fuel (default 0 from) to
  end.

Definition ProcessBlocks (fuel : nat) (form : res block_params) : M World (Response string) :=
  with_form form bp_Key (fun params =>
    respond
      (match bp_Block params, bp_To params with
       | Some block, _ => processBlocks fuel (Some block) None None
       | None, Some to => processBlocks fuel None (bp_From params) (Some to)
       | None, None => processBlocks fuel None (bp_From params) None
       end) (fun _ => "OK")).

(** One claim of the name is selected: its name is all that is used of it. *)
Definition SyncName (order : list string -> list string) (job_order : list TrieClaim -> list TrieClaim)
    (form : res name_params) : M World (Response string) :=
  with_form form np_Key (fun params =>
    respond
      (let* claims := query (fun d => Ok (take 1
         (List.filter (fun c => bool_decide (claim_Name c = np_Name params)) (rows (t_claims d))))) in
       let* count := ask node_block_count in
       let* _ := SyncClaims order job_order claims in
       SetControllingClaimForNames order claims count) (fun _ => "ok")).

(** ** The jobs on demand ([validation.go]) *)

Definition SyncAddressBalance (fuel : nat) (form : res string) : M World (Response Z) :=
  with_form form (fun key => key) (fun _ => respond (SyncAddressBalances fuel) (fun n => n)).

Definition SyncTransactionValue_action (form : res string) : M World (Response Z) :=
  with_form form (fun key => key) (fun _ => respond SyncTransactionValue (fun n => n)).

Definition ValidateChainData (form : res validate_params) : M World (Response (list BlockData)) :=
  with_form form vp_Key (fun params =>
    respond (ValidateChainRange node_block_count (Some (vp_From params)) (vp_To params)) (fun l => l)).

(** ** Open handlers ([default.go], [query.go]) *)

Definition IndexAction : Response string := data_response "Hello World!".

Record AddressSummary := {
  as_Address : string;
  as_TotalReceived : float64;
  as_TotalSent : float64;
  as_Balance : float64;
}.

(** The difference of the sums is the sum of the differences of the decimal columns.  The sums
    run over a left join: an address without transactions has NULL sums, which are no
    numbers. *)
Definition GetAddressSummary (address : string) : M World AddressSummary :=
  query (fun d =>
    match List.filter (fun a => bool_decide (addr_Address a = address)) (rows (t_addresses d)) with
    | [] => Err ErrNoRows
    | addresses =>
        let amounts := flat_map (fun a =>
          List.filter (fun ta => txaddr_AddressID ta =? addr_ID a) (rows (t_tx_addresses d))) addresses in
        match amounts with
        | [] => Err (ErrMsg "converting NULL to float64 is unsupported")
        | _ => Ok {| as_Address := address;
                     as_TotalReceived := sum_amounts (map txaddr_CreditAmount amounts);
                     as_TotalSent := sum_amounts (map txaddr_DebitAmount amounts);
                     as_Balance := sum_differences (map (fun ta =>
                       (txaddr_CreditAmount ta, txaddr_DebitAmount ta)) amounts) |}
        end
    end).

Definition AddressSummaryAction (form : res string) : M World (Response AddressSummary) :=
  match form with
  | Ok address =>
      let* r := mtry (GetAddressSummary address) in
      mret (match r with
            | inl summary => data_response summary
            | inr e => mkResponse None (Some e) StatusInternalServerError
            end)
  | Err e => mret (mkResponse None (Some e) StatusBadRequest)
  | Panic e => mpanic e
  end.
End Handlers.

(** ** Properties *)

Section Facts.
Context `{Faults, Node, TxSync, TrieNode, SqlSums, Modified, Collation}.
Context (APIKeys : list string).

(** A request with a key that is not configured does nothing: none of the handlers that
    process blocks, synchronise or validate touches the database or asks the node, and each
    answers 401.  The metrics are served to the configured user with the configured password
    only, and to nobody when no user is configured. *)
Theorem unauthorized_is_inert key w :
  key ∉ APIKeys ->
  (forall fuel p, bp_Key p = key -> ProcessBlocks APIKeys fuel (Ok p) w = (Ok not_authorized, w)) /\
  (forall o jo p, np_Key p = key -> SyncName APIKeys o jo (Ok p) w = (Ok not_authorized, w)) /\
  (forall fuel, SyncAddressBalance APIKeys fuel (Ok key) w = (Ok not_authorized, w)) /\
  SyncTransactionValue_action APIKeys (Ok key) w = (Ok not_authorized, w) /\
  (forall p, vp_Key p = key -> ValidateChainData APIKeys (Ok p) w = (Ok not_authorized, w)) /\
  (forall user pass credentials, (promBasicAuthWrapper user pass credentials).2 = true <->
     credentials = Some (user, pass) /\ user <> "").
Proof.
  intros Hkey. assert (Hno : IsAuthorized APIKeys key = false).
  { by rewrite IsAuthorized_spec, bool_decide_false. }
  unfold ProcessBlocks, SyncName, SyncAddressBalance, SyncTransactionValue_action, ValidateChainData,
    with_form.
  split; [intros fuel p ->; by rewrite Hno |]. split; [intros o jo p ->; by rewrite Hno |].
  split; [intros fuel; by rewrite Hno |]. split; [by rewrite Hno |].
  split; [intros p ->; by rewrite Hno |]. intros user pass [[user' pass'] |]; cbn; [| naive_solver].
  repeat case_bool_decide; cbn; subst; naive_solver.
Qed.

Lemma RunBlockProcessing_never_errs h : never_errs (RunBlockProcessing h).
Proof.
  unfold RunBlockProcessing, ProcessBlock. destruct (h =? 0).
  - apply never_errs_bind; [auto with go |]. intros [[] | e]; [auto with go | by intros w e'].
  - apply never_errs_bind; [auto with go |]. intros [json | e]; [| auto with go].
    apply never_errs_bind; [auto with go |]. intros [reorg | e]; [| auto with go].
    destruct (negb _); [auto with go |].
    apply never_errs_bind; [| intros [b [e |]]; [| auto with go]].
    { apply never_errs_bind; [auto with go |]. intros [b | e]; auto with go. }
    apply never_errs_bind; [| auto with go]. destruct b; auto with go.
Qed.

(** The runs of a range of heights, whatever each answers. *)
Definition run_heights (heights : list Z) : M World unit :=
  mfor heights (fun h => let* _ := RunBlockProcessing h in mret tt).

Lemma process_heights_spec fuel from to w :
  0 <= from -> to < 2 ^ 64 - 1 -> to - from < Z.of_nat fuel ->
  process_heights fuel from to w = run_heights (seqZ from (to - from + 1)) w.
Proof.
  revert from w. induction fuel as [| fuel IH]; intros from w Hf Ht Hn; cbn [process_heights];
    destruct (Z.leb_spec from to) as [Hle | Hgt].
  1: lia.
  1, 3: by rewrite seqZ_nil by lia.
  rewrite seqZ_cons by lia. cbn. unfold mbind at 1 2 3.
  destruct (RunBlockProcessing from w) as [[h | e | e] w1]; [| done..].
  rewrite u64_small, IH by lia. unfold run_heights.
  by replace (Z.pred (to - from + 1)) with (to - (from + 1) + 1) by lia.
Qed.

Lemma run_heights_never_errs heights : never_errs (run_heights heights).
Proof.
  induction heights as [| h heights IH]; [by intros w e |]. cbn.
  pose proof RunBlockProcessing_never_errs. auto with go.
Qed.

(** [n] heights from [from] on, as the counter takes them: after the greatest number comes 0. *)
Definition wrapping (n : nat) (from : Z) : list Z :=
  (fun i => u64 (from + i)) <$> seqZ 0 (Z.of_nat n).

Lemma wrapping_S n from :
  0 <= from < 2 ^ 64 -> wrapping (S n) from = from :: wrapping n (u64 (from + 1)).
Proof.
  intros Hf. unfold wrapping. rewrite seqZ_cons by lia. rewrite fmap_cons, Z.add_0_r.
  f_equal; [apply u64_small; lia |].
  replace (Z.pred (Z.of_nat (S n))) with (Z.of_nat n) by lia.
  rewrite <- (fmap_add_seqZ 1 0). rewrite <- list_fmap_compose. apply list_fmap_ext.
  intros _ i _. unfold compose, u64. rewrite Zplus_mod_idemp_l. f_equal. lia.
Qed.

(** With the greatest number as its end the loop's test never fails: whatever the number of
    rounds allowed, they are all used. *)
Lemma process_heights_forever fuel from w :
  0 <= from < 2 ^ 64 ->
  process_heights fuel from (2 ^ 64 - 1) w =
    (let* _ := run_heights (wrapping fuel from) in mpanic out_of_fuel) w.
Proof.
  revert from w. induction fuel as [| fuel IH]; intros from w Hf; cbn [process_heights].
  all: replace (from <=? 2 ^ 64 - 1) with true by lia.
  { done. }
  rewrite wrapping_S by done. cbn. unfold mbind.
  destruct (RunBlockProcessing from w) as [[h | e | e] w1]; [| done..].
  rewrite IH by apply u64_range. done.
Qed.

(** C34: an authorized request for a range of heights runs block processing once for each
    height of the range, in ascending order and whatever the runs before answered, and says OK
    unless one of them panics; it needs as many rounds as the range has heights.  For a range
    that ends at the greatest 64-bit number the counter wraps around: unless a run panics, any
    number of rounds has been used up on the heights from the first one on, after the greatest
    one from 0 again, and the loop is not at its end ([out_of_fuel]). *)
Theorem ProcessBlocks_spec fuel from to key w :
  key ∈ APIKeys -> 0 <= from -> to < 2 ^ 64 ->
  let form := Ok {| bp_Block := None; bp_From := Some from; bp_To := Some to; bp_Key := key |} in
  (to < 2 ^ 64 - 1 -> to - from < Z.of_nat fuel ->
   ProcessBlocks APIKeys fuel form w =
     match run_heights (seqZ from (to - from + 1)) w with
     | (Ok _, w') => (Ok (data_response "OK"), w')
     | (Err e, w') | (Panic e, w') => (Panic e, w')
     end) /\
  (to = 2 ^ 64 - 1 -> from <= to ->
   ProcessBlocks APIKeys fuel form w =
     match run_heights (wrapping fuel from) w with
     | (Ok _, w') => (Panic out_of_fuel, w')
     | (Err e, w') | (Panic e, w') => (Panic e, w')
     end).
Proof.
  intros Hkey Hfrom Hto form. unfold form, ProcessBlocks, with_form. cbn [bp_Key].
  rewrite IsAuthorized_spec, bool_decide_true by done.
  cbn [negb bp_Block bp_To bp_From processBlocks default].
  unfold respond, mbind, mtry. split.
  - intros Hmax Hfuel. unfold mret at 1. cbn [id].
    rewrite (process_heights_spec fuel from to) by done.
    pose proof (run_heights_never_errs (seqZ from (to - from + 1)) w) as Hno.
    destruct (run_heights _ w) as [[u | e | e] w']; [done | by destruct (Hno e) | done].
  - intros -> Hle. unfold mret at 1. cbn [id]. rewrite process_heights_forever by lia. unfold mbind.
    pose proof (run_heights_never_errs (wrapping fuel from) w) as Hno.
    destruct (run_heights _ w) as [[u | e | e] w']; [done | by destruct (Hno e) | done].
Qed.
End Facts.

(** ** Worked example *)

Import Demo.

Module ApiExamples.
#[export] Instance demo_healthy : Healthy.
Proof. done. Defined.
#[export] Instance demo_txsync : TxSync := block_sync chain 4 3 demo_schedule.
#[export] Instance demo_trie_node : TrieNode := {|
  node_block_count _ := Ok 1;
  node_claims_for_name _ _ := ({| cfn_Claims := []; cfn_LastTakeOverHeight := 0; cfn_NormalizedName := "";
    cfn_SupportsWithoutClaim := [] |}, None);
|}.

Definition range_form (from to : Z) (key : string) : res block_params :=
  Ok {| bp_Block := None; bp_From := Some from; bp_To := Some to; bp_Key := key |}.

(** The first block of the demonstration is stored on demand. *)
Example demo_request :
  let (r, w) := ProcessBlocks ["secret"] 1 (range_form 1 1 "secret") demo_world in
  (r, map block_Hash (rows (t_blocks (db w)))) = (Ok (data_response "OK"), ["g"; "b1"]).
Proof. vm_compute. reflexivity. Qed.

#[export] Instance demo_sums : SqlSums := {|
  sum_differences _ := f64_zero; sum_amounts l := default f64_zero (last l); changed_rows _ _ := 1;
|}.
#[export] Instance demo_collation : Collation := {| same_name := String.eqb; order_by_amount l := l |}.

Lemma unauthorized_is_inert_witness :
  ProcessBlocks ["secret"] 1 (range_form 1 1 "guess") demo_world = (Ok not_authorized, demo_world) /\
  SyncTransactionValue_action ["secret"] (Ok "guess") demo_world = (Ok not_authorized, demo_world) /\
  (promBasicAuthWrapper "" "" (Some ("", ""))).2 = false.
Proof.
  destruct (unauthorized_is_inert ["secret"] "guess" demo_world) as (Hp & _ & _ & Ht & _ & Hm).
  - intros Hin. apply list_elem_of_singleton in Hin. discriminate Hin.
  - split; [by apply Hp | split; [exact Ht |]]. reflexivity.
Defined.

Lemma ProcessBlocks_spec_witness :
  (ProcessBlocks ["secret"] 1 (range_form 1 1 "secret") demo_world).1 = Ok (data_response "OK") /\
  (ProcessBlocks ["secret"] 1 (range_form 1 (2 ^ 64 - 1) "secret") demo_world).1 =
    Panic out_of_fuel.
Proof.
  split.
  - destruct (ProcessBlocks_spec ["secret"] 1 1 1 "secret" demo_world) as [E _]; [by left | lia.. |].
    unfold range_form. rewrite E by lia. vm_compute. reflexivity.
  - destruct (ProcessBlocks_spec ["secret"] 1 1 (2 ^ 64 - 1) "secret" demo_world) as [_ E];
      [by left | lia.. |]. unfold range_form. rewrite E by lia. vm_compute. reflexivity.
Defined.
End ApiExamples.
