(* ===== verification/Notifications.v ===== *)
(** * Notifications ([notifications/*.go], [sockety/sockety.go], the subscriptions of
      [config/config.go])

    Subscribers by event type, the values of an event, and the delivery: a bounded queue into
    which an event is put or dropped without waiting, and a fixed number of workers that take
    an event, look up who is to hear of it and post to each.  [reach] is the delivery as a
    step relation: what the program offers, what the workers do and changes of the
    configuration happen in any order.  Both packages use the same queue; they differ in their
    capacities and in whom an event goes to.  HTTP, the socket client and the metrics are left
    out: a post is the event [post] records. *)
From stdpp Require Import pretty.
From S2P Require Import Prelude Bytes Lbrycrd Rows Store Datastore StoreFacts.

(** ** [url.Values] *)

Notation Values := (gmap string (list string)).
Definition Add (key value : string) (values : Values) : Values :=
  <[key := default [] (values !! key) ++ [value]]> values.
Definition Set_ (key value : string) (values : Values) : Values := <[key := [value]]> values.

(** ** Subscriptions *)

Record subscriber := mkSubscriber { sub_URL : string; sub_Type : string; sub_Params : Values }.
#[export] Instance subscriber_eq_dec : EqDecision subscriber.
Proof. solve_decision. Defined.

(** A nil map reads as an empty one. *)
Definition subscriptions_map : Type := gmap string (list subscriber).
Definition subscribers_of (subscriptions : subscriptions_map) (subType : string) : list subscriber :=
  default [] (subscriptions !! subType).

(** What a configuration file holds. *)
Inductive setting :=
| SString (s : string)
| SList (l : list setting)
| SMap (m : list (string * setting))
| SOther.

Definition string_params (params : list (string * setting)) : Values :=
  foldl (fun urlParams p =>
    match p.2 with SString value => Set_ p.1 value urlParams | _ => urlParams end) ∅ params.

Definition AddSubscriber (address subType : string) (params : list (string * setting))
    (subscriptions : subscriptions_map) : subscriptions_map :=
  <[subType := subscribers_of subscriptions subType ++
      [mkSubscriber address subType (string_params params)]]> subscriptions.

Definition ClearSubscribers : subscriptions_map := ∅.

Definition setting_at (key : string) (m : list (string * setting)) : option setting :=
  option_map snd (List.find (fun p => bool_decide (p.1 = key)) m).
Definition without (key : string) (m : list (string * setting)) : list (string * setting) :=
  List.filter (fun p => negb (bool_decide (p.1 = key))) m.

(** The subscribers of one type: those before an error stay. *)
Fixpoint apply_type (subType : string) (typeSubs : list setting) (subscriptions : subscriptions_map)
    : option error * subscriptions_map :=
  match typeSubs with
  | [] => (None, subscriptions)
  | SMap params :: typeSubs =>
      match setting_at "url" params with
      | Some (SString url) =>
          apply_type subType typeSubs (AddSubscriber url subType (without "url" params) subscriptions)
      | _ => (Some (ErrMsg "url is required"), subscriptions)
      end
  | _ :: _ => (Some (ErrMsg "could not find params map for the subscription type instance"), subscriptions)
  end.

(** The types in the order in which Go ranges over the map. *)
Fixpoint applySubscribers (subs : list (string * setting)) (subscriptions : subscriptions_map)
    : option error * subscriptions_map :=
  match subs with
  | [] => (None, subscriptions)
  | (subType, SList typeSubs) :: subs =>
      let (err, subscriptions) := apply_type subType typeSubs subscriptions in
      match err with Some e => (Some e, subscriptions) | None => applySubscribers subs subscriptions end
  | _ :: _ => (Some (ErrMsg "could not find sub type array under subscription"), subscriptions)
  end.

(** ** Events ([events.go]) *)

Definition payment : string := "payment".
Definition newClaim : string := "new_claim".

Record notificationJob := mkJob { job_Type : string; job_Values : Values }.
#[export] Instance notificationJob_eq_dec : EqDecision notificationJob.
Proof. solve_decision. Defined.

(** github.com/spf13/cast on floats, and the tags lbry.go names. *)
Class EventText := {
  float_text : float64 -> string;
  ProtectedContentTag : string;
  UnlistedContentTag : string;
}.

Definition PaymentEvent `{EventText} (lbc : float64) (address txid : string) (vout : Z) : notificationJob :=
  mkJob payment (Add "address" address (Add "vout" (pretty vout) (Add "tx_id" txid
    (Add "lbc" (float_text lbc) ∅)))).

(** [strings.Contains] *)
Fixpoint Contains (s substr : string) : bool :=
  String.prefix substr s || match s with String _ s => Contains s substr | EmptyString => false end.

(** [int(u)] of a 64-bit number. *)
Definition int_of_u64 (u : Z) : Z := if u <? 2 ^ 63 then u else u - 2 ^ 64.
Definition FormatBool (b : bool) : string := if b then "true" else "false".

Definition add_some (key : string) (value : option string) (values : Values) : Values :=
  match value with Some v => Add key v values | None => values end.

(** The values up to the tags, for a claim with the title [title]. *)
Definition claim_values (claim : Claim) (title : string) (tx : Transaction) : Values :=
  let values := Add "name" (claim_Name claim) (Add "claim_id" (claim_ClaimID claim) ∅) in
  let values := add_some "type" (claim_Type claim) values in
  let values := Add "title" title values in
  let values := add_some "description" (claim_Description claim) values in
  let values := add_some "thumbnail_url" (claim_ThumbnailURL claim) values in
  let values := add_some "release_time"
                  (option_map (fun t => pretty (int_of_u64 t)) (claim_ReleaseTime claim)) values in
  let values := add_some "sd_hash" (claim_SDHash claim) values in
  let values := Add "tx_id" (txn_Hash tx) values in
  let values := add_some "source" (claim_SourceHash claim) values in
  add_some "channel_claim_id" (claim_PublisherID claim) values.

Section Events.
Context `{Faults, EventText}.

Definition has_tag (tag : string) (tags : list string) : bool := existsb (fun t => Contains t tag) tags.

(** The signing channel's name and picture; a failed lookup is logged. *)
Definition channel_values (claim : Claim) (values : Values) : M World Values :=
  match claim_PublisherID claim with
  | Some publisher =>
      if claim_ClaimType claim =? 2 then mret values
      else
        let* signingChannel := get_or_nil (oneG (fun c => bool_decide (claim_ClaimID c = publisher))) in
        mret (match signingChannel with
              | Some ch => add_some "channel_thumbnail_url" (claim_ThumbnailURL ch)
                             (Add "channel_name" (claim_Name ch) values)
              | None => values
              end)
  | None => mret values
  end.

(** The event, if there is to be one; [tags] is [claimData.Claim.GetTags()]. *)
Definition ClaimEvent (claim : Claim) (tx : Transaction) (tags : list string)
    : M World (option notificationJob) :=
  match claim_Title claim with
  | None | Some "" => mret None
  | Some title =>
      let values := Add "is_protected" (FormatBool (has_tag ProtectedContentTag tags))
                      (claim_values claim title tx) in
      let* values := channel_values claim values in
      if has_tag UnlistedContentTag tags then mret None
      else mret (Some (mkJob newClaim values))
  end.
End Events.

(** ** Delivery *)

(** A worker at work: its job, the posts it looked up, and how many it has made. *)
Record slot (J P : Type) := mkSlot { slot_job : J; slot_posts : list P; slot_done : nat }.
Arguments mkSlot {J P}. Arguments slot_job {J P}. Arguments slot_posts {J P}. Arguments slot_done {J P}.

(** [sent], [finished] and [dropped] record what happened. *)
Record pool (C J P : Type) := mkPool {
  config : C;
  queue : list J;
  busy : list (slot J P);
  finished : list (J * list P);
  dropped : list J;
  sent : list P;
}.
Arguments mkPool {C J P}. Arguments config {C J P}. Arguments queue {C J P}. Arguments busy {C J P}.
Arguments finished {C J P}. Arguments dropped {C J P}. Arguments sent {C J P}.
#[export] Instance eta_pool {C J P} : Eta (pool C J P) := fun p =>
  mkPool (config p) (queue p) (busy p) (finished p) (dropped p) (sent p).

Section Delivery.
Context {C J P : Type} (capacity workers : nat) (plan : C -> J -> list P).
Notation pool := (pool C J P).

Definition empty_pool (c : C) : pool := mkPool c [] [] [] [] [].

(** [select { case queue <- job: default: }] *)
Definition offer (j : J) (p : pool) : pool :=
  if (length (queue p) <? capacity)%nat then p <| queue := queue p ++ [j] |>
  else p <| dropped := dropped p ++ [j] |>.

(** An idle worker receives a job and copies the list of those to tell. *)
Definition take_job (p : pool) : option pool :=
  match queue p with
  | j :: q =>
      if (length (busy p) <? workers)%nat
      then Some (p <| queue := q |> <| busy := busy p ++ [mkSlot j (plan (config p) j) 0] |>)
      else None
  | [] => None
  end.

(** The [i]-th busy worker makes its next post, or is done with its job. *)
Definition work (i : nat) (p : pool) : option pool :=
  match busy p !! i with
  | Some s =>
      match slot_posts s !! slot_done s with
      | Some x => Some (p <| busy := <[i := mkSlot (slot_job s) (slot_posts s) (S (slot_done s))]> (busy p) |>
                          <| sent := sent p ++ [x] |>)
      | None => Some (p <| busy := delete i (busy p) |>
                        <| finished := finished p ++ [(slot_job s, slot_posts s)] |>)
      end
  | None => None
  end.

(** The pools after the offers [js], in any interleaving. *)
Inductive reach : list J -> pool -> Prop :=
| reach_start c : reach [] (empty_pool c)
| reach_configure js p c : reach js p -> reach js (p <| config := c |>)
| reach_offer js p j : reach js p -> reach (js ++ [j]) (offer j p)
| reach_take js p p' : reach js p -> take_job p = Some p' -> reach js p'
| reach_work js p p' i : reach js p -> work i p = Some p' -> reach js p'.
End Delivery.

(** [notifications]: a post goes to a subscriber, with the values of the event and, over them,
    the first value of each of the subscriber's parameters. *)
Record post := mkPost { post_URL : string; post_Values : Values }.
Definition with_params (s : subscriber) (values : Values) : Values :=
  map_imap (fun _ v => Some (take 1 v)) (sub_Params s) ∪ values.
Definition posts_of (subscriptions : subscriptions_map) (job : notificationJob) : list post :=
  map (fun s => mkPost (sub_URL s) (with_params s (job_Values job)))
    (subscribers_of subscriptions (job_Type job)).
Definition notification_capacity : nat := 1000.
Definition notification_workers : nat := 20.
Definition Notify := @offer subscriptions_map notificationJob post notification_capacity.

(** [sockety]: nothing without a token and a URL, else the one message itself. *)
Section Sockety.
Context {Args : Type}.
Record sockety_config := { sock_Token : string; sock_URL : string }.
Definition sockety_capacity : nat := 1000.
Definition sockety_workers : nat := 4.
Definition SendNotification (args : Args) (p : pool sockety_config Args Args)
    : pool sockety_config Args Args :=
  if bool_decide (sock_Token (config p) = "") || bool_decide (sock_URL (config p) = "") then p
  else offer sockety_capacity args p.
Definition sockety_posts (_ : sockety_config) (args : Args) : list Args := [args].
End Sockety.

(** ** Properties *)

Section Facts.
Context {C J P : Type} (capacity workers : nat) (plan : C -> J -> list P).
Notation reach := (reach capacity workers plan).
Notation pool := (pool C J P).

(** What the posts of a busy worker amount to. *)
Definition posted (s : slot J P) : list P := take (slot_done s) (slot_posts s).

Record accounted (js : list J) (p : pool) : Prop := {
  acc_queue : (length (queue p) <= capacity)%nat;
  acc_busy : (length (busy p) <= workers)%nat;
  acc_jobs : Permutation js
    (dropped p ++ queue p ++ map slot_job (busy p) ++ map fst (finished p));
  acc_sent : Permutation (sent p) (flat_map posted (busy p) ++ flat_map snd (finished p));
  acc_plan : forall j posts, (j, posts) ∈ map (fun s => (slot_job s, slot_posts s)) (busy p) ++ finished p ->
    exists c, posts = plan c j;
}.

(** The [i]-th busy worker, taken out of the list. *)
Lemma busy_split (l : list (slot J P)) i s :
  l !! i = Some s -> exists pre post, l = pre ++ s :: post /\
    (forall s', <[i := s']> l = pre ++ s' :: post) /\ delete i l = pre ++ post.
Proof.
  intros Hi. exists (take i l), (drop (S i) l). split; [by rewrite take_drop_middle |].
  apply lookup_lt_Some in Hi as Hl. split; [| by rewrite delete_take_drop].
  intros s'. by rewrite insert_take_drop.
Qed.

Lemma accounted_work js p p' i : accounted js p -> work i p = Some p' -> accounted js p'.
Proof.
  intros [Hq Hb Hj Hs Hp] Hw. unfold work in Hw. destruct (busy p !! i) as [s |] eqn:Ei; [| done].
  destruct (busy_split _ _ _ Ei) as (pre & suf & El & Hins & Hdel).
  destruct (slot_posts s !! slot_done s) as [x |] eqn:Ex; injection Hw as <-;
    rewrite El in Hb, Hj, Hs, Hp.
  - split; cbn -[take]; rewrite ?Hins; [done | | | |].
    + rewrite length_app in *. cbn in *. lia.
    + rewrite Hj, !map_app. done.
    + rewrite Hs, !flat_map_app. cbn [flat_map]. unfold posted at 5. cbn [slot_done slot_posts].
      rewrite (take_S_r _ _ x) by done. fold (posted s). solve_Permutation.
    + intros j posts Hin. apply Hp. rewrite map_app in *. cbn in *. set_solver.
  - split; cbn -[take]; rewrite ?Hdel; [done | | | |].
    + rewrite length_app in *. cbn in *. lia.
    + rewrite Hj, !map_app. cbn. solve_Permutation.
    + rewrite Hs, !flat_map_app. cbn. apply lookup_ge_None in Ex. unfold posted at 2.
      rewrite take_ge by done. rewrite app_nil_r. solve_Permutation.
    + intros j posts Hin. apply Hp. rewrite map_app in *. cbn in *. set_solver.
Qed.

Lemma accounted_take js p p' : accounted js p -> take_job workers plan p = Some p' -> accounted js p'.
Proof.
  intros [Hq Hb Hj Hs Hp] Ht. unfold take_job in Ht. destruct (queue p) as [| j q] eqn:Eq; [done |].
  destruct (Nat.ltb_spec (length (busy p)) workers) as [Hlt |]; [injection Ht as <- | done].
  split; cbn -[take].
  - cbn in Hq. lia.
  - rewrite length_app. cbn. lia.
  - rewrite Hj, map_app. cbn. solve_Permutation.
  - rewrite Hs, flat_map_app. cbn. by rewrite app_nil_r.
  - intros j' posts. rewrite map_app. cbn. rewrite !elem_of_app, list_elem_of_singleton.
    intros [[Hin | [= -> ->]] | Hin]; [| by eexists |]; apply Hp; set_solver.
Qed.

Lemma accounted_offer js p j : accounted js p -> accounted (js ++ [j]) (offer capacity j p).
Proof.
  intros [Hq Hb Hj Hs Hp]. unfold offer.
  destruct (Nat.ltb_spec (length (queue p)) capacity) as [Hlt |]; split; cbn; try done.
  - rewrite length_app. cbn. lia.
  - rewrite Hj. solve_Permutation.
  - rewrite Hj. solve_Permutation.
Qed.

Lemma reach_accounted js p : reach js p -> accounted js p.
Proof.
  induction 1 as [c | js p c _ IH | js p j _ IH | js p p' _ IH Ht | js p p' i _ IH Hw].
  - split; cbn; [lia | lia | done | done | by intros j posts ?%elem_of_nil].
  - by destruct IH.
  - by apply accounted_offer.
  - by eapply accounted_take.
  - by eapply accounted_work.
Qed.

(** ** The workers can always finish *)

(** A run of the workers alone. *)
Definition runs (p p' : pool) : Prop := config p' = config p /\ forall js, reach js p -> reach js p'.
Lemma runs_refl p : runs p p.
Proof. done. Qed.
Lemma runs_trans p1 p2 p3 : runs p1 p2 -> runs p2 p3 -> runs p1 p3.
Proof. intros [E1 H1] [E2 H2]. split; [congruence | auto]. Qed.

Lemma finish_done p s l :
  busy p = s :: l -> slot_posts s !! slot_done s = None ->
  exists p', runs p p' /\ busy p' = l /\ queue p' = queue p /\ dropped p' = dropped p /\
    finished p' = finished p ++ [(slot_job s, slot_posts s)].
Proof.
  intros Hb Ex. exists (p <| busy := l |> <| finished := finished p ++ [(slot_job s, slot_posts s)] |>).
  split; [split; [done |] | done]. intros js Hjs.
  eapply (reach_work _ _ _ _ p _ 0); [exact Hjs |]. unfold work. rewrite Hb. cbn. by rewrite Ex.
Qed.

Lemma finish_first n : forall p s l,
  busy p = s :: l -> (length (slot_posts s) <= slot_done s + n)%nat ->
  exists p', runs p p' /\ busy p' = l /\ queue p' = queue p /\ dropped p' = dropped p /\
    finished p' = finished p ++ [(slot_job s, slot_posts s)].
Proof.
  induction n as [| n IH]; intros p s l Hb Hn;
    destruct (slot_posts s !! slot_done s) as [x |] eqn:Ex.
  - apply lookup_lt_Some in Ex. lia.
  - by apply finish_done.
  - set (s' := mkSlot (slot_job s) (slot_posts s) (S (slot_done s))).
    set (p1 := p <| busy := s' :: l |> <| sent := sent p ++ [x] |>).
    destruct (IH p1 s' l) as (p' & Hr & Hp'); [done | cbn; lia |].
    exists p'. split; [| done]. eapply runs_trans; [| exact Hr]. split; [done |].
    intros js Hjs. eapply (reach_work _ _ _ _ p _ 0); [exact Hjs |]. unfold work. rewrite Hb. cbn. by rewrite Ex.
  - by apply finish_done.
Qed.

Lemma finish_busy l : forall p, busy p = l ->
  exists p', runs p p' /\ busy p' = [] /\ queue p' = queue p /\ dropped p' = dropped p /\
    finished p' = finished p ++ map (fun s => (slot_job s, slot_posts s)) l.
Proof.
  induction l as [| s l IH]; intros p Hb.
  { exists p. rewrite app_nil_r. by repeat split. }
  destruct (finish_first (length (slot_posts s)) p s l) as (p1 & Hr1 & Hb1 & Hq1 & Hd1 & Hf1);
    [done | lia |].
  destruct (IH p1 Hb1) as (p2 & Hr2 & Hb2 & Hq2 & Hd2 & Hf2).
  exists p2. split; [by eapply runs_trans |]. rewrite Hq2, Hd2, Hf2, Hf1, <- app_assoc. done.
Qed.

Lemma finish_queue q : (0 < workers)%nat -> forall p, busy p = [] -> queue p = q ->
  exists p', runs p p' /\ busy p' = [] /\ queue p' = [] /\ dropped p' = dropped p /\
    finished p' = finished p ++ map (fun j => (j, plan (config p) j)) q.
Proof.
  intros Hw. induction q as [| j q IH]; intros p Hb Hq.
  { exists p. rewrite app_nil_r. by repeat split. }
  set (p1 := p <| queue := q |> <| busy := [mkSlot j (plan (config p) j) 0] |>).
  assert (Hr1 : runs p p1).
  { split; [done |]. intros js Hjs. eapply reach_take; [exact Hjs |]. unfold take_job.
    rewrite Hq, Hb. cbn. destruct workers; [lia | done]. }
  destruct (finish_busy _ p1 eq_refl) as (p2 & Hr2 & Hb2 & Hq2 & Hd2 & Hf2).
  destruct (IH p2 Hb2 Hq2) as (p3 & Hr3 & Hb3 & Hq3 & Hd3 & Hf3).
  exists p3. split; [eapply runs_trans; [exact Hr1 |]; by eapply runs_trans |].
  rewrite Hd3, Hf3, Hd2, Hf2, <- app_assoc. destruct Hr2 as [-> _]. done.
Qed.

(** C35: the delivery of events by a bounded queue and a pool of workers, in every interleaving
    of events, workers and changes of the configuration.  The queue and the pool keep their
    bounds.  Every event offered is accounted for exactly once: dropped, waiting, being
    delivered or delivered; and the posts made are exactly those of the delivered events and
    the first posts of the ones being delivered, each to those the configuration named when
    the event was taken up.  From every such state the workers alone can deliver everything
    that waits, to those the configuration names then. *)
Theorem delivery_accounted js p :
  (0 < workers)%nat -> reach js p ->
  accounted js p /\
  exists p', reach js p' /\ queue p' = [] /\ busy p' = [] /\ dropped p' = dropped p /\
    finished p' = finished p ++ map (fun s => (slot_job s, slot_posts s)) (busy p) ++
                  map (fun j => (j, plan (config p) j)) (queue p) /\
    Permutation (sent p') (flat_map snd (finished p')).
Proof.
  intros Hw Hr. split; [by apply reach_accounted |].
  destruct (finish_busy _ p eq_refl) as (p1 & Hr1 & Hb1 & Hq1 & Hd1 & Hf1).
  destruct (finish_queue (queue p1) Hw p1 Hb1 eq_refl) as (p2 & Hr2 & Hb2 & Hq2 & Hd2 & Hf2).
  assert (Hreach : reach js p2) by (by apply Hr2, Hr1).
  exists p2. split; [done | split; [done | split; [done | split; [congruence | split]]]].
  - rewrite Hf2, Hf1, Hq1, <- app_assoc. by destruct Hr1 as [-> _].
  - destruct (reach_accounted _ _ Hreach) as [_ _ _ Hs _]. by rewrite Hb2 in Hs.
Qed.
End Facts.

(** ** The event of a claim *)

Lemma Add_other k v m k' : k <> k' -> Add k v m !! k' = m !! k'.
Proof. intros Hk. unfold Add. by rewrite lookup_insert_ne. Qed.
Lemma Add_new k v m : m !! k = None -> Add k v m !! k = Some [v].
Proof. intros Hk. unfold Add. by rewrite lookup_insert_eq, Hk. Qed.
Lemma add_some_other k v m k' : k <> k' -> add_some k v m !! k' = m !! k'.
Proof. intros Hk. destruct v; [by apply Add_other | done]. Qed.
Create Rewrite HintDb values.
#[export] Hint Rewrite Add_other add_some_other using done : values.

Section EventFacts.
Context `{Faults, EventText}.

Lemma channel_values_run claim values w :
  exists values' w', channel_values claim values w = (Ok values', w') /\ db w' = db w /\
    forall k, k <> "channel_name" -> k <> "channel_thumbnail_url" -> values' !! k = values !! k.
Proof.
  unfold channel_values. destruct (claim_PublisherID claim) as [publisher |]; [| by eexists _, _].
  destruct (_ =? _); [by eexists _, _ |]. unfold get_or_nil, mbind, mtry.
  pose proof (steps_oneG eq (fun c => bool_decide (claim_ClaimID c = publisher)) w) as Hs.
  unfold oneG, query, stmt in *. destruct (db_fault (tick w)); cbn in *.
  { eexists _, _. by split. }
  destruct (List.find _ _) as [ch |]; cbn; eexists _, _; (split; [reflexivity | split; [done |]]); [| done].
  intros k H1 H2. by autorewrite with values.
Qed.

(** A stored claim is announced exactly when it has a title and none of its tags says that
    it is unlisted; a failed lookup of its channel does not prevent that.  The announcement
    carries the claim's id, name and title, its transaction, and whether it is protected. *)
Theorem ClaimEvent_spec claim tx tags w :
  exists event w', ClaimEvent claim tx tags w = (Ok event, w') /\ db w' = db w /\
    (is_Some event <-> (exists title, claim_Title claim = Some title /\ title <> "") /\
                       forall t, t ∈ tags -> Contains t UnlistedContentTag = false) /\
    forall j, event = Some j ->
      job_Type j = newClaim /\ job_Values j !! "claim_id" = Some [claim_ClaimID claim] /\
      job_Values j !! "name" = Some [claim_Name claim] /\
      option_map (fun t => [t]) (claim_Title claim) = job_Values j !! "title" /\
      job_Values j !! "tx_id" = Some [txn_Hash tx] /\
      job_Values j !! "is_protected" =
        Some [FormatBool (existsb (fun t => Contains t ProtectedContentTag) tags)].
Proof.
  unfold ClaimEvent. destruct (claim_Title claim) as [title |] eqn:Et.
  2: { eexists _, _. split; [reflexivity | split; [done | split; [| done]]].
       split; [by intros [? ?] | intros [(t & ? & _) _]; done]. }
  destruct (decide (title = "")) as [-> | Hne].
  { eexists _, _. split; [reflexivity | split; [done | split; [| done]]].
    split; [by intros [? ?] | intros [(t & [= <-] & Hno) _]; done]. }
  set (values := Add "is_protected" _ _).
  destruct (channel_values_run claim values w) as (values' & w' & E & Hdb & Hkeep).
  assert (Hlisted : has_tag UnlistedContentTag tags = false <->
    forall t, t ∈ tags -> Contains t UnlistedContentTag = false).
  { unfold has_tag. rewrite <- not_true_iff_false, existsb_exists. setoid_rewrite list_elem_of_In. split.
    - intros Hno t Ht. apply not_true_iff_false. eauto.
    - intros Hall (t & Ht & Htag). rewrite Hall in Htag; done. }
  exists (if has_tag UnlistedContentTag tags then None else Some (mkJob newClaim values')), w'.
  split; [| split; [done | split]].
  - destruct title; [done |]. unfold mbind. rewrite E. by destruct (has_tag UnlistedContentTag tags).
  - rewrite <- Hlisted. destruct (has_tag UnlistedContentTag tags).
    + split; [by intros [? ?] | by intros [_ ?]].
    + split; [| by eexists]. intros _. split; [by exists title | done].
  - destruct (has_tag UnlistedContentTag tags); [done |]. intros j [= <-]. cbn [job_Type job_Values].
    rewrite !Hkeep by done. unfold values, claim_values. split; [done |].
    autorewrite with values. repeat split; rewrite ?Add_new; autorewrite with values; done.
Qed.
End EventFacts.

(** ** Worked example *)

Module NotificationExamples.

(** Two subscribers of new claims, one with a parameter of its own; one of payments. *)
Definition demo_settings : list (string * setting) :=
  [("new_claim", SList [SMap [("url", SString "http://a"); ("name", SString "mine"); ("n", SOther)];
                        SMap [("url", SString "http://b")]]);
   ("payment", SList [SMap [("url", SString "http://c")]])].
Definition demo_subscriptions : subscriptions_map := (applySubscribers demo_settings ClearSubscribers).2.

Example demo_urls :
  map (fun t => map sub_URL (subscribers_of demo_subscriptions t)) ["new_claim"; "payment"; "other"] =
  [["http://a"; "http://b"]; ["http://c"]; []].
Proof. vm_compute. reflexivity. Qed.
(** A missing URL stops the configuration; the subscriber before it stays. *)
Example demo_partial :
  let (err, subs) := applySubscribers [("t", SList [SMap [("url", SString "u")]; SMap []])] ∅ in
  (err, map sub_URL (subscribers_of subs "t")) = (Some (ErrMsg "url is required"), ["u"]).
Proof. vm_compute. reflexivity. Qed.

Definition demo_job : notificationJob :=
  mkJob newClaim (Add "name" "n" (Add "claim_id" "id" ∅)).
Example demo_posts :
  map (fun p => (post_URL p, map_to_list (post_Values p))) (posts_of demo_subscriptions demo_job) =
  [("http://a", [("claim_id", ["id"]); ("name", ["mine"])]);
   ("http://b", [("claim_id", ["id"]); ("name", ["n"])])].
Proof. vm_compute. reflexivity. Qed.

(** One event is being delivered, its first post made; another one waits. *)
Definition demo_pool0 : pool subscriptions_map notificationJob post :=
  Notify demo_job (Notify demo_job (empty_pool demo_subscriptions)).
Definition demo_taken : pool subscriptions_map notificationJob post :=
  default demo_pool0 (take_job notification_workers posts_of demo_pool0).
Definition demo_pool1 : pool subscriptions_map notificationJob post :=
  default demo_taken (work 0 demo_taken).

Lemma delivery_accounted_witness :
  accounted notification_capacity notification_workers posts_of [demo_job; demo_job] demo_pool1 /\
  (length (queue demo_pool1), length (busy demo_pool1), map post_URL (sent demo_pool1)) =
    (1%nat, 1%nat, ["http://a"]).
Proof.
  assert (Hr : reach notification_capacity notification_workers posts_of [demo_job; demo_job] demo_pool1).
  { apply (reach_work _ _ _ _ demo_taken _ 0); [| vm_compute; reflexivity].
    apply (reach_take _ _ _ _ demo_pool0); [| vm_compute; reflexivity].
    apply (reach_offer _ _ _ [demo_job]), (reach_offer _ _ _ []), reach_start. }
  split; [| vm_compute; reflexivity].
  destruct (delivery_accounted notification_capacity notification_workers posts_of
    [demo_job; demo_job] demo_pool1) as [Hacc _].
  - unfold notification_workers. lia.
  - exact Hr.
  - exact Hacc.
Defined.
End NotificationExamples.
