(* ===== verification/CertificateSync.v ===== *)
(** * Channel certificates ([daemon/jobs/certificatesync.go])

    Claims that name a channel are checked against its certificate, once: the job takes a batch
    of unprocessed ones, validates their signatures, with the first input of their last
    transaction or with their address, and marks them.  Decoding claims and validating
    signatures are library code.

    [CertificateSync_spec] says what a run does to the claim table. *)
From S2P Require Import Prelude Bytes Lbrycrd Rows Store Datastore StoreFacts Keyed.
From S2P Require Import Claims BlockSync ClaimTable DemoWorld.

(** lbry.go/schema/stake: the rest of what the job calls; the answer of
    [ValidateClaimSignature] comes as a pair. *)
Class Signatures := {
  GetOutpointHash : string -> Z -> res string;
  ValidateClaimSignature : StakeHelper -> StakeHelper -> string -> string -> string ->
    res (bool * option error);
}.

Definition certsProcessedPerIteration : nat := 1000.

Record claimToBeSynced := {
  cs_ID : Z;
  cs_SignedClaimHex : string;
  cs_SignedClaimAddress : string;
  cs_TransactionHashUpdate : string;
  cs_ChannelHex : string;
  cs_ChannelClaimID : string;
  cs_FirstInputTxHash : string;
  cs_FirstInputTxOPosition : Z;
}.

Section Certificates.
Context `{Faults, Stake, Signatures}.
Context (BlockChainName : string).

(** ** The selection *)

Definition names_channel (claim channel : Claim) : bool :=
  negb (claim_IsCertProcessed claim) &&
  bool_decide (claim_PublisherID claim = Some (claim_ClaimID channel)).

(** The rows of the join, every claim with the rows of its channel. *)
Definition joined (d : DB) : list (Claim * Claim) :=
  flat_map (fun claim =>
    map (fun channel => (claim, channel)) (List.filter (names_channel claim) (claim_rows d)))
    (claim_rows d).

(** A row as the struct it is scanned into: NULL is no string. *)
Definition bind_row (row : Claim * Claim) : res claimToBeSynced :=
  let (claim, channel) := row in
  match claim_TransactionHashUpdate claim with
  | None => Err (ErrMsg "converting NULL to string is unsupported")
  | Some txHash => Ok
      {| cs_ID := claim_ID claim; cs_SignedClaimHex := claim_ValueAsHex claim;
         cs_SignedClaimAddress := claim_ClaimAddress claim; cs_TransactionHashUpdate := txHash;
         cs_ChannelHex := claim_ValueAsHex channel; cs_ChannelClaimID := claim_ClaimID channel;
         cs_FirstInputTxHash := ""; cs_FirstInputTxOPosition := 0 |}
  end.
Fixpoint bind_rows (l : list (Claim * Claim)) : res (list claimToBeSynced) :=
  match l with
  | [] => Ok []
  | row :: l' => let? c := bind_row row in let? cs := bind_rows l' in Ok (c :: cs)
  end.

Definition getClaimsToBeSynced : M World (list claimToBeSynced) :=
  query (fun d => bind_rows (take certsProcessedPerIteration (joined d))).

Definition first_input (txHash : string) (i : Input) : bool :=
  bool_decide (in_TransactionHash i = txHash) && bool_decide (in_Vin i = Some 0).

Definition with_input (c : claimToBeSynced) (input : Input) : claimToBeSynced :=
  {| cs_ID := cs_ID c; cs_SignedClaimHex := cs_SignedClaimHex c;
     cs_SignedClaimAddress := cs_SignedClaimAddress c;
     cs_TransactionHashUpdate := cs_TransactionHashUpdate c; cs_ChannelHex := cs_ChannelHex c;
     cs_ChannelClaimID := cs_ChannelClaimID c;
     cs_FirstInputTxHash := default "" (in_PrevoutHash input);
     cs_FirstInputTxOPosition := default 0 (in_PrevoutN input) |}.

Definition populateFirstInputInfo (c : claimToBeSynced) : M World claimToBeSynced :=
  let* input := oneG (first_input (cs_TransactionHashUpdate c)) in mret (with_input c input).

(** ** One claim *)

(** [if err != nil { return false, err }] *)
Definition or_uncertified {A} (r : res A) (k : A -> res (bool * option error))
  : res (bool * option error) :=
  match r with Ok a => k a | Err e => Ok (false, Some e) | Panic e => Panic e end.

Definition certifyClaim (c : claimToBeSynced) : res (bool * option error) :=
  or_uncertified (DecodeClaimHex (cs_SignedClaimHex c) BlockChainName) (fun signedHelper =>
  or_uncertified (DecodeClaimHex (cs_ChannelHex c) BlockChainName) (fun certHelper =>
    let by_address := ValidateClaimSignature signedHelper certHelper
                        (cs_SignedClaimAddress c) (cs_ChannelClaimID c) BlockChainName in
    if bool_decide (cs_FirstInputTxHash c = "") then by_address
    else
      or_uncertified (GetOutpointHash (cs_FirstInputTxHash c) (u32 (cs_FirstInputTxOPosition c)))
        (fun firstInputHash =>
           let? (verified, err) := ValidateClaimSignature signedHelper certHelper
                                     firstInputHash (cs_ChannelClaimID c) BlockChainName in
           if (verified : bool) then Ok (verified, err) else by_address))).

Definition mark_processed (c : Claim) : Claim := c <| claim_IsCertProcessed := true |>.
Definition mark_valid (c : Claim) : Claim :=
  c <| claim_IsCertValid := true |> <| claim_IsCertProcessed := true |>.

(** Errors are logged. *)
Definition sync_certificate (c : claimToBeSynced) : M World unit :=
  let* populated := mtry (populateFirstInputInfo c) in
  match populated with
  | inr _ => mret tt
  | inl c =>
      let* (certified, _) := mlift (certifyClaim c) in
      let upd := if (certified : bool) then mark_valid else mark_processed in
      let* _ := mtry (update_colsG upd (claim_key (cs_ID c))) in mret tt
  end.

(** The argument and the result are [certificateSyncRunning]. *)
Definition CertificateSync (certificateSyncRunning : bool) : M World bool :=
  if certificateSyncRunning then mret certificateSyncRunning
  else
    let* claims := get_or_nil getClaimsToBeSynced in
    let* _ := mfor (default [] claims) sync_certificate in
    mret false.

(** ** What a run does *)

Section Spec.
Context `{!Healthy}.

(** What becomes of a selected claim in the database [d]: nothing without a first input, else
    the mark its signature earns. *)
Definition verdict (d : DB) (c : claimToBeSynced) : res (Claim -> Claim) :=
  match List.find (first_input (cs_TransactionHashUpdate c)) (rows (t_inputs d)) with
  | None => Ok (fun x => x)
  | Some input =>
      let? (certified, _) := certifyClaim (with_input c input) in
      Ok (if (certified : bool) then mark_valid else mark_processed)
  end.

(** The verdict of the first selected row with the claim's key, if there is one. *)
Definition mark_of (d : DB) (todo : list claimToBeSynced) (x : Claim) : Claim :=
  match List.find (fun c => cs_ID c =? claim_ID x) todo with
  | Some c => match verdict d c with Ok f => f x | _ => x end
  | None => x
  end.

Lemma verdict_ident d c f : verdict d c = Ok f -> forall x, same_ident x (f x).
Proof.
  unfold verdict. destruct (List.find _ _) as [i |]; [| by intros [= <-]].
  intros E x. apply rbind_Ok in E as ([b e] & _ & [= <-]). by destruct b.
Qed.

Lemma mark_of_ident d todo x : same_ident x (mark_of d todo x).
Proof.
  unfold mark_of. destruct (List.find _ _) as [c |]; [| done].
  destruct (verdict d c) eqn:E; [by eapply verdict_ident | done..].
Qed.

Lemma sync_certificate_run c old f w :
  claims_ok (db w) -> old ∈ claim_rows (db w) -> claim_ID old = cs_ID c ->
  verdict (db w) c = Ok f ->
  exists w', sync_certificate c w = (Ok tt, w') /\
    db w' = map_claims (fun x => if claim_ID x =? cs_ID c then f x else x) (db w).
Proof.
  intros Hok Hold Hid Hv. unfold verdict in Hv. unfold sync_certificate, mbind at 1, mtry.
  unfold populateFirstInputInfo, mbind at 1. rewrite oneG_healthy. cbn [get_table row_input].
  destruct (List.find _ _) as [input |]; cbn [mret].
  - apply rbind_Ok in Hv as ([certified e] & Hc & [= <-]).
    unfold mbind at 1, mlift. rewrite Hc. unfold mbind, mtry.
    erewrite (update_claim _ _ old); [| exact Hok | exact Hold | done | by destruct certified].
    eexists. split; [reflexivity |]. cbn. apply map_claims_ext. intros x _.
    by destruct certified.
  - injection Hv as <-. eexists. split; [reflexivity |]. cbn.
    symmetry. apply map_claims_id. intros x _. by destruct (_ =? _).
Qed.

(** Claim ids are distinct, so that a claim is joined with one channel at most. *)
Definition ids_distinct (d : DB) : Prop := NoDup (claim_ClaimID <$> claim_rows d).

Lemma channels_of d claim :
  ids_distinct d -> (length (List.filter (names_channel claim) (claim_rows d)) <= 1)%nat.
Proof.
  intros Hd. assert (Hf := fmap_filter_nodup claim_ClaimID (names_channel claim) _ Hd).
  assert (Hn : forall c, c ∈ List.filter (names_channel claim) (claim_rows d) ->
    claim_PublisherID claim = Some (claim_ClaimID c)).
  { intros c Hc%list_elem_of_In. apply filter_In in Hc as [_ Hc]. unfold names_channel in Hc.
    by apply andb_true_iff in Hc as [_ Hc%bool_decide_eq_true]. }
  destruct (List.filter _ _) as [| a [| b l]]; cbn; [lia.. |].
  rewrite !fmap_cons, NoDup_cons, elem_of_cons in Hf. destruct Hf as [Hne _]. destruct Hne. left.
  pose proof (Hn a ltac:(set_solver)). pose proof (Hn b ltac:(set_solver)). congruence.
Qed.

Lemma joined_in d row :
  row ∈ joined d -> row.1 ∈ claim_rows d /\ row.2 ∈ claim_rows d /\ names_channel row.1 row.2 = true.
Proof.
  unfold joined. rewrite list_elem_of_In, in_flat_map.
  intros (claim & Hc & (ch & <- & Hch)%in_map_iff). apply filter_In in Hch as [Hin Hn].
  by rewrite !list_elem_of_In.
Qed.

Lemma pairs_nodup (chans : Claim -> list Claim) l :
  (forall claim, (length (chans claim) <= 1)%nat) -> keys_ok l ->
  NoDup ((fun row => claim_ID row.1) <$>
    flat_map (fun claim => map (fun channel => (claim, channel)) (chans claim)) l).
Proof.
  unfold keys_ok. intros Hone. induction l as [| c l IH]; [intros _; apply NoDup_nil_2 |].
  rewrite fmap_cons, NoDup_cons. intros [Hc Hnd]. cbn [flat_map]. rewrite fmap_app.
  apply NoDup_app. specialize (Hone c).
  assert (Hfst : forall i, i ∈ (fun row => claim_ID row.1) <$> map (fun ch => (c, ch)) (chans c) ->
    i = claim_ID c).
  { intros i (row & -> & (ch & -> & _)%list_elem_of_fmap)%list_elem_of_fmap. done. }
  split; [| split; [| by apply IH]].
  - destruct (chans c) as [| a [| b l']]; cbn in *; [apply NoDup_nil_2 | by apply NoDup_singleton | lia].
  - intros i ->%Hfst (row & Hi & Hrow)%list_elem_of_fmap. destruct Hc.
    apply list_elem_of_In, in_flat_map in Hrow as (c' & Hc' & (ch & <- & _)%in_map_iff).
    cbn in Hi. change (claim_ID c) with (key c) in Hi. rewrite Hi.
    apply list_elem_of_fmap_2. by apply list_elem_of_In.
Qed.

Lemma joined_nodup d :
  keys_ok (claim_rows d) -> ids_distinct d -> NoDup ((fun row => claim_ID row.1) <$> joined d).
Proof. intros Hk Hd. apply pairs_nodup; [| done]. intros claim. by apply channels_of. Qed.

(** The rows as structs. *)
Lemma bind_rows_ok l :
  (forall row, row ∈ l -> claim_TransactionHashUpdate row.1 <> None) ->
  exists todo, bind_rows l = Ok todo /\ Forall2 (fun row c => bind_row row = Ok c) l todo.
Proof.
  induction l as [| row l IH]; intros Hl; [by exists [] |].
  destruct IH as (todo & E & Hf); [intros; apply Hl; by right |].
  assert (Hr := Hl row ltac:(by left)). destruct row as [claim channel]. cbn in Hr.
  destruct (claim_TransactionHashUpdate claim) as [h |] eqn:Eh; [| done].
  eexists (_ :: todo). cbn. rewrite Eh. cbn. rewrite E. split; [done |].
  constructor; [| done]. cbn. by rewrite Eh.
Qed.

Lemma bound_ids l todo :
  Forall2 (fun row c => bind_row row = Ok c) l todo ->
  cs_ID <$> todo = (fun row => claim_ID row.1) <$> l.
Proof.
  induction 1 as [| [claim channel] c l todo Hb _ IH]; [done |]. rewrite !fmap_cons, IH. f_equal.
  cbn in *. destruct (claim_TransactionHashUpdate claim); by simplify_eq.
Qed.

(** One more claim. *)
Lemma mark_of_snoc d pre c f x :
  verdict d c = Ok f -> cs_ID c ∉ cs_ID <$> pre ->
  mark_of d (pre ++ [c]) x =
    if claim_ID x =? cs_ID c then f (mark_of d pre x) else mark_of d pre x.
Proof.
  intros Hv Hc. unfold mark_of. destruct (Z.eqb_spec (claim_ID x) (cs_ID c)) as [Hx | Hx].
  - assert (List.find (fun c => cs_ID c =? claim_ID x) pre = None) as Hno.
    { destruct (List.find _ pre) as [c' |] eqn:E; [| done].
      apply find_some in E as [Hin He]. destruct Hc. apply list_elem_of_fmap. exists c'.
      rewrite list_elem_of_In. split; [lia | done]. }
    rewrite Hno, find_app, Hno. cbn. replace (cs_ID c =? claim_ID x) with true by lia.
    by rewrite Hv.
  - rewrite find_app. destruct (List.find _ pre); [done |]. cbn.
    by replace (cs_ID c =? claim_ID x) with false by lia.
Qed.

Lemma sync_certificates_run d post : forall pre w,
  claims_ok d -> NoDup (cs_ID <$> (pre ++ post)) -> db w = map_claims (mark_of d pre) d ->
  (forall c, c ∈ post -> cs_ID c ∈ claim_ID <$> claim_rows d) ->
  (forall c, c ∈ post -> exists f, verdict d c = Ok f) ->
  exists w', mfor post sync_certificate w = (Ok tt, w') /\
    db w' = map_claims (mark_of d (pre ++ post)) d.
Proof.
  induction post as [| c post IH]; intros pre w Hok Hnd Hw Hin Hv.
  { exists w. by rewrite app_nil_r. }
  destruct (Hv c ltac:(by left)) as [f Hf].
  destruct (proj1 (list_elem_of_fmap _ _ _) (Hin c ltac:(by left))) as (old & Hid & Hold).
  destruct (sync_certificate_run c (mark_of d pre old) f w) as (w1 & E1 & Hw1).
  - rewrite Hw. apply claims_ok_map; [apply mark_of_ident | done].
  - rewrite Hw. by apply list_elem_of_fmap_2.
  - by rewrite (proj1 (mark_of_ident d pre old)).
  - rewrite <- Hf, Hw. done.
  - assert (Hc : cs_ID c ∉ cs_ID <$> pre).
    { rewrite fmap_app, NoDup_app in Hnd. destruct Hnd as (_ & Hnd & _). intros Hc.
      apply (Hnd _ Hc). rewrite fmap_cons. by left. }
    destruct (IH (pre ++ [c]) w1) as (w2 & E2 & Hw2); [done | by rewrite <- app_assoc | | | |].
    + rewrite Hw1, Hw, map_claims_comp. apply map_claims_ext. intros x _.
      rewrite (mark_of_snoc d pre c f x Hf Hc), (proj1 (mark_of_ident d pre x)). done.
    + intros; apply Hin; by right.
    + intros; apply Hv; by right.
    + exists w2. split; [cbn; unfold mbind; by rewrite E1 |]. by rewrite Hw2, <- app_assoc.
Qed.

(** The database does not hold a claim the job cannot read. *)
Definition readable (d : DB) : Prop :=
  forall row, row ∈ take certsProcessedPerIteration (joined d) ->
    claim_TransactionHashUpdate row.1 <> None.
(** The library does not panic. *)
Record library_returns : Prop := {
  decode_returns : forall hex, no_panic (DecodeClaimHex hex BlockChainName);
  outpoint_returns : forall hash n, no_panic (GetOutpointHash hash n);
  validate_returns : forall signed cert what channel,
    exists b e, ValidateClaimSignature signed cert what channel BlockChainName = Ok (b, e);
}.

(** The claim [x] is among the thousand that a run takes up, with a stored channel, and the
    transaction of its last update has this first input. *)
Definition taken_up (d : DB) (x channel : Claim) (input : Input) : Prop :=
  (x, channel) ∈ take certsProcessedPerIteration (joined d) /\
  exists txHash, claim_TransactionHashUpdate x = Some txHash /\
    List.find (first_input txHash) (rows (t_inputs d)) = Some input.

(** Its signature holds for the certificate of the channel: for the output that the first input
    spends, or for the address of the claim.  An input that spends an output whose hash cannot
    be computed rules out both. *)
Definition signature_valid (x channel : Claim) (input : Input) : Prop :=
  exists signed cert,
    DecodeClaimHex (claim_ValueAsHex x) BlockChainName = Ok signed /\
    DecodeClaimHex (claim_ValueAsHex channel) BlockChainName = Ok cert /\
    let valid what := exists e, ValidateClaimSignature signed cert what (claim_ClaimID channel)
                                  BlockChainName = Ok (true, e) in
    if bool_decide (default "" (in_PrevoutHash input) = "") then valid (claim_ClaimAddress x)
    else exists hash, GetOutpointHash (default "" (in_PrevoutHash input))
                        (u32 (default 0 (in_PrevoutN input))) = Ok hash /\
         (valid hash \/ valid (claim_ClaimAddress x)).

Lemma certify_verdict (Hlib : library_returns) x channel c input :
  bind_row (x, channel) = Ok c ->
  exists b e, certifyClaim (with_input c input) = Ok (b, e) /\ (b = true <-> signature_valid x channel input).
Proof.
  intros Hb. cbn in Hb. destruct (claim_TransactionHashUpdate x) as [h |]; [| done].
  injection Hb as <-. unfold certifyClaim, signature_valid, or_uncertified. cbn.
  pose proof (decode_returns Hlib (claim_ValueAsHex x)) as Hd1.
  pose proof (decode_returns Hlib (claim_ValueAsHex channel)) as Hd2.
  destruct (DecodeClaimHex (claim_ValueAsHex x) _) as [signed | e | e]; [| | by destruct (Hd1 e)].
  2: { exists false, (Some e). split; [done |]. split; [done | by intros (? & ? & [=] & _)]. }
  destruct (DecodeClaimHex (claim_ValueAsHex channel) _) as [cert | e | e]; [| | by destruct (Hd2 e)].
  2: { exists false, (Some e). split; [done |]. split; [done | by intros (? & ? & _ & [=] & _)]. }
  destruct (validate_returns Hlib signed cert (claim_ClaimAddress x) (claim_ClaimID channel)) as (b & e & Hv).
  case_bool_decide as Hno.
  { rewrite Hv. exists b, e. split; [done |]. split; [intros ->; by eexists _, _; eauto |].
    intros (? & ? & [= <-] & [= <-] & e1 & He). by rewrite Hv in He; injection He. }
  pose proof (outpoint_returns Hlib (default "" (in_PrevoutHash input)) (u32 (default 0 (in_PrevoutN input)))) as Ho.
  destruct (GetOutpointHash _ _) as [hash | e' | e']; [| | by destruct (Ho e')].
  2: { exists false, (Some e'). split; [done |]. split; [done | by intros (? & ? & _ & _ & ? & [=] & _)]. }
  destruct (validate_returns Hlib signed cert hash (claim_ClaimID channel)) as (b1 & e1 & Hv1).
  rewrite Hv1, Hv. cbn. destruct b1; eexists _, _; (split; [done |]).
  - split; [| done]. intros _. eexists _, _. split; [done | split; [done |]]. exists hash. eauto.
  - split.
    + intros ->. eexists _, _. split; [done | split; [done |]]. exists hash. eauto.
    + intros (? & ? & [= <-] & [= <-] & ? & [= <-] & [[e2 He] | [e2 He]]).
      * by rewrite Hv1 in He.
      * by rewrite Hv in He; injection He.
Qed.

(** A claim with nothing changed but its two marks. *)
Definition only_marks (x x' : Claim) : Prop :=
  exists v p, x' = x <| claim_IsCertValid := v |> <| claim_IsCertProcessed := p |>.

(** The selected rows and the structs they are scanned into. *)
Section Selected.
Context (d : DB) (todo : list claimToBeSynced).
Notation rows_taken := (take certsProcessedPerIteration (joined d)).
Context (Hf : Forall2 (fun row c => bind_row row = Ok c) rows_taken todo).
Context (Hk : keys_ok (claim_rows d)) (Hd : ids_distinct d).

Lemma todo_nodup : NoDup (cs_ID <$> todo).
Proof.
  rewrite (bound_ids _ _ Hf), fmap_take. eapply sublist_NoDup; [| apply sublist_take].
  by apply joined_nodup.
Qed.
Lemma bind_row_id x channel c : bind_row (x, channel) = Ok c -> cs_ID c = claim_ID x.
Proof. cbn. destruct (claim_TransactionHashUpdate x); [by intros [= <-] | done]. Qed.

Lemma find_taken c l : NoDup (cs_ID <$> l) -> c ∈ l -> List.find (fun y => cs_ID y =? cs_ID c) l = Some c.
Proof.
  induction l as [| y l IH]; [by intros _ ?%not_elem_of_nil |].
  rewrite fmap_cons, NoDup_cons, elem_of_cons. intros [Hy Hnd] Hc. cbn.
  destruct (Z.eqb_spec (cs_ID y) (cs_ID c)) as [Heq | Hne].
  - destruct Hc as [-> | Hc]; [done |]. destruct Hy. rewrite Heq. by apply list_elem_of_fmap_2.
  - destruct Hc as [-> | Hc]; [done | auto].
Qed.

Lemma row_found x channel :
  (x, channel) ∈ rows_taken ->
  exists c, List.find (fun y => cs_ID y =? claim_ID x) todo = Some c /\ bind_row (x, channel) = Ok c.
Proof.
  intros [n Hn]%list_elem_of_lookup. destruct (Forall2_lookup_l _ _ _ _ _ Hf Hn) as (c & Hc & Hb).
  exists c. split; [| done]. rewrite <- (bind_row_id _ _ _ Hb).
  apply find_taken; [apply todo_nodup | by eapply list_elem_of_lookup_2].
Qed.
Lemma found_row x c :
  x ∈ claim_rows d -> List.find (fun y => cs_ID y =? claim_ID x) todo = Some c ->
  exists channel, (x, channel) ∈ rows_taken /\ bind_row (x, channel) = Ok c.
Proof.
  intros Hx [Hin%list_elem_of_In Hid]%find_some. apply list_elem_of_lookup in Hin as [n Hn].
  destruct (Forall2_lookup_r _ _ _ _ _ Hf Hn) as ([claim channel] & Hrow%list_elem_of_lookup_2 & Hb).
  assert (claim = x) as ->; [| eauto].
  apply (keys_ok_eq (claim_rows d)); [done | by apply subseteq_take, joined_in in Hrow as [? _] | done |].
  apply bind_row_id in Hb. cbn. lia.
Qed.

Lemma mark_of_marks (Hlib : library_returns) x :
  x ∈ claim_rows d ->
  only_marks x (mark_of d todo x) /\
  (claim_IsCertProcessed (mark_of d todo x) = true <->
     claim_IsCertProcessed x = true \/ exists channel input, taken_up d x channel input) /\
  (claim_IsCertValid (mark_of d todo x) = true <->
     claim_IsCertValid x = true \/
     exists channel input, taken_up d x channel input /\ signature_valid x channel input).
Proof.
  intros Hx. unfold mark_of.
  assert (Hsame : (forall channel input, ~ taken_up d x channel input) ->
    only_marks x x /\
    (claim_IsCertProcessed x = true <->
       claim_IsCertProcessed x = true \/ exists channel input, taken_up d x channel input) /\
    (claim_IsCertValid x = true <-> claim_IsCertValid x = true \/
       exists channel input, taken_up d x channel input /\ signature_valid x channel input)).
  { intros Hno. split; [exists (claim_IsCertValid x), (claim_IsCertProcessed x); by destruct x | naive_solver]. }
  destruct (List.find _ todo) as [c |] eqn:E; cycle 1.
  { apply Hsame. intros channel input [Hrow _]. apply row_found in Hrow as (c & Hc & _). congruence. }
  destruct (found_row x c Hx E) as (channel & Hrow & Hb). unfold verdict.
  assert (Ht : claim_TransactionHashUpdate x = Some (cs_TransactionHashUpdate c))
    by (cbn in Hb; destruct (claim_TransactionHashUpdate x); [by injection Hb as <- | done]).
  destruct (List.find (first_input _) _) as [input |] eqn:Ei; cycle 1.
  { apply Hsame. intros ch i (_ & h & Hh & Hi). congruence. }
  assert (Htaken : taken_up d x channel input) by (split; [done | eauto]).
  destruct (certify_verdict Hlib x channel c input Hb) as (b & e & Ec & Hv). rewrite Ec. cbn.
  assert (Hall : forall ch i, taken_up d x ch i -> b = true <-> signature_valid x ch i).
  { intros ch i [Hch (h & Hh & Hi)]. assert (i = input) as -> by congruence.
    apply row_found in Hch as (c' & Ec' & Hb'). assert (c' = c) as -> by congruence.
    destruct (certify_verdict Hlib x ch c input Hb') as (b' & e' & Ec2 & Hv'). congruence. }
  destruct b; (split; [by eexists _, _ |]); cbn.
  - split; (split; [intros _; right | done]); [by exists channel, input |].
    exists channel, input. split; [done | by apply Hv].
  - split; [split; [intros _; right; by exists channel, input | done] |].
    split; [by left |]. intros [? | (ch & i & Hti & Hs)]; [done |]. by apply (Hall ch i Hti) in Hs.
Qed.
End Selected.

(** C31: what a run of the certificate job does in a healthy database.  It ends, and changes
    nothing but the two marks of claims.  The claims that are then marked as processed are
    those that were, and those the run took up: the first thousand unprocessed claims that name
    a stored channel, as far as their last transaction has a first input.  The claims that are
    then marked as valid are those that were, and those taken up whose signature the library
    validates against the channel's certificate, for the output that the first input spends or
    for the claim's address.  So a thousand claims without a first input keep the job from ever
    doing anything. *)
Theorem CertificateSync_spec w :
  claims_ok (db w) -> ids_distinct (db w) -> readable (db w) -> library_returns ->
  exists w' mark, CertificateSync false w = (Ok false, w') /\ db w' = map_claims mark (db w) /\
    (forall x, x ∈ claim_rows (db w) ->
       only_marks x (mark x) /\
       (claim_IsCertProcessed (mark x) = true <->
          claim_IsCertProcessed x = true \/ exists channel input, taken_up (db w) x channel input) /\
       (claim_IsCertValid (mark x) = true <->
          claim_IsCertValid x = true \/
          exists channel input, taken_up (db w) x channel input /\ signature_valid x channel input)) /\
    ((forall x channel input, ~ taken_up (db w) x channel input) -> db w' = db w).
Proof.
  intros Hok Hd Hread Hlib. set (d := db w) in *. set (l := take certsProcessedPerIteration (joined d)) in *.
  destruct (bind_rows_ok l Hread) as (todo & Hb & Hf). pose proof (claims_keys _ Hok) as Hk.
  assert (Hin : forall c, c ∈ todo -> exists x channel, x ∈ claim_rows d /\ (x, channel) ∈ l /\
    bind_row (x, channel) = Ok c).
  { intros c [n Hn]%list_elem_of_lookup.
    destruct (Forall2_lookup_r _ _ _ _ _ Hf Hn) as ([x channel] & Hrow%list_elem_of_lookup_2 & Hbr).
    exists x, channel. split; [| done]. by apply subseteq_take, joined_in in Hrow as [? _]. }
  destruct (sync_certificates_run d todo [] (ticked w)) as (w' & E & Hw');
    [done | by apply (todo_nodup d) | | | |].
  { symmetry. by apply map_claims_id. }
  { intros c (x & ch & Hx & _ & Hbr)%Hin. rewrite (bind_row_id _ _ _ Hbr). by apply list_elem_of_fmap_2. }
  { intros c (x & ch & _ & _ & Hbr)%Hin. unfold verdict. destruct (List.find _ _) as [i |]; [| by eexists].
    destruct (certify_verdict Hlib x ch c i Hbr) as (b & e & -> & _). by eexists. }
  exists w', (mark_of d todo). split_and!; [| done | |].
  - unfold CertificateSync, get_or_nil, mbind, mtry, getClaimsToBeSynced.
    rewrite (query_healthy _ w todo); [| apply healthy | exact Hb].
    change (default [] (Some todo)) with todo. unfold mret at 1. cbv beta iota.
    change (default [] (Some todo)) with todo. by rewrite E.
  - intros x Hx. by apply mark_of_marks.
  - intros Hno. rewrite Hw'. apply map_claims_id. intros x Hx. unfold mark_of. cbn [app].
    destruct (List.find _ todo) as [c |] eqn:Ec; [| done].
    destruct (found_row d todo Hf Hk x c Hx Ec) as (channel & Hrow & Hbr). unfold verdict.
    destruct (List.find _ (rows (t_inputs d))) as [i |] eqn:Ei; [| done].
    destruct (Hno x channel i). split; [done |]. exists (cs_TransactionHashUpdate c). split; [| done].
    cbn in Hbr. destruct (claim_TransactionHashUpdate x); [by injection Hbr as <- | done].
Qed.
End Spec.
End Certificates.

(** ** Worked example *)

Module CertificateExample.
Import Demo.
#[export] Instance demo_healthy : Healthy.
Proof. done. Defined.

(** A library for which the signatures of addresses are valid. *)
#[export] Instance demo_signatures : Signatures := {|
  GetOutpointHash h _ := Ok h;
  ValidateClaimSignature _ _ signed _ _ := Ok (bool_decide (signed = "alice"), None);
|}.

Definition a_claim (id : Z) (claimid address hash : string) (publisher : option string) : Claim :=
  claim_key id <| claim_ClaimID := claimid |> <| claim_ClaimAddress := address |>
    <| claim_TransactionHashUpdate := Some hash |> <| claim_PublisherID := publisher |>
    <| claim_Vout := id |>.
Definition an_input (id : Z) (hash : string) : Input :=
  mkInput id 1 hash None false None (Some "pp") (Some 0) 0 None None None (Some 0) None.

(** The channel, two of its claims, and one whose transaction has no inputs. *)
Definition certificate_claims : list Claim :=
  [a_claim 1 "ch" "bob" "t1" None; a_claim 2 "good" "alice" "t2" (Some "ch");
   a_claim 3 "bad" "bob" "t3" (Some "ch"); a_claim 4 "lost" "alice" "t4" (Some "ch")].
Definition certificate_world : World :=
  mkWorld (empty_db <| t_claims := mkTable certificate_claims 5 |>
                    <| t_inputs := mkTable [an_input 1 "t2"; an_input 2 "t3"] 3 |>) 0.

Example demo_certificates :
  map (fun c => (claim_IsCertProcessed c, claim_IsCertValid c))
    (claim_rows (db (CertificateSync chain false certificate_world).2)) =
  [(false, false); (true, true); (true, false); (false, false)].
Proof. vm_compute. reflexivity. Qed.
Lemma CertificateSync_spec_witness :
  exists w' mark, CertificateSync chain false certificate_world = (Ok false, w') /\
    db w' = map_claims mark (db certificate_world) /\
    exists x channel input, taken_up (db certificate_world) x channel input /\
      signature_valid chain x channel input /\ claim_IsCertValid x = false /\
      claim_IsCertValid (mark x) = true.
Proof.
  destruct (CertificateSync_spec chain certificate_world) as (w' & mark & E & Hw & Hm & _).
  - split.
    + vm_compute. repeat constructor; set_solver.
    + intros c Hc. repeat (apply elem_of_cons in Hc as [-> | Hc]; [done |]). by apply elem_of_nil in Hc.
    + intros c Hc. repeat (apply elem_of_cons in Hc as [-> | Hc]; [done |]). by apply elem_of_nil in Hc.
    + intros a b Ha Hb Hne.
      repeat (apply elem_of_cons in Ha as [-> | Ha]; [|]); try by apply elem_of_nil in Ha.
      all: repeat (apply elem_of_cons in Hb as [-> | Hb]; [|]); try by apply elem_of_nil in Hb.
      all: done.
  - vm_compute. repeat constructor; set_solver.
  - intros row Hrow. assert (E : forallb (fun row => match claim_TransactionHashUpdate row.1 with
      Some _ => true | None => false end) (take certsProcessedPerIteration (joined (db certificate_world))) = true)
      by (vm_compute; reflexivity).
    rewrite forallb_forall in E. apply list_elem_of_In, E in Hrow. by destruct (claim_TransactionHashUpdate _).
  - split; [by intros hex e | by intros hash n e | intros; cbn; by eexists _, _].
  - exists w', mark. split; [exact E | split; [exact Hw |]].
    set (x := a_claim 2 "good" "alice" "t2" (Some "ch")).
    set (channel := a_claim 1 "ch" "bob" "t1" None).
    assert (Ht : taken_up (db certificate_world) x channel (an_input 1 "t2")).
    { split; [vm_compute; by left |]. exists "t2". split; vm_compute; reflexivity. }
    assert (Hs : signature_valid chain x channel (an_input 1 "t2")).
    { eexists _, _. split; [vm_compute; reflexivity | split; [vm_compute; reflexivity |]]. cbn.
      exists "pp". split; [done | right]. by exists None. }
    exists x, channel, (an_input 1 "t2"). split; [exact Ht | split; [exact Hs | split; [reflexivity |]]].
    apply Hm; [vm_compute; right; by left |]. right. by exists channel, (an_input 1 "t2").
Defined.
End CertificateExample.
