(* ===== verification/ChainSync.v ===== *)
(** * Comparing the stored chain with the node's ([daemon/jobs/chainsync.go])

    The job walks up the stored chain, a window of time at a run, fills in blocks and
    transactions that are missing and rewrites columns that differ from what the node answers;
    the height reached and the errors met are kept in the job's row.

    The errors are a Go slice.  [alignVouts] has a value receiver: it works on a copy of the
    status whose slice shares its array with the original until an append moves it, which is
    the environment's choice ([Slices]).  A block is aligned under [BlockLock]. *)
From Stdlib Require Import Floats.SpecFloat.
From stdpp Require Import pretty.
From S2P Require Import Prelude Bytes Script Lbrycrd Rows Store Datastore Claims Transactions.
From S2P Require Import BlockSync BlockProcessing Jobs Daemon.

(** ** The status *)

Record syncError := { se_HeightFound : list Z; se_Error : string; se_Area : string }.

Record chainSyncStatus := mkStatus {
  st_LastHeight : Z;
  st_MaxHeightStored : Z;
  st_Errors : list syncError;
}.
#[export] Instance eta_chainSyncStatus : Eta chainSyncStatus := fun c =>
  mkStatus (st_LastHeight c) (st_MaxHeightStored c) (st_Errors c).

Record chainSyncTx := { Hash : string; Raw : TxRawResult }.

Definition maxChainSyncErrors : nat := 1000.

(** Whether an append, issued at a tick, moves the slice to a new array. *)
Class Slices := { append_moves : nat -> bool }.
(** [strconv.ParseFloat(fmt.Sprintf("%.6f", f), 64)] *)
Class FloatText := { six_decimals : float64 -> float64 }.

Section Errors.
Context (error_text : error -> string).

(** *** Recording an error *)

Definition same_error (area : string) (err : error) (e : syncError) : bool :=
  bool_decide (area = se_Area e) && bool_decide (se_Error e = error_text err).

Definition found_again (height : Z) (e : syncError) : syncError :=
  {| se_HeightFound := se_HeightFound e ++ [height]; se_Error := se_Error e; se_Area := se_Area e |}.

(** The index of the entry, if there is one. *)
Fixpoint index_of_error (area : string) (err : error) (l : list syncError) : option nat :=
  match l with
  | [] => None
  | e :: l' => if same_error area err e then Some 0%nat else S <$> index_of_error area err l'
  end.

Definition new_error (height : Z) (area : string) (err : error) : syncError :=
  {| se_HeightFound := [height]; se_Error := error_text err; se_Area := area |}.

(** [c.Errors[len(c.Errors)-maxChainSyncErrors:]] when there are more. *)
Definition dropped (l : list syncError) : nat := length l - maxChainSyncErrors.

Definition record_in (height : Z) (area : string) (err : error) (l : list syncError)
  : list syncError :=
  match index_of_error area err l with
  | Some i => alter (found_again height) i l
  | None => let l := l ++ [new_error height area err] in drop (dropped l) l
  end.

(** [recordAndReturnError] by pointer; what it returns is the error it was given. *)
Definition recordError (area : string) (err : error) (c : chainSyncStatus) : chainSyncStatus :=
  c <| st_Errors := record_in (st_LastHeight c) area err (st_Errors c) |>.

(** *** On a copy *)

(** The original's errors, the copy's, and by how much the copy's indices lie behind those of
    the shared array. *)
Record copied := { original : list syncError; copy : list syncError; shared : option nat }.

Definition copy_of (c : chainSyncStatus) : copied :=
  {| original := st_Errors c; copy := st_Errors c; shared := Some 0%nat |}.

Definition record_in_copy (moves : bool) (height : Z) (area : string) (err : error) (s : copied)
  : copied :=
  match index_of_error area err (copy s) with
  | Some i =>
      {| original := match shared s with
                     | Some k => alter (found_again height) (i + k)%nat (original s)
                     | None => original s
                     end;
         copy := alter (found_again height) i (copy s); shared := shared s |}
  | None =>
      let l := copy s ++ [new_error height area err] in
      {| original := original s; copy := drop (dropped l) l;
         shared := if moves then None else (Nat.add (dropped l)) <$> shared s |}
  end.
End Errors.

(** ** Columns out of alignment *)

(** The columns to update, as what the update does to a row. *)
Definition column {R} (differs : bool) (set : R -> R) : list (R -> R) :=
  if differs then [set] else [].
Definition set_columns {R} (cols : list (R -> R)) (r : R) : R := foldl (fun r set => set r) r cols.

Definition differ {A} `{EqDecision A} (x y : A) : bool := negb (bool_decide (x = y)).

(** [String] and [Valid] of a nullable string set from a string. *)
Definition null_unless_empty (s : string) : option string :=
  if bool_decide (s = "") then None else Some s.

Section Align.
Context `{Faults, Node, TxSync, Clock, Stake, FloatText, Slices}.
Context (BlockChainName : string) (error_text : error -> string).
Notation record := (recordError error_text).

(** [if len(colsToUpdate) > 0 { UpdateG(boil.Whitelist(colsToUpdate...)) }] *)
Definition update_columns {R} `{Row R} (cols : list (R -> R)) (r : R) : M World unit :=
  match cols with
  | [] => mret tt
  | _ => update_colsG (set_columns cols) (set_columns cols r)
  end.

(** *** Blocks *)

Definition block_columns (l : GetBlockResponse) (b : Block) : list (Block -> Block) :=
  column (differ (block_Hash b) (blk_Hash l)) (fun x => x <| block_Hash := blk_Hash l |>) ++
  column (differ (block_BlockTime b) (u64 (blk_Time l)))
    (fun x => x <| block_BlockTime := u64 (blk_Time l) |>) ++
  column (differ (block_Version b) (u64 (blk_Version l)))
    (fun x => x <| block_Version := u64 (blk_Version l) |>) ++
  column (differ (block_Bits b) (blk_Bits l)) (fun x => x <| block_Bits := blk_Bits l |>) ++
  column (differ (block_BlockSize b) (u64 (blk_Size l)))
    (fun x => x <| block_BlockSize := u64 (blk_Size l) |>) ++
  column (differ (block_Chainwork b) (blk_ChainWork l))
    (fun x => x <| block_Chainwork := blk_ChainWork l |>) ++
  column (negb (f64_eqb (six_decimals (block_Difficulty b)) (six_decimals (blk_Difficulty l))))
    (fun x => x <| block_Difficulty := six_decimals (blk_Difficulty l) |>) ++
  column (differ (block_MerkleRoot b) (blk_MerkleRoot l))
    (fun x => x <| block_MerkleRoot := blk_MerkleRoot l |>) ++
  column (differ (block_NameClaimRoot b) (blk_NameClaimRoot l))
    (fun x => x <| block_NameClaimRoot := blk_NameClaimRoot l |>) ++
  column (differ (default "" (block_PreviousBlockHash b)) (blk_PreviousBlockHash l))
    (fun x => x <| block_PreviousBlockHash := Some (blk_PreviousBlockHash l) |>) ++
  column (differ (block_Nonce b) (blk_Nonce l)) (fun x => x <| block_Nonce := blk_Nonce l |>) ++
  column (differ (block_VersionHex b) (blk_VersionHex l))
    (fun x => x <| block_VersionHex := blk_VersionHex l |>).

(** The struct is changed before the update. *)
Definition alignBlock (l : GetBlockResponse) (b : Block) : M World Block :=
  let* _ := update_columns (block_columns l b) b in mret (set_columns (block_columns l b) b).

(** *** Transactions *)

(** [c.Tx.TransactionTime.Uint64 = ...] leaves [Valid] as it is. *)
Definition set_time (t : option Z) (time : Z) : option Z :=
  match t with Some _ => Some time | None => None end.

Definition tx_columns (l : TxRawResult) (t : Transaction) : list (Transaction -> Transaction) :=
  column (differ (txn_Version t) (tx_Version l)) (fun x => x <| txn_Version := tx_Version l |>) ++
  column (differ (default 0 (txn_TransactionTime t)) (u64 (tx_Time l)))
    (fun x => x <| txn_TransactionTime := set_time (txn_TransactionTime t) (u64 (tx_Time l)) |>) ++
  column (differ (txn_TransactionSize t) (u64 (tx_Size l)))
    (fun x => x <| txn_TransactionSize := u64 (tx_Size l) |>) ++
  column (differ (txn_LockTime t) (tx_LockTime l)) (fun x => x <| txn_LockTime := tx_LockTime l |>) ++
  column (differ (txn_InputCount t) (len (tx_Vin l)))
    (fun x => x <| txn_InputCount := len (tx_Vin l) |>) ++
  column (differ (txn_OutputCount t) (len (tx_Vout l)))
    (fun x => x <| txn_OutputCount := len (tx_Vout l) |>).

Definition alignTx (l : TxRawResult) (t : Transaction) : M World unit :=
  update_columns (tx_columns l t) t.

Definition txPartsMissing (l : TxRawResult) (t : Transaction) : M World bool :=
  let* inputCount := countG (fun i => bool_decide (in_TransactionHash i = txn_Hash t)) in
  let* outputCount := countG (fun o => bool_decide (out_TransactionHash o = txn_Hash t)) in
  mret ((inputCount <? len (tx_Vin l)) || (outputCount <? len (tx_Vout l))).

(** *** Claims *)

(** What the nil-safe getters of a claim that is nil answer. *)
Definition nil_claim : pbClaim :=
  {| pb_Title := ""; pb_Description := ""; pb_ThumbnailUrl := ""; pb_Tags := []; pb_Languages := [];
     pb_Type := PbNone |}.

Definition claim_columns (original storedClaim : Claim) (vout : Z) : list (Claim -> Claim) :=
  column (bool_decide (claim_VoutUpdate storedClaim = None))
    (fun x => x <| claim_VoutUpdate := Some vout |>) ++
  column (bool_decide (claim_TransactionHashUpdate storedClaim = None))
    (fun x => x <| claim_TransactionHashUpdate :=
       Some (default "" (claim_TransactionHashID storedClaim)) |>) ++
  column (differ (default "" (claim_License original)) (default "" (claim_License storedClaim)))
    (fun x => x <| claim_License := claim_License storedClaim |>).

Definition alignClaim (o : Output) : M World unit :=
  let* storedClaim := GetClaim (default "" (out_ClaimID o)) in
  match storedClaim with
  | None => mfail (ErrMsg ("could not find claim with id " +:+ default "" (out_ClaimID o)))
  | Some claim =>
      let* helper := mlift (DecodeClaimHex (claim_ValueAsHex claim) BlockChainName) in
      let* storedClaim :=
        UpdateClaimData BlockChainName helper (default nil_claim (sh_Claim helper)) claim in
      update_columns (claim_columns claim storedClaim (out_Vout o)) storedClaim
  end.

(** *** Outputs *)

(** The support of a spent non-standard output. *)
Definition align_support (t : Transaction) (o : Output) : M World unit :=
  let* script := mlift (hex_decode (default "" (out_ScriptPubKeyHex o))) in
  if IsClaimSupportScript script then
    let* support := GetSupport (txn_Hash t) (out_Vout o) in
    match support with
    | None => mret tt
    | Some support =>
        let* (_, _, value, _) := mlift (ParseClaimSupportScript script) in
        if len value =? 0 then mret tt
        else
          let* s := mlift (DecodeSupportBytes value BlockChainName) in
          let set (x : Support) :=
            x <| support_SupportedByClaimID := Some (hex_encode (ReverseBytes (sh_ClaimID s))) |> in
          update_colsG set (set support)
    end
  else mret tt.

Definition vout_columns (v : Vout) (o : Output) : list (Output -> Output) :=
  column (negb (f64_eqb (default f64_zero (out_Value o)) (vout_Value v)))
    (fun x => x <| out_Value := Some (vout_Value v) |>).

Definition alignVout (v : Vout) (t : Transaction) (o : Output) : M World unit :=
  let* _ := update_columns (vout_columns v o) o in
  let o := set_columns (vout_columns v o) o in
  let has_claim := bool_decide (is_Some (out_ClaimID o)) in
  if has_claim && negb (out_IsSpent o) then alignClaim o
  else if has_claim && bool_decide (default "" (out_Type o) = NonStandard) then align_support t o
  else mret tt.

(** The loop on the copy; the copy's other fields are not read. *)
Fixpoint align_vouts (height : Z) (t : Transaction) (i : Z) (vouts : list Vout) (s : copied)
  : M World (copied * option error) :=
  match vouts with
  | [] => mret (s, None)
  | vout :: vouts' =>
      let* output := GetOutput (txn_Hash t) (vout_N vout) in
      match output with
      | None => mret (s, Some (ErrMsg ("missing vout " +:+ txn_Hash t +:+ ":" +:+ pretty i +:+
                                       " after transaction reprocessing")))
      | Some output =>
          let* r := mtry (alignVout vout t output) in
          match r with
          | inl _ => align_vouts height t (i + 1) vouts' s
          | inr err =>
              let* w := mget in
              align_vouts height t (i + 1) vouts'
                (record_in_copy error_text (append_moves (tick w)) height "vout-alignment" err s)
          end
      end
  end.

(** What the caller sees of the errors is what was written to the shared array. *)
Definition alignVouts (t : Transaction) (vouts : list Vout) (c : chainSyncStatus)
  : M World (chainSyncStatus * option error) :=
  let* (s, err) := align_vouts (st_LastHeight c) t 0 vouts (copy_of c) in
  mret (c <| st_Errors := original s |>, err).

(** *** Inputs *)

Definition vin_columns (v : Vin) (srcOutput : option Output) (i : Input) : list (Input -> Input) :=
  column (differ (default "" (in_Coinbase i)) (vin_Coinbase v))
    (fun x => x <| in_Coinbase := null_unless_empty (vin_Coinbase v) |>) ++
  column (differ (default "" (in_Witness i)) (join_commas (vin_Witness v)))
    (fun x => x <| in_Witness := null_unless_empty (join_commas (vin_Witness v)) |>) ++
  match vin_ScriptSig v with
  | Some scriptSig =>
      column (differ (default "" (in_ScriptSigHex i)) (sig_Hex scriptSig))
        (fun x => x <| in_ScriptSigHex := null_unless_empty (sig_Hex scriptSig) |>) ++
      column (differ (default "" (in_ScriptSigAsm i)) (sig_Asm scriptSig))
        (fun x => x <| in_ScriptSigAsm := null_unless_empty (sig_Asm scriptSig) |>)
  | None =>
      column (bool_decide (is_Some (in_ScriptSigHex i))) (fun x => x <| in_ScriptSigHex := None |>) ++
      column (bool_decide (is_Some (in_ScriptSigAsm i))) (fun x => x <| in_ScriptSigAsm := None |>)
  end ++
  match srcOutput with
  | None => []
  | Some o =>
      column (negb (f64_eqb (default f64_zero (in_Value i)) (default f64_zero (out_Value o))))
        (fun x => x <| in_Value := Some (default f64_zero (out_Value o)) |>)
  end.

Definition alignVin (v : Vin) (i : Input) : M World unit :=
  let* srcOutput := GetOutput (default "" (in_PrevoutHash i)) (default 0 (in_PrevoutN i)) in
  update_columns (vin_columns v srcOutput i) i.

Fixpoint alignVins (t : Transaction) (i : Z) (vins : list Vin) (c : chainSyncStatus)
  : M World (chainSyncStatus * option error) :=
  match vins with
  | [] => mret (c, None)
  | vin :: vins' =>
      let* input := GetInput (txn_Hash t) false (vin_TxID vin) (vin_Vout vin) in
      let* input :=
        (match input with
         | Some input => mret (Some input)
         | None => if bool_decide (vin_Coinbase vin = "") then mret None
                   else GetInput (txn_Hash t) true (vin_TxID vin) (vin_Vout vin)
         end) in
      match input with
      | None => mret (c, Some (ErrMsg ("missing vin " +:+ txn_Hash t +:+ ":" +:+ pretty i +:+
                                       " after transaction reprocessing")))
      | Some input =>
          let* r := mtry (alignVin vin input) in
          match r with
          | inl _ => alignVins t (i + 1) vins' c
          | inr err => alignVins t (i + 1) vins' (record "vin-alignment" err c)
          end
      end
  end.

(** *** The transactions of a block *)

(** [return c.recordAndReturnError(c.LastHeight, area, err)] *)
Definition stop_with (area : string) (err : error) (c : chainSyncStatus)
  : M World (chainSyncStatus * option error) := mret (record area err c, Some err).

(** A step whose error is recorded under an area and ends the function. *)
Definition or_stop {A} (area : string) (c : chainSyncStatus) (m : M World A)
  (k : A -> M World (chainSyncStatus * option error)) : M World (chainSyncStatus * option error) :=
  let* r := mtry m in
  match r with
  | inl a => k a
  | inr err => stop_with area err c
  end.

Definition stored_tx (block : Block) (txHash : string) : M World Transaction :=
  oneG (fun t => bool_decide (txn_BlockHashID t = Some (block_Hash block)) &&
                 bool_decide (txn_Hash t = txHash)).

(** The columns, the outputs and the inputs of a stored transaction. *)
Definition align_parts (l : TxRawResult) (t : Transaction) (c : chainSyncStatus)
  : M World (chainSyncStatus * option error) :=
  or_stop "tx-alignment" c (alignTx l t) (fun _ =>
    let* (c, err) := alignVouts t (tx_Vout l) c in
    match err with
    | Some err => stop_with "vout-alignment" err c
    | None =>
        let* (c, err) := alignVins t 0 (tx_Vin l) c in
        match err with
        | Some err => stop_with "vin-alignment" err c
        | None => mret (c, None)
        end
    end).

(** A transaction that is stored: processed again when inputs or outputs are missing. *)
Definition align_stored (block : Block) (chainTx : chainSyncTx) (t : Transaction)
  (c : chainSyncStatus) : M World (chainSyncStatus * option error) :=
  let l := Raw chainTx in
  or_stop "tx-part-count" c (txPartsMissing l t) (fun missingParts =>
    if (missingParts : bool) then
      or_stop "tx-reprocessing" c
        (process_tx l (block_BlockTime block) (u64 (st_LastHeight c))) (fun _ =>
      or_stop "mysql-tx" c (stored_tx block (Hash chainTx)) (fun t => align_parts l t c))
    else align_parts l t c).

Definition align_one (block : Block) (chainTx : chainSyncTx) (c : chainSyncStatus)
  : M World (chainSyncStatus * option error) :=
  let l := Raw chainTx in
  let* recordedTx := mtry (stored_tx block (Hash chainTx)) in
  match recordedTx with
  | inl t => align_stored block chainTx t c
  | inr err =>
      match unwrap err with
      | ErrNoRows =>
          let* r := mtry (process_tx l (block_BlockTime block) (u64 (st_LastHeight c))) in
          match r with
          | inr err => mret (record "tx-processing" err c, None)
          | inl _ =>
              or_stop "mysql-tx" c (stored_tx block (Hash chainTx)) (fun t =>
                align_stored block chainTx t c)
          end
      | _ => stop_with "mysql-tx" err c
      end
  end.

Fixpoint alignTxs (block : Block) (lbrycrdTxs : list chainSyncTx) (c : chainSyncStatus)
  : M World (chainSyncStatus * option error) :=
  match lbrycrdTxs with
  | [] => mret (c, None)
  | chainTx :: txs =>
      let* (c, err) := align_one block chainTx c in
      match err with
      | Some err => mret (c, Some err)
      | None => alignTxs block txs c
      end
  end.

(** ** One block *)

Definition fetchBlockTransactions (txHashes : list string) : M World (list chainSyncTx) :=
  mfold txHashes (fun acc txHash =>
    let* tx := ask (fun now => node_transaction now txHash) in
    mret (acc ++ [{| Hash := txHash; Raw := tx |}])) [].

Definition block_by_hash (hash : string) : M World Block :=
  oneG (fun b => bool_decide (block_Hash b = hash)).

(** The stored block, filled in when it is missing. *)
Definition fill_missing (blockHash : string) (c : chainSyncStatus) (err : error)
  (k : M World (chainSyncStatus * option error)) : M World (chainSyncStatus * option error) :=
  match unwrap err with
  | ErrNoRows =>
      let* processedHeight := RunBlockProcessing (u64 (st_LastHeight c)) in
      if negb (processedHeight =? u64 (st_LastHeight c)) then
        stop_with "daemon-process-block"
          (ErrMsg ("processed height " +:+ pretty processedHeight +:+
                   " while filling missing height " +:+ pretty (st_LastHeight c))) c
      else or_stop "mysql-getblock" c (block_by_hash blockHash) (fun _ => k)
  | _ => stop_with "mysql-getblock" err c
  end.

Definition align_block (blockHash : string) (lbrycrdBlock : GetBlockResponse) (c : chainSyncStatus)
  : M World (chainSyncStatus * option error) :=
  or_stop "tx-hash-creation" c (fetchBlockTransactions (blk_Tx lbrycrdBlock)) (fun lbrycrdTxs =>
  or_stop "mysql-getblock" c (block_by_hash blockHash) (fun recordedBlock =>
  or_stop "block-alignment" c (alignBlock lbrycrdBlock recordedBlock) (fun recordedBlock =>
    let* (c, err) := alignTxs recordedBlock lbrycrdTxs c in
    match err with
    | Some err => stop_with "tx-alignment" err c
    | None => mret (c, None)
    end))).

Definition processNextBlock (c : chainSyncStatus) : M World (chainSyncStatus * option error) :=
  let c := c <| st_LastHeight := st_LastHeight c + 1 |> in
  or_stop "lbrycrd-getblockhash" c
    (ask (fun now => node_block_hash now (u64 (st_LastHeight c)))) (fun blockHash =>
  or_stop "mysql-getblock" c (ask (fun now => node_block now blockHash)) (fun lbrycrdBlock =>
    let* recordedBlock := mtry (block_by_hash blockHash) in
    match recordedBlock with
    | inl _ => align_block blockHash lbrycrdBlock c
    | inr err => fill_missing blockHash c err (align_block blockHash lbrycrdBlock c)
    end)).

(** ** The job *)

Context `{JsonState chainSyncStatus} (ChainSyncRunDuration : Z).
Notation saveJobError := (saveJobError error_text).

Definition chainSyncJob : string := "chainsync".

(** Past the end the walk starts again from below. *)
Definition updateMaxHeightStored (c : chainSyncStatus) : M World chainSyncStatus :=
  let* lastBlock := best_block (fun _ => true) block_Height in
  mret (if block_Height lastBlock <=? st_LastHeight c
        then c <| st_LastHeight := 0 |> <| st_Errors := [] |>
        else c <| st_MaxHeightStored := block_Height lastBlock |>).

(** An error with no job, and an error with the job. *)
Definition getChainSyncJobStatus : M World (JobStatus * (chainSyncStatus + error)) :=
  let* jobStatus := mtry (FindJobStatusG chainSyncJob) in
  let* jobStatus :=
    (match jobStatus with
     | inl j => mret j
     | inr e =>
         match unwrap e with
         | ErrNoRows =>
             let* bytes := mlift (marshal_state (mkStatus 0 0 [])) in
             let* j := mtry (insertG (mkJobStatus chainSyncJob zero_time false None (Some bytes))) in
             match j with
             | inl j => mret j
             | inr _ => mpanic (ErrMsg "Cannot Retrieve/Create JobStatus for chainsync")
             end
         | _ => mfail e
         end
     end) in
  let* c := mlift (unmarshal_state (default "" (status_State jobStatus))) in
  if st_MaxHeightStored c =? 0 then
    let* r := mtry (updateMaxHeightStored c) in mret (jobStatus, r)
  else mret (jobStatus, inl c).

(** Until the time is up or the window is walked: [left] counts the blocks of the window. *)
Fixpoint sync_blocks (left : nat) (timeLimit : Z) (c : chainSyncStatus)
  : M World chainSyncStatus :=
  let* now := time_now in
  if (now <? timeLimit) && (st_LastHeight c <? st_MaxHeightStored c) then
    match left with
    | O => mret c
    | S left' => let* (c, _) := processNextBlock c in sync_blocks left' timeLimit c
    end
  else mret c.

Definition doneChainSyncJob (jobStatus : JobStatus) (c : chainSyncStatus) : M World unit :=
  let* now := time_now in
  match marshal_state c with
  | Ok bytes =>
      let* r := mtry (updateG (jobStatus <| status_LastSync := now |>
                                <| status_IsSuccess := true |> <| status_State := Some bytes |>)) in
      match r with inl _ => mret tt | inr e => mpanic e end
  | Err _ => mret tt
  | Panic e => mpanic e
  end.

(** [endChainSync] recovers every panic, also that of [saveJobError] on a nil job. *)
Definition ChainSync : M World unit :=
  mrecover
    (let* r := mtry getChainSyncJobStatus in
     match r with
     | inr _ => mpanic (ErrRuntime "invalid memory address or nil pointer dereference")
     | inl (job, inr err) => saveJobError job err
     | inl (job, inl c) =>
         let* c :=
           (if st_MaxHeightStored c <=? st_LastHeight c then mtry (updateMaxHeightStored c)
            else mret (inl c)) in
         match c with
         | inr err => saveJobError job err
         | inl c =>
             let* now := time_now in
             let* c := sync_blocks (Z.to_nat (st_MaxHeightStored c - st_LastHeight c))
                         (now + ChainSyncRunDuration) c in
             doneChainSyncJob job c
         end
     end)
    (mret tt).
End Align.
