(* ===== verification/ChainSyncFacts.v ===== *)
(** * What the chain sync job respects

    A relation on databases that the statements on each table respect is respected by every part
    of the comparison with the node's chain ([ChainSync]): its statements are updates of chosen
    columns that leave the keys ([update_columns]), the claims and supports it decodes again, and
    the blocks and transactions it has processed again ([SyncRespects]). *)
From S2P Require Import Prelude Bytes Script Lbrycrd Rows Store Datastore StoreFacts.
From S2P Require Import Claims Transactions TransactionFacts BlockSync BlockProcessing Jobs Daemon.
From S2P Require Import ProcessFacts ChainSync.

(** ** Columns out of alignment leave the keys *)

Definition spares_key {T} `{Row T} (set : T -> T) : Prop := forall r, key_kept r set.

Lemma column_key {T} `{Row T} differs (set : T -> T) :
  spares_key set -> Forall spares_key (column differs set).
Proof. intros Hs. unfold column. destruct differs; by repeat constructor. Qed.
Lemma set_columns_key {T} `{Row T} cols (r : T) :
  Forall spares_key cols -> key_kept r (set_columns cols).
Proof.
  intros Hc old. revert old. induction Hc as [| set cols Hs _ IH]; intros old Hk; [done |].
  unfold set_columns in *. cbn. by apply IH, Hs.
Qed.
#[export] Hint Extern 1 (spares_key _) => (intros ? ? Hkey; exact Hkey) : go.

Ltac columns_keyed := repeat (apply Forall_app; split); try apply column_key; auto with go.

Lemma block_columns_key `{FloatText} l b : Forall spares_key (block_columns l b).
Proof. unfold block_columns. columns_keyed. Qed.
Lemma tx_columns_key l t : Forall spares_key (tx_columns l t).
Proof. unfold tx_columns. columns_keyed. Qed.
Lemma claim_columns_key c s v : Forall spares_key (claim_columns c s v).
Proof. unfold claim_columns. columns_keyed. Qed.
Lemma vout_columns_key v o : Forall spares_key (vout_columns v o).
Proof. unfold vout_columns. columns_keyed. Qed.
Lemma vin_columns_key v o i : Forall spares_key (vin_columns v o i).
Proof. unfold vin_columns. destruct (vin_ScriptSig v), o; columns_keyed. Qed.
#[export] Hint Resolve block_columns_key tx_columns_key claim_columns_key vout_columns_key
  vin_columns_key : go.

Lemma steps_update_columns `{Faults} (R : relation DB) `{!PreOrder R} {T} `{Row T, !Stable R T} cols (r : T) :
  Forall spares_key cols -> steps (on_db R) (update_columns cols r).
Proof.
  intros Hc. unfold update_columns. pose proof (set_columns_key cols (set_columns cols r) Hc).
  destruct cols; go_steps.
Qed.

(** [R] allows the updates of chosen columns of the outputs and the inputs. *)
Class AlignsVouts (R : relation DB) `{Faults} : Prop :=
  vout_columns_steps v o : steps (on_db R) (update_columns (vout_columns v o) o).
Class AlignsVins (R : relation DB) `{Faults} : Prop :=
  vin_columns_steps v o i : steps (on_db R) (update_columns (vin_columns v o i) i).
#[export] Hint Extern 1 (AlignsVouts _) => typeclasses eauto : go.
#[export] Hint Extern 1 (AlignsVins _) => typeclasses eauto : go.
#[export] Instance stable_aligns_vouts (R : relation DB) `{Faults, !PreOrder R, !Stable R Output} :
  AlignsVouts R.
Proof. intros v o. apply steps_update_columns; auto with go typeclass_instances. Qed.
#[export] Instance stable_aligns_vins (R : relation DB) `{Faults, !PreOrder R, !Stable R Input} :
  AlignsVins R.
Proof. intros v o i. apply steps_update_columns; auto with go typeclass_instances. Qed.
#[export] Instance both_aligns_vouts (R1 R2 : relation DB) `{Faults} :
  AlignsVouts R1 -> AlignsVouts R2 -> AlignsVouts (both R1 R2).
Proof. intros H1 H2 v o. by apply steps_both. Qed.
#[export] Instance both_aligns_vins (R1 R2 : relation DB) `{Faults} :
  AlignsVins R1 -> AlignsVins R2 -> AlignsVins (both R1 R2).
Proof. intros H1 H2 v o i. by apply steps_both. Qed.

(** ** The parts of a transaction *)

Section Parts.
Context `{Faults, Node, TxSync, Clock, Stake, FloatText, Slices}.
Context (BlockChainName : string) (error_text : error -> string).
Context (R : relation DB) `{!PreOrder R, !Stable R Claim, !Stable R ClaimTag, !StableTags R}.
Context `{!Stable R Tag, !Stable R Support}.
#[local] Hint Resolve vout_columns_steps vin_columns_steps steps_update_columns steps_UpdateClaimData : go.

Lemma steps_alignVout `{!AlignsVouts R} v t o : steps (on_db R) (alignVout BlockChainName v t o).
Proof. unfold alignVout, alignClaim, align_support. go_steps. Qed.
#[local] Hint Resolve steps_alignVout : go.
Lemma steps_align_vouts `{!AlignsVouts R} height t i vouts s :
  steps (on_db R) (align_vouts BlockChainName error_text height t i vouts s).
Proof. revert i s. induction vouts as [| v vouts IH]; intros i s; cbn [align_vouts]; go_steps. Qed.
#[local] Hint Resolve steps_align_vouts : go.
Lemma steps_alignVouts `{!AlignsVouts R} t vouts c :
  steps (on_db R) (alignVouts BlockChainName error_text t vouts c).
Proof. unfold alignVouts. go_steps. Qed.
Lemma steps_alignVins `{!AlignsVins R} t i vins c : steps (on_db R) (alignVins error_text t i vins c).
Proof.
  revert i c. induction vins as [| v vins IH]; intros i c; cbn [alignVins]; unfold alignVin; go_steps.
Qed.
End Parts.
#[export] Hint Resolve steps_update_columns steps_alignVouts steps_alignVins : go.

(** ** Blocks *)

Section Align.
Context `{Faults, Node, TxSync, Clock, Stake, FloatText, Slices}.
Context (BlockChainName : string) (error_text : error -> string).
Context (R : relation DB) `{!PreOrder R, !SyncRespects R, !Stable R Block, !Stable R Transaction}.
Context `{!Stable R Claim, !Stable R ClaimTag, !StableTags R, !Stable R Tag, !Stable R Support}.
Context `{!AlignsVouts R, !AlignsVins R, !StableDelete R}.
Notation respected := (steps (on_db R)).
#[local] Hint Resolve sync_txs_steps process_tx_steps : go.

Lemma steps_stop_with area err c : respected (stop_with error_text area err c).
Proof. apply steps_ret; typeclasses eauto. Qed.
Lemma steps_or_stop {A} area c (m : M World A) k :
  respected m -> (forall a, respected (k a)) -> respected (or_stop error_text area c m k).
Proof. intros Hm Hk. unfold or_stop, stop_with. go_steps. Qed.
#[local] Hint Resolve steps_stop_with steps_or_stop : go.

Lemma steps_align_parts l t c : respected (align_parts BlockChainName error_text l t c).
Proof.
  unfold align_parts, alignTx. apply steps_or_stop; [go_steps |]. intros []. go_steps.
Qed.
#[local] Hint Resolve steps_align_parts : go.
Lemma steps_align_stored block tx t c :
  respected (align_stored BlockChainName error_text block tx t c).
Proof.
  unfold align_stored, txPartsMissing, stored_tx. apply steps_or_stop; [go_steps |].
  intros []; [| auto with go]. apply steps_or_stop; [auto with go |]. intros [].
  apply steps_or_stop; [auto with go |]. auto with go.
Qed.
#[local] Hint Resolve steps_align_stored : go.
Lemma steps_alignTxs block txs c : respected (alignTxs BlockChainName error_text block txs c).
Proof.
  revert c. induction txs as [| tx txs IH]; intros c; cbn [alignTxs]; [go_steps |].
  apply steps_bind; [typeclasses eauto | unfold align_one, stored_tx | intros [c1 [e |]]; go_steps].
  apply steps_bind; [typeclasses eauto | go_steps |]. intros [t | e]; [auto with go |].
  destruct (unwrap e); auto with go. apply steps_bind; [typeclasses eauto | go_steps |].
  intros [[] | e']; [| go_steps]. apply steps_or_stop; auto with go.
Qed.
#[local] Hint Resolve steps_alignTxs : go.

Lemma steps_align_block hash json c :
  respected (align_block BlockChainName error_text hash json c).
Proof.
  unfold align_block, block_by_hash, alignBlock, fetchBlockTransactions.
  do 3 (apply steps_or_stop; [go_steps | intros ?]). go_steps.
Qed.
Lemma steps_processNextBlock c : respected (processNextBlock BlockChainName error_text c).
Proof.
  unfold processNextBlock. apply steps_or_stop; [go_steps |]. intros hash.
  apply steps_or_stop; [go_steps |]. intros json. set (c1 := c <| st_LastHeight := _ |>).
  pose proof (steps_align_block hash json c1) as Hal. clearbody c1.
  unfold block_by_hash. apply steps_bind; [typeclasses eauto | go_steps |].
  intros [b | e]; [exact Hal |]. unfold fill_missing, block_by_hash.
  destruct (unwrap e); auto with go. apply steps_bind; [typeclasses eauto | auto with go |].
  intros h'. destruct (negb _); [auto with go |]. by apply steps_or_stop; [go_steps |].
Qed.
#[local] Hint Resolve steps_processNextBlock : go.
Lemma steps_sync_blocks left limit c :
  respected (sync_blocks BlockChainName error_text left limit c).
Proof.
  revert c. induction left as [| left IH]; intros c; cbn [sync_blocks]; go_steps.
Qed.
End Align.
#[export] Hint Resolve steps_sync_blocks : go.

(** ** The job *)

Section Job.
Context `{Faults, Node, TxSync, Clock, Stake, FloatText, Slices, JsonState chainSyncStatus}.
Context (BlockChainName : string) (error_text : error -> string) (ChainSyncRunDuration : Z).
Context (R : relation DB) `{!PreOrder R, !SyncRespects R, !Stable R Block, !Stable R Transaction}.
Context `{!Stable R Claim, !Stable R ClaimTag, !StableTags R, !Stable R Tag, !Stable R Support}.
Context `{!AlignsVouts R, !AlignsVins R, !StableDelete R, !Stable R JobStatus}.

Lemma steps_ChainSync :
  steps (on_db R) (ChainSync BlockChainName error_text ChainSyncRunDuration).
Proof.
  unfold ChainSync. apply steps_mrecover; [typeclasses eauto | | go_steps].
  unfold getChainSyncJobStatus, FindJobStatusG, updateMaxHeightStored, best_block,
    doneChainSyncJob. go_steps.
Qed.
End Job.
