(* ===== verification/ChainSyncTheorems.v ===== *)
(** * The chain sync job: its status and what a pass leaves behind

    [ChainSync_status_kept]: the status in the job's row stays well formed, whatever fails.
    [align_one_spec]: what the alignment of a transaction leaves, when it ends without an error.
    [coinbase_stops_alignment]: why a block with a coinbase always reports one. *)
From Stdlib Require Import Floats.SpecFloat.
From S2P Require Import Prelude Bytes Script Lbrycrd Rows Store Datastore StoreFacts Keyed.
From S2P Require Import Claims Transactions TransactionFacts BlockSync BlockProcessing Jobs Daemon.
From S2P Require Import BlockSyncProofs TransactionTable DemoWorld ProcessFacts ChainSync.
From S2P Require Import ChainSyncFacts.

(** ** The recorded errors *)

Section Errors.
Context (error_text : error -> string).
Notation record_in := (record_in error_text).
Notation index_of_error := (index_of_error error_text).
Notation same_error := (same_error error_text).

(** What identifies an entry. *)
Definition error_key (e : syncError) : string * string := (se_Area e, se_Error e).

(** At most a thousand entries, one for each area and text, each with a height. *)
Record errors_ok (l : list syncError) : Prop := {
  eo_bound : (length l <= maxChainSyncErrors)%nat;
  eo_keys : NoDup (error_key <$> l);
  eo_heights : Forall (fun e => se_HeightFound e <> []) l;
}.

Lemma errors_ok_nil : errors_ok [].
Proof. split; [cbn; lia | apply NoDup_nil_2 | constructor]. Qed.

Lemma same_error_key area err e :
  same_error area err e = true <-> error_key e = (area, error_text err).
Proof.
  unfold ChainSync.same_error, error_key. rewrite andb_true_iff, !bool_decide_eq_true.
  split; [by intros [-> ->] | by intros [= -> ->]].
Qed.

Lemma index_of_error_None area err l :
  index_of_error area err l = None -> (area, error_text err) ∉ error_key <$> l.
Proof.
  induction l as [| e l IH]; cbn [ChainSync.index_of_error]; [intros _; apply not_elem_of_nil |].
  destruct (same_error area err e) eqn:E; [done |].
  rewrite fmap_None, fmap_cons, not_elem_of_cons. intros Hl. split; [| auto].
  intros Hk. symmetry in Hk. apply same_error_key in Hk. congruence.
Qed.

Lemma alter_keys height (i : nat) (l : list syncError) :
  error_key <$> alter (found_again height) i l = error_key <$> l.
Proof. revert i. induction l as [| e l IH]; intros [| i]; cbn; f_equal; auto. Qed.

Lemma errors_ok_alter height (i : nat) l : errors_ok l -> errors_ok (alter (found_again height) i l).
Proof.
  intros [Hb Hk Hh]. split; [by rewrite length_alter | by rewrite alter_keys |].
  apply Forall_alter; [done |]. intros e _ _. cbn. by destruct (se_HeightFound e).
Qed.

(** Appending an entry that is new, and keeping the last thousand. *)
Lemma errors_ok_append height area err l :
  errors_ok l -> index_of_error area err l = None ->
  let l' := l ++ [new_error error_text height area err] in errors_ok (drop (dropped l') l').
Proof.
  intros [Hb Hk Hh] Hno%index_of_error_None l'. unfold dropped. split.
  - rewrite length_drop. lia.
  - rewrite fmap_drop. eapply sublist_NoDup; [| apply sublist_drop]. unfold l'.
    rewrite fmap_app. apply NoDup_app. split; [done | split; [| by apply NoDup_singleton]].
    by intros k Hkl ->%list_elem_of_singleton.
  - apply Forall_drop. unfold l'. by apply Forall_app_2; [| constructor].
Qed.

Lemma record_in_ok height area err l : errors_ok l -> errors_ok (record_in height area err l).
Proof.
  intros Hl. unfold ChainSync.record_in. destruct (index_of_error area err l) eqn:E.
  - by apply errors_ok_alter.
  - by apply errors_ok_append.
Qed.

(** What a copy records: the original keeps its entries, whatever is shared. *)
Lemma record_in_copy_ok moves height area err s :
  errors_ok (original s) -> errors_ok (copy s) ->
  let s' := record_in_copy error_text moves height area err s in
  errors_ok (original s') /\ errors_ok (copy s') /\
  error_key <$> original s' = error_key <$> original s.
Proof.
  intros Ho Hc. unfold record_in_copy. destruct (index_of_error area err (copy s)) as [i |] eqn:E; cbn.
  - destruct (shared s) as [k |]; (split; [| split; [by apply errors_ok_alter |]]); try done.
    + by apply errors_ok_alter.
    + by rewrite alter_keys.
  - split; [done | split; [by apply errors_ok_append | done]].
Qed.
End Errors.

(** ** The status through a block *)

Section Status.
Context `{Faults, Node, TxSync, Clock, Stake, FloatText, Slices}.
Context (BlockChainName : string) (error_text : error -> string).
Notation record := (recordError error_text).

(** The heights stay and the errors stay good. *)
Definition kept (c : chainSyncStatus) (p : chainSyncStatus * option error) : Prop :=
  st_LastHeight p.1 = st_LastHeight c /\ st_MaxHeightStored p.1 = st_MaxHeightStored c /\
  errors_ok (st_Errors p.1).

Lemma kept_refl c e : errors_ok (st_Errors c) -> kept c (c, e).
Proof. done. Qed.
Lemma kept_record c area err e : errors_ok (st_Errors c) -> kept c (record area err c, e).
Proof. intros Hc. split; [done | split; [done |]]. by apply record_in_ok. Qed.
Lemma kept_trans c p1 p2 : kept c p1 -> kept p1.1 p2 -> kept c p2.
Proof. intros (L1 & M1 & _) (L2 & M2 & E2). split; [congruence | split; [congruence | done]]. Qed.
Lemma kept_errors c p : kept c p -> errors_ok (st_Errors p.1).
Proof. by intros (_ & _ & ?). Qed.

Lemma stop_with_kept area err c :
  errors_ok (st_Errors c) -> yields (kept c) (stop_with error_text area err c).
Proof. intros Hc. by apply yields_ret, kept_record. Qed.

Lemma or_stop_kept {A} area c (m : M World A) k :
  errors_ok (st_Errors c) -> (forall a, yields (kept c) (k a)) ->
  yields (kept c) (or_stop error_text area c m k).
Proof. intros Hc Hk. apply yields_then. intros [a | e]; [apply Hk | by apply stop_with_kept]. Qed.

Lemma align_vouts_copied height t i vouts s :
  errors_ok (original s) -> errors_ok (copy s) ->
  yields (fun p => errors_ok (original p.1) /\ error_key <$> original p.1 = error_key <$> original s)
    (align_vouts BlockChainName error_text height t i vouts s).
Proof.
  revert i s. induction vouts as [| v vouts IH]; intros i s Ho Hc; cbn [align_vouts].
  { by apply yields_ret. }
  apply yields_then. intros [o |]; [| by apply yields_ret].
  apply yields_then. intros [[] | e]; [by apply IH |].
  apply yields_then. intros w.
  destruct (record_in_copy_ok error_text (append_moves (tick w)) height "vout-alignment" e s Ho Hc)
    as (Ho' & Hc' & Hk). rewrite <- Hk. by apply IH.
Qed.

(** [alignVouts] never adds an entry to the errors of its caller. *)
Lemma alignVouts_kept t vouts c :
  errors_ok (st_Errors c) ->
  yields (fun p => kept c p /\ error_key <$> st_Errors p.1 = error_key <$> st_Errors c)
    (alignVouts BlockChainName error_text t vouts c).
Proof.
  intros Hc. eapply yields_bind; [by apply align_vouts_copied |].
  intros [s e] [Ho Hk]. by apply yields_ret.
Qed.

Lemma alignVins_kept t i vins c :
  errors_ok (st_Errors c) -> yields (kept c) (alignVins error_text t i vins c).
Proof.
  revert i c. induction vins as [| v vins IH]; intros i c Hc; cbn [alignVins].
  { by apply yields_ret. }
  apply yields_then. intros o. apply yields_then. intros [inp |]; [| by apply yields_ret].
  apply yields_then. intros [[] | e]; [by apply IH |].
  intros w p w' E. eapply (kept_trans c (record "vin-alignment" e c, None));
    [by apply kept_record |]. eapply IH, E. by apply record_in_ok.
Qed.

Lemma align_parts_kept l t c :
  errors_ok (st_Errors c) -> yields (kept c) (align_parts BlockChainName error_text l t c).
Proof.
  intros Hc. apply or_stop_kept; [done |]. intros [].
  eapply yields_bind; [by apply alignVouts_kept |]. intros [c1 e1] [Hk1 _].
  assert (Hc1 := kept_errors _ _ Hk1). destruct e1 as [e |].
  { intros w p w' E. eapply kept_trans; [exact Hk1 | eapply stop_with_kept; [exact Hc1 | exact E]]. }
  intros w p w' E. eapply kept_trans; [exact Hk1 |]. revert E.
  apply (yields_bind (kept c1)); [by apply alignVins_kept |].
  intros [c2 e2] Hk2. assert (Hc2 := kept_errors _ _ Hk2). destruct e2 as [e |]; [| by apply yields_ret].
  intros w1 p1 w1' E1. eapply kept_trans; [exact Hk2 | eapply stop_with_kept; [exact Hc2 | exact E1]].
Qed.

Lemma align_one_kept block chainTx c :
  errors_ok (st_Errors c) -> yields (kept c) (align_one BlockChainName error_text block chainTx c).
Proof.
  intros Hc.
  assert (Hst : forall t, yields (kept c) (align_stored BlockChainName error_text block chainTx t c)).
  { intros t. apply or_stop_kept; [done |]. intros [].
    - apply or_stop_kept; [done |]. intros []. apply or_stop_kept; [done |].
      intros t'. by apply align_parts_kept.
    - by apply align_parts_kept. }
  apply yields_then. intros [t | e]; [apply Hst |].
  destruct (unwrap e); try by apply stop_with_kept.
  apply yields_then. intros [[] | e']; [| by apply yields_ret, kept_record].
  by apply or_stop_kept.
Qed.

Lemma alignTxs_kept block txs c :
  errors_ok (st_Errors c) -> yields (kept c) (alignTxs BlockChainName error_text block txs c).
Proof.
  revert c. induction txs as [| tx txs IH]; intros c Hc; cbn [alignTxs]; [by apply yields_ret |].
  eapply yields_bind; [by apply align_one_kept |]. intros [c1 e1] Hk.
  destruct e1 as [e |]; [by apply yields_ret |]. intros w p w' E.
  eapply kept_trans; [exact Hk | eapply IH, E]. by apply kept_errors in Hk.
Qed.

Lemma processNextBlock_kept c :
  errors_ok (st_Errors c) ->
  yields (kept (c <| st_LastHeight := st_LastHeight c + 1 |>))
    (processNextBlock BlockChainName error_text c).
Proof.
  intros Hc. unfold processNextBlock. set (c1 := c <| st_LastHeight := _ |>).
  assert (Hc1 : errors_ok (st_Errors c1)) by done.
  apply or_stop_kept; [done |]. intros hash. apply or_stop_kept; [done |]. intros json.
  assert (Hal : yields (kept c1) (align_block BlockChainName error_text hash json c1)).
  { apply or_stop_kept; [done |]. intros txs. apply or_stop_kept; [done |]. intros b.
    apply or_stop_kept; [done |]. intros b'.
    eapply yields_bind; [by apply alignTxs_kept |]. intros [c2 e2] Hk.
    destruct e2 as [e |]; [| by apply yields_ret]. intros w p w' E.
    eapply kept_trans; [exact Hk | eapply stop_with_kept, E]. by apply kept_errors in Hk. }
  apply yields_then. intros [b | e]; [exact Hal |]. unfold fill_missing.
  destruct (unwrap e); try by apply stop_with_kept.
  apply yields_then. intros h. destruct (negb _); [by apply stop_with_kept |].
  by apply or_stop_kept.
Qed.

(** ** The run *)

(** The walk is inside its window. *)
Definition status_ok (c : chainSyncStatus) : Prop :=
  0 <= st_LastHeight c <= st_MaxHeightStored c /\ errors_ok (st_Errors c).

(** The walk stays in its window and ends at its end or when the time is up. *)
Lemma sync_blocks_window left limit : forall c w c' w',
  left = Z.to_nat (st_MaxHeightStored c - st_LastHeight c) -> status_ok c ->
  sync_blocks BlockChainName error_text left limit c w = (Ok c', w') ->
  status_ok c' /\ st_MaxHeightStored c' = st_MaxHeightStored c /\
  st_LastHeight c <= st_LastHeight c' /\
  (st_LastHeight c' < st_MaxHeightStored c' -> exists now, limit <= clock now).
Proof.
  induction left as [| left IH]; intros c w c' w' Hl [Hh He]; cbn [sync_blocks];
    intros (now & w1 & Enow & E)%mbind_Ok; unfold time_now, ask in Enow; injection Enow as <- <-;
    destruct (Z.ltb_spec (clock (tick w)) limit) as [Hlt | Hge];
    destruct (Z.ltb_spec (st_LastHeight c) (st_MaxHeightStored c)) as [Hw | Hw]; cbn [andb] in E.
  all: try (injection E as <- _; split; [done | split; [done | split; [lia |]]]; intros ?;
    first [lia | by eexists]).
  apply mbind_Ok in E as ([c1 e1] & w2 & E1 & E).
  destruct (processNextBlock_kept c He _ _ _ E1) as (Kl & Km & Ke). cbn in Kl, Km, Ke.
  destruct (IH c1 w2 c' w') as (Hs & Hm & Hr & Ht); [lia | split; [lia | done] | done |].
  split; [done | split; [congruence | split; [lia | done]]].
Qed.

Lemma updateMaxHeightStored_ok c :
  status_ok c -> yields status_ok (updateMaxHeightStored c).
Proof.
  intros [Hh He]. apply yields_then. intros b. apply yields_ret.
  destruct (Z.leb_spec (block_Height b) (st_LastHeight c)); split; cbn; [lia | apply errors_ok_nil | lia | done].
Qed.
End Status.

(** ** The row of the job *)

Section Row.
Context `{Faults, Node, TxSync, Clock, Stake, FloatText, Slices, JsonState chainSyncStatus}.
Context `{!SyncRespects (same t_jobs)}.
Context (BlockChainName : string) (error_text : error -> string) (ChainSyncRunDuration : Z).
Notation same_jobs := (on_db (same t_jobs)).

(** ** What the row holds *)

(** The codec reads back what it wrote. *)
Context (json_laws : forall c s, marshal_state c = Ok s -> unmarshal_state s = Ok c).

Definition state_ok (j : JobStatus) : Prop :=
  forall c, unmarshal_state (default "" (status_State j)) = Ok c -> status_ok c.

Definition row_ok (d : DB) : Prop :=
  forall j, j ∈ rows (t_jobs d) -> status_JobName j = chainSyncJob -> state_ok j.
Notation row_kept := (on_db (keeps row_ok)).

Lemma row_same {A} (m : M World A) : steps same_jobs m -> steps row_kept m.
Proof.
  intros Hm w. specialize (Hm w). unfold on_db, same, keeps, row_ok in *. by rewrite <- Hm.
Qed.

Lemma row_updated j :
  state_ok j -> forall d u d', update_rows (fun _ => j) j d = Ok (u, d') -> keeps row_ok d d'.
Proof.
  intros Hj d u d' E Hd. unfold update_rows in E. destruct (List.find _ _); [| by simplify_eq].
  repeat case_match; simplify_eq. intros x Hx Hn. apply list_elem_of_fmap in Hx as (y & -> & Hy).
  cbn in *. case_match; [done | by apply Hd].
Qed.
Lemma row_inserted j :
  state_ok j -> forall d u d', insert_row j d = Ok (u, d') -> keeps row_ok d d'.
Proof.
  intros Hj d u d' E Hd. unfold insert_row in E. repeat case_match; simplify_eq.
  intros x Hx Hn. apply elem_of_app in Hx as [Hx | ->%list_elem_of_singleton]; [by apply Hd | done].
Qed.

Lemma row_insertG j : state_ok j -> steps row_kept (insertG j).
Proof.
  intros Hj. apply steps_bind; [typeclasses eauto | | intros r; apply row_same; go_steps].
  apply steps_stmt; [typeclasses eauto |]. by apply row_inserted.
Qed.
Lemma row_updateG j : state_ok j -> steps row_kept (updateG j).
Proof. intros Hj. apply steps_stmt; [typeclasses eauto |]. by apply row_updated. Qed.
Lemma row_saveJobError j e : state_ok j -> steps row_kept (saveJobError error_text j e).
Proof.
  intros Hj. unfold saveJobError. apply steps_bind; [typeclasses eauto | | intros r; go_steps].
  apply steps_try. unfold upsert_job.
  apply steps_stmt; [typeclasses eauto |]. intros d u d' E.
  set (j' := j <| status_ErrorMessage := _ |> <| status_IsSuccess := _ |>) in *.
  assert (Hj' : state_ok j') by done. destruct (row_exists _ d).
  - by eapply row_updated.
  - apply rbind_Ok in E as ([r d1] & Ei & [= _ <-]). by eapply row_inserted.
Qed.
Lemma row_done j c : status_ok c -> steps row_kept (doneChainSyncJob j c).
Proof.
  intros Hc. unfold doneChainSyncJob, time_now.
  apply steps_bind; [typeclasses eauto | apply row_same; go_steps | intros now].
  destruct (marshal_state c) as [bytes | e | e] eqn:Em; [| apply row_same; go_steps ..].
  apply steps_bind; [typeclasses eauto | | intros r; apply row_same; go_steps].
  apply steps_try, row_updateG. intros c' Hc'. cbn in Hc'.
  apply json_laws in Em. congruence.
Qed.

Lemma FindJobStatusG_named name :
  yields (fun j => status_JobName j = name) (FindJobStatusG name).
Proof. intros w j w' (_ & Hn & _)%oneG_found. by apply bool_decide_eq_true in Hn. Qed.

(** The row that is read is one that is kept, or the new one. *)
Lemma getChainSyncJobStatus_ok w r w' :
  row_ok (db w) -> getChainSyncJobStatus w = (r, w') ->
  row_ok (db w') /\
  forall j s, r = Ok (j, s) -> state_ok j /\ forall c, s = inl c -> status_ok c.
Proof.
  intros Hrow. unfold getChainSyncJobStatus. unfold mbind at 1.
  destruct (mtry (FindJobStatusG chainSyncJob) w) as [f w1] eqn:Ef.
  assert (Hw1 : db w1 = db w).
  { pose proof (steps_try (on_db eq) _ (steps_oneG eq (fun j => bool_decide (status_JobName j = chainSyncJob))) w) as Hs.
    unfold FindJobStatusG in Ef. rewrite Ef in Hs. by rewrite Hs. }
  destruct f as [f | e | e]; [| intros [= <- <-]; by rewrite Hw1 ..].
  unfold mbind at 1. set (m := match f with inl _ => _ | inr _ => _ end).
  assert (Hm : forall r2 w2, m w1 = (r2, w2) -> row_ok (db w2) /\ forall j, r2 = Ok j -> state_ok j).
  { subst m. destruct f as [j | e].
    - intros r2 w2 [= <- <-]. rewrite Hw1. split; [done |]. intros j' [= <-].
      apply mtry_Ok in Ef. pose proof (FindJobStatusG_named _ _ _ _ Ef) as Hn.
      apply oneG_found in Ef as (Hin & _). by apply Hrow.
    - destruct (unwrap e); try (intros r2 w2 [= <- <-]; by rewrite Hw1).
      unfold mbind, mlift. destruct (marshal_state (mkStatus 0 0 [])) as [bytes | e' | e'] eqn:Em;
        [| intros r2 w2 [= <- <-]; by rewrite Hw1 ..].
      set (j := mkJobStatus _ _ _ _ _). assert (Hj : state_ok j).
      { intros c Hc. cbn in Hc. rewrite (json_laws _ _ Em) in Hc. injection Hc as <-.
        split; [cbn; lia | apply errors_ok_nil]. }
      intros r2 w2. pose proof (row_insertG j Hj w1) as Hs. unfold mtry.
      assert (Hj' : yields (fun x => x = j) (insertG j)) by (by intros ? ? ? (-> & _)%insertG_Ok).
      destruct (insertG j w1) as [[x | e1 | e1] w3] eqn:Ei; intros [= <- <-].
      + split; [apply Hs; by rewrite Hw1 |]. intros j0 [= <-]. by rewrite (Hj' _ _ _ Ei).
      + split; [apply Hs; by rewrite Hw1 | done].
      + split; [apply Hs; by rewrite Hw1 | done]. }
  destruct (m w1) as [r2 w2] eqn:E2. destruct (Hm _ _ eq_refl) as [Hrow2 Hj].
  destruct r2 as [j | e | e]; [| by intros [= <- <-] ..]. specialize (Hj j eq_refl).
  unfold mbind at 1, mlift. destruct (unmarshal_state _) as [c | e | e] eqn:Eu;
    [| by intros [= <- <-] ..]. specialize (Hj c Eu) as Hc.
  destruct (st_MaxHeightStored c =? 0); [| intros [= <- <-]; split; [done |]; intros ? ? [= <- <-];
    split; [done |]; by intros ? [= <-]].
  unfold mbind. destruct (mtry (updateMaxHeightStored c) w2) as [[u | e | e] w3] eqn:Eu3; intros [= <- <-].
  all: assert (Hw3 : db w3 = db w2) by (
    pose proof (steps_try (on_db eq) (updateMaxHeightStored c)
      ltac:(unfold updateMaxHeightStored, best_block; go_steps) w2) as Hs; rewrite Eu3 in Hs; by rewrite Hs).
  all: rewrite Hw3; split; [done |]; try done.
  intros j' s [= <- <-]. split; [done |]. intros c' ->. apply mtry_Ok in Eu3.
  by eapply updateMaxHeightStored_ok.
Qed.

(** C20: whatever happens in a run of the chain sync job, failing statements and node, panics that
    are recovered, a time limit in the middle, the status in the job's row stays well formed: the
    walk is inside its window, at most a thousand errors are kept, one entry for each area and
    text, and every entry has a height. *)
Theorem ChainSync_status_kept w :
  row_ok (db w) -> row_ok (db (ChainSync BlockChainName error_text ChainSyncRunDuration w).2).
Proof.
  assert (Hs : steps row_kept (ChainSync BlockChainName error_text ChainSyncRunDuration));
    [| by apply Hs].
  apply steps_mrecover; [typeclasses eauto | | apply row_same; go_steps].
  clear w. intros w Hrow. unfold mbind at 1, mtry.
  destruct (getChainSyncJobStatus w) as [r w1] eqn:Eg.
  apply getChainSyncJobStatus_ok in Eg as [Hrow1 Hj]; [| done].
  destruct r as [[j s] | e | e]; [| done..]. destruct (Hj j s eq_refl) as [Hst Hc].
  destruct s as [c | e]; [| by apply row_saveJobError]. specialize (Hc c eq_refl).
  match goal with |- row_ok (db (snd (?m w1))) => assert (Hm : steps row_kept m); [| by apply Hm] end.
  apply (steps_bind_val _ (fun o => forall c, o = inl c -> status_ok c)).
  { apply row_same. destruct (_ <=? _); [| go_steps]. unfold updateMaxHeightStored, best_block. go_steps. }
  { destruct (_ <=? _); [| by intros ? ? ? [= <- _] ? [= <-]].
    intros w2 o w3 E c' ->. apply mtry_Ok in E. by eapply updateMaxHeightStored_ok. }
  intros [c' | e] Hc'; [| by apply row_saveJobError]. specialize (Hc' c' eq_refl).
  apply steps_bind; [typeclasses eauto | apply row_same; unfold time_now; go_steps | intros now].
  apply (steps_bind_val _ status_ok); [by apply row_same, steps_sync_blocks; typeclasses eauto | |].
  { intros w2 c2 w3 E. by eapply sync_blocks_window in E as [? _]. }
  intros c2 Hc2. by apply row_done.
Qed.
End Row.

(** ** What a pass over a block leaves behind *)

Section Alignment.
Context `{Faults, Node, TxSync, Clock, Stake, FloatText, Slices, !TxRowsLaws}.
Context (BlockChainName : string) (error_text : error -> string).
Notation record := (recordError error_text).

(** The columns agree with the node's transaction; a time that is NULL stays NULL. *)
Record aligned (l : TxRawResult) (t : Transaction) : Prop := {
  al_version : txn_Version t = tx_Version l;
  al_time : txn_TransactionTime t = None \/ txn_TransactionTime t = Some (u64 (tx_Time l));
  al_size : txn_TransactionSize t = u64 (tx_Size l);
  al_lock : txn_LockTime t = tx_LockTime l;
  al_inputs : txn_InputCount t = len (tx_Vin l);
  al_outputs : txn_OutputCount t = len (tx_Vout l);
}.

(** What alignment does not touch. *)
Definition same_tx (t t' : Transaction) : Prop :=
  txn_ID t' = txn_ID t /\ txn_Hash t' = txn_Hash t /\ txn_BlockHashID t' = txn_BlockHashID t.

Lemma differ_false {A} `{EqDecision A} (x y : A) : differ x y = false -> x = y.
Proof. unfold differ. rewrite negb_false_iff. apply bool_decide_eq_true. Qed.

Lemma set_columns_app {R} (a b : list (R -> R)) r :
  set_columns (a ++ b) r = set_columns b (set_columns a r).
Proof. apply foldl_app. Qed.
Lemma set_column {R} (P : R -> Prop) differs (set : R -> R) r :
  (differs = false -> P r) -> (differs = true -> P (set r)) -> P (set_columns (column differs set) r).
Proof. destruct differs; cbn; auto. Qed.

Lemma tx_columns_aligned l t :
  aligned l (set_columns (tx_columns l t) t) /\ same_tx t (set_columns (tx_columns l t) t).
Proof.
  unfold tx_columns. rewrite !set_columns_app. destruct t as [i b ic oc time size h v lk ct val].
  cbn [txn_Version txn_TransactionTime txn_TransactionSize txn_LockTime txn_InputCount txn_OutputCount].
  destruct (differ v _) eqn:E1; destruct (differ (default 0 time) _) eqn:E2;
    destruct (differ size _) eqn:E3; destruct (differ lk _) eqn:E4;
    destruct (differ ic _) eqn:E5; destruct (differ oc _) eqn:E6; cbn;
    repeat match goal with E : differ _ _ = false |- _ => apply differ_false in E end;
    (split; [constructor; cbn; try done; destruct time; cbn in *; subst; auto | done]).
Qed.

Lemma alignTx_run l t w w' :
  txs_ok (db w) -> t ∈ tx_rows (db w) -> alignTx l t w = (Ok tt, w') ->
  exists t', aligned l t' /\ same_tx t t' /\ tx_rows (db w') = replace_row t' (tx_rows (db w)).
Proof.
  intros Hok Ht E. destruct (tx_columns_aligned l t) as [Ha Hs].
  exists (set_columns (tx_columns l t) t). split; [exact Ha | split; [exact Hs |]].
  unfold alignTx, update_columns in E. destruct (tx_columns l t) as [| set cols] eqn:Ec.
  - injection E as <-. cbn [set_columns foldl]. unfold replace_row.
    rewrite (map_ext_in _ (fun x => x)); [by rewrite map_id |]. intros x Hx%list_elem_of_In.
    rewrite same_key_key. destruct (Z.eqb_spec (key t) (key x)); [| done].
    by apply (keys_ok_eq (tx_rows (db w))); [apply Hok |..].
  - rewrite (update_colsG_keyed (set_columns (set :: cols)) (set_columns (set :: cols) t) t w tt w').
    + unfold tx_rows. change t_transactions with (get_table (R:=Transaction)). by rewrite get_set.
    + apply Hok.
    + exact Ht.
    + apply Hs.
    + apply Hs.
    + exact E.
Qed.

Lemma or_stop_Ok {A} area c (m : M World A) k w c' w' :
  or_stop error_text area c m k w = (Ok (c', None), w') ->
  exists a w1, m w = (Ok a, w1) /\ k a w1 = (Ok (c', None), w').
Proof.
  intros E. apply mbind_Ok in E as ([a | e] & w1 & Em & E); [| done].
  apply mtry_Ok in Em. by exists a, w1.
Qed.

Lemma align_parts_run l t c w c' w' :
  txs_ok (db w) -> t ∈ tx_rows (db w) ->
  align_parts BlockChainName error_text l t c w = (Ok (c', None), w') ->
  exists t', aligned l t' /\ same_tx t t' /\ tx_rows (db w') = replace_row t' (tx_rows (db w)).
Proof.
  intros Hok Ht ([] & w1 & Ea & E)%or_stop_Ok.
  destruct (alignTx_run l t w w1 Hok Ht Ea) as (t' & Ha & Hs & Hr).
  exists t'. split; [done | split; [done |]]. rewrite <- Hr.
  apply mbind_Ok in E as ([c1 [e |]] & w2 & Ev & E); [done |].
  apply mbind_Ok in E as ([c2 [e |]] & w3 & Ei & E); [done |]. injection E as _ <-.
  pose proof (steps_alignVouts BlockChainName error_text (same t_transactions) t (tx_Vout l) c w1) as K1.
  pose proof (steps_alignVins error_text (same t_transactions) t 0 (tx_Vin l) c1 w2) as K2.
  rewrite Ev in K1. rewrite Ei in K2. unfold on_db, same in K1, K2. cbn [snd] in K1, K2.
  unfold tx_rows. by rewrite <- K2, <- K1.
Qed.

Definition stored_aligned (block : Block) (tx : chainSyncTx) (d : DB) : Prop :=
  exists t, t ∈ tx_rows d /\ txn_Hash t = Hash tx /\
    txn_BlockHashID t = Some (block_Hash block) /\ aligned (Raw tx) t.

Lemma stored_tx_found block h w t w' :
  stored_tx block h w = (Ok t, w') ->
  t ∈ tx_rows (db w) /\ txn_Hash t = h /\ txn_BlockHashID t = Some (block_Hash block) /\ db w' = db w.
Proof.
  intros (Hin & Hf & Hd)%oneG_found. apply andb_true_iff in Hf as [Hb%bool_decide_eq_true Hh%bool_decide_eq_true].
  done.
Qed.

Lemma parts_stored block tx t c w c' w' :
  txs_ok (db w) -> t ∈ tx_rows (db w) -> txn_Hash t = Hash tx ->
  txn_BlockHashID t = Some (block_Hash block) ->
  align_parts BlockChainName error_text (Raw tx) t c w = (Ok (c', None), w') ->
  other_txs (Hash tx) (db w) (db w') /\ stored_aligned block tx (db w').
Proof.
  intros Hok Ht Hh Hb E. destruct (align_parts_run _ _ _ _ _ _ Hok Ht E) as (t' & Ha & (Hi & Hh' & Hb') & Hr).
  split.
  - eapply (other_txs_replace _ t t'); [done | done | done | congruence | done].
  - exists t'. rewrite Hr, (elem_of_replace_row t' t); [| done | done].
    split; [by left | split; [congruence | split; [congruence | done]]].
Qed.

(** No row of the block has the transaction. *)
Definition not_stored (block : Block) (tx : chainSyncTx) (d : DB) : Prop :=
  forall t, t ∈ tx_rows d -> txn_Hash t = Hash tx -> txn_BlockHashID t <> Some (block_Hash block).

(** The transaction was not stored in [w], and processing it from there failed, which is all
    that happened before [w'] and what the status [c'] records. *)
Definition not_processed (block : Block) (tx : chainSyncTx) (c : chainSyncStatus) (w : World)
  (c' : chainSyncStatus) (w' : World) : Prop :=
  not_stored block tx (db w) /\
  exists w1 e, db w1 = db w /\
    process_tx (Raw tx) (block_BlockTime block) (u64 (st_LastHeight c)) w1 = (Err e, w') /\
    c' = record "tx-processing" e c.

Lemma steps_txPartsMissing l t : steps (on_db eq) (txPartsMissing l t).
Proof. unfold txPartsMissing. go_steps. Qed.

Lemma align_stored_run block tx t c w c' w' :
  tx_Txid (Raw tx) = Hash tx -> txs_ok (db w) -> t ∈ tx_rows (db w) -> txn_Hash t = Hash tx ->
  txn_BlockHashID t = Some (block_Hash block) ->
  align_stored BlockChainName error_text block tx t c w = (Ok (c', None), w') ->
  other_txs (Hash tx) (db w) (db w') /\ stored_aligned block tx (db w').
Proof.
  intros Hid Hok Ht Hh Hb (missing & w1 & Em & E)%or_stop_Ok.
  assert (Hw1 : db w1 = db w).
  { pose proof (steps_txPartsMissing (Raw tx) t w) as Hs. rewrite Em in Hs. by rewrite Hs. }
  rewrite <- Hw1 in *. destruct missing; [| by eapply parts_stored].
  apply or_stop_Ok in E as ([] & w2 & Ep & E).
  pose proof (process_tx_others (Raw tx) (block_BlockTime block) (u64 (st_LastHeight c)) w1) as Hf.
  rewrite Ep, Hid in Hf. cbn in Hf. unfold on_db in Hf. destruct (Hf Hok) as [Hok2 _].
  apply or_stop_Ok in E as (t2 & w3 & Es & E).
  apply stored_tx_found in Es as (Ht2 & Hh2 & Hb2 & Hw3). rewrite <- Hw3 in Ht2, Hf, Hok2.
  destruct (parts_stored block tx t2 c w3 c' w' Hok2 Ht2 Hh2 Hb2 E) as [Hf3 Hst].
  split; [by etrans | done].
Qed.

Lemma stored_tx_none `{!DriverFaults} block tx w e w' :
  stored_tx block (Hash tx) w = (Err e, w') -> unwrap e = ErrNoRows ->
  not_stored block tx (db w) /\ db w' = db w.
Proof.
  intros E Hu. destruct (oneG_no_rows _ _ _ _ E Hu) as [Hno Hd]. split; [| done].
  intros t Ht Hh Hb. specialize (Hno t Ht). cbn in Hno. rewrite Hb, Hh in Hno.
  by rewrite !bool_decide_eq_true_2 in Hno.
Qed.

(** C18: the alignment of one transaction.  When it ends without an error the transaction the
    node lists is stored in the block with the node's version, size, lock time and counts of
    inputs and outputs, and its time unless that is NULL, whether the row was there, incomplete
    or missing.  The only other way to end so is a transaction that was not stored and on which
    [ProcessTx], run from there, failed: that is recorded in the status and nothing follows.
    Transactions of other hashes stay as they were. *)
Theorem align_one_spec `{!DriverFaults} block tx c w c' w' :
  tx_Txid (Raw tx) = Hash tx -> txs_ok (db w) ->
  align_one BlockChainName error_text block tx c w = (Ok (c', None), w') ->
  other_txs (Hash tx) (db w) (db w') /\
  (stored_aligned block tx (db w') \/ not_processed block tx c w c' w').
Proof.
  intros Hid Hok E. apply mbind_Ok in E as ([t | e] & w1 & Es & E); apply mtry_Ok in Es.
  - apply stored_tx_found in Es as (Ht & Hh & Hb & Hw1). rewrite <- Hw1 in *.
    destruct (align_stored_run block tx t c w1 c' w' Hid Hok Ht Hh Hb E). auto.
  - destruct (unwrap e) eqn:Hu; try done. apply stored_tx_none in Es as [Hno Hw1]; [| done].
    rewrite <- Hw1 in Hok. apply mbind_Ok in E as ([[] | e'] & w2 & Ep & E); apply mtry_Ok in Ep;
      pose proof (process_tx_others (Raw tx) (block_BlockTime block) (u64 (st_LastHeight c)) w1) as Hf;
      rewrite Ep, Hid in Hf; cbn in Hf; unfold on_db in Hf; rewrite Hw1 in Hf, Hok.
    + apply or_stop_Ok in E as (t & w3 & Et & E).
      apply stored_tx_found in Et as (Ht & Hh & Hb & Hw3). destruct (Hf Hok) as [Hok2 _].
      rewrite <- Hw3 in *.
      destruct (align_stored_run block tx t c w3 c' w' Hid Hok2 Ht Hh Hb E) as [Hf3 Hst].
      split; [by etrans | by left].
    + injection E as <- <-. split; [done |]. right. split; [done |]. by exists w1, e'.
Qed.

(** *** Coinbases *)

(** The transaction is stored in the block with all its parts, and none of its inputs names a
    previous output: what [ProcessVin] leaves of a coinbase. *)
Record coinbase_stored (block : Block) (tx : chainSyncTx) (d : DB) : Prop := {
  cb_row : exists t, t ∈ tx_rows d /\ txn_Hash t = Hash tx /\
    txn_BlockHashID t = Some (block_Hash block);
  cb_inputs : forall i, i ∈ rows (t_inputs d) -> in_TransactionHash i = Hash tx ->
    in_PrevoutHash i = None;
  cb_parts : len (tx_Vin (Raw tx)) <=
      Z.of_nat (count_if (fun i => bool_decide (in_TransactionHash i = Hash tx)) (rows (t_inputs d))) /\
    len (tx_Vout (Raw tx)) <=
      Z.of_nat (count_if (fun o => bool_decide (out_TransactionHash o = Hash tx)) (rows (t_outputs d)));
}.

(** [prevout_hash = ''] does not match NULL. *)
Lemma GetInput_none h cb p n w o w' :
  (forall i, i ∈ rows (t_inputs (db w)) -> in_TransactionHash i = h -> in_PrevoutHash i = None) ->
  GetInput h cb p n w = (Ok o, w') -> o = None /\ db w' = db w.
Proof.
  intros Hno E. assert (Hd : db w' = db w).
  { pose proof (steps_GetInput eq h cb p n w) as Hs. rewrite E in Hs. by rewrite Hs. }
  split; [| done]. apply get_or_nil_Ok in E. destruct o as [i |]; [| done].
  apply oneG_found in E as (Hin & Hf & _). unfold input_at in Hf.
  rewrite !andb_true_iff, !bool_decide_eq_true in Hf. destruct Hf as [[[Hh _] Hp] _].
  rewrite (Hno i Hin Hh) in Hp. done.
Qed.

Lemma alignVins_coinbase t vin vins c w c' w' :
  (forall i, i ∈ rows (t_inputs (db w)) -> in_TransactionHash i = txn_Hash t -> in_PrevoutHash i = None) ->
  alignVins error_text t 0 (vin :: vins) c w <> (Ok (c', None), w').
Proof.
  intros Hno E. cbn [alignVins] in E. apply mbind_Ok in E as (o & w1 & E1 & E).
  apply GetInput_none in E1 as [-> Hd]; [| done].
  apply mbind_Ok in E as (o & w2 & E2 & E).
  assert (o = None) as ->; [| done]. case_bool_decide; [by injection E2 as <- _ |].
  apply GetInput_none in E2 as [-> _]; [done |]. by rewrite Hd.
Qed.

Lemma align_one_coinbase `{!DriverFaults} block tx vin vins c w c' w' :
  coinbase_stored block tx (db w) -> tx_Vin (Raw tx) = vin :: vins ->
  align_one BlockChainName error_text block tx c w <> (Ok (c', None), w').
Proof.
  intros [(t0 & Ht0 & Hh0 & Hb0) Hno [Hpi Hpo]] Hv E.
  apply mbind_Ok in E as ([t | e] & w1 & Es & E); apply mtry_Ok in Es; cycle 1.
  { destruct (unwrap e) eqn:Hu; try done. destruct (oneG_no_rows _ _ _ _ Es Hu) as [Habs _].
    specialize (Habs t0 Ht0). cbn in Habs. rewrite Hb0, Hh0 in Habs.
    by rewrite !bool_decide_eq_true_2 in Habs. }
  apply stored_tx_found in Es as (Ht & Hh & Hb & Hw1).
  apply or_stop_Ok in E as (missing & w2 & Em & E).
  assert (Hw2 : db w2 = db w1).
  { pose proof (steps_txPartsMissing (Raw tx) t w1) as Hs. rewrite Em in Hs. by rewrite Hs. }
  assert (missing = false) as ->.
  { apply mbind_Ok in Em as (n & w3 & E1 & Em). apply mbind_Ok in Em as (m & w4 & E2 & [= <- _]).
    apply query_Ok in E1 as [[= <-] Hd1]. apply query_Ok in E2 as [[= <-] _].
    rewrite Hd1, Hw1, Hh. cbn [get_table row_input row_output].
    apply orb_false_iff. split; apply Z.ltb_ge; [exact Hpi | exact Hpo]. }
  apply or_stop_Ok in E as ([] & w3 & Ea & E).
  apply mbind_Ok in E as ([c1 [e |]] & w4 & Ev & E); [done |].
  apply mbind_Ok in E as ([c2 [e |]] & w5 & Ei & E); [done |]. rewrite Hv in Ei.
  apply alignVins_coinbase in Ei; [done |]. rewrite Hh.
  pose proof (steps_alignVouts BlockChainName error_text (same t_inputs) t (tx_Vout (Raw tx)) c w3) as K.
  pose proof (steps_update_columns (same t_inputs) _ t (tx_columns_key (Raw tx) t) w2) as K2.
  unfold alignTx in Ea. rewrite Ev in K. rewrite Ea in K2. unfold on_db, same in K, K2.
  cbn [snd] in K, K2. rewrite <- K, <- K2, Hw2, Hw1. exact Hno.
Qed.

(** C19: the alignment of a block ends at its coinbase.  When the coinbase is stored the way
    [ProcessVin] stores it, without a previous output, [alignVins] looks for an input whose
    previous hash is the empty string, which no row has; the pass reports an error and the other
    transactions of the block play no part in what it does. *)
Theorem coinbase_stops_alignment `{!DriverFaults} block tx vin vins c w :
  coinbase_stored block tx (db w) -> tx_Vin (Raw tx) = vin :: vins ->
  exists r w', (forall c', r <> Ok (c', None)) /\
    forall txs, alignTxs BlockChainName error_text block (tx :: txs) c w = (r, w').
Proof.
  intros Hcb Hv. cbn [alignTxs]. unfold mbind.
  destruct (align_one BlockChainName error_text block tx c w) as [[[c1 [e |]] | e | e] w1] eqn:E.
  - by exists (Ok (c1, Some e)), w1.
  - by destruct (align_one_coinbase block tx vin vins c w c1 w1 Hcb Hv).
  - by exists (Err e), w1.
  - by exists (Panic e), w1.
Qed.
End Alignment.

(** ** Worked examples *)

Module ChainSyncExamples.
Import Demo.
#[export] Instance demo_txsync : TxSync := block_sync chain 4 3 demo_schedule.
#[export] Instance demo_clock : Clock := {| clock now := Z.of_nat now |}.
#[export] Instance demo_floats : FloatText := {| six_decimals f := f |}.
#[export] Instance demo_slices : Slices := {| append_moves _ := true |}.
Definition demo_text (e : error) : string := match e with ErrMsg m => m | _ => "" end.

(** A codec: the code of a status in binary. *)
Definition syncError_tuple (e : syncError) := (se_HeightFound e, se_Error e, se_Area e).
#[export] Instance syncError_eq_dec : EqDecision syncError.
Proof. solve_decision. Defined.
#[export] Instance syncError_countable : Countable syncError.
Proof.
  apply (inj_countable' syncError_tuple (fun '(h, e, a) => Build_syncError h e a)). by intros [].
Defined.
#[export] Instance status_eq_dec : EqDecision chainSyncStatus.
Proof. solve_decision. Defined.
#[export] Instance status_countable : Countable chainSyncStatus.
Proof.
  apply (inj_countable' (fun c => (st_LastHeight c, st_MaxHeightStored c, st_Errors c))
    (fun '(l, m, e) => mkStatus l m e)). by intros [].
Defined.
Fixpoint write_pos (p : positive) : string :=
  match p with
  | xH => ""
  | xO q => String (Ascii.ascii_of_nat 48) (write_pos q)
  | xI q => String (Ascii.ascii_of_nat 49) (write_pos q)
  end.
Fixpoint read_pos (s : string) : positive :=
  match s with
  | EmptyString => xH
  | String a s' => if bool_decide (a = Ascii.ascii_of_nat 48) then xO (read_pos s') else xI (read_pos s')
  end.
Lemma read_write_pos p : read_pos (write_pos p) = p.
Proof. induction p as [p IH | p IH |]; cbn; [| | done]; by rewrite IH. Qed.
#[export] Instance demo_state : JsonState chainSyncStatus := {|
  marshal_state c := Ok (write_pos (encode c));
  unmarshal_state s := match decode (read_pos s) with Some c => Ok c | None => Err (ErrMsg "json") end;
|}.
Lemma demo_state_laws c s : marshal_state c = Ok s -> unmarshal_state s = Ok c.
Proof. intros [= <-]. cbn. by rewrite read_write_pos, decode_encode. Qed.

(** The block [b1] is stored without its transactions, the job's row says that the walk is at
    height 0 of 1. *)
Definition job_row : JobStatus :=
  mkJobStatus chainSyncJob zero_time false None (Some (write_pos (encode (mkStatus 0 1 [])))).
Definition sync_world : World := mkWorld (db demo_world1 <| t_jobs := mkTable [job_row] 2 |>) 0.

Lemma ChainSync_status_kept_witness :
  row_ok (db sync_world) /\ row_ok (db (ChainSync chain demo_text 60 sync_world).2).
Proof.
  assert (Hok : row_ok (db sync_world)).
  { intros j ->%list_elem_of_singleton _ c Hc. cbn in Hc.
    rewrite read_write_pos, decode_encode in Hc. injection Hc as <-.
    split; [cbn; lia | apply errors_ok_nil]. }
  split; [exact Hok |]. by apply (ChainSync_status_kept chain demo_text 60 demo_state_laws sync_world).
Defined.

(** The block is stored with its transactions. *)
Definition b1 : Block := stored_block 2 1 "b1" (Some "g") (Some "processing").
Definition chain_tx (tx : TxRawResult) : chainSyncTx := {| Hash := tx_Txid tx; Raw := tx |}.
Definition demo_align (txs : list chainSyncTx) : M World (chainSyncStatus * option error) :=
  alignTxs chain demo_text b1 txs (mkStatus 1 1 []).
(** The coinbase [aa] is stored, [bb] is not yet. *)
Definition world_aa : World :=
  snd (ProcessTx chain in_order in_order tx_aa 50 1 demo_world1).

#[export] Instance demo_healthy : Healthy.
Proof. done. Defined.
(** [bb] is stored with the version and the size of another transaction. *)
Definition world_changed : World :=
  let d := db (snd (ProcessTx chain in_order in_order tx_bb 50 1 world_aa)) in
  mkWorld (d <| t_transactions := mkTable (map
    (fun t => t <| txn_Version := 9 |> <| txn_TransactionSize := 1 |>) (tx_rows d)) 9 |>) 0.
Definition aligned_bb : World :=
  snd (align_one chain demo_text b1 (chain_tx tx_bb) (mkStatus 1 1 []) world_changed).

Lemma align_one_spec_witness :
  Forall (fun t => txn_Version t = 9) (tx_rows (db world_changed)) /\
  stored_aligned b1 (chain_tx tx_bb) (db aligned_bb).
Proof.
  split; [vm_compute; repeat constructor |].
  destruct (align_one_spec chain demo_text b1 (chain_tx tx_bb) (mkStatus 1 1 []) world_changed
    (mkStatus 1 1 []) aligned_bb) as (_ & [Hs | [Hno _]]).
  - reflexivity.
  - split; vm_compute; repeat constructor; set_solver.
  - vm_compute. reflexivity.
  - exact Hs.
  - assert (Hex : Exists (fun t => txn_Hash t = "bb" /\ txn_BlockHashID t = Some "b1")
      (tx_rows (db world_changed))) by (apply (bool_decide_unpack _); vm_compute; exact I).
    apply Exists_exists in Hex as (t & Ht & Hh & Hb). by destruct (Hno t Ht Hh Hb).
Defined.

Lemma coinbase_stops_alignment_witness :
  coinbase_stored b1 (chain_tx tx_aa) (db world_aa) /\
  exists r w', (forall c', r <> Ok (c', None)) /\
    forall txs, demo_align (chain_tx tx_aa :: txs) world_aa = (r, w').
Proof.
  assert (Hcb : coinbase_stored b1 (chain_tx tx_aa) (db world_aa)).
  { split.
    - eexists. split; [vm_compute; apply list_elem_of_here | split; reflexivity].
    - intros i Hi _. vm_compute in Hi. by apply list_elem_of_singleton in Hi as ->.
    - split; vm_compute; discriminate. }
  split; [exact Hcb |].
  by apply (coinbase_stops_alignment chain demo_text b1 (chain_tx tx_aa) coinbase []).
Defined.
End ChainSyncExamples.
