(* ===== verification/Columns.v ===== *)
(** * What the columns of outputs and inputs say

    Two facts that no key of the database enforces, and that the handlers have to keep: an
    output is marked as spent exactly when it names the input that spends it ([marked]), and an
    input has no source exactly when it is that of a coinbase ([sourced]).  The statements on
    other tables do not look at them; here are those that write outputs and inputs: the workers
    of a transaction ([Workers]), the clean-up of an aborted block, the deletions and the
    alignment of columns by the chain sync. *)
From S2P Require Import Prelude Bytes Script Lbrycrd Rows Store Datastore StoreFacts Schema.
From S2P Require Import Claims Transactions TransactionFacts BlockSync BlockProcessing Jobs Daemon.
From S2P Require Import ProcessFacts ChainSync ChainSyncFacts.

(** ** A property of every row of a table *)

Section Rows.
Context `{Faults, Row T, !RowLaws T} (P : T -> Prop).

Definition rows_say (d : DB) : Prop := forall r, r ∈ rows (get_table (R:=T) d) -> P r.
#[local] Notation kept := (steps (on_db (keeps rows_say))).

Lemma say_oneG f w (r : T) w' : oneG f w = (Ok r, w') -> rows_say (db w) -> P r.
Proof. intros (Hr & _ & _)%oneG_found Hd. by apply Hd. Qed.

Lemma say_insertG r : (forall i, P (fill_key i r)) -> kept (insertG r).
Proof.
  intros Hr. apply steps_bind; [typeclasses eauto | | intros x; go_steps].
  apply steps_stmt; [typeclasses eauto |]. intros d x d' E Hd. unfold insert_row in E.
  repeat case_match; simplify_eq. intros y. rewrite get_set. cbn [rows].
  intros [Hy | ->%list_elem_of_singleton]%elem_of_app; [by apply Hd | apply Hr].
Qed.
Lemma say_update_colsG upd r : (forall old, P old -> P (upd old)) -> kept (update_colsG upd r).
Proof.
  intros Hu. apply steps_stmt; [typeclasses eauto |]. intros d x d' E Hd. unfold update_rows in E.
  destruct (List.find _ _) as [old |] eqn:Ef; [| by simplify_eq].
  apply find_some in Ef as [Hin%list_elem_of_In _]. repeat case_match; simplify_eq.
  intros y. rewrite get_set. cbn [rows].
  intros (z & -> & Hz)%list_elem_of_fmap. destruct (same_key r z); [by apply Hu, Hd | by apply Hd].
Qed.
Lemma say_updateG r : P r -> kept (updateG r).
Proof. intros Hr. by apply (say_update_colsG (fun _ => r)). Qed.

(** What was read says it too. *)
Lemma say_bind {A B} (Q : A -> Prop) (m : M World A) (f : A -> M World B) :
  kept m -> (forall w a w', m w = (Ok a, w') -> rows_say (db w) -> Q a) ->
  (forall a, Q a -> kept (f a)) -> kept (mbind m f).
Proof.
  intros Hm HQ Hf w Hw. specialize (Hm w Hw). unfold mbind.
  destruct (m w) as [[a | e | e] w1] eqn:E; [| exact Hm..]. by apply (Hf a (HQ _ _ _ E Hw)).
Qed.
Lemma say_get_or_nil f w (o : option T) w' :
  get_or_nil (oneG f) w = (Ok o, w') -> rows_say (db w) -> forall r, o = Some r -> P r.
Proof.
  intros E%get_or_nil_Ok Hw r ->. by eapply say_oneG.
Qed.
End Rows.

(** ** The two facts *)

Definition marked (o : Output) : Prop :=
  out_IsSpent o = true <-> is_Some (out_SpentByInputID o).
Definition sourced (i : Input) : Prop :=
  if in_IsCoinbase i then in_PrevoutHash i = None /\ in_PrevoutN i = None
  else is_Some (in_PrevoutHash i) /\ is_Some (in_PrevoutN i).

Definition marks_ok : DB -> Prop := rows_say marked.
Definition sources_ok : DB -> Prop := rows_say sourced.
Notation marks_kept := (keeps marks_ok).
Notation sources_kept := (keeps sources_ok).

#[export] Hint Extern 1 (Ignores (keeps _) _) => (intros ? [] ?; assumption) : typeclass_instances.

#[export] Instance marks_delete : StableDelete marks_kept.
Proof.
  intros b d Hd o Ho. apply Hd. unfold delete_block in Ho. cbn in Ho |- *.
  by apply in_filter in Ho as [Ho _].
Qed.
#[export] Instance sources_delete : StableDelete sources_kept.
Proof.
  intros b d Hd i Hi. apply Hd. unfold delete_block in Hi. cbn in Hi |- *.
  by apply in_filter in Hi as [Hi _].
Qed.
Lemma delete_transactions_marks gone d : marks_kept d (delete_transactions gone d).
Proof. intros Hd o Ho. apply Hd. cbn in Ho |- *. by apply in_filter in Ho as [Ho _]. Qed.
Lemma delete_transactions_sources gone d : sources_kept d (delete_transactions gone d).
Proof. intros Hd i Hi. apply Hd. cbn in Hi |- *. by apply in_filter in Hi as [Hi _]. Qed.

(** An aborted block's spent outputs are unspent again. *)
#[export] Instance marks_unspent : StableOutputs marks_kept.
Proof.
  intros f d Hd o. cbn. intros (x & -> & Hx)%list_elem_of_fmap.
  destruct (f x); [| by apply Hd]. split; [done | by intros [? ?]].
Qed.

(** ** Outputs *)

Section Marks.
Context `{Faults, Stake, Hashes, AddressCodec, PurchaseCodec, JsonStrings}.
Notation kept := (steps (on_db marks_kept)).

Lemma fill_marked i o : marked o -> marked (fill_key i o).
Proof. intros Ho. cbn. by destruct (out_ID o =? 0). Qed.

Lemma marks_PutOutput o cols :
  marked o -> (forall i old, marked old -> marked (cols (o <| out_ID := i |>) old)) ->
  kept (PutOutput o cols).
Proof.
  intros Ho Hcols. unfold PutOutput. apply steps_prefixed; [typeclasses eauto |].
  apply steps_bind; [typeclasses eauto | go_steps |]. intros [old |].
  - apply steps_bind; [typeclasses eauto | apply say_update_colsG; auto |].
    intros _. apply steps_ret. typeclasses eauto.
  - apply say_insertG. intros i. by apply fill_marked.
Qed.

(** The output that an input spends. *)
Lemma marks_spend o i :
  kept (PutOutput (o <| out_IsSpent := true |> <| out_SpentByInputID := Some i |>) spent_columns).
Proof. apply marks_PutOutput; [done | intros j old _; done]. Qed.

(** An output that is stored again, as a new one or with what was stored of it. *)
Lemma marks_put_again o : marked o -> kept (PutOutput o infer).
Proof. intros Ho. apply marks_PutOutput; [done | intros i old _; exact Ho]. Qed.
#[local] Hint Resolve marks_spend marks_put_again : go.

Lemma PutOutput_marked o w o' w' :
  marked o -> PutOutput o infer w = (Ok o', w') -> marked o'.
Proof.
  intros Ho E%prefixed_Ok. apply mbind_Ok in E as ([old |] & w1 & _ & E).
  - by apply mbind_Ok in E as (u & w2 & _ & [= <- _]).
  - apply insertG_Ok in E as (-> & _). by apply fill_marked.
Qed.

Lemma marks_finish_vout chain o v tx dc a h :
  marked o -> kept (finish_vout chain o v tx dc a h).
Proof.
  intros Ho. unfold finish_vout. cbv zeta.
  apply (steps_bind_val _ marked); [by apply marks_put_again | |].
  { intros w o' w'. by apply PutOutput_marked. }
  intros o' Ho'. apply steps_bind; [typeclasses eauto | go_steps |]. intros [t |]; [| go_steps].
  apply steps_bind; [typeclasses eauto | go_steps |]. intros [c |]; [| go_steps].
  apply steps_bind; [typeclasses eauto | go_steps |]. intros cl.
  apply steps_bind; [typeclasses eauto | | intros; go_steps].
  apply marks_put_again. by destruct cl.
Qed.

Lemma marks_ProcessVout chain v tx dc h : kept (ProcessVout chain v tx dc h).
Proof.
  unfold ProcessVout. apply (say_bind marked (fun o => marked (default new_output o))).
  { go_steps. }
  { intros w [o |] w' E Hw; [by eapply (say_get_or_nil marked) | split; [done | by intros [? ?]]]. }
  intros found Hf. cbv zeta.
  assert (Hm : forall l, marked (fill_output (default new_output found) v tx <| out_AddressList := l |>) /\
    marked (fill_output (default new_output found) v tx)) by done.
  assert (Hfin : forall l a, kept (finish_vout chain
    (fill_output (default new_output found) v tx <| out_AddressList := l |>) v tx dc a h))
    by (intros l a; by apply marks_finish_vout, Hm).
  destruct (bool_decide _).
  { apply steps_bind; [typeclasses eauto | go_steps | intros _].
    apply steps_bind; [typeclasses eauto | by apply marks_put_again, (Hm None) | intros; go_steps]. }
  destruct (spk_Addresses _) as [| first rest].
  - apply steps_bind; [typeclasses eauto | go_steps |]. intros s. destruct (bool_decide _).
    { apply steps_bind; [typeclasses eauto | by apply marks_put_again, (Hm None) | intros; go_steps]. }
    apply steps_bind; [typeclasses eauto | go_steps |]. intros [a |]; [apply Hfin | go_steps].
  - apply steps_bind; [typeclasses eauto | go_steps |]. intros [a |]; [apply Hfin | go_steps].
Qed.

#[export] Instance marks_workers : Workers marks_kept.
Proof. split; intros; [unfold ProcessVin; go_steps | apply marks_ProcessVout]. Qed.

#[export] Instance marks_aligns_vouts : AlignsVouts marks_kept.
Proof.
  intros v o. unfold vout_columns, column. destruct (negb _);
    [| apply steps_ret; typeclasses eauto].
  apply say_update_colsG. intros old Hold. exact Hold.
Qed.
End Marks.

(** ** Inputs *)

Section Sources.
Context `{Faults, Stake, Hashes, AddressCodec, PurchaseCodec, JsonStrings}.
Notation kept := (steps (on_db sources_kept)).

Lemma sources_PutInput i : sourced i -> kept (PutInput i).
Proof.
  intros Hi. unfold PutInput. apply steps_prefixed; [typeclasses eauto |].
  apply steps_bind; [typeclasses eauto | go_steps |]. intros [].
  - apply steps_bind; [typeclasses eauto | by apply say_updateG | intros; go_steps].
  - apply say_insertG. intros j. cbn. by destruct (in_ID i =? 0).
Qed.
Lemma new_input_sourced v tx n : sourced (new_input v tx n).
Proof. unfold sourced, new_input. cbn. by case_bool_decide; cbn; eauto. Qed.
#[local] Hint Extern 1 (steps _ (PutInput _)) => (apply sources_PutInput; assumption) : go.

Lemma sources_ProcessVin chain v tx dc n : kept (ProcessVin chain v tx dc n).
Proof.
  unfold ProcessVin. cbv zeta. apply steps_bind; [typeclasses eauto | go_steps |]. intros found.
  pose proof (new_input_sourced v tx n) as Hi.
  set (i := match found with Some f => _ | None => _ end).
  assert (Hi' : sourced i) by (subst i; by destruct found). clearbody i.
  destruct (in_IsCoinbase i) eqn:Ec; [go_steps |].
  destruct (vin_ScriptSig v) as [sig |]; [| go_steps].
  apply steps_bind; [typeclasses eauto | go_steps |]. intros [src |]; [| go_steps].
  apply steps_bind; [typeclasses eauto | go_steps |]. intros [a |]; [| go_steps].
  apply steps_bind; [typeclasses eauto | by apply sources_PutInput | intros i']. go_steps.
Qed.

#[export] Instance sources_workers : Workers sources_kept.
Proof.
  split; intros; [apply sources_ProcessVin | apply steps_ProcessVout; typeclasses eauto].
Qed.

Lemma columns_sourced cols :
  Forall (fun set => forall i, sourced i -> sourced (set i)) cols ->
  forall i, sourced i -> sourced (set_columns cols i).
Proof.
  intros Hc. induction Hc as [| set cols Hs _ IH]; intros i Hi; [done |].
  unfold set_columns in *. cbn. by apply IH, Hs.
Qed.
#[export] Instance sources_aligns_vins : AlignsVins sources_kept.
Proof.
  intros v o i. assert (Hall : Forall (fun set => forall x, sourced x -> sourced (set x))
    (vin_columns v o i)).
  { unfold vin_columns, column. repeat case_match; repeat (constructor; try done). }
  revert Hall. generalize (vin_columns v o i). intros cols Hall. unfold update_columns.
  destruct cols as [| set cols]; [apply steps_ret; typeclasses eauto |]. apply say_update_colsG. by apply columns_sourced.
Qed.
End Sources.
