(* ===== verification/SchemaTheorems.v ===== *)
(** * The program keeps the database well formed

    Every handler is built from statements that respect [schema_ok] ([Schema]), and those that
    write outputs and inputs keep what their columns say ([Columns]): the processing of a
    transaction and of a block, the daemon that drives it, and what else the program runs
    ([entry_point]): the upgrades, the start-up repairs, the jobs and the actions on demand. *)
From S2P Require Import Prelude Bytes Script Lbrycrd Scheduler Rows Store Datastore StoreFacts Schema.
From S2P Require Import Claims Transactions TransactionFacts BlockSync DemoWorld BlockProcessing.
From S2P Require Import BlockSyncProofs ProcessFacts BlockTheorems Jobs ClaimTrie ClaimTrieTheorems Daemon.
From S2P Require Import ChainValidation ValueSync MempoolSync MempoolTheorems CertificateSync.
From S2P Require Import UpgradeManager UpgradeTheorems ApiActions ChainSync ChainSyncFacts Columns.

(** The keys, the spent marks of the outputs and the sources of the inputs. *)
Notation well_kept := (both schema_kept (both marks_kept sources_kept)).
Notation db_kept := (on_db well_kept).

(** Rows of the other tables may be rewritten where no key looks. *)
Lemma kept_map `{SchemaSet R, !RowLaws R, !Ignores marks_kept R, !Ignores sources_kept R} f d :
  (forall x y : R, same_key (f x) (f y) = same_key x y /\ clash (f x) (f y) = clash x y) ->
  (forall x, needs (f x) = needs x /\ same_key x (f x) = true /\ parent_ok d x (f x) = true) ->
  well_kept d (set_table (mkTable (map f (rows (get_table d))) (auto (get_table d))) d).
Proof. intros Hk Hr. split; [by apply schema_map | split; apply ignores]. Qed.
Lemma kept_delete_transaction `{Faults} t : steps db_kept (deleteG_transaction t).
Proof.
  apply steps_stmt; [typeclasses eauto |]. intros d u d' [= _ <-].
  split; [apply schema_delete_transactions |].
  split; [apply delete_transactions_marks | apply delete_transactions_sources].
Qed.
#[local] Hint Resolve kept_delete_transaction : go.

Section Blocks.
Context `{Faults, Node, TxSync, !SyncRespects well_kept}.

Context (cfg : configuration).
Lemma schema_step d d' : step cfg d d' -> well_kept (db (world d)) (db (world d')).
Proof.
  assert (Hobs : forall force now d, world (observe_timeout cfg force now d) = world d).
  { intros force now x. unfold observe_timeout. destruct (blockTimeoutSnapshot _ _ _ _) as [[] ?];
      [by case_match | done]. }
  assert (Hround : forall d, world (end_round d) = world d)
    by (intros x; unfold end_round; by case_match).
  intros []; unfold set_field; cbn; rewrite ?Hobs; try done.
  - unfold with_target. by case_match.
  - unfold loop_round. repeat case_match; by rewrite ?Hround.
  - match goal with E : processBlockWithRecover ?h ?w = _ |- _ =>
      pose proof (steps_processBlockWithRecover well_kept h w) as Hs; by rewrite E in Hs end.
  - match goal with E : RunBlockProcessing ?h ?w = _ |- _ =>
      pose proof (steps_RunBlockProcessing well_kept h w) as Hs; by rewrite E in Hs end.
  - unfold block_processed. case_match; by rewrite ?Hround.
Qed.
End Blocks.

(** ** The jobs *)

Section Mempool.
Context `{Faults, Node, TxSync, !SyncRespects well_kept, Clock, MempoolNode, MapOrder, Created}.
#[local] Hint Resolve process_tx_steps : go.

Lemma schema_process_pool block lastBlock rawTxs pool m :
  steps db_kept (process_pool block lastBlock rawTxs pool m).
Proof.
  revert m. induction pool as [| [txid details] pool IH]; intros m; cbn [process_pool];
    unfold processMempoolTx; go_steps.
Qed.
#[local] Hint Resolve schema_process_pool : go.
Lemma schema_MempoolSync j : steps db_kept (MempoolSync j).
Proof.
  unfold MempoolSync, finishMempoolSync, GetRawMempool, fetchMempoolRawTransactions,
    getMempoolBlock, chainHeadBlock, best_block, select_stale, processTxSet,
    delete_stale. go_steps.
Qed.
End Mempool.

Section Trie.
Context `{Faults, Clock, Modified, Collation, TrieNode, JsonState claimTrieSyncStatus}.
Context (ts : trie_schedule) (error_text : error -> string).

Lemma schema_set_bid_state h found c : steps db_kept (set_bid_state h found c).
Proof. unfold set_bid_state, getClaimStatus, claim_transaction, put_bid_state. go_steps. Qed.
#[local] Hint Resolve schema_set_bid_state : go.
Lemma schema_process_batch b h : steps db_kept (process_batch ts b h).
Proof.
  unfold process_batch, SyncClaims, SetControllingClaimForNames, setBidStateOfClaimsForName, syncClaim.
  go_steps.
Qed.
#[local] Hint Resolve schema_process_batch : go.
Lemma schema_reprocess l seen b h n : steps db_kept (reprocess ts l seen b h n).
Proof. revert seen b n. induction l as [| c l IH]; intros; cbn [reprocess]; go_steps. Qed.
Lemma schema_pages n f p l : steps db_kept (pages n f p l).
Proof. revert p l. induction n as [| n IH]; intros; cbn [pages]; unfold select_at; go_steps. Qed.
Lemma schema_mark_all_spent ids : steps db_kept (mark_all_spent ids).
Proof.
  apply steps_bind; [typeclasses eauto | auto with go | intros now].
  apply steps_stmt; [typeclasses eauto |]. intros d u d' [= _ <-].
  set (f := fun c => _ : Claim). refine (kept_map (R:=Claim) f d _ _); unfold f.
  - intros x y. by repeat case_match.
  - intros x. case_match; cbn; rewrite Z.eqb_refl; by rewrite bool_decide_eq_true_2.
Qed.
#[local] Hint Resolve schema_reprocess schema_pages schema_mark_all_spent : go.
Lemma schema_spent_pass n b since p : steps db_kept (spent_pass n b since p).
Proof.
  revert p. induction n as [| n IH]; intros; cbn [spent_pass];
    unfold getSpentClaimsToUpdate, select_at, mark_spent; go_steps.
Qed.
#[local] Hint Resolve schema_spent_pass : go.
Lemma schema_ClaimTrieSync : steps db_kept (ClaimTrieSync ts error_text).
Proof.
  unfold ClaimTrieSync, getClaimTrieSyncJobStatus, FindJobStatusG, updateSpentClaims,
    produce, getModifiedClaims, getSupportedClaims, getNewValidClaims, all_pages, select_at,
    reprocessUpdatedClaims, finish_job. go_steps.
Qed.

(** Synchronisation of one name, on demand. *)
Lemma schema_SyncName `{Node} APIKeys o jo form : steps db_kept (SyncName APIKeys o jo form).
Proof.
  unfold SyncName, with_form, respond, SyncClaims, SetControllingClaimForNames,
    setBidStateOfClaimsForName, syncClaim. go_steps.
Qed.
End Trie.

(** *** Jobs that recompute columns *)

Section Columns.
Context `{Faults, SqlSums, Node, Clock, Stake, Signatures}.

Lemma schema_exec f : (forall d, well_kept d (f d)) -> steps db_kept (exec_update f).
Proof. intros Hf. apply steps_stmt; [typeclasses eauto |]. intros d n d' [= _ <-]. apply Hf. Qed.

Lemma schema_balances from size : steps db_kept (syncAddressBalanceSet from size).
Proof.
  unfold syncAddressBalanceSet. apply steps_prefixed; [typeclasses eauto |]. apply schema_exec.
  intros d. set (f := fun a => _ : Address). refine (kept_map (R:=Address) f d _ _); unfold f.
  - intros x y. by repeat case_match.
  - intros x. case_match; cbn; by rewrite Z.eqb_refl.
Qed.
Lemma schema_values from to : steps db_kept (exec_update (set_values_between from to)).
Proof.
  apply schema_exec. intros d. unfold set_values_between. set (f := fun t => _ : Transaction).
  refine (kept_map (R:=Transaction) f d _ _); unfold f.
  - intros x y. by repeat case_match.
  - intros x. case_match; cbn; rewrite Z.eqb_refl; by rewrite bool_decide_eq_true_2.
Qed.
#[local] Hint Resolve schema_balances schema_values : go.

Lemma schema_SyncAddressBalances fuel : steps db_kept (SyncAddressBalances fuel).
Proof.
  assert (Hb : forall a b, steps db_kept (balance_batches fuel a b)).
  { induction fuel as [| fuel IH]; intros a b; cbn [balance_batches]; go_steps. }
  unfold SyncAddressBalances, latest_address. go_steps.
Qed.
Lemma schema_SyncTransactionValue : steps db_kept SyncTransactionValue.
Proof. unfold SyncTransactionValue, latest_height, best_block. go_steps. Qed.
Lemma schema_SyncClaimCntInChannel : steps db_kept SyncClaimCntInChannel.
Proof.
  unfold SyncClaimCntInChannel, latest_height, best_block, count_channel. go_steps.
Qed.
Lemma schema_spent_pages fuel last work :
  (forall l, steps db_kept (work l)) -> steps db_kept (spent_pages fuel last work).
Proof.
  intros Hw. revert last. induction fuel as [| fuel IH]; intros c; cbn [spent_pages]; go_steps.
Qed.
Lemma schema_fixOutputs : steps db_kept fixOutputs.
Proof.
  unfold fixOutputs. apply steps_bind; [typeclasses eauto | go_steps |]. intros w.
  apply schema_spent_pages. intros l. unfold fix_output. go_steps.
Qed.
Lemma schema_CertificateSync chain running : steps db_kept (CertificateSync chain running).
Proof.
  unfold CertificateSync, getClaimsToBeSynced, sync_certificate, populateFirstInputInfo. go_steps.
  case_match; go_steps.
Qed.
Lemma schema_ValidateChain count error_text : steps db_kept (ValidateChain count error_text).
Proof.
  assert (Hr : forall n from to l, steps db_kept (validate_range n from to l)).
  { induction n as [| n IH]; intros from to l; cbn [validate_range];
      unfold validate_height, checkTxs, checkTx; go_steps. }
  unfold ValidateChain, ValidateChainRange. go_steps.
Qed.
End Columns.

(** *** Blocks on demand and the upgrades *)

Section Demand.
Context `{Faults, Node, TxSync, !SyncRespects well_kept}.
#[local] Hint Resolve process_tx_steps : go.

Lemma schema_ProcessBlocks `{TrieNode} APIKeys fuel form :
  steps db_kept (ProcessBlocks APIKeys fuel form).
Proof.
  assert (Hp : forall from to, steps db_kept (process_heights fuel from to)).
  { induction fuel as [| fuel IH]; intros from to; cbn [process_heights]; go_steps. }
  unfold ProcessBlocks, with_form, respond, processBlocks. go_steps.
Qed.

Context `{AddressCodec}.
Lemma schema_processClaimOut hash : steps db_kept (processClaimOut hash).
Proof. unfold processClaimOut. go_steps. Qed.
#[local] Hint Resolve schema_processClaimOut : go.
Lemma schema_reProcessAllClaims : steps db_kept reProcessAllClaims.
Proof. unfold reProcessAllClaims. go_steps. Qed.
Lemma schema_setClaimAddresses chain : steps db_kept (setClaimAddresses chain).
Proof. unfold setClaimAddresses, set_address. go_steps. Qed.
Lemma schema_setBlockHeight : steps db_kept setBlockHeightOnAllClaims.
Proof. unfold setBlockHeightOnAllClaims, set_height. go_steps. Qed.
Lemma schema_deleteAllG blocks : steps db_kept (deleteAllG_blocks blocks).
Proof.
  apply steps_stmt; [typeclasses eauto |]. intros d u d' [= _ <-].
  revert d. induction blocks as [| b l IH]; intros d; [reflexivity |]. cbn.
  etrans; [apply (stable_delete (R:=well_kept)) | apply IH].
Qed.
#[local] Hint Resolve schema_reProcessAllClaims schema_setClaimAddresses schema_setBlockHeight
  schema_deleteAllG : go.
Lemma schema_upgradeFrom12 version : steps db_kept (upgradeFrom12 version).
Proof.
  unfold upgradeFrom12. unfold mwhen. destruct (_ <? _); [| go_steps].
  apply steps_bind; [typeclasses eauto | apply steps_try | go_steps].
  apply steps_stmt; [typeclasses eauto |]. intros d u d' [= _ <-].
  set (f := fun j => _ : JobStatus). refine (kept_map (R:=JobStatus) f d _ _); unfold f.
  - intros x y. by repeat case_match.
  - intros x. case_match; cbn; by rewrite bool_decide_eq_true_2.
Qed.
#[local] Hint Resolve schema_upgradeFrom12 : go.
Lemma schema_RunUpgrades chain count : steps db_kept (RunUpgradesForVersion chain count).
Proof.
  unfold RunUpgradesForVersion, run_upgrades, save_status, upgradeFrom1, upgradeFrom2, upgradeFrom3,
    upgradeFrom4, upgradeFrom5, upgradeFrom6, upgradeFrom7, upgradeFrom8, upgradeFrom9, upgradeFrom10,
    reProcessAllClaimsFromHeight, highest_block, best_block, reactivate. go_steps.
Qed.
End Demand.

(** ** The property *)

Section Property.
Context `{Faults, Stake, Hashes, AddressCodec, PurchaseCodec, JsonStrings, Node, Clock}.
Context `{MempoolNode, MapOrder, Created, Modified, Collation, TrieNode, Slices, FloatText}.
Context `{JsonState claimTrieSyncStatus, JsonState chainSyncStatus, SqlSums, Signatures}.
Context (BlockChainName : string) (MaxParallelTxProcessing MaxFailures : Z) (sc : schedule).
Context (error_text : error -> string).
#[local] Instance synced : TxSync :=
  block_sync BlockChainName MaxParallelTxProcessing MaxFailures sc.

(** What runs beside the daemon's worker: the start-up, the jobs and the actions on demand. *)
Inductive entry_point : relation World :=
| run_upgrades w count : entry_point w (RunUpgradesForVersion BlockChainName count w).2
| run_cleanup w : entry_point w (cleanupIncompleteHead w).2
| run_backfill w limit : entry_point w (backfillLegacyBlockStates limit w).2
| run_mark w height : entry_point w (MarkIncompleteBlockHeight height w).2
| run_mempool w j : entry_point w (MempoolSync j w).2
| run_trie w ts : entry_point w (ClaimTrieSync ts error_text w).2
| run_certificates w running : entry_point w (CertificateSync BlockChainName running w).2
| run_chain w duration : entry_point w (ChainSync BlockChainName error_text duration w).2
| run_validation w count : entry_point w (ValidateChain count error_text w).2
| run_balances w fuel : entry_point w (SyncAddressBalances fuel w).2
| run_values w : entry_point w (SyncTransactionValue w).2
| run_channels w : entry_point w (SyncClaimCntInChannel w).2
| run_outputs w : entry_point w (fixOutputs w).2
| run_blocks w keys fuel form : entry_point w (ProcessBlocks keys fuel form w).2
| run_name w keys o jo form : entry_point w (SyncName keys o jo form w).2.

(** The daemon, with the other parts run in between. *)
Inductive program_step (cfg : configuration) (d : daemon) : daemon -> Prop :=
| daemon_steps d' : step cfg d d' -> program_step cfg d d'
| other_runs w : entry_point (world d) w -> program_step cfg d (d <| world := w |>).

Lemma schema_entry_point w w' : entry_point w w' -> db_kept w w'.
Proof.
  assert (Hm : forall A (m : M World A) x, steps db_kept m -> db_kept x (m x).2) by (intros A m x Hs; apply Hs).
  intros []; apply Hm; try (auto with go; fail).
  - apply schema_RunUpgrades.
  - apply schema_MempoolSync.
  - apply schema_ClaimTrieSync.
  - apply schema_CertificateSync.
  - apply steps_ChainSync; typeclasses eauto.
  - apply schema_ValidateChain.
  - apply schema_SyncAddressBalances.
  - apply schema_SyncTransactionValue.
  - apply schema_SyncClaimCntInChannel.
  - apply schema_fixOutputs.
  - apply schema_ProcessBlocks.
  - apply schema_SyncName.
Qed.

End Property.

(** ** A worked example: the worker saves block 1 with its transactions and its claim *)

Module SchemaExamples.
Import Demo MempoolExamples TrieExamples.
#[export] Instance idle_trie : TrieNode := {|
  node_claims_for_name _ name := ({| cfn_Claims := []; cfn_LastTakeOverHeight := 0;
    cfn_NormalizedName := ""; cfn_SupportsWithoutClaim := [] |}, None);
  node_block_count _ := Ok 1;
|}.
#[export] Instance idle_state : JsonState claimTrieSyncStatus := {|
  marshal_state _ := Ok "";
  unmarshal_state _ := Ok {| PreviousSyncTime := 0; LastHeight := 0 |};
|}.
#[export] Instance idle_status : JsonState chainSyncStatus := {|
  marshal_state _ := Ok "";
  unmarshal_state _ := Ok (mkStatus 0 0 []);
|}.
#[export] Instance idle_slices : Slices := {| append_moves _ := true |}.
#[export] Instance idle_floats : FloatText := {| six_decimals f := f |}.
#[export] Instance idle_sums : SqlSums := {|
  sum_differences _ := f64_zero; sum_amounts _ := f64_zero; changed_rows _ _ := 1;
|}.
#[export] Instance idle_signatures : Signatures := {|
  GetOutpointHash h _ := Ok h; ValidateClaimSignature _ _ _ _ _ := Ok (false, None);
|}.
Definition demo_settings : configuration :=
  {| processingMode := 0; processingDelay := 0; daemonDelay := Second; blockProcessingTimeout := 0;
     blockProcessingDumpDelay := 0; exitOnBlockProcessingTimeout := false |}.
Definition working : daemon :=
  mkDaemon demo_world 0 1 true (Some (Awaiting false 1)) (Running 1) initial_watchdog true true
    false false [] false.
Definition after_block : World := (processBlockWithRecover 1 demo_world).2.
Definition certified : World := (CertificateSync chain false after_block).2.
Definition after_chain : World := (ChainSync chain (fun _ => "error") 100 certified).2.
Definition worked_on (w : World) : daemon :=
  working <| world := w |> <| worker := Reporting 1 |> <| runs := [(1, 1)] |>.
End SchemaExamples.
Import Demo MempoolExamples TrieExamples SchemaExamples.

Ltac schema_check :=
  unfold schema_ok; split_and!;
  (split; [repeat constructor |
    intros r x Hr Hx; cbn in Hr; rewrite ?elem_of_cons, ?elem_of_nil in Hr;
    repeat destruct Hr as [-> | Hr]; try done; cbn in Hx; rewrite ?elem_of_cons, ?elem_of_nil in Hx;
    repeat destruct Hx as [-> | Hx]; done ]).

Notation demo_step :=
  (program_step chain 4 3 demo_schedule (fun _ => "error") demo_settings).

Lemma other_part w w' :
  entry_point chain 4 3 demo_schedule (fun _ => "error") w w' ->
  demo_step (worked_on w) (worked_on w').
Proof. intros He. exact (other_runs _ _ _ _ _ _ (worked_on w) w' He). Qed.
Lemma world_worked w : world (worked_on w) = w.
Proof. done. Qed.
Lemma block_saved : demo_step working (worked_on after_block).
Proof.
  apply daemon_steps, (step_run _ working 1 1 after_block); [done | done |].
  vm_compute. reflexivity.
Qed.
Lemma certificates_synced : demo_step (worked_on after_block) (worked_on certified).
Proof. apply other_part, run_certificates. Qed.
Lemma chain_synced : demo_step (worked_on certified) (worked_on after_chain).
Proof. apply other_part, run_chain. Qed.
Lemma demo_run : rtc demo_step working (worked_on after_chain).
Proof.
  eapply rtc_l; [exact block_saved |]. eapply rtc_l; [exact certificates_synced |].
  apply rtc_once, chain_synced.
Qed.

