(* ===== verification/Codes.v ===== *)
(** * Concatenated names that can be told apart

    The generated row code ([model/*.go]) keys its caches by concatenated column names.  Such a
    key determines the list when the names form a uniquely decodable code: Sardinas and
    Patterson's test, as a function that computes the dangling suffixes, with its soundness. *)
From S2P Require Import Prelude.

#[local] Arguments String.append : simpl nomatch.

Fixpoint concat_strings (l : list string) : string :=
  match l with [] => "" | s :: l' => s +:+ concat_strings l' end.

Lemma string_app_assoc (s t u : string) : (s +:+ t) +:+ u = s +:+ t +:+ u.
Proof. induction s as [| a s IH]; [done |]. exact (f_equal (String a) IH). Qed.
Lemma string_app_nil (s : string) : s +:+ "" = s.
Proof. induction s as [| a s IH]; [done |]. exact (f_equal (String a) IH). Qed.
Lemma concat_strings_app l1 l2 :
  concat_strings (l1 ++ l2) = concat_strings l1 +:+ concat_strings l2.
Proof. induction l1 as [| s l1 IH]; cbn; [done |]. by rewrite IH, string_app_assoc. Qed.

(** What is left of a string behind a prefix. *)
Fixpoint strip (p s : string) : option string :=
  match p, s with
  | EmptyString, _ => Some s
  | String a p', String b s' => if Ascii.eqb a b then strip p' s' else None
  | String _ _, EmptyString => None
  end.

Lemma strip_app p s r : strip p s = Some r <-> s = p +:+ r.
Proof.
  revert s. induction p as [| a p IH]; intros [| b s]; cbn; [split; congruence.. |].
  destruct (Ascii.eqb_spec a b) as [-> | Hab]; [| split; congruence].
  rewrite IH. split; congruence.
Qed.

(** Of two prefixes of one string, one is a prefix of the other. *)
Lemma prefixes_compare p q r s :
  p +:+ r = q +:+ s ->
  (exists d, q = p +:+ d /\ r = d +:+ s) \/ (exists d, p = q +:+ d /\ s = d +:+ r).
Proof.
  revert q. induction p as [| a p IH]; intros [| b q] E; cbn in *.
  - left. by exists "".
  - left. by exists (String b q).
  - right. by exists (String a p).
  - injection E as -> E. destruct (IH q E) as [(d & -> & ->) | (d & -> & ->)]; [left | right]; by exists d.
Qed.

Lemma app_cancel p r s : p +:+ r = p +:+ s -> r = s.
Proof. induction p as [| a p IH]; cbn; [done |]. intros [= E]. by apply IH. Qed.

(** ** Dangling suffixes *)

Definition suffixes_of (C : list string) (d : string) : list string :=
  omap (fun c => strip d c) C ++ omap (fun c => strip c d) C.
Definition first_suffixes (C : list string) : list string :=
  flat_map (fun a => omap (fun b => if String.eqb a b then None else strip a b) C) C.

(** All of them, by [fuel] rounds; what a round adds beyond them is checked by [closed]. *)
Fixpoint dangling (fuel : nat) (C D : list string) : list string :=
  match fuel with
  | O => D
  | S fuel' => dangling fuel' C (remove_dups (D ++ flat_map (suffixes_of C) D))
  end.

Definition inb (s : string) (l : list string) : bool := existsb (String.eqb s) l.
Definition closed (C D : list string) : bool :=
  forallb (fun d => inb d D) (first_suffixes C ++ flat_map (suffixes_of C) D) &&
  forallb (fun d => negb (String.eqb d "")) (C ++ D).
Definition uniquely_decodable (C : list string) : bool :=
  closed C (dangling 8 C (remove_dups (first_suffixes C))).

Lemma inb_spec s l : inb s l = true <-> s ∈ l.
Proof.
  unfold inb. rewrite existsb_exists. split.
  - intros (x & Hx & ->%String.eqb_eq). by apply list_elem_of_In.
  - intros Hs. exists s. by rewrite list_elem_of_In in Hs; rewrite String.eqb_refl.
Qed.

Section Decoding.
Context (C D : list string) (Hclosed : closed C D = true).

Lemma closed_first a b d : a ∈ C -> b ∈ C -> a <> b -> b = a +:+ d -> d ∈ D.
Proof.
  intros Ha Hb Hab E. apply andb_true_iff in Hclosed as [Hin _]. rewrite forallb_forall in Hin.
  apply inb_spec, Hin, in_or_app. left. apply in_flat_map. exists a.
  split; [by apply list_elem_of_In |]. apply list_elem_of_In, list_elem_of_omap. exists b.
  split; [done |]. apply String.eqb_neq in Hab. rewrite Hab. by apply strip_app.
Qed.
Lemma closed_next d e : d ∈ D -> e ∈ suffixes_of C d -> e ∈ D.
Proof.
  intros Hd He. apply andb_true_iff in Hclosed as [Hin _]. rewrite forallb_forall in Hin.
  apply inb_spec, Hin, in_or_app. right. apply in_flat_map. exists d.
  by rewrite <- !list_elem_of_In.
Qed.
Lemma closed_proper s : s ∈ C \/ s ∈ D -> s <> "".
Proof.
  intros Hs. apply andb_true_iff in Hclosed as [_ Hne]. rewrite forallb_forall in Hne.
  assert (Hin : In s (C ++ D)) by (apply list_elem_of_In, elem_of_app; tauto).
  apply Hne in Hin. by apply negb_true_iff, String.eqb_neq in Hin.
Qed.

(** No dangling suffix can be made up for. *)
Lemma dangling_stuck n d (l1 l2 : list string) :
  (length l1 + length l2 <= n)%nat -> d ∈ D -> l1 ⊆ C -> l2 ⊆ C ->
  d +:+ concat_strings l1 <> concat_strings l2.
Proof.
  revert d l1 l2. induction n as [| n IH]; intros d l1 l2 Hn Hd H1 H2 E.
  - destruct l2; [| cbn in Hn; lia]. cbn in E. apply (closed_proper d); [by right |].
    by destruct d.
  - destruct l2 as [| c l2]; cbn in E.
    { apply (closed_proper d); [by right |]. by destruct d. }
    assert (Hc : c ∈ C) by (apply H2; by left).
    assert (H2' : l2 ⊆ C) by (intros x Hx; apply H2; by right).
    destruct (prefixes_compare _ _ _ _ E) as [(e & Ee & E') | (e & Ee & E')].
    + apply (IH e l2 l1); [cbn in Hn; lia | | done | done | done].
      apply (closed_next d); [done |]. unfold suffixes_of. apply elem_of_app. left.
      apply list_elem_of_omap. exists c. split; [done |]. by apply strip_app.
    + apply (IH e l1 l2); [cbn in Hn; lia | | done | done | done].
      apply (closed_next d); [done |]. unfold suffixes_of. apply elem_of_app. right.
      apply list_elem_of_omap. exists c. split; [done |]. by apply strip_app.
Qed.

Lemma closed_decodes (l1 l2 : list string) :
  l1 ⊆ C -> l2 ⊆ C -> concat_strings l1 = concat_strings l2 -> l1 = l2.
Proof.
  revert l2. induction l1 as [| a l1 IH]; intros [| b l2] H1 H2 E; [done | | |].
  - exfalso. cbn in E. apply (closed_proper b); [left; apply H2; by left | by destruct b].
  - exfalso. cbn in E. apply (closed_proper a); [left; apply H1; by left | by destruct a].
  - assert (Ha : a ∈ C) by (apply H1; by left). assert (Hb : b ∈ C) by (apply H2; by left).
    assert (H1' : l1 ⊆ C) by (intros x Hx; apply H1; by right).
    assert (H2' : l2 ⊆ C) by (intros x Hx; apply H2; by right). cbn in E.
    destruct (decide (a = b)) as [-> | Hab]; [f_equal; apply IH; [done.. | by eapply app_cancel] |].
    exfalso. destruct (prefixes_compare _ _ _ _ E) as [(d & Ed & E') | (d & Ed & E')].
    + apply (dangling_stuck (length l2 + length l1) d l2 l1); [lia | | done | done | done].
      by apply (closed_first a b).
    + apply (dangling_stuck (length l1 + length l2) d l1 l2); [lia | | done | done | done].
      by apply (closed_first b a).
Qed.
End Decoding.

Lemma decodes (C l1 l2 : list string) :
  uniquely_decodable C = true -> l1 ⊆ C -> l2 ⊆ C ->
  concat_strings l1 = concat_strings l2 -> l1 = l2.
Proof. intros Hc. by eapply closed_decodes. Qed.

(** ** Keys with separators *)

Fixpoint occurs (a : Ascii.ascii) (s : string) : bool :=
  match s with EmptyString => false | String b s' => Ascii.eqb a b || occurs a s' end.

Lemma occurs_app a s t : occurs a (s +:+ t) = occurs a s || occurs a t.
Proof. induction s as [| b s IH]; cbn; [done |]. by rewrite IH, orb_assoc. Qed.
Lemma occurs_concat a l : forallb (fun s => negb (occurs a s)) l = true -> occurs a (concat_strings l) = false.
Proof.
  induction l as [| s l IH]; cbn; [done |]. intros [Hs%negb_true_iff Hl]%andb_true_iff.
  by rewrite occurs_app, Hs, IH.
Qed.

(** What stands before the first separator is determined. *)
Lemma split_first a p q r s :
  occurs a p = false -> occurs a q = false ->
  p +:+ String a r = q +:+ String a s -> p = q /\ r = s.
Proof.
  revert q. induction p as [| b p IH]; intros [| c q] Hp Hq E; cbn in *.
  - by injection E as ->.
  - injection E as <- _. by rewrite Ascii.eqb_refl in Hq.
  - injection E as -> _. by rewrite Ascii.eqb_refl in Hp.
  - injection E as -> E. apply orb_false_iff in Hp as [_ Hp], Hq as [_ Hq].
    destruct (IH q Hp Hq E) as [-> ->]. done.
Qed.
