(* ===== verification/Boiler.v ===== *)
(** * The generated row code ([model/*.go])

    sqlboiler writes one file for each table, all from one template: the fifteen files differ in
    names, column lists, primary key and whether the key is filled in by the database.  Here is
    the template over a [Table]; [ModelTables] has the tables and their instances.

    The code builds the text and the arguments of one statement and hands them to the executor.
    The helpers of sqlboiler and strmangle, the query builder, the driver's scanning and the
    database are not in the repository: they are the classes below.  The variants of a method
    that take the global executor are the method, those that panic are [or_panic] of it.

    The texts built by [Insert], [Update] and [Upsert] are kept in maps of the package under
    string keys.  Goroutines share the maps, under a lock that is not held while the statement
    runs: meanwhile [others] may fill them. *)
From stdpp Require Import pretty.
From S2P Require Import Prelude Bytes Lbrycrd Codes.

(** ** Columns and structs *)

Inductive value :=
| VNull
| VBool (b : bool)
| VInt (z : Z)
| VFloat (f : float64)
| VString (s : string)
| VTime (t : Z).

(** A struct by the boil tags of its fields. *)
Definition struct := gmap string value.
Definition field (o : struct) (column : string) : value := default VNull (o !! column).

(** [boil.Columns] *)
Record Columns := mkColumns { Kind : Z; Cols : list string }.

Record Table := {
  t_table : string;
  t_Type : string;
  t_type : string;
  (* the fields of the struct with their columns, and the columns with the table's name *)
  t_Columns : list (string * string);
  t_TableColumns : list (string * string);
  t_AllColumns : list string;
  t_ColumnsWithoutDefault : list string;
  t_ColumnsWithDefault : list string;
  t_PrimaryKeyColumns : list string;
  t_UniqueColumns : list string;
  (* whether the key is the column id, filled in by the database *)
  t_lastID : bool;
}.

(** ** The libraries *)

Definition statement : Type := string * list value.

Class SqlBoiler := {
  (* boil.Columns *)
  InsertColumnSet : Columns -> list string -> list string -> list string -> list string ->
    list string * list string;
  UpdateColumnSet : Columns -> list string -> list string -> list string;
  IsNone : Columns -> bool;
  (* queries: a mapping is the list of the paths to the fields *)
  NonZeroDefaultSet : list string -> struct -> list string;
  MakeStructMapping : list string -> gmap string Z;
  BindMapping : gmap string Z -> list string -> res (list Z);
  ValuesFromMapping : struct -> list Z -> list value;
  (* strmangle, with the quotes of the dialect *)
  SetParamNames : list string -> string;
  WhereClause : list string -> string;
  WhereClauseRepeated : list string -> nat -> string;
  Placeholders : nat -> string;
  IdentQuote : string -> string;
  IdentQuoteSlice : list string -> list string;
  SetComplement : list string -> list string -> list string;
  SetIntersect : list string -> list string -> list string;
  (* queries.Query and qm *)
  Query : Type;
  QueryMod : Type;
  From : string -> QueryMod;
  ApplyMods : list QueryMod -> Query;
  GetSelect : Query -> list string;
  SetSelect : list string -> Query -> Query;
  SetCount : Query -> Query;
  SetLimit : Z -> Query -> Query;
  SetUpdate : gmap string value -> Query -> Query;
  SetDelete : Query -> Query;
  BuildQuery : Query -> statement;
}.

Record insertCache := mkInsertCache {
  ic_query : string;
  ic_retQuery : string;
  ic_valueMapping : list Z;
  ic_retMapping : list Z;
}.
Record updateCache := mkUpdateCache { uc_query : string; uc_valueMapping : list Z }.

(** The three maps of a table. *)
Record caches := mkCaches {
  InsertCache : gmap string insertCache;
  UpdateCache : gmap string updateCache;
  UpsertCache : gmap string insertCache;
}.
#[export] Instance eta_caches : Eta caches := fun c =>
  mkCaches (InsertCache c) (UpdateCache c) (UpsertCache c).
Definition no_caches : caches := mkCaches ∅ ∅ ∅.

(** The executor answers by all that was sent to it before; [Exec] answers with what
    [LastInsertId] answers.  [ScanRow] writes the columns of a row into the fields of a
    struct, as far as it gets. *)
Class Executor := {
  Exec : list statement -> statement -> res (res Z);
  ScanRow : list statement -> statement -> list Z -> struct -> res (struct * option error);
  ScanCount : list statement -> statement -> res Z;
  ScanBool : list statement -> statement -> res bool;
  BindOne : list statement -> statement -> res struct;
  BindAll : list statement -> statement -> res (list struct);
  (* what other goroutines store meanwhile *)
  others : list statement -> caches -> caches;
  (* [range] over a map of columns *)
  range_columns : gmap string value -> list (string * value);
}.

Record session := mkSession { history : list statement; cached : caches }.

(** A method whose receiver is changed: the struct and the error. *)
Notation changed := (option struct * option error)%type.

Definition quoted (t : Table) : string := "`" +:+ t_table t +:+ "`".
Definition columns_text (l : list string) : string := "`" +:+ String.concat "`,`" l +:+ "`".

(** *** [boil_types.go] *)

Definition ErrSyncFail : error := ErrMsg "model: failed to synchronize data after insert".

Definition makeCacheKey (cols : Columns) (nzDefaults : list string) : string :=
  pretty (Kind cols) +:+ concat_strings (Cols cols) +:+
  (match nzDefaults with [] => "" | _ => "." end) +:+ concat_strings nzDefaults.

Section Generated.
Context `{SqlBoiler, Executor}.

Definition send {A} (answer : list statement -> statement -> res A) (s : statement)
  : M session A := fun w =>
  (answer (history w) s, mkSession (history w ++ [s]) (others (history w) (cached w))).

(** *** [mysql_upsert.go] *)

Definition buildUpsertQueryMySQL (tableName : string) (update whitelist : list string) : string :=
  let whitelist := IdentQuoteSlice whitelist in
  let tableName := IdentQuote tableName in
  let columns := String.concat "," whitelist in
  match update with
  | [] => "INSERT IGNORE INTO " +:+ tableName +:+ " (" +:+ columns +:+ ") VALUES (" +:+
          Placeholders (length whitelist) +:+ ")"
  | _ => "INSERT INTO " +:+ tableName +:+ " (" +:+ columns +:+ ") VALUES (" +:+
         Placeholders (length whitelist) +:+ ") ON DUPLICATE KEY UPDATE " +:+
         String.concat ","
           (map (fun v => IdentQuote v +:+ " = VALUES(" +:+ IdentQuote v +:+ ")") update)
  end.

Context (t : Table).

Notation name := (t_table t).
Definition struct_mapping : gmap string Z := MakeStructMapping (map snd (t_Columns t)).
(** The error of this binding is dropped. *)
Definition primary_mapping : list Z :=
  match BindMapping struct_mapping (t_PrimaryKeyColumns t) with Ok m => m | _ => [] end.
Definition primary_args (o : struct) : list value := ValuesFromMapping o primary_mapping.
(** The condition that is written out in the text. *)
Definition primary_where : string :=
  String.concat " AND " (map (fun c => "`" +:+ c +:+ "`=?") (t_PrimaryKeyColumns t)).
(** [o.ID], or the fields of a composed key. *)
Definition primary_fields (o : struct) : list value := map (field o) (t_PrimaryKeyColumns t).

Definition wrapped {A} (prefix : string) (m : M session A) : M session A :=
  let* r := mtry m in
  match r with inl a => mret a | inr e => mfail (ErrPrefix prefix e) end.
(** [errors.Is(err, sql.ErrNoRows)] passes the bare error on. *)
Definition wrapped_but_rows {A} (prefix : string) (m : M session A) : M session A :=
  let* r := mtry m in
  match r with
  | inl a => mret a
  | inr e => match unwrap e with
             | ErrNoRows => mfail ErrNoRows
             | _ => mfail (ErrPrefix prefix e)
             end
  end.

(** *** Queries *)

(** [Blocks(mods...)] *)
Definition Query_of (mods : list QueryMod) : Query :=
  let q := ApplyMods (mods ++ [From (quoted t)]) in
  match GetSelect q with
  | [] => SetSelect [quoted t +:+ ".*"] q
  | _ => q
  end.

Definition One (q : Query) : M session struct :=
  wrapped_but_rows ("model: failed to execute a one query for " +:+ name)
    (send BindOne (BuildQuery (SetLimit 1 q))).

Definition All (q : Query) : M session (list struct) :=
  wrapped ("model: failed to assign all query results to " +:+ t_Type t +:+ " slice")
    (send BindAll (BuildQuery q)).

Definition Count (q : Query) : M session Z :=
  wrapped ("model: failed to count " +:+ name +:+ " rows")
    (send ScanCount (BuildQuery (SetCount (SetSelect [] q)))).

Definition Exists_query (q : Query) : M session bool :=
  let* count := wrapped ("model: failed to check if " +:+ name +:+ " exists")
    (send ScanCount (BuildQuery (SetLimit 1 (SetCount (SetSelect [] q))))) in
  mret (0 <? count).

Definition UpdateAll_query (q : Query) (cols : gmap string value) : M session unit :=
  let* _ := wrapped ("model: unable to update all for " +:+ name)
    (send Exec (BuildQuery (SetUpdate cols q))) in
  mret tt.

Definition DeleteAll_query (q : option Query) : M session unit :=
  match q with
  | None => mfail (ErrMsg ("model: no " +:+ t_type t +:+ "Query provided for delete all"))
  | Some q =>
      let* _ := wrapped ("model: unable to delete all from " +:+ name)
        (send Exec (BuildQuery (SetDelete q))) in
      mret tt
  end.

(** *** By primary key *)

Definition Find (key : list value) (selectCols : list string) : M session struct :=
  let sel := match selectCols with
             | [] => "*"
             | _ => String.concat "," (IdentQuoteSlice selectCols)
             end in
  wrapped_but_rows ("model: unable to select from " +:+ name)
    (send BindOne ("select " +:+ sel +:+ " from " +:+ quoted t +:+ " where " +:+ primary_where, key)).

Definition Exists_key (key : list value) : M session bool :=
  wrapped ("model: unable to check if " +:+ name +:+ " exists")
    (send ScanBool ("select exists(select 1 from " +:+ quoted t +:+ " where " +:+ primary_where +:+
                    " limit 1)", key)).
Definition Exists_struct (o : struct) : M session bool := Exists_key (primary_fields o).

Definition Reload (o : struct) : M session struct := Find (primary_fields o) [].

Definition Delete (o : option struct) : M session unit :=
  match o with
  | None => mfail (ErrMsg ("model: no " +:+ t_Type t +:+ " provided for delete"))
  | Some o =>
      let* _ := wrapped ("model: unable to delete from " +:+ name)
        (send Exec ("DELETE FROM " +:+ quoted t +:+ " WHERE " +:+ primary_where, primary_args o)) in
      mret tt
  end.

(** *** Slices *)

Definition slice_where (l : list struct) : string :=
  WhereClauseRepeated (t_PrimaryKeyColumns t) (length l).
Definition slice_args (l : list struct) : list value := flat_map primary_args l.

Definition UpdateAll (l : list struct) (cols : gmap string value) : M session unit :=
  match l with
  | [] => mret tt
  | _ =>
      if bool_decide (cols = ∅) then
        mfail (ErrMsg "model: update all requires at least one column argument")
      else
        let l' := range_columns cols in
        let sql := "UPDATE " +:+ quoted t +:+ " SET " +:+ SetParamNames (map fst l') +:+
                   " WHERE " +:+ slice_where l in
        let* _ := wrapped ("model: unable to update all in " +:+ t_type t +:+ " slice")
          (send Exec (sql, map snd l' ++ slice_args l)) in
        mret tt
  end.

Definition DeleteAll (l : list struct) : M session unit :=
  match l with
  | [] => mret tt
  | _ =>
      let* _ := wrapped ("model: unable to delete all from " +:+ t_type t +:+ " slice")
        (send Exec ("DELETE FROM " +:+ quoted t +:+ " WHERE " +:+ slice_where l, slice_args l)) in
      mret tt
  end.

(** A nil slice, like an empty one, is left as it is. *)
Definition ReloadAll (l : option (list struct)) : M session (option (list struct)) :=
  match l with
  | None | Some [] => mret l
  | Some l =>
      let* slice := wrapped ("model: unable to reload all in " +:+ t_Type t +:+ "Slice")
        (send BindAll ("SELECT " +:+ quoted t +:+ ".* FROM " +:+ quoted t +:+ " WHERE " +:+
                       slice_where l, slice_args l)) in
      mret (Some slice)
  end.

(** *** The caches *)

(** The entry under the key, or a new one that is stored when [use] succeeds. *)
Definition through_cache {E A} (get : caches -> gmap string E)
  (put : (gmap string E -> gmap string E) -> caches -> caches) (key : string) (build : res E)
  (a : A) (use : E -> M session (A * option error)) : M session (A * option error) :=
  let* w := mget in
  let hit := get (cached w) !! key in
  match (match hit with Some entry => Ok entry | None => build end) with
  | Err e => mret (a, Some e)
  | Panic e => mpanic e
  | Ok entry =>
      let* (a, err) := use entry in
      match err, hit with
      | None, None =>
          let* _ := mmodify (fun w => mkSession (history w) (put <[key := entry]> (cached w))) in
          mret (a, None)
      | _, _ => mret (a, err)
      end
  end.

(** *** [Insert] *)

Definition insert_entry (columns : Columns) (nzDefaults : list string) : res insertCache :=
  let (wl, returnColumns) := InsertColumnSet columns (t_AllColumns t) (t_ColumnsWithDefault t)
    (t_ColumnsWithoutDefault t) nzDefaults in
  let? valueMapping := BindMapping struct_mapping wl in
  let? retMapping := BindMapping struct_mapping returnColumns in
  let query :=
    match wl with
    | [] => "INSERT INTO " +:+ quoted t +:+ " () VALUES ()"
    | _ => "INSERT INTO " +:+ quoted t +:+ " (" +:+ columns_text wl +:+ ") VALUES (" +:+
           Placeholders (length wl) +:+ ")"
    end in
  let retQuery :=
    match retMapping with
    | [] => ""
    | _ => "SELECT " +:+ columns_text returnColumns +:+ " FROM " +:+ quoted t +:+ " WHERE " +:+
           WhereClause (t_PrimaryKeyColumns t)
    end in
  Ok (mkInsertCache query retQuery valueMapping retMapping).

(** What comes after the statement: the key that the database chose, then, unless the key was
    all that was missing, a select of the columns that the database filled in.  [ids] are the
    arguments of the select. *)
Definition populate (cache : insertCache) (lastID : res Z) (ids : struct -> res (list value))
  (o : struct) : M session changed :=
  match ic_retMapping cache with
  | [] => mret (Some o, None)
  | _ =>
      let select (o : struct) :=
        match ids o with
        | Err e => mret (Some o, Some (ErrPrefix ("model: unable to retrieve unique values for " +:+ name) e))
        | Panic e => mpanic e
        | Ok args =>
            let* (o, err) := send (fun h s => ScanRow h s (ic_retMapping cache) o)
                               (ic_retQuery cache, args) in
            mret (Some o, ErrPrefix ("model: unable to populate default values for " +:+ name) <$> err)
        end in
      if t_lastID t then
        match lastID with
        | Err _ => mret (Some o, Some ErrSyncFail)
        | Panic e => mpanic e
        | Ok lastID =>
            let o := <["id" := VInt (u64 lastID)]> o in
            if negb (lastID =? 0) &&
               bool_decide (ic_retMapping cache = [default 0 (struct_mapping !! "id")])
            then mret (Some o, None) else select o
        end
      else select o
  end.

Definition exec_cached (prefix : string) (cache : insertCache) (ids : struct -> res (list value))
  (o : struct) : M session changed :=
  let* r := mtry (send Exec (ic_query cache, ValuesFromMapping o (ic_valueMapping cache))) in
  match r with
  | inr err => mret (Some o, Some (ErrPrefix prefix err))
  | inl lastID => populate cache lastID ids o
  end.

Definition put_insert (f : gmap string insertCache -> gmap string insertCache) (c : caches) : caches :=
  c <| InsertCache := f (InsertCache c) |>.
Definition put_update (f : gmap string updateCache -> gmap string updateCache) (c : caches) : caches :=
  c <| UpdateCache := f (UpdateCache c) |>.
Definition put_upsert (f : gmap string insertCache -> gmap string insertCache) (c : caches) : caches :=
  c <| UpsertCache := f (UpsertCache c) |>.

Definition Insert (o : option struct) (columns : Columns) : M session changed :=
  match o with
  | None => mret (None, Some (ErrMsg ("model: no " +:+ name +:+ " provided for insertion")))
  | Some o =>
      let nzDefaults := NonZeroDefaultSet (t_ColumnsWithDefault t) o in
      through_cache InsertCache put_insert (makeCacheKey columns nzDefaults)
        (insert_entry columns nzDefaults) (Some o) (fun cache =>
          exec_cached ("model: unable to insert into " +:+ name) cache
            (fun o => Ok (primary_fields o)) o)
  end.

(** *** [Update] *)

Definition update_entry (columns : Columns) : res updateCache :=
  let wl := UpdateColumnSet columns (t_AllColumns t) (t_PrimaryKeyColumns t) in
  match wl with
  | [] => Err (ErrMsg ("model: unable to update " +:+ name +:+ ", could not build whitelist"))
  | _ =>
      let query := "UPDATE " +:+ quoted t +:+ " SET " +:+ SetParamNames wl +:+ " WHERE " +:+
                   WhereClause (t_PrimaryKeyColumns t) in
      let? valueMapping := BindMapping struct_mapping (wl ++ t_PrimaryKeyColumns t) in
      Ok (mkUpdateCache query valueMapping)
  end.

Definition Update (o : struct) (columns : Columns) : M session (unit * option error) :=
  through_cache UpdateCache put_update (makeCacheKey columns []) (update_entry columns) tt
    (fun cache =>
       let* r := mtry (send Exec (uc_query cache, ValuesFromMapping o (uc_valueMapping cache))) in
       mret (tt, match r with
                 | inr err => Some (ErrPrefix ("model: unable to update " +:+ name +:+ " row") err)
                 | inl _ => None
                 end)).

(** *** [Upsert] *)

Definition upsert_key (updateColumns insertColumns : Columns) (nzDefaults nzUniques : list string)
  : string :=
  pretty (Kind updateColumns) +:+ concat_strings (Cols updateColumns) +:+ "." +:+
  pretty (Kind insertColumns) +:+ concat_strings (Cols insertColumns) +:+ "." +:+
  concat_strings nzDefaults +:+ "." +:+ concat_strings nzUniques.

Definition upsert_entry (updateColumns insertColumns : Columns)
  (nzDefaults nzUniques : list string) : res insertCache :=
  let (insert, _) := InsertColumnSet insertColumns (t_AllColumns t) (t_ColumnsWithDefault t)
    (t_ColumnsWithoutDefault t) nzDefaults in
  let update := UpdateColumnSet updateColumns (t_AllColumns t) (t_PrimaryKeyColumns t) in
  if negb (IsNone updateColumns) && (match update with [] => true | _ => false end) then
    Err (ErrMsg ("model: unable to upsert " +:+ name +:+ ", could not build update column list"))
  else
    let ret := SetComplement (t_AllColumns t) (SetIntersect insert update) in
    let retQuery := "SELECT " +:+ String.concat "," (IdentQuoteSlice ret) +:+ " FROM " +:+
                    quoted t +:+ " WHERE " +:+ WhereClause nzUniques in
    let? valueMapping := BindMapping struct_mapping insert in
    let? retMapping :=
      (match ret with [] => Ok [] | _ => BindMapping struct_mapping ret end) in
    Ok (mkInsertCache (buildUpsertQueryMySQL (quoted t) update insert) retQuery
          valueMapping retMapping).

Definition Upsert (o : option struct) (updateColumns insertColumns : Columns) : M session changed :=
  match o with
  | None => mret (None, Some (ErrMsg ("model: no " +:+ name +:+ " provided for upsert")))
  | Some o =>
      let nzDefaults := NonZeroDefaultSet (t_ColumnsWithDefault t) o in
      let nzUniques := NonZeroDefaultSet (t_UniqueColumns t) o in
      match nzUniques with
      | [] => mret (Some o, Some (ErrMsg
                "cannot upsert with a table that cannot conflict on a unique column"))
      | _ =>
          through_cache UpsertCache put_upsert
            (upsert_key updateColumns insertColumns nzDefaults nzUniques)
            (upsert_entry updateColumns insertColumns nzDefaults nzUniques) (Some o) (fun cache =>
              exec_cached ("model: unable to upsert for " +:+ name) cache
                (fun o => let? uniqueMap := BindMapping struct_mapping nzUniques in
                          Ok (ValuesFromMapping o uniqueMap)) o)
      end
  end.
End Generated.
