(* ===== verification/ModelTables.v ===== *)
(** * The tables of the generated row code ([model/*.go])

    For each file of [model/] its column lists and its methods, which are those of [Boiler] at
    the table: [Block_Insert] is [Block.Insert], [blockQuery_One] is [blockQuery.One],
    [BlockSlice_DeleteAll] is [BlockSlice.DeleteAll]. *)
From S2P Require Import Prelude Codes Boiler.

(** *** [model/block.go] *)

Definition BlockColumns : list (string * string) :=
  [("ID", "id"); ("Bits", "bits"); ("Chainwork", "chainwork");
   ("Confirmations", "confirmations"); ("Difficulty", "difficulty"); ("Hash", "hash");
   ("Height", "height"); ("MerkleRoot", "merkle_root"); ("NameClaimRoot", "name_claim_root");
   ("Nonce", "nonce"); ("PreviousBlockHash", "previous_block_hash");
   ("NextBlockHash", "next_block_hash"); ("BlockSize", "block_size");
   ("BlockTime", "block_time"); ("Version", "version"); ("VersionHex", "version_hex");
   ("TXCount", "tx_count"); ("ProcessingState", "processing_state"); ("CreatedAt", "created_at");
   ("ModifiedAt", "modified_at")].
Definition BlockTableColumns : list (string * string) :=
  [("ID", "block.id"); ("Bits", "block.bits"); ("Chainwork", "block.chainwork");
   ("Confirmations", "block.confirmations"); ("Difficulty", "block.difficulty");
   ("Hash", "block.hash"); ("Height", "block.height"); ("MerkleRoot", "block.merkle_root");
   ("NameClaimRoot", "block.name_claim_root"); ("Nonce", "block.nonce");
   ("PreviousBlockHash", "block.previous_block_hash");
   ("NextBlockHash", "block.next_block_hash"); ("BlockSize", "block.block_size");
   ("BlockTime", "block.block_time"); ("Version", "block.version");
   ("VersionHex", "block.version_hex"); ("TXCount", "block.tx_count");
   ("ProcessingState", "block.processing_state"); ("CreatedAt", "block.created_at");
   ("ModifiedAt", "block.modified_at")].
Definition block_table : Table := {|
  t_table := "block"; t_Type := "Block"; t_type := "block";
  t_Columns := BlockColumns; t_TableColumns := BlockTableColumns;
  t_AllColumns :=
    ["id"; "bits"; "chainwork"; "confirmations"; "difficulty"; "hash"; "height"; "merkle_root";
     "name_claim_root"; "nonce"; "previous_block_hash"; "next_block_hash"; "block_size";
     "block_time"; "version"; "version_hex"; "tx_count"; "processing_state"; "created_at";
     "modified_at"];
  t_ColumnsWithoutDefault :=
    ["bits"; "chainwork"; "confirmations"; "difficulty"; "hash"; "height"; "merkle_root";
     "name_claim_root"; "nonce"; "previous_block_hash"; "next_block_hash"; "block_size";
     "block_time"; "version"; "version_hex"; "tx_count"; "processing_state"];
  t_ColumnsWithDefault :=
    ["id"; "created_at"; "modified_at"];
  t_PrimaryKeyColumns :=
    ["id"];
  t_UniqueColumns :=
    ["id"; "hash"];
  t_lastID := true;
|}.

Section Block.
Context `{SqlBoiler, Executor}.
Definition Blocks := Query_of block_table.
Definition blockQuery_One := One block_table.
Definition blockQuery_All := All block_table.
Definition blockQuery_Count := Count block_table.
Definition blockQuery_Exists := Exists_query block_table.
Definition blockQuery_UpdateAll := UpdateAll_query block_table.
Definition blockQuery_DeleteAll := DeleteAll_query block_table.
Definition FindBlock := Find block_table.
Definition BlockExists := Exists_key block_table.
Definition Block_Exists := Exists_struct block_table.
Definition Block_Insert := Insert block_table.
Definition Block_Update := Update block_table.
Definition Block_Upsert := Upsert block_table.
Definition Block_Delete := Delete block_table.
Definition Block_Reload := Reload block_table.
Definition BlockSlice_UpdateAll := UpdateAll block_table.
Definition BlockSlice_DeleteAll := DeleteAll block_table.
Definition BlockSlice_ReloadAll := ReloadAll block_table.
End Block.

(** *** [model/transaction.go] *)

Definition TransactionColumns : list (string * string) :=
  [("ID", "id"); ("BlockHashID", "block_hash_id"); ("InputCount", "input_count");
   ("OutputCount", "output_count"); ("TransactionTime", "transaction_time");
   ("TransactionSize", "transaction_size"); ("Hash", "hash"); ("Version", "version");
   ("LockTime", "lock_time"); ("CreatedAt", "created_at"); ("ModifiedAt", "modified_at");
   ("CreatedTime", "created_time"); ("Value", "value")].
Definition TransactionTableColumns : list (string * string) :=
  [("ID", "transaction.id"); ("BlockHashID", "transaction.block_hash_id");
   ("InputCount", "transaction.input_count"); ("OutputCount", "transaction.output_count");
   ("TransactionTime", "transaction.transaction_time");
   ("TransactionSize", "transaction.transaction_size"); ("Hash", "transaction.hash");
   ("Version", "transaction.version"); ("LockTime", "transaction.lock_time");
   ("CreatedAt", "transaction.created_at"); ("ModifiedAt", "transaction.modified_at");
   ("CreatedTime", "transaction.created_time"); ("Value", "transaction.value")].
Definition transaction_table : Table := {|
  t_table := "transaction"; t_Type := "Transaction"; t_type := "transaction";
  t_Columns := TransactionColumns; t_TableColumns := TransactionTableColumns;
  t_AllColumns :=
    ["id"; "block_hash_id"; "input_count"; "output_count"; "transaction_time";
     "transaction_size"; "hash"; "version"; "lock_time"; "created_at"; "modified_at";
     "created_time"; "value"];
  t_ColumnsWithoutDefault :=
    ["block_hash_id"; "input_count"; "output_count"; "transaction_time"; "transaction_size";
     "hash"; "version"; "lock_time"];
  t_ColumnsWithDefault :=
    ["id"; "created_at"; "modified_at"; "created_time"; "value"];
  t_PrimaryKeyColumns :=
    ["id"];
  t_UniqueColumns :=
    ["id"; "hash"];
  t_lastID := true;
|}.

Section Transaction.
Context `{SqlBoiler, Executor}.
Definition Transactions := Query_of transaction_table.
Definition transactionQuery_One := One transaction_table.
Definition transactionQuery_All := All transaction_table.
Definition transactionQuery_Count := Count transaction_table.
Definition transactionQuery_Exists := Exists_query transaction_table.
Definition transactionQuery_UpdateAll := UpdateAll_query transaction_table.
Definition transactionQuery_DeleteAll := DeleteAll_query transaction_table.
Definition FindTransaction := Find transaction_table.
Definition TransactionExists := Exists_key transaction_table.
Definition Transaction_Exists := Exists_struct transaction_table.
Definition Transaction_Insert := Insert transaction_table.
Definition Transaction_Update := Update transaction_table.
Definition Transaction_Upsert := Upsert transaction_table.
Definition Transaction_Delete := Delete transaction_table.
Definition Transaction_Reload := Reload transaction_table.
Definition TransactionSlice_UpdateAll := UpdateAll transaction_table.
Definition TransactionSlice_DeleteAll := DeleteAll transaction_table.
Definition TransactionSlice_ReloadAll := ReloadAll transaction_table.
End Transaction.

(** *** [model/input.go] *)

Definition InputColumns : list (string * string) :=
  [("ID", "id"); ("TransactionID", "transaction_id"); ("TransactionHash", "transaction_hash");
   ("InputAddressID", "input_address_id"); ("IsCoinbase", "is_coinbase");
   ("Coinbase", "coinbase"); ("PrevoutHash", "prevout_hash"); ("PrevoutN", "prevout_n");
   ("Sequence", "sequence"); ("Value", "value"); ("ScriptSigAsm", "script_sig_asm");
   ("ScriptSigHex", "script_sig_hex"); ("Created", "created"); ("Modified", "modified");
   ("Vin", "vin"); ("Witness", "witness")].
Definition InputTableColumns : list (string * string) :=
  [("ID", "input.id"); ("TransactionID", "input.transaction_id");
   ("TransactionHash", "input.transaction_hash"); ("InputAddressID", "input.input_address_id");
   ("IsCoinbase", "input.is_coinbase"); ("Coinbase", "input.coinbase");
   ("PrevoutHash", "input.prevout_hash"); ("PrevoutN", "input.prevout_n");
   ("Sequence", "input.sequence"); ("Value", "input.value");
   ("ScriptSigAsm", "input.script_sig_asm"); ("ScriptSigHex", "input.script_sig_hex");
   ("Created", "input.created"); ("Modified", "input.modified"); ("Vin", "input.vin");
   ("Witness", "input.witness")].
Definition input_table : Table := {|
  t_table := "input"; t_Type := "Input"; t_type := "input";
  t_Columns := InputColumns; t_TableColumns := InputTableColumns;
  t_AllColumns :=
    ["id"; "transaction_id"; "transaction_hash"; "input_address_id"; "is_coinbase"; "coinbase";
     "prevout_hash"; "prevout_n"; "sequence"; "value"; "script_sig_asm"; "script_sig_hex";
     "created"; "modified"; "vin"; "witness"];
  t_ColumnsWithoutDefault :=
    ["transaction_id"; "transaction_hash"; "input_address_id"; "coinbase"; "prevout_hash";
     "prevout_n"; "sequence"; "value"; "script_sig_asm"; "script_sig_hex"; "vin"; "witness"];
  t_ColumnsWithDefault :=
    ["id"; "is_coinbase"; "created"; "modified"];
  t_PrimaryKeyColumns :=
    ["id"];
  t_UniqueColumns :=
    ["id"];
  t_lastID := true;
|}.

Section Input.
Context `{SqlBoiler, Executor}.
Definition Inputs := Query_of input_table.
Definition inputQuery_One := One input_table.
Definition inputQuery_All := All input_table.
Definition inputQuery_Count := Count input_table.
Definition inputQuery_Exists := Exists_query input_table.
Definition inputQuery_UpdateAll := UpdateAll_query input_table.
Definition inputQuery_DeleteAll := DeleteAll_query input_table.
Definition FindInput := Find input_table.
Definition InputExists := Exists_key input_table.
Definition Input_Exists := Exists_struct input_table.
Definition Input_Insert := Insert input_table.
Definition Input_Update := Update input_table.
Definition Input_Upsert := Upsert input_table.
Definition Input_Delete := Delete input_table.
Definition Input_Reload := Reload input_table.
Definition InputSlice_UpdateAll := UpdateAll input_table.
Definition InputSlice_DeleteAll := DeleteAll input_table.
Definition InputSlice_ReloadAll := ReloadAll input_table.
End Input.

(** *** [model/output.go] *)

Definition OutputColumns : list (string * string) :=
  [("ID", "id"); ("TransactionID", "transaction_id"); ("TransactionHash", "transaction_hash");
   ("Value", "value"); ("Vout", "vout"); ("Type", "type");
   ("ScriptPubKeyAsm", "script_pub_key_asm"); ("ScriptPubKeyHex", "script_pub_key_hex");
   ("RequiredSignatures", "required_signatures"); ("AddressList", "address_list");
   ("IsSpent", "is_spent"); ("SpentByInputID", "spent_by_input_id"); ("CreatedAt", "created_at");
   ("ModifiedAt", "modified_at"); ("ClaimID", "claim_id")].
Definition OutputTableColumns : list (string * string) :=
  [("ID", "output.id"); ("TransactionID", "output.transaction_id");
   ("TransactionHash", "output.transaction_hash"); ("Value", "output.value");
   ("Vout", "output.vout"); ("Type", "output.type");
   ("ScriptPubKeyAsm", "output.script_pub_key_asm");
   ("ScriptPubKeyHex", "output.script_pub_key_hex");
   ("RequiredSignatures", "output.required_signatures"); ("AddressList", "output.address_list");
   ("IsSpent", "output.is_spent"); ("SpentByInputID", "output.spent_by_input_id");
   ("CreatedAt", "output.created_at"); ("ModifiedAt", "output.modified_at");
   ("ClaimID", "output.claim_id")].
Definition output_table : Table := {|
  t_table := "output"; t_Type := "Output"; t_type := "output";
  t_Columns := OutputColumns; t_TableColumns := OutputTableColumns;
  t_AllColumns :=
    ["id"; "transaction_id"; "transaction_hash"; "value"; "vout"; "type"; "script_pub_key_asm";
     "script_pub_key_hex"; "required_signatures"; "address_list"; "is_spent";
     "spent_by_input_id"; "created_at"; "modified_at"; "claim_id"];
  t_ColumnsWithoutDefault :=
    ["transaction_id"; "transaction_hash"; "value"; "vout"; "type"; "script_pub_key_asm";
     "script_pub_key_hex"; "required_signatures"; "address_list"; "spent_by_input_id"; "claim_id"];
  t_ColumnsWithDefault :=
    ["id"; "is_spent"; "created_at"; "modified_at"];
  t_PrimaryKeyColumns :=
    ["id"];
  t_UniqueColumns :=
    ["id"];
  t_lastID := true;
|}.

Section Output.
Context `{SqlBoiler, Executor}.
Definition Outputs := Query_of output_table.
Definition outputQuery_One := One output_table.
Definition outputQuery_All := All output_table.
Definition outputQuery_Count := Count output_table.
Definition outputQuery_Exists := Exists_query output_table.
Definition outputQuery_UpdateAll := UpdateAll_query output_table.
Definition outputQuery_DeleteAll := DeleteAll_query output_table.
Definition FindOutput := Find output_table.
Definition OutputExists := Exists_key output_table.
Definition Output_Exists := Exists_struct output_table.
Definition Output_Insert := Insert output_table.
Definition Output_Update := Update output_table.
Definition Output_Upsert := Upsert output_table.
Definition Output_Delete := Delete output_table.
Definition Output_Reload := Reload output_table.
Definition OutputSlice_UpdateAll := UpdateAll output_table.
Definition OutputSlice_DeleteAll := DeleteAll output_table.
Definition OutputSlice_ReloadAll := ReloadAll output_table.
End Output.

(** *** [model/address.go] *)

Definition AddressColumns : list (string * string) :=
  [("ID", "id"); ("Address", "address"); ("FirstSeen", "first_seen");
   ("CreatedAt", "created_at"); ("ModifiedAt", "modified_at"); ("Balance", "balance")].
Definition AddressTableColumns : list (string * string) :=
  [("ID", "address.id"); ("Address", "address.address"); ("FirstSeen", "address.first_seen");
   ("CreatedAt", "address.created_at"); ("ModifiedAt", "address.modified_at");
   ("Balance", "address.balance")].
Definition address_table : Table := {|
  t_table := "address"; t_Type := "Address"; t_type := "address";
  t_Columns := AddressColumns; t_TableColumns := AddressTableColumns;
  t_AllColumns :=
    ["id"; "address"; "first_seen"; "created_at"; "modified_at"; "balance"];
  t_ColumnsWithoutDefault :=
    ["address"; "first_seen"];
  t_ColumnsWithDefault :=
    ["id"; "created_at"; "modified_at"; "balance"];
  t_PrimaryKeyColumns :=
    ["id"];
  t_UniqueColumns :=
    ["id"; "address"];
  t_lastID := true;
|}.

Section Address.
Context `{SqlBoiler, Executor}.
Definition Addresses := Query_of address_table.
Definition addressQuery_One := One address_table.
Definition addressQuery_All := All address_table.
Definition addressQuery_Count := Count address_table.
Definition addressQuery_Exists := Exists_query address_table.
Definition addressQuery_UpdateAll := UpdateAll_query address_table.
Definition addressQuery_DeleteAll := DeleteAll_query address_table.
Definition FindAddress := Find address_table.
Definition AddressExists := Exists_key address_table.
Definition Address_Exists := Exists_struct address_table.
Definition Address_Insert := Insert address_table.
Definition Address_Update := Update address_table.
Definition Address_Upsert := Upsert address_table.
Definition Address_Delete := Delete address_table.
Definition Address_Reload := Reload address_table.
Definition AddressSlice_UpdateAll := UpdateAll address_table.
Definition AddressSlice_DeleteAll := DeleteAll address_table.
Definition AddressSlice_ReloadAll := ReloadAll address_table.
End Address.

(** *** [model/transaction_address.go] *)

Definition TransactionAddressColumns : list (string * string) :=
  [("TransactionID", "transaction_id"); ("AddressID", "address_id");
   ("DebitAmount", "debit_amount"); ("CreditAmount", "credit_amount")].
Definition TransactionAddressTableColumns : list (string * string) :=
  [("TransactionID", "transaction_address.transaction_id");
   ("AddressID", "transaction_address.address_id");
   ("DebitAmount", "transaction_address.debit_amount");
   ("CreditAmount", "transaction_address.credit_amount")].
Definition transactionAddress_table : Table := {|
  t_table := "transaction_address"; t_Type := "TransactionAddress"; t_type := "transactionAddress";
  t_Columns := TransactionAddressColumns; t_TableColumns := TransactionAddressTableColumns;
  t_AllColumns :=
    ["transaction_id"; "address_id"; "debit_amount"; "credit_amount"];
  t_ColumnsWithoutDefault :=
    ["transaction_id"; "address_id"];
  t_ColumnsWithDefault :=
    ["debit_amount"; "credit_amount"];
  t_PrimaryKeyColumns :=
    ["transaction_id"; "address_id"];
  t_UniqueColumns :=
    [];
  t_lastID := false;
|}.

Section TransactionAddress.
Context `{SqlBoiler, Executor}.
Definition TransactionAddresses := Query_of transactionAddress_table.
Definition transactionAddressQuery_One := One transactionAddress_table.
Definition transactionAddressQuery_All := All transactionAddress_table.
Definition transactionAddressQuery_Count := Count transactionAddress_table.
Definition transactionAddressQuery_Exists := Exists_query transactionAddress_table.
Definition transactionAddressQuery_UpdateAll := UpdateAll_query transactionAddress_table.
Definition transactionAddressQuery_DeleteAll := DeleteAll_query transactionAddress_table.
Definition FindTransactionAddress := Find transactionAddress_table.
Definition TransactionAddressExists := Exists_key transactionAddress_table.
Definition TransactionAddress_Exists := Exists_struct transactionAddress_table.
Definition TransactionAddress_Insert := Insert transactionAddress_table.
Definition TransactionAddress_Update := Update transactionAddress_table.
Definition TransactionAddress_Upsert := Upsert transactionAddress_table.
Definition TransactionAddress_Delete := Delete transactionAddress_table.
Definition TransactionAddress_Reload := Reload transactionAddress_table.
Definition TransactionAddressSlice_UpdateAll := UpdateAll transactionAddress_table.
Definition TransactionAddressSlice_DeleteAll := DeleteAll transactionAddress_table.
Definition TransactionAddressSlice_ReloadAll := ReloadAll transactionAddress_table.
End TransactionAddress.

(** *** [model/claim.go] *)

Definition ClaimColumns : list (string * string) :=
  [("ID", "id"); ("TransactionHashID", "transaction_hash_id"); ("Vout", "vout");
   ("Name", "name"); ("ClaimID", "claim_id"); ("ClaimType", "claim_type");
   ("PublisherID", "publisher_id"); ("PublisherSig", "publisher_sig");
   ("Certificate", "certificate"); ("SDHash", "sd_hash");
   ("TransactionTime", "transaction_time"); ("Version", "version");
   ("ValueAsHex", "value_as_hex"); ("ValueAsJSON", "value_as_json");
   ("ValidAtHeight", "valid_at_height"); ("Height", "height");
   ("EffectiveAmount", "effective_amount"); ("Author", "author"); ("Description", "description");
   ("ContentType", "content_type"); ("IsNSFW", "is_nsfw"); ("Language", "language");
   ("ThumbnailURL", "thumbnail_url"); ("Title", "title"); ("Fee", "fee");
   ("FeeCurrency", "fee_currency"); ("FeeAddress", "fee_address"); ("IsFiltered", "is_filtered");
   ("BidState", "bid_state"); ("CreatedAt", "created_at"); ("ModifiedAt", "modified_at");
   ("ClaimAddress", "claim_address"); ("IsCertValid", "is_cert_valid");
   ("IsCertProcessed", "is_cert_processed"); ("License", "license"); ("Type", "type");
   ("ReleaseTime", "release_time"); ("SourceHash", "source_hash"); ("SourceName", "source_name");
   ("SourceSize", "source_size"); ("SourceMediaType", "source_media_type");
   ("SourceURL", "source_url"); ("FrameWidth", "frame_width"); ("FrameHeight", "frame_height");
   ("Duration", "duration"); ("AudioDuration", "audio_duration"); ("Email", "email");
   ("HasClaimList", "has_claim_list"); ("ClaimReference", "claim_reference");
   ("ListType", "list_type"); ("ClaimIDList", "claim_id_list");
   ("TransactionHashUpdate", "transaction_hash_update"); ("VoutUpdate", "vout_update");
   ("ClaimCount", "claim_count")].
Definition ClaimTableColumns : list (string * string) :=
  [("ID", "claim.id"); ("TransactionHashID", "claim.transaction_hash_id");
   ("Vout", "claim.vout"); ("Name", "claim.name"); ("ClaimID", "claim.claim_id");
   ("ClaimType", "claim.claim_type"); ("PublisherID", "claim.publisher_id");
   ("PublisherSig", "claim.publisher_sig"); ("Certificate", "claim.certificate");
   ("SDHash", "claim.sd_hash"); ("TransactionTime", "claim.transaction_time");
   ("Version", "claim.version"); ("ValueAsHex", "claim.value_as_hex");
   ("ValueAsJSON", "claim.value_as_json"); ("ValidAtHeight", "claim.valid_at_height");
   ("Height", "claim.height"); ("EffectiveAmount", "claim.effective_amount");
   ("Author", "claim.author"); ("Description", "claim.description");
   ("ContentType", "claim.content_type"); ("IsNSFW", "claim.is_nsfw");
   ("Language", "claim.language"); ("ThumbnailURL", "claim.thumbnail_url");
   ("Title", "claim.title"); ("Fee", "claim.fee"); ("FeeCurrency", "claim.fee_currency");
   ("FeeAddress", "claim.fee_address"); ("IsFiltered", "claim.is_filtered");
   ("BidState", "claim.bid_state"); ("CreatedAt", "claim.created_at");
   ("ModifiedAt", "claim.modified_at"); ("ClaimAddress", "claim.claim_address");
   ("IsCertValid", "claim.is_cert_valid"); ("IsCertProcessed", "claim.is_cert_processed");
   ("License", "claim.license"); ("Type", "claim.type"); ("ReleaseTime", "claim.release_time");
   ("SourceHash", "claim.source_hash"); ("SourceName", "claim.source_name");
   ("SourceSize", "claim.source_size"); ("SourceMediaType", "claim.source_media_type");
   ("SourceURL", "claim.source_url"); ("FrameWidth", "claim.frame_width");
   ("FrameHeight", "claim.frame_height"); ("Duration", "claim.duration");
   ("AudioDuration", "claim.audio_duration"); ("Email", "claim.email");
   ("HasClaimList", "claim.has_claim_list"); ("ClaimReference", "claim.claim_reference");
   ("ListType", "claim.list_type"); ("ClaimIDList", "claim.claim_id_list");
   ("TransactionHashUpdate", "claim.transaction_hash_update");
   ("VoutUpdate", "claim.vout_update"); ("ClaimCount", "claim.claim_count")].
Definition claim_table : Table := {|
  t_table := "claim"; t_Type := "Claim"; t_type := "claim";
  t_Columns := ClaimColumns; t_TableColumns := ClaimTableColumns;
  t_AllColumns :=
    ["id"; "transaction_hash_id"; "vout"; "name"; "claim_id"; "claim_type"; "publisher_id";
     "publisher_sig"; "certificate"; "sd_hash"; "transaction_time"; "version"; "value_as_hex";
     "value_as_json"; "valid_at_height"; "height"; "effective_amount"; "author"; "description";
     "content_type"; "is_nsfw"; "language"; "thumbnail_url"; "title"; "fee"; "fee_currency";
     "fee_address"; "is_filtered"; "bid_state"; "created_at"; "modified_at"; "claim_address";
     "is_cert_valid"; "is_cert_processed"; "license"; "type"; "release_time"; "source_hash";
     "source_name"; "source_size"; "source_media_type"; "source_url"; "frame_width";
     "frame_height"; "duration"; "audio_duration"; "email"; "has_claim_list"; "claim_reference";
     "list_type"; "claim_id_list"; "transaction_hash_update"; "vout_update"; "claim_count"];
  t_ColumnsWithoutDefault :=
    ["transaction_hash_id"; "vout"; "name"; "claim_id"; "claim_type"; "publisher_id";
     "publisher_sig"; "certificate"; "sd_hash"; "transaction_time"; "version"; "value_as_hex";
     "value_as_json"; "valid_at_height"; "height"; "author"; "description"; "content_type";
     "language"; "thumbnail_url"; "title"; "fee_currency"; "fee_address"; "claim_address";
     "is_cert_valid"; "is_cert_processed"; "license"; "type"; "release_time"; "source_hash";
     "source_name"; "source_size"; "source_media_type"; "source_url"; "frame_width";
     "frame_height"; "duration"; "audio_duration"; "email"; "has_claim_list"; "claim_reference";
     "list_type"; "claim_id_list"; "transaction_hash_update"; "vout_update"];
  t_ColumnsWithDefault :=
    ["id"; "effective_amount"; "is_nsfw"; "fee"; "is_filtered"; "bid_state"; "created_at";
     "modified_at"; "claim_count"];
  t_PrimaryKeyColumns :=
    ["id"];
  t_UniqueColumns :=
    ["id"];
  t_lastID := true;
|}.

Section Claim.
Context `{SqlBoiler, Executor}.
Definition Claims := Query_of claim_table.
Definition claimQuery_One := One claim_table.
Definition claimQuery_All := All claim_table.
Definition claimQuery_Count := Count claim_table.
Definition claimQuery_Exists := Exists_query claim_table.
Definition claimQuery_UpdateAll := UpdateAll_query claim_table.
Definition claimQuery_DeleteAll := DeleteAll_query claim_table.
Definition FindClaim := Find claim_table.
Definition ClaimExists := Exists_key claim_table.
Definition Claim_Exists := Exists_struct claim_table.
Definition Claim_Insert := Insert claim_table.
Definition Claim_Update := Update claim_table.
Definition Claim_Upsert := Upsert claim_table.
Definition Claim_Delete := Delete claim_table.
Definition Claim_Reload := Reload claim_table.
Definition ClaimSlice_UpdateAll := UpdateAll claim_table.
Definition ClaimSlice_DeleteAll := DeleteAll claim_table.
Definition ClaimSlice_ReloadAll := ReloadAll claim_table.
End Claim.

(** *** [model/support.go] *)

Definition SupportColumns : list (string * string) :=
  [("ID", "id"); ("SupportedClaimID", "supported_claim_id"); ("SupportAmount", "support_amount");
   ("BidState", "bid_state"); ("TransactionHashID", "transaction_hash_id"); ("Vout", "vout");
   ("CreatedAt", "created_at"); ("ModifiedAt", "modified_at");
   ("SupportedByClaimID", "supported_by_claim_id")].
Definition SupportTableColumns : list (string * string) :=
  [("ID", "support.id"); ("SupportedClaimID", "support.supported_claim_id");
   ("SupportAmount", "support.support_amount"); ("BidState", "support.bid_state");
   ("TransactionHashID", "support.transaction_hash_id"); ("Vout", "support.vout");
   ("CreatedAt", "support.created_at"); ("ModifiedAt", "support.modified_at");
   ("SupportedByClaimID", "support.supported_by_claim_id")].
Definition support_table : Table := {|
  t_table := "support"; t_Type := "Support"; t_type := "support";
  t_Columns := SupportColumns; t_TableColumns := SupportTableColumns;
  t_AllColumns :=
    ["id"; "supported_claim_id"; "support_amount"; "bid_state"; "transaction_hash_id"; "vout";
     "created_at"; "modified_at"; "supported_by_claim_id"];
  t_ColumnsWithoutDefault :=
    ["supported_claim_id"; "transaction_hash_id"; "vout"; "supported_by_claim_id"];
  t_ColumnsWithDefault :=
    ["id"; "support_amount"; "bid_state"; "created_at"; "modified_at"];
  t_PrimaryKeyColumns :=
    ["id"];
  t_UniqueColumns :=
    ["id"];
  t_lastID := true;
|}.

Section Support.
Context `{SqlBoiler, Executor}.
Definition Supports := Query_of support_table.
Definition supportQuery_One := One support_table.
Definition supportQuery_All := All support_table.
Definition supportQuery_Count := Count support_table.
Definition supportQuery_Exists := Exists_query support_table.
Definition supportQuery_UpdateAll := UpdateAll_query support_table.
Definition supportQuery_DeleteAll := DeleteAll_query support_table.
Definition FindSupport := Find support_table.
Definition SupportExists := Exists_key support_table.
Definition Support_Exists := Exists_struct support_table.
Definition Support_Insert := Insert support_table.
Definition Support_Update := Update support_table.
Definition Support_Upsert := Upsert support_table.
Definition Support_Delete := Delete support_table.
Definition Support_Reload := Reload support_table.
Definition SupportSlice_UpdateAll := UpdateAll support_table.
Definition SupportSlice_DeleteAll := DeleteAll support_table.
Definition SupportSlice_ReloadAll := ReloadAll support_table.
End Support.

(** *** [model/purchase.go] *)

Definition PurchaseColumns : list (string * string) :=
  [("ID", "id"); ("TransactionByHashID", "transaction_by_hash_id"); ("Vout", "vout");
   ("ClaimID", "claim_id"); ("PublisherID", "publisher_id"); ("Height", "height");
   ("AmountSatoshi", "amount_satoshi"); ("Created", "created"); ("Modified", "modified")].
Definition PurchaseTableColumns : list (string * string) :=
  [("ID", "purchase.id"); ("TransactionByHashID", "purchase.transaction_by_hash_id");
   ("Vout", "purchase.vout"); ("ClaimID", "purchase.claim_id");
   ("PublisherID", "purchase.publisher_id"); ("Height", "purchase.height");
   ("AmountSatoshi", "purchase.amount_satoshi"); ("Created", "purchase.created");
   ("Modified", "purchase.modified")].
Definition purchase_table : Table := {|
  t_table := "purchase"; t_Type := "Purchase"; t_type := "purchase";
  t_Columns := PurchaseColumns; t_TableColumns := PurchaseTableColumns;
  t_AllColumns :=
    ["id"; "transaction_by_hash_id"; "vout"; "claim_id"; "publisher_id"; "height";
     "amount_satoshi"; "created"; "modified"];
  t_ColumnsWithoutDefault :=
    ["transaction_by_hash_id"; "vout"; "claim_id"; "publisher_id"; "height"];
  t_ColumnsWithDefault :=
    ["id"; "amount_satoshi"; "created"; "modified"];
  t_PrimaryKeyColumns :=
    ["id"];
  t_UniqueColumns :=
    ["id"];
  t_lastID := true;
|}.

Section Purchase.
Context `{SqlBoiler, Executor}.
Definition Purchases := Query_of purchase_table.
Definition purchaseQuery_One := One purchase_table.
Definition purchaseQuery_All := All purchase_table.
Definition purchaseQuery_Count := Count purchase_table.
Definition purchaseQuery_Exists := Exists_query purchase_table.
Definition purchaseQuery_UpdateAll := UpdateAll_query purchase_table.
Definition purchaseQuery_DeleteAll := DeleteAll_query purchase_table.
Definition FindPurchase := Find purchase_table.
Definition PurchaseExists := Exists_key purchase_table.
Definition Purchase_Exists := Exists_struct purchase_table.
Definition Purchase_Insert := Insert purchase_table.
Definition Purchase_Update := Update purchase_table.
Definition Purchase_Upsert := Upsert purchase_table.
Definition Purchase_Delete := Delete purchase_table.
Definition Purchase_Reload := Reload purchase_table.
Definition PurchaseSlice_UpdateAll := UpdateAll purchase_table.
Definition PurchaseSlice_DeleteAll := DeleteAll purchase_table.
Definition PurchaseSlice_ReloadAll := ReloadAll purchase_table.
End Purchase.

(** *** [model/tag.go] *)

Definition TagColumns : list (string * string) :=
  [("ID", "id"); ("Tag", "tag"); ("CreatedAt", "created_at"); ("ModifiedAt", "modified_at")].
Definition TagTableColumns : list (string * string) :=
  [("ID", "tag.id"); ("Tag", "tag.tag"); ("CreatedAt", "tag.created_at");
   ("ModifiedAt", "tag.modified_at")].
Definition tag_table : Table := {|
  t_table := "tag"; t_Type := "Tag"; t_type := "tag";
  t_Columns := TagColumns; t_TableColumns := TagTableColumns;
  t_AllColumns :=
    ["id"; "tag"; "created_at"; "modified_at"];
  t_ColumnsWithoutDefault :=
    ["tag"];
  t_ColumnsWithDefault :=
    ["id"; "created_at"; "modified_at"];
  t_PrimaryKeyColumns :=
    ["id"];
  t_UniqueColumns :=
    ["id"; "tag"];
  t_lastID := true;
|}.

Section Tag.
Context `{SqlBoiler, Executor}.
Definition Tags := Query_of tag_table.
Definition tagQuery_One := One tag_table.
Definition tagQuery_All := All tag_table.
Definition tagQuery_Count := Count tag_table.
Definition tagQuery_Exists := Exists_query tag_table.
Definition tagQuery_UpdateAll := UpdateAll_query tag_table.
Definition tagQuery_DeleteAll := DeleteAll_query tag_table.
Definition FindTag := Find tag_table.
Definition TagExists := Exists_key tag_table.
Definition Tag_Exists := Exists_struct tag_table.
Definition Tag_Insert := Insert tag_table.
Definition Tag_Update := Update tag_table.
Definition Tag_Upsert := Upsert tag_table.
Definition Tag_Delete := Delete tag_table.
Definition Tag_Reload := Reload tag_table.
Definition TagSlice_UpdateAll := UpdateAll tag_table.
Definition TagSlice_DeleteAll := DeleteAll tag_table.
Definition TagSlice_ReloadAll := ReloadAll tag_table.
End Tag.

(** *** [model/claim_tag.go] *)

Definition ClaimTagColumns : list (string * string) :=
  [("ID", "id"); ("TagID", "tag_id"); ("ClaimID", "claim_id"); ("CreatedAt", "created_at");
   ("ModifiedAt", "modified_at")].
Definition ClaimTagTableColumns : list (string * string) :=
  [("ID", "claim_tag.id"); ("TagID", "claim_tag.tag_id"); ("ClaimID", "claim_tag.claim_id");
   ("CreatedAt", "claim_tag.created_at"); ("ModifiedAt", "claim_tag.modified_at")].
Definition claimTag_table : Table := {|
  t_table := "claim_tag"; t_Type := "ClaimTag"; t_type := "claimTag";
  t_Columns := ClaimTagColumns; t_TableColumns := ClaimTagTableColumns;
  t_AllColumns :=
    ["id"; "tag_id"; "claim_id"; "created_at"; "modified_at"];
  t_ColumnsWithoutDefault :=
    ["tag_id"; "claim_id"];
  t_ColumnsWithDefault :=
    ["id"; "created_at"; "modified_at"];
  t_PrimaryKeyColumns :=
    ["id"];
  t_UniqueColumns :=
    ["id"];
  t_lastID := true;
|}.

Section ClaimTag.
Context `{SqlBoiler, Executor}.
Definition ClaimTags := Query_of claimTag_table.
Definition claimTagQuery_One := One claimTag_table.
Definition claimTagQuery_All := All claimTag_table.
Definition claimTagQuery_Count := Count claimTag_table.
Definition claimTagQuery_Exists := Exists_query claimTag_table.
Definition claimTagQuery_UpdateAll := UpdateAll_query claimTag_table.
Definition claimTagQuery_DeleteAll := DeleteAll_query claimTag_table.
Definition FindClaimTag := Find claimTag_table.
Definition ClaimTagExists := Exists_key claimTag_table.
Definition ClaimTag_Exists := Exists_struct claimTag_table.
Definition ClaimTag_Insert := Insert claimTag_table.
Definition ClaimTag_Update := Update claimTag_table.
Definition ClaimTag_Upsert := Upsert claimTag_table.
Definition ClaimTag_Delete := Delete claimTag_table.
Definition ClaimTag_Reload := Reload claimTag_table.
Definition ClaimTagSlice_UpdateAll := UpdateAll claimTag_table.
Definition ClaimTagSlice_DeleteAll := DeleteAll claimTag_table.
Definition ClaimTagSlice_ReloadAll := ReloadAll claimTag_table.
End ClaimTag.

(** *** [model/abnormal_claim.go] *)

Definition AbnormalClaimColumns : list (string * string) :=
  [("ID", "id"); ("Name", "name"); ("ClaimID", "claim_id"); ("IsUpdate", "is_update");
   ("BlockHash", "block_hash"); ("TransactionHash", "transaction_hash"); ("Vout", "vout");
   ("OutputID", "output_id"); ("ValueAsHex", "value_as_hex"); ("ValueAsJSON", "value_as_json");
   ("CreatedAt", "created_at"); ("ModifiedAt", "modified_at")].
Definition AbnormalClaimTableColumns : list (string * string) :=
  [("ID", "abnormal_claim.id"); ("Name", "abnormal_claim.name");
   ("ClaimID", "abnormal_claim.claim_id"); ("IsUpdate", "abnormal_claim.is_update");
   ("BlockHash", "abnormal_claim.block_hash");
   ("TransactionHash", "abnormal_claim.transaction_hash"); ("Vout", "abnormal_claim.vout");
   ("OutputID", "abnormal_claim.output_id"); ("ValueAsHex", "abnormal_claim.value_as_hex");
   ("ValueAsJSON", "abnormal_claim.value_as_json"); ("CreatedAt", "abnormal_claim.created_at");
   ("ModifiedAt", "abnormal_claim.modified_at")].
Definition abnormalClaim_table : Table := {|
  t_table := "abnormal_claim"; t_Type := "AbnormalClaim"; t_type := "abnormalClaim";
  t_Columns := AbnormalClaimColumns; t_TableColumns := AbnormalClaimTableColumns;
  t_AllColumns :=
    ["id"; "name"; "claim_id"; "is_update"; "block_hash"; "transaction_hash"; "vout";
     "output_id"; "value_as_hex"; "value_as_json"; "created_at"; "modified_at"];
  t_ColumnsWithoutDefault :=
    ["name"; "claim_id"; "block_hash"; "transaction_hash"; "vout"; "output_id"; "value_as_hex";
     "value_as_json"];
  t_ColumnsWithDefault :=
    ["id"; "is_update"; "created_at"; "modified_at"];
  t_PrimaryKeyColumns :=
    ["id"];
  t_UniqueColumns :=
    ["id"];
  t_lastID := true;
|}.

Section AbnormalClaim.
Context `{SqlBoiler, Executor}.
Definition AbnormalClaims := Query_of abnormalClaim_table.
Definition abnormalClaimQuery_One := One abnormalClaim_table.
Definition abnormalClaimQuery_All := All abnormalClaim_table.
Definition abnormalClaimQuery_Count := Count abnormalClaim_table.
Definition abnormalClaimQuery_Exists := Exists_query abnormalClaim_table.
Definition abnormalClaimQuery_UpdateAll := UpdateAll_query abnormalClaim_table.
Definition abnormalClaimQuery_DeleteAll := DeleteAll_query abnormalClaim_table.
Definition FindAbnormalClaim := Find abnormalClaim_table.
Definition AbnormalClaimExists := Exists_key abnormalClaim_table.
Definition AbnormalClaim_Exists := Exists_struct abnormalClaim_table.
Definition AbnormalClaim_Insert := Insert abnormalClaim_table.
Definition AbnormalClaim_Update := Update abnormalClaim_table.
Definition AbnormalClaim_Upsert := Upsert abnormalClaim_table.
Definition AbnormalClaim_Delete := Delete abnormalClaim_table.
Definition AbnormalClaim_Reload := Reload abnormalClaim_table.
Definition AbnormalClaimSlice_UpdateAll := UpdateAll abnormalClaim_table.
Definition AbnormalClaimSlice_DeleteAll := DeleteAll abnormalClaim_table.
Definition AbnormalClaimSlice_ReloadAll := ReloadAll abnormalClaim_table.
End AbnormalClaim.

(** *** [model/claim_in_list.go] *)

Definition ClaimInListColumns : list (string * string) :=
  [("ID", "id"); ("ListClaimID", "list_claim_id"); ("ClaimID", "claim_id");
   ("CreatedAt", "created_at"); ("ModifiedAt", "modified_at")].
Definition ClaimInListTableColumns : list (string * string) :=
  [("ID", "claim_in_list.id"); ("ListClaimID", "claim_in_list.list_claim_id");
   ("ClaimID", "claim_in_list.claim_id"); ("CreatedAt", "claim_in_list.created_at");
   ("ModifiedAt", "claim_in_list.modified_at")].
Definition claimInList_table : Table := {|
  t_table := "claim_in_list"; t_Type := "ClaimInList"; t_type := "claimInList";
  t_Columns := ClaimInListColumns; t_TableColumns := ClaimInListTableColumns;
  t_AllColumns :=
    ["id"; "list_claim_id"; "claim_id"; "created_at"; "modified_at"];
  t_ColumnsWithoutDefault :=
    ["list_claim_id"; "claim_id"];
  t_ColumnsWithDefault :=
    ["id"; "created_at"; "modified_at"];
  t_PrimaryKeyColumns :=
    ["id"];
  t_UniqueColumns :=
    ["id"];
  t_lastID := true;
|}.

Section ClaimInList.
Context `{SqlBoiler, Executor}.
Definition ClaimInLists := Query_of claimInList_table.
Definition claimInListQuery_One := One claimInList_table.
Definition claimInListQuery_All := All claimInList_table.
Definition claimInListQuery_Count := Count claimInList_table.
Definition claimInListQuery_Exists := Exists_query claimInList_table.
Definition claimInListQuery_UpdateAll := UpdateAll_query claimInList_table.
Definition claimInListQuery_DeleteAll := DeleteAll_query claimInList_table.
Definition FindClaimInList := Find claimInList_table.
Definition ClaimInListExists := Exists_key claimInList_table.
Definition ClaimInList_Exists := Exists_struct claimInList_table.
Definition ClaimInList_Insert := Insert claimInList_table.
Definition ClaimInList_Update := Update claimInList_table.
Definition ClaimInList_Upsert := Upsert claimInList_table.
Definition ClaimInList_Delete := Delete claimInList_table.
Definition ClaimInList_Reload := Reload claimInList_table.
Definition ClaimInListSlice_UpdateAll := UpdateAll claimInList_table.
Definition ClaimInListSlice_DeleteAll := DeleteAll claimInList_table.
Definition ClaimInListSlice_ReloadAll := ReloadAll claimInList_table.
End ClaimInList.

(** *** [model/job_status.go] *)

Definition JobStatusColumns : list (string * string) :=
  [("JobName", "job_name"); ("LastSync", "last_sync"); ("IsSuccess", "is_success");
   ("ErrorMessage", "error_message"); ("State", "state")].
Definition JobStatusTableColumns : list (string * string) :=
  [("JobName", "job_status.job_name"); ("LastSync", "job_status.last_sync");
   ("IsSuccess", "job_status.is_success"); ("ErrorMessage", "job_status.error_message");
   ("State", "job_status.state")].
Definition jobStatus_table : Table := {|
  t_table := "job_status"; t_Type := "JobStatus"; t_type := "jobStatus";
  t_Columns := JobStatusColumns; t_TableColumns := JobStatusTableColumns;
  t_AllColumns :=
    ["job_name"; "last_sync"; "is_success"; "error_message"; "state"];
  t_ColumnsWithoutDefault :=
    ["job_name"; "error_message"; "state"];
  t_ColumnsWithDefault :=
    ["last_sync"; "is_success"];
  t_PrimaryKeyColumns :=
    ["job_name"];
  t_UniqueColumns :=
    ["job_name"];
  t_lastID := false;
|}.

Section JobStatus.
Context `{SqlBoiler, Executor}.
Definition JobStatuses := Query_of jobStatus_table.
Definition jobStatusQuery_One := One jobStatus_table.
Definition jobStatusQuery_All := All jobStatus_table.
Definition jobStatusQuery_Count := Count jobStatus_table.
Definition jobStatusQuery_Exists := Exists_query jobStatus_table.
Definition jobStatusQuery_UpdateAll := UpdateAll_query jobStatus_table.
Definition jobStatusQuery_DeleteAll := DeleteAll_query jobStatus_table.
Definition FindJobStatus := Find jobStatus_table.
Definition JobStatusExists := Exists_key jobStatus_table.
Definition JobStatus_Exists := Exists_struct jobStatus_table.
Definition JobStatus_Insert := Insert jobStatus_table.
Definition JobStatus_Update := Update jobStatus_table.
Definition JobStatus_Upsert := Upsert jobStatus_table.
Definition JobStatus_Delete := Delete jobStatus_table.
Definition JobStatus_Reload := Reload jobStatus_table.
Definition JobStatusSlice_UpdateAll := UpdateAll jobStatus_table.
Definition JobStatusSlice_DeleteAll := DeleteAll jobStatus_table.
Definition JobStatusSlice_ReloadAll := ReloadAll jobStatus_table.
End JobStatus.

(** *** [model/application_status.go] *)

Definition ApplicationStatusColumns : list (string * string) :=
  [("ID", "id"); ("AppVersion", "app_version"); ("DataVersion", "data_version");
   ("APIVersion", "api_version")].
Definition ApplicationStatusTableColumns : list (string * string) :=
  [("ID", "application_status.id"); ("AppVersion", "application_status.app_version");
   ("DataVersion", "application_status.data_version");
   ("APIVersion", "application_status.api_version")].
Definition applicationStatus_table : Table := {|
  t_table := "application_status"; t_Type := "ApplicationStatus"; t_type := "applicationStatus";
  t_Columns := ApplicationStatusColumns; t_TableColumns := ApplicationStatusTableColumns;
  t_AllColumns :=
    ["id"; "app_version"; "data_version"; "api_version"];
  t_ColumnsWithoutDefault :=
    ["app_version"; "data_version"; "api_version"];
  t_ColumnsWithDefault :=
    ["id"];
  t_PrimaryKeyColumns :=
    ["id"];
  t_UniqueColumns :=
    ["id"];
  t_lastID := true;
|}.

Section ApplicationStatus.
Context `{SqlBoiler, Executor}.
Definition ApplicationStatuses := Query_of applicationStatus_table.
Definition applicationStatusQuery_One := One applicationStatus_table.
Definition applicationStatusQuery_All := All applicationStatus_table.
Definition applicationStatusQuery_Count := Count applicationStatus_table.
Definition applicationStatusQuery_Exists := Exists_query applicationStatus_table.
Definition applicationStatusQuery_UpdateAll := UpdateAll_query applicationStatus_table.
Definition applicationStatusQuery_DeleteAll := DeleteAll_query applicationStatus_table.
Definition FindApplicationStatus := Find applicationStatus_table.
Definition ApplicationStatusExists := Exists_key applicationStatus_table.
Definition ApplicationStatus_Exists := Exists_struct applicationStatus_table.
Definition ApplicationStatus_Insert := Insert applicationStatus_table.
Definition ApplicationStatus_Update := Update applicationStatus_table.
Definition ApplicationStatus_Upsert := Upsert applicationStatus_table.
Definition ApplicationStatus_Delete := Delete applicationStatus_table.
Definition ApplicationStatus_Reload := Reload applicationStatus_table.
Definition ApplicationStatusSlice_UpdateAll := UpdateAll applicationStatus_table.
Definition ApplicationStatusSlice_DeleteAll := DeleteAll applicationStatus_table.
Definition ApplicationStatusSlice_ReloadAll := ReloadAll applicationStatus_table.
End ApplicationStatus.

(** ** All of them *)

Definition tables : list Table :=
  [block_table; transaction_table; input_table; output_table; address_table;
   transactionAddress_table; claim_table; support_table; purchase_table; tag_table;
   claimTag_table; abnormalClaim_table; claimInList_table; jobStatus_table;
   applicationStatus_table].
