(* ===== verification/ModelFacts.v ===== *)
(** * What the generated row code relies on

    The column lists of the fifteen tables ([table_ok], [names_ok]), the laws of the libraries
    ([BoilerLaws]), the keys of the caches, which tell the column lists of a table apart, and
    two ways to reason about a method: [agree], that it answers alike from right caches, and
    [balanced], that its statements have an argument for each placeholder. *)
From Stdlib Require Import Ascii.
From stdpp Require Import pretty.
From S2P Require Import Prelude Bytes Lbrycrd Codes Boiler ModelTables.

#[local] Arguments String.append : simpl nomatch.

(** ** The tables *)

Fixpoint marks (s : string) : nat :=
  match s with
  | EmptyString => 0
  | String a s' => ((if Ascii.eqb a "?"%char then 1 else 0) + marks s')%nat
  end.
Definition clean (s : string) : bool := (marks s =? 0)%nat && negb (occurs "."%char s).

Definition subset (l1 l2 : list string) : bool := forallb (fun s => inb s l2) l1.

Definition table_ok (t : Table) : bool :=
  uniquely_decodable (t_AllColumns t) &&
  forallb clean (t_table t :: t_AllColumns t) &&
  subset (t_PrimaryKeyColumns t ++ t_UniqueColumns t) (t_AllColumns t) &&
  subset (t_ColumnsWithDefault t ++ t_ColumnsWithoutDefault t) (t_AllColumns t).

(** The variables of a file say the same. *)
Definition names_ok (t : Table) : bool :=
  bool_decide (map snd (t_Columns t) = t_AllColumns t) &&
  bool_decide (t_TableColumns t = map (fun c => (c.1, t_table t +:+ "." +:+ c.2)) (t_Columns t)) &&
  bool_decide (NoDup (map fst (t_Columns t))) && bool_decide (NoDup (t_AllColumns t)) &&
  bool_decide (filter (fun c => c ∈ t_ColumnsWithDefault t) (t_AllColumns t) ≡ₚ t_ColumnsWithDefault t) &&
  bool_decide (filter (fun c => c ∉ t_ColumnsWithDefault t) (t_AllColumns t) = t_ColumnsWithoutDefault t) &&
  bool_decide (t_lastID t = true <-> t_PrimaryKeyColumns t = ["id"]).

Lemma tables_ok : forallb table_ok tables = true.
Proof. vm_compute. reflexivity. Qed.
Lemma tables_named : forallb names_ok tables = true.
Proof. vm_compute. reflexivity. Qed.

Lemma subset_spec l1 l2 : subset l1 l2 = true <-> l1 ⊆ l2.
Proof.
  unfold subset. rewrite forallb_forall. split.
  - intros Hs s Hin. apply inb_spec, Hs. by apply list_elem_of_In.
  - intros Hs s Hin. apply inb_spec, Hs. by apply list_elem_of_In.
Qed.

Section Table.
Context (t : Table) (Ht : table_ok t = true).

Lemma table_decodes l1 l2 :
  l1 ⊆ t_AllColumns t -> l2 ⊆ t_AllColumns t -> concat_strings l1 = concat_strings l2 -> l1 = l2.
Proof.
  unfold table_ok in Ht. rewrite !andb_true_iff in Ht. apply decodes. tauto.
Qed.
Lemma table_clean s : s ∈ t_table t :: t_AllColumns t -> marks s = 0%nat /\ occurs "."%char s = false.
Proof.
  unfold table_ok in Ht. rewrite !andb_true_iff in Ht. destruct Ht as [[[_ Hc] _] _].
  rewrite forallb_forall in Hc. intros Hs%list_elem_of_In%Hc. unfold clean in Hs.
  apply andb_true_iff in Hs as [?%Nat.eqb_eq ?%negb_true_iff]. done.
Qed.
Lemma table_keys l : l = t_PrimaryKeyColumns t \/ l = t_UniqueColumns t -> l ⊆ t_AllColumns t.
Proof.
  unfold table_ok in Ht. rewrite !andb_true_iff, !subset_spec in Ht. set_solver.
Qed.
Lemma table_defaults l :
  l = t_ColumnsWithDefault t \/ l = t_ColumnsWithoutDefault t -> l ⊆ t_AllColumns t.
Proof.
  unfold table_ok in Ht. rewrite !andb_true_iff, !subset_spec in Ht. set_solver.
Qed.

(** ** The keys of the caches *)

(** Columns as the program asks for them: a kind of the library, columns of the table. *)
Definition proper (c : Columns) : Prop := 0 <= Kind c < 10 /\ Cols c ⊆ t_AllColumns t.
Definition defaults (l : list string) : Prop := l ⊆ t_AllColumns t.

Lemma no_dots l : l ⊆ t_AllColumns t -> occurs "."%char (concat_strings l) = false.
Proof.
  intros Hl. apply occurs_concat, forallb_forall. intros s Hs%list_elem_of_In.
  destruct (table_clean s) as [_ ->]; [right; by apply Hl | done].
Qed.

(** The number of a kind is one digit. *)
Lemma kind_digit k : 0 <= k < 10 -> exists a, pretty k = String a "" /\ a <> "."%char.
Proof.
  intros Hk. assert (Hin : k ∈ seqZ 0 10) by (apply elem_of_seqZ; lia).
  assert (Hall : Forall (fun k => exists a, pretty k = String a "" /\ a <> "."%char) (seqZ 0 10)).
  { vm_compute. repeat (constructor; [eexists; split; [reflexivity | discriminate] |]). constructor. }
  rewrite Forall_forall in Hall. by apply Hall.
Qed.
Lemma kind_inj k1 k2 s1 s2 :
  0 <= k1 < 10 -> 0 <= k2 < 10 -> pretty k1 +:+ s1 = pretty k2 +:+ s2 -> k1 = k2 /\ s1 = s2.
Proof.
  intros (a & Ea & _)%kind_digit (b & Eb & _)%kind_digit E. rewrite Ea, Eb in E.
  cbn in E. injection E as -> ->. split; [| done]. apply (inj pretty). congruence.
Qed.

Lemma makeCacheKey_inj c1 c2 nz1 nz2 :
  proper c1 -> proper c2 -> defaults nz1 -> defaults nz2 ->
  makeCacheKey c1 nz1 = makeCacheKey c2 nz2 -> c1 = c2 /\ nz1 = nz2.
Proof.
  intros [Hk1 H1] [Hk2 H2] Hn1 Hn2 E. destruct c1 as [k1 l1], c2 as [k2 l2]. cbn in *.
  unfold makeCacheKey in E. cbn in E. apply kind_inj in E as [-> E]; [| done..].
  destruct nz1 as [| a1 nz1], nz2 as [| a2 nz2].
  - assert (Hnil : forall s : string, s +:+ "" = s) by (intros s; by apply string_app_nil).
    cbn in E. rewrite !Hnil in E. split; [| done]. f_equal. by apply table_decodes.
  - exfalso. apply (f_equal (occurs "."%char)) in E. rewrite !occurs_app in E.
    rewrite no_dots in E by done. cbn in E. by rewrite orb_true_r in E.
  - exfalso. apply (f_equal (occurs "."%char)) in E. rewrite !occurs_app in E.
    rewrite (no_dots l2) in E by done. cbn in E. by rewrite orb_true_r in E.
  - apply split_first in E as [El En]; [| by apply no_dots..].
    split; [f_equal |]; by apply table_decodes.
Qed.

Lemma upsert_key_inj u1 u2 i1 i2 nz1 nz2 q1 q2 :
  proper u1 -> proper u2 -> proper i1 -> proper i2 ->
  defaults nz1 -> defaults nz2 -> defaults q1 -> defaults q2 ->
  upsert_key u1 i1 nz1 q1 = upsert_key u2 i2 nz2 q2 -> u1 = u2 /\ i1 = i2 /\ nz1 = nz2 /\ q1 = q2.
Proof.
  intros [Hk1 H1] [Hk2 H2] [Hj1 I1] [Hj2 I2] Hn1 Hn2 Hq1 Hq2 E.
  destruct u1 as [k1 l1], u2 as [k2 l2], i1 as [j1 m1], i2 as [j2 m2]. cbn in *.
  unfold upsert_key in E. cbn in E. apply kind_inj in E as [-> E]; [| done..].
  apply split_first in E as [El E]; [| by apply no_dots..].
  apply kind_inj in E as [-> E]; [| done..]. apply split_first in E as [Em E]; [| by apply no_dots..].
  apply split_first in E as [En Eq]; [| by apply no_dots..].
  apply table_decodes in El, Em, En, Eq; [| done..]. by subst.
Qed.
End Table.

(** ** The laws of the libraries *)

Class BoilerLaws `{SqlBoiler} : Prop := {
  NonZeroDefaultSet_incl l o : NonZeroDefaultSet l o ⊆ l;
  InsertColumnSet_incl c all wd wod nz : (InsertColumnSet c all wd wod nz).1 ⊆ wod ++ nz ++ Cols c;
  InsertColumnSet_ret c all wd wod nz : (InsertColumnSet c all wd wod nz).2 ⊆ all ++ wd;
  UpdateColumnSet_incl c all pk : UpdateColumnSet c all pk ⊆ all ++ Cols c;
  BindMapping_ok tags l : l ⊆ tags -> exists r, BindMapping (MakeStructMapping tags) l = Ok r;
  BindMapping_length m l r : BindMapping m l = Ok r -> length r = length l;
  ValuesFromMapping_length o m : length (ValuesFromMapping o m) = length m;
  SetParamNames_marks l : Forall (fun s => marks s = 0%nat) l -> marks (SetParamNames l) = length l;
  WhereClause_marks l : Forall (fun s => marks s = 0%nat) l -> marks (WhereClause l) = length l;
  WhereClauseRepeated_marks l n :
    Forall (fun s => marks s = 0%nat) l -> marks (WhereClauseRepeated l n) = (length l * n)%nat;
  Placeholders_marks n : marks (Placeholders n) = n;
  IdentQuote_marks s : marks s = 0%nat -> marks (IdentQuote s) = 0%nat;
  IdentQuoteSlice_length l : length (IdentQuoteSlice l) = length l;
  IdentQuoteSlice_marks l :
    Forall (fun s => marks s = 0%nat) l -> Forall (fun s => marks s = 0%nat) (IdentQuoteSlice l);
  SetComplement_incl l1 l2 : SetComplement l1 l2 ⊆ l1;
}.

(** ** Right caches *)

Section Caches.
Context `{SqlBoiler, Executor} (t : Table).

(** Every entry is the one its key stands for. *)
Record caches_ok (c : caches) : Prop := {
  inserts_ok k e : InsertCache c !! k = Some e -> exists cols nz,
    proper t cols /\ defaults t nz /\ k = makeCacheKey cols nz /\ insert_entry t cols nz = Ok e;
  updates_ok k e : UpdateCache c !! k = Some e -> exists cols,
    proper t cols /\ k = makeCacheKey cols [] /\ update_entry t cols = Ok e;
  upserts_ok k e : UpsertCache c !! k = Some e -> exists upd ins nz nzu,
    proper t upd /\ proper t ins /\ defaults t nz /\ defaults t nzu /\
    k = upsert_key upd ins nz nzu /\ upsert_entry t upd ins nz nzu = Ok e;
}.

Lemma no_caches_ok : caches_ok no_caches.
Proof. split; cbn; intros k e; by rewrite lookup_empty. Qed.

Context (Ht : table_ok t = true) (others_ok : forall h c, caches_ok c -> caches_ok (others h c)).

(** One entry more. *)
Lemma store_insert c cols nz e :
  proper t cols -> defaults t nz -> insert_entry t cols nz = Ok e ->
  caches_ok c -> caches_ok (put_insert <[makeCacheKey cols nz := e]> c).
Proof.
  intros Hc Hn He [Hi Hu Hp]. split; [| exact Hu | exact Hp]. intros k e'. cbn.
  rewrite lookup_insert_Some. intros [[<- <-] | [_ Hk]]; [by eauto 10 | by apply Hi].
Qed.
Lemma store_update c cols e :
  proper t cols -> update_entry t cols = Ok e ->
  caches_ok c -> caches_ok (put_update <[makeCacheKey cols [] := e]> c).
Proof.
  intros Hc He [Hi Hu Hp]. split; [exact Hi | | exact Hp]. intros k e'. cbn.
  rewrite lookup_insert_Some. intros [[<- <-] | [_ Hk]]; [by eauto 10 | by apply Hu].
Qed.
Lemma store_upsert c upd ins nz nzu e :
  proper t upd -> proper t ins -> defaults t nz -> defaults t nzu ->
  upsert_entry t upd ins nz nzu = Ok e ->
  caches_ok c -> caches_ok (put_upsert <[upsert_key upd ins nz nzu := e]> c).
Proof.
  intros Hc1 Hc2 Hn1 Hn2 He [Hi Hu Hp]. split; [exact Hi | exact Hu |]. intros k e'. cbn.
  rewrite lookup_insert_Some. intros [[<- <-] | [_ Hk]]; [by eauto 12 | by apply Hp].
Qed.

(** What is found is what would be built. *)
Lemma found_insert c cols nz e :
  caches_ok c -> proper t cols -> defaults t nz ->
  InsertCache c !! makeCacheKey cols nz = Some e -> insert_entry t cols nz = Ok e.
Proof.
  intros Hok Hc Hn (cols' & nz' & Hc' & Hn' & E & He)%(inserts_ok c Hok).
  by destruct (makeCacheKey_inj t Ht _ _ _ _ Hc Hc' Hn Hn' E) as [-> ->].
Qed.
Lemma found_update c cols e :
  caches_ok c -> proper t cols ->
  UpdateCache c !! makeCacheKey cols [] = Some e -> update_entry t cols = Ok e.
Proof.
  intros Hok Hc (cols' & Hc' & E & He)%(updates_ok c Hok).
  assert (Hnil : defaults t []) by apply list_subseteq_nil.
  by destruct (makeCacheKey_inj t Ht _ _ _ _ Hc Hc' Hnil Hnil E) as [-> _].
Qed.
Lemma found_upsert c upd ins nz nzu e :
  caches_ok c -> proper t upd -> proper t ins -> defaults t nz -> defaults t nzu ->
  UpsertCache c !! upsert_key upd ins nz nzu = Some e -> upsert_entry t upd ins nz nzu = Ok e.
Proof.
  intros Hok Hu Hi Hn Hq (u' & i' & nz' & nzu' & Hu' & Hi' & Hn' & Hq' & E & He)%(upserts_ok c Hok).
  by destruct (upsert_key_inj t Ht _ _ _ _ _ _ _ _ Hu Hu' Hi Hi' Hn Hn' Hq Hq' E) as (-> & -> & -> & ->).
Qed.

(** ** Answering alike *)

Definition alike (w w' : session) : Prop :=
  history w = history w' /\ caches_ok (cached w) /\ caches_ok (cached w').
Definition agree {A} (m m' : M session A) : Prop := forall w w', alike w w' ->
  (m w).1 = (m' w').1 /\ alike (m w).2 (m' w').2.

Lemma agree_lift {A} (r : res A) : agree (mlift r) (mlift r).
Proof. by intros w w' Hw. Qed.
Lemma agree_bind {A B} (m m' : M session A) (f f' : A -> M session B) :
  agree m m' -> (forall a, agree (f a) (f' a)) -> agree (mbind m f) (mbind m' f').
Proof.
  intros Hm Hf w w' Hw. unfold mbind. specialize (Hm w w' Hw).
  destruct (m w) as [r1 w1], (m' w') as [r2 w2]. cbn in Hm. destruct Hm as [-> Hw1].
  destruct r2; [by apply Hf | done..].
Qed.
Lemma agree_try {A} (m : M session A) : agree m m -> agree (mtry m) (mtry m).
Proof.
  intros Hm w w' Hw. unfold mtry. specialize (Hm w w' Hw).
  destruct (m w) as [r1 w1], (m w') as [r2 w2]. cbn in Hm. destruct Hm as [-> Hw1].
  by destruct r2.
Qed.
Lemma agree_send {A} (answer : list statement -> statement -> res A) s :
  agree (send answer s) (send answer s).
Proof.
  intros w w' (Eh & H1 & H2). unfold send. cbn. rewrite Eh. split; [done |].
  split; [done |]. cbn. split; by apply others_ok.
Qed.

Lemma agree_cache {E A} (get : caches -> gmap string E) put key build (a : A) use :
  (forall c e, caches_ok c -> get c !! key = Some e -> build = Ok e) ->
  (forall c e, caches_ok c -> build = Ok e -> caches_ok (put <[key := e]> c)) ->
  (forall e, build = Ok e -> agree (use e) (use e)) ->
  agree (through_cache get put key build a use) (through_cache get put key build a use).
Proof.
  intros Hget Hput Huse w w' Hw. unfold through_cache, mbind at 1 3, mget. cbn.
  destruct Hw as (Eh & H1 & H2).
  assert (Hb : forall c, caches_ok c ->
    match get c !! key with Some e => Ok e | None => build end = build).
  { intros c Hc. destruct (get c !! key) as [e |] eqn:Eg; [| done]. symmetry. by eapply Hget. }
  rewrite (Hb _ H1), (Hb _ H2). destruct build as [e | e | e]; [| done..].
  refine (agree_bind (use e) (use e) _ _ (Huse e eq_refl) _ w w' (conj Eh (conj H1 H2))).
  intros [x [err |]] w1 w1' (Eh1 & K1 & K2);
    destruct (get (cached w) !! key), (get (cached w') !! key);
    (split; [done |]; split; [exact Eh1 |]; split; cbn; eauto).
Qed.
End Caches.

(** ** One argument for each placeholder *)

Definition balanced (s : statement) : Prop := marks s.1 = length s.2.

Lemma marks_app s1 s2 : marks (s1 +:+ s2) = (marks s1 + marks s2)%nat.
Proof. induction s1 as [| a s1 IH]; [done |]. cbn. rewrite IH. lia. Qed.
Lemma marks_concat sep l :
  marks sep = 0%nat -> Forall (fun s => marks s = 0%nat) l -> marks (String.concat sep l) = 0%nat.
Proof.
  intros Hsep Hl. induction Hl as [| s l Hs Hl IH]; [done |]. destruct l as [| s' l]; [done |].
  cbn [String.concat]. fold (String.concat sep (s' :: l)) in *.
  change (marks (s +:+ sep +:+ String.concat sep (s' :: l)) = 0%nat).
  by rewrite !marks_app, Hs, Hsep, IH.
Qed.
Lemma marks_columns l : Forall (fun s => marks s = 0%nat) l -> marks (columns_text l) = 0%nat.
Proof. intros Hl. unfold columns_text. rewrite !marks_app, marks_concat by done. done. Qed.
Lemma marks_conditions l :
  Forall (fun s => marks s = 0%nat) l ->
  marks (String.concat " AND " (map (fun c => "`" +:+ c +:+ "`=?") l)) = length l.
Proof.
  intros Hl. induction Hl as [| s l Hs Hl IH]; [done |]. destruct l as [| s' l].
  - cbn [map String.concat]. by rewrite !marks_app, Hs.
  - cbn [map] in *. set (rest := (_ :: map _ l)) in *.
    change (marks (("`" +:+ s +:+ "`=?") +:+ " AND " +:+ String.concat " AND " rest) =
            S (length (s' :: l))).
    by rewrite !marks_app, Hs, IH.
Qed.

Lemma Ok_inj {A} (x y : A) : Ok x = Ok y -> x = y.
Proof. congruence. Qed.

Section Balance.
Context `{SqlBoiler, Executor, !BoilerLaws} (t : Table) (Ht : table_ok t = true).

Lemma names_clean l : l ⊆ t_AllColumns t -> Forall (fun s => marks s = 0%nat) l.
Proof.
  intros Hl. apply Forall_forall. intros s Hs. apply (table_clean t Ht). right. by apply Hl.
Qed.
Lemma quoted_marks : marks (quoted t) = 0%nat.
Proof.
  unfold quoted. rewrite !marks_app. destruct (table_clean t Ht (t_table t)) as [-> _]; [by left | done].
Qed.
Lemma primary_clean : Forall (fun s => marks s = 0%nat) (t_PrimaryKeyColumns t).
Proof. apply names_clean, (table_keys t Ht). by left. Qed.
Lemma primary_where_marks : marks (primary_where t) = length (t_PrimaryKeyColumns t).
Proof. apply marks_conditions, primary_clean. Qed.

Lemma defaults_of l o :
  l = t_ColumnsWithDefault t \/ l = t_UniqueColumns t -> defaults t (NonZeroDefaultSet l o).
Proof.
  intros Hl. pose proof (NonZeroDefaultSet_incl l o). unfold defaults.
  destruct Hl as [-> | ->]; etrans; [done | | done |]; [apply (table_defaults t Ht) | apply (table_keys t Ht)];
    auto.
Qed.

(** The columns of an insert are columns of the table. *)
Lemma insert_columns cols nz :
  proper t cols -> defaults t nz ->
  (InsertColumnSet cols (t_AllColumns t) (t_ColumnsWithDefault t) (t_ColumnsWithoutDefault t) nz).1
    ⊆ t_AllColumns t.
Proof.
  intros [_ Hc] Hn. pose proof (InsertColumnSet_incl cols (t_AllColumns t) (t_ColumnsWithDefault t)
    (t_ColumnsWithoutDefault t) nz) as Hi. unfold defaults in Hn.
  pose proof (table_defaults t Ht _ (or_intror eq_refl)). set_solver.
Qed.
Lemma update_columns_in cols :
  proper t cols -> UpdateColumnSet cols (t_AllColumns t) (t_PrimaryKeyColumns t) ⊆ t_AllColumns t.
Proof.
  intros [_ Hc]. pose proof (UpdateColumnSet_incl cols (t_AllColumns t) (t_PrimaryKeyColumns t)).
  set_solver.
Qed.

Lemma insert_entry_marks cols nz e :
  proper t cols -> defaults t nz -> insert_entry t cols nz = Ok e ->
  marks (ic_query e) = length (ic_valueMapping e) /\
  (ic_retMapping e <> [] -> marks (ic_retQuery e) = length (t_PrimaryKeyColumns t)).
Proof.
  intros Hc Hn E. pose proof (insert_columns cols nz Hc Hn) as Hw.
  assert (Hret := InsertColumnSet_ret cols (t_AllColumns t) (t_ColumnsWithDefault t)
    (t_ColumnsWithoutDefault t) nz). unfold insert_entry in E.
  destruct (InsertColumnSet _ _ _ _ _) as [wl ret]. cbn [fst snd] in Hw, Hret.
  apply rbind_Ok in E as (vm & Ev & E). apply rbind_Ok in E as (rm & Er & E). apply Ok_inj in E as <-.
  cbn [ic_query ic_valueMapping ic_retMapping ic_retQuery].
  rewrite (BindMapping_length _ _ _ Ev). split.
  - destruct wl as [| c wl]; rewrite !marks_app, quoted_marks; [done |].
    rewrite Placeholders_marks, marks_columns by by apply names_clean. cbn. lia.
  - destruct rm as [| r rm]; [done |]. intros _.
    rewrite !marks_app, quoted_marks, WhereClause_marks by apply primary_clean.
    rewrite marks_columns; [cbn; lia |]. apply names_clean.
    pose proof (table_defaults t Ht _ (or_introl eq_refl)). set_solver.
Qed.
Lemma update_entry_marks cols e :
  proper t cols -> update_entry t cols = Ok e -> marks (uc_query e) = length (uc_valueMapping e).
Proof.
  intros Hc E. pose proof (update_columns_in cols Hc) as Hw. unfold update_entry in E.
  destruct (UpdateColumnSet _ _ _) as [| c wl]; [done |].
  apply rbind_Ok in E as (vm & Ev & E). apply Ok_inj in E as <-. cbn [uc_query uc_valueMapping].
  rewrite (BindMapping_length _ _ _ Ev), length_app, !marks_app, quoted_marks.
  rewrite WhereClause_marks, SetParamNames_marks by first [apply primary_clean | by apply names_clean].
  cbn. lia.
Qed.
Lemma upsert_query_marks name upd ins :
  marks name = 0%nat -> upd ⊆ t_AllColumns t -> ins ⊆ t_AllColumns t ->
  marks (buildUpsertQueryMySQL name upd ins) = length ins.
Proof.
  intros Hname Hu Hi. unfold buildUpsertQueryMySQL.
  assert (Hq : Forall (fun s => marks s = 0%nat) (IdentQuoteSlice ins))
    by by apply IdentQuoteSlice_marks, names_clean.
  assert (Hset : Forall (fun s => marks s = 0%nat)
    (map (fun v => IdentQuote v +:+ " = VALUES(" +:+ IdentQuote v +:+ ")") upd)).
  { apply Forall_map, (Forall_impl _ _ _ (names_clean upd Hu)). intros v Hv.
    by rewrite !marks_app, IdentQuote_marks. }
  destruct upd as [| u upd];
    rewrite !marks_app, Placeholders_marks, IdentQuoteSlice_length, IdentQuote_marks, !marks_concat
      by done; cbn; lia.
Qed.
Lemma upsert_entry_marks upd ins nz nzu e :
  proper t upd -> proper t ins -> defaults t nz -> defaults t nzu ->
  upsert_entry t upd ins nz nzu = Ok e ->
  marks (ic_query e) = length (ic_valueMapping e) /\ marks (ic_retQuery e) = length nzu.
Proof.
  intros Hu Hi Hn Hq E. pose proof (insert_columns ins nz Hi Hn) as Hw.
  pose proof (update_columns_in upd Hu) as Hup. unfold upsert_entry in E.
  destruct (InsertColumnSet _ _ _ _ _) as [wl ?]. cbn [fst snd] in Hw.
  destruct (negb _ && _); [done |].
  apply rbind_Ok in E as (vm & Ev & E). apply rbind_Ok in E as (rm & Er & E). apply Ok_inj in E as <-.
  cbn [ic_query ic_valueMapping ic_retQuery]. rewrite (BindMapping_length _ _ _ Ev). split.
  - by apply upsert_query_marks; [apply quoted_marks | |].
  - rewrite !marks_app, quoted_marks, WhereClause_marks by by apply names_clean.
    rewrite marks_concat; [cbn; lia | done |].
    apply IdentQuoteSlice_marks, names_clean. apply SetComplement_incl.
Qed.
End Balance.
