(* ===== verification/ModelTheorems.v ===== *)
(** * What the generated row code promises

    [tables_consistent]: the column lists of the fifteen files fit together.
    [cache_transparent]: a statement from the cache is the one that would be built, and the
    caches stay right, whatever the goroutines do to them.
    [arguments_match]: every statement is sent with one argument for each placeholder.
    [only_the_given_rows]: which rows the methods of a slice name, and when nothing is sent. *)
From S2P Require Import Prelude Bytes Lbrycrd Codes Boiler ModelTables ModelFacts.

Lemma table_of t : t ∈ tables -> table_ok t = true /\ names_ok t = true.
Proof.
  intros Ht%list_elem_of_In. pose proof tables_ok as H1. pose proof tables_named as H2.
  rewrite forallb_forall in H1, H2. auto.
Qed.
Lemma table_tags t : t ∈ tables -> map snd (t_Columns t) = t_AllColumns t.
Proof.
  intros [_ Hn]%table_of. unfold names_ok in Hn. rewrite !andb_true_iff in Hn.
  destruct Hn as [[[[[[Hn%bool_decide_eq_true _] _] _] _] _] _]. done.
Qed.

(** The generated files are consistent.  In each of the fifteen files the struct's tags, the
    column constants, the qualified column constants and the column lists name the same
    distinct columns, the columns with and without a default split them, and the key is filled
    in by the database exactly where it is the column id. *)
Theorem tables_consistent t :
  t ∈ tables ->
  map snd (t_Columns t) = t_AllColumns t /\ NoDup (t_AllColumns t) /\ NoDup (map fst (t_Columns t)) /\
  t_TableColumns t = map (fun c => (c.1, t_table t +:+ "." +:+ c.2)) (t_Columns t) /\
  t_ColumnsWithDefault t ++ t_ColumnsWithoutDefault t ≡ₚ t_AllColumns t /\
  t_PrimaryKeyColumns t ++ t_UniqueColumns t ⊆ t_AllColumns t /\
  (t_lastID t = true <-> t_PrimaryKeyColumns t = ["id"]).
Proof.
  intros [Ht Hn]%table_of. unfold names_ok in Hn. rewrite !andb_true_iff, !bool_decide_eq_true in Hn.
  destruct Hn as [[[[[[H1 H2] H3] H4] H5] H6] H7].
  split_and!; try done.
  - rewrite <- (filter_app_complement (fun c => c ∈ t_ColumnsWithDefault t) (t_AllColumns t)).
    apply Permutation_app; [by symmetry | by rewrite <- H6].
  - pose proof (table_keys t Ht _ (or_introl eq_refl)). pose proof (table_keys t Ht _ (or_intror eq_refl)).
    set_solver.
Qed.

(** ** The caches *)

Section Cache.
Context `{SqlBoiler, Executor, !BoilerLaws}.

(** The same answer and the same statements. *)
Definition same_run {A} (m : M session A) (w w' : session) : Prop :=
  (m w).1 = (m w').1 /\ history (m w).2 = history (m w').2.

Section Table.
Context (t : Table) (Ht : table_ok t = true).
Context (others_ok : forall h c, caches_ok t c -> caches_ok t (others h c)).

Lemma agree_populate cache lastID ids o :
  agree t (populate t cache lastID ids o) (populate t cache lastID ids o).
Proof.
  assert (Hsel : forall o, let m := match ids o with
    | Ok args => let* (o, err) := send (fun h s => ScanRow h s (ic_retMapping cache) o) (ic_retQuery cache, args) in
        mret (Some o, ErrPrefix ("model: unable to populate default values for " +:+ t_table t) <$> err)
    | Err e => mret (Some o, Some (ErrPrefix ("model: unable to retrieve unique values for " +:+ t_table t) e))
    | Panic e => mpanic e end in agree t m m).
  { intros x. cbn. destruct (ids x); [| apply agree_lift ..].
    apply agree_bind; [by apply agree_send |]. intros [y err]. apply agree_lift. }
  unfold populate. destruct (ic_retMapping cache); [apply agree_lift |].
  destruct (t_lastID t); [| apply Hsel]. destruct lastID; [| apply agree_lift ..].
  destruct (_ && _); [apply agree_lift | apply Hsel].
Qed.
Lemma agree_exec prefix cache ids o :
  agree t (exec_cached t prefix cache ids o) (exec_cached t prefix cache ids o).
Proof.
  unfold exec_cached. apply agree_bind; [by apply agree_try, agree_send |].
  intros [r | e]; [apply agree_populate | apply agree_lift].
Qed.

Lemma agree_Insert o cols : proper t cols -> agree t (Insert t o cols) (Insert t o cols).
Proof.
  intros Hc. destruct o as [o |]; [| apply agree_lift]. unfold Insert.
  assert (Hn := defaults_of t Ht _ o (or_introl eq_refl)). apply agree_cache.
  - intros c e Hok. by apply found_insert.
  - intros c e Hok He. by apply store_insert.
  - intros e _. apply agree_exec.
Qed.
Lemma agree_Update o cols : proper t cols -> agree t (Update t o cols) (Update t o cols).
Proof.
  intros Hc. unfold Update. apply agree_cache.
  - intros c e Hok. by apply found_update.
  - intros c e Hok He. by apply store_update.
  - intros e _. apply agree_bind; [by apply agree_try, agree_send |]. intros r. apply agree_lift.
Qed.
Lemma agree_Upsert o upd ins :
  proper t upd -> proper t ins -> agree t (Upsert t o upd ins) (Upsert t o upd ins).
Proof.
  intros Hu Hi. destruct o as [o |]; [| apply agree_lift]. unfold Upsert.
  assert (Hn := defaults_of t Ht _ o (or_introl eq_refl)).
  assert (Hq := defaults_of t Ht _ o (or_intror eq_refl)).
  destruct (NonZeroDefaultSet (t_UniqueColumns t) o) as [| q nzu]; [apply agree_lift |].
  apply agree_cache.
  - intros c e Hok. by apply found_upsert.
  - intros c e Hok He. by apply store_upsert.
  - intros e _. apply agree_exec.
Qed.

Lemma agree_fresh {A} (m : M session A) w :
  agree t m m -> caches_ok t (cached w) ->
  same_run m w (mkSession (history w) no_caches) /\ caches_ok t (cached (m w).2).
Proof.
  intros Hm Hw. destruct (Hm w (mkSession (history w) no_caches)) as (Er & Eh & Hc & _).
  { split; [done |]. split; [done |]. apply no_caches_ok. }
  done.
Qed.
End Table.

(** C36: the statement caches are transparent.  For each of the fifteen tables: if every entry of
    the three maps is the one its key stands for, and what other goroutines store meanwhile
    keeps it so, then [Insert], [Update] and [Upsert], asked for columns of the table, send the
    same statements and give the same answer as they would with empty maps, and leave the maps
    right: no two lists of columns share a key, although the names are strung together. *)
Theorem cache_transparent t o x cols upd ins w :
  t ∈ tables -> (forall h c, caches_ok t c -> caches_ok t (others h c)) ->
  proper t cols -> proper t upd -> proper t ins -> caches_ok t (cached w) ->
  (same_run (Insert t o cols) w (mkSession (history w) no_caches) /\
   caches_ok t (cached (Insert t o cols w).2)) /\
  (same_run (Update t x cols) w (mkSession (history w) no_caches) /\
   caches_ok t (cached (Update t x cols w).2)) /\
  (same_run (Upsert t o upd ins) w (mkSession (history w) no_caches) /\
   caches_ok t (cached (Upsert t o upd ins w).2)).
Proof.
  intros [Ht _]%table_of Ho Hc Hu Hi Hw.
  split; [| split]; apply agree_fresh; auto using agree_Insert, agree_Update, agree_Upsert.
Qed.

(** ** Placeholders *)

Section Arguments.
Context (t : Table) (Ht : table_ok t = true) (Htags : map snd (t_Columns t) = t_AllColumns t).
Context (others_ok : forall h c, caches_ok t c -> caches_ok t (others h c)).

Definition all_balanced (w : session) : Prop :=
  caches_ok t (cached w) /\ Forall balanced (history w).
Notation sends := (steps (keeps all_balanced)).

Lemma sends_send {A} (answer : list statement -> statement -> res A) s :
  balanced s -> sends (send answer s).
Proof.
  intros Hs w [Hc Hh]. split; cbn; [by apply others_ok |].
  apply Forall_app. split; [done |]. by constructor.
Qed.
Lemma sends_wrapped {A} prefix (m : M session A) : sends m -> sends (wrapped prefix m).
Proof. intros Hm. unfold wrapped. go_steps. Qed.
Lemma sends_wrapped_but_rows {A} prefix (m : M session A) :
  sends m -> sends (wrapped_but_rows prefix m).
Proof. intros Hm. unfold wrapped_but_rows. go_steps. Qed.
#[local] Hint Resolve sends_send sends_wrapped sends_wrapped_but_rows : go.

Lemma primary_length o : length (primary_args t o) = length (t_PrimaryKeyColumns t).
Proof.
  unfold primary_args, primary_mapping, struct_mapping. rewrite ValuesFromMapping_length.
  destruct (BindMapping_ok (map snd (t_Columns t)) (t_PrimaryKeyColumns t)) as [m E].
  { rewrite Htags. apply (table_keys t Ht). by left. }
  rewrite E. by apply BindMapping_length in E.
Qed.
Lemma slice_length l : length (slice_args t l) = marks (slice_where t l).
Proof.
  unfold slice_where, slice_args. rewrite WhereClauseRepeated_marks by by apply primary_clean.
  induction l as [| o l IH]; cbn; [lia |]. rewrite length_app, primary_length, IH. lia.
Qed.

Ltac by_marks :=
  unfold balanced; cbn [fst snd];
  rewrite ?length_app, ?marks_app, ?(quoted_marks t Ht), ?(primary_where_marks t Ht), ?primary_length,
    ?slice_length; try (cbn; lia).

Lemma sends_Find key cols :
  length key = length (t_PrimaryKeyColumns t) -> cols ⊆ t_AllColumns t -> sends (Find t key cols).
Proof.
  intros Hk Hc. apply sends_wrapped_but_rows, sends_send. by_marks.
  assert (Hq : marks (String.concat "," (IdentQuoteSlice cols)) = 0%nat).
  { apply marks_concat; [done |]. by apply IdentQuoteSlice_marks, (names_clean t Ht). }
  destruct cols; rewrite ?Hq; cbn; lia.
Qed.
Lemma sends_Exists key :
  length key = length (t_PrimaryKeyColumns t) -> sends (Exists_key t key).
Proof. intros Hk. apply sends_wrapped, sends_send. by_marks. Qed.
Lemma sends_Delete o : sends (Delete t o).
Proof.
  unfold Delete. destruct o as [o |]; [| go_steps]. apply steps_bind; [typeclasses eauto | | go_steps].
  apply sends_wrapped, sends_send. by_marks.
Qed.
Lemma sends_DeleteAll l : sends (DeleteAll t l).
Proof.
  unfold DeleteAll. destruct l as [| o l]; [go_steps |].
  apply steps_bind; [typeclasses eauto | | go_steps]. apply sends_wrapped, sends_send. by_marks.
Qed.
Lemma sends_ReloadAll l : sends (ReloadAll t l).
Proof.
  unfold ReloadAll. destruct l as [[| o l] |]; [go_steps | | go_steps].
  apply steps_bind; [typeclasses eauto | | go_steps]. apply sends_wrapped, sends_send. by_marks.
Qed.
Lemma sends_UpdateAll l cols :
  range_columns cols ≡ₚ map_to_list cols -> (forall c, is_Some (cols !! c) -> c ∈ t_AllColumns t) ->
  sends (UpdateAll t l cols).
Proof.
  intros Hr Hc. unfold UpdateAll. destruct l as [| o l]; [go_steps |].
  case_bool_decide; [go_steps |]. apply steps_bind; [typeclasses eauto | | go_steps].
  apply sends_wrapped, sends_send. by_marks. rewrite SetParamNames_marks, !length_map; [cbn; lia |].
  apply (names_clean t Ht). intros c (e & -> & He)%list_elem_of_fmap. rewrite Hr in He.
  destruct e as [c v]. apply elem_of_map_to_list in He. apply Hc. by eexists.
Qed.

Lemma sends_cache {E A} (get : caches -> gmap string E) put key build (a : A) use :
  (forall c e, caches_ok t c -> get c !! key = Some e -> build = Ok e) ->
  (forall c e, caches_ok t c -> build = Ok e -> caches_ok t (put <[key := e]> c)) ->
  (forall e, build = Ok e -> sends (use e)) ->
  sends (through_cache get put key build a use).
Proof.
  intros Hget Hput Huse w Hw. unfold through_cache, mbind at 1, mget. cbn.
  assert (match get (cached w) !! key with Some e => Ok e | None => build end = build) as ->.
  { destruct (get (cached w) !! key) as [e |] eqn:Eg; [| done]. symmetry.
    eapply Hget; [apply Hw | done]. }
  destruct build as [e | e | e]; [| done..]. revert Hw.
  refine (steps_bind (keeps all_balanced) (use e) _ (Huse e eq_refl) _ w).
  intros [x [err |]]; [go_steps |]. destruct (get (cached w) !! key); [go_steps |].
  apply steps_bind; [typeclasses eauto | | go_steps]. apply steps_modify. intros w1 [Hc Hh]. split; [| exact Hh]. by apply Hput.
Qed.

Lemma sends_populate cache lastID ids o :
  (ic_retMapping cache <> [] ->
   forall o l, ids o = Ok l -> marks (ic_retQuery cache) = length l) ->
  sends (populate t cache lastID ids o).
Proof.
  intros Hids. unfold populate. destruct (ic_retMapping cache) as [| r rm] eqn:Er; [go_steps |].
  assert (Hsel : forall o, sends (match ids o with
    | Ok args => let* (o, err) := send (fun h s => ScanRow h s (r :: rm) o) (ic_retQuery cache, args) in
        mret (Some o, ErrPrefix ("model: unable to populate default values for " +:+ t_table t) <$> err)
    | Err e => mret (Some o, Some (ErrPrefix ("model: unable to retrieve unique values for " +:+ t_table t) e))
    | Panic e => mpanic e end)).
  { intros x. destruct (ids x) as [l | e | e] eqn:El; [| go_steps..].
    apply steps_bind; [typeclasses eauto | | go_steps]. apply sends_send, (Hids ltac:(done) x l El). }
  go_steps; apply Hsel.
Qed.
Lemma sends_exec prefix cache ids o :
  marks (ic_query cache) = length (ic_valueMapping cache) ->
  (ic_retMapping cache <> [] ->
   forall o l, ids o = Ok l -> marks (ic_retQuery cache) = length l) ->
  sends (exec_cached t prefix cache ids o).
Proof.
  intros Hq Hids. unfold exec_cached. apply steps_bind; [typeclasses eauto | |].
  - apply steps_try, sends_send. unfold balanced. cbn.
    by rewrite ValuesFromMapping_length.
  - intros [r | e]; [by apply sends_populate | go_steps].
Qed.

Lemma sends_Insert o cols : proper t cols -> sends (Insert t o cols).
Proof.
  intros Hc. unfold Insert. destruct o as [o |]; [| go_steps].
  assert (Hn := defaults_of t Ht _ o (or_introl eq_refl)). apply sends_cache.
  - intros c e Hok. by apply found_insert.
  - intros c e Hok He. by apply store_insert.
  - intros e He. destruct (insert_entry_marks t Ht _ _ e Hc Hn He) as [Hq Hr].
    apply sends_exec; [done |]. intros Hne x l [= <-]. rewrite (Hr Hne). unfold primary_fields.
    by rewrite length_map.
Qed.
Lemma sends_Update o cols : proper t cols -> sends (Update t o cols).
Proof.
  intros Hc. unfold Update. apply sends_cache.
  - intros c e Hok. by apply found_update.
  - intros c e Hok He. by apply store_update.
  - intros e He. apply steps_bind; [typeclasses eauto | | go_steps].
    apply steps_try, sends_send. unfold balanced. cbn.
    rewrite ValuesFromMapping_length. by apply (update_entry_marks t Ht cols).
Qed.
Lemma sends_Upsert o upd ins : proper t upd -> proper t ins -> sends (Upsert t o upd ins).
Proof.
  intros Hu Hi. unfold Upsert. destruct o as [o |]; [| go_steps].
  assert (Hn := defaults_of t Ht _ o (or_introl eq_refl)).
  assert (Hq := defaults_of t Ht _ o (or_intror eq_refl)).
  destruct (NonZeroDefaultSet (t_UniqueColumns t) o) as [| q nzu]; [go_steps |]. apply sends_cache.
  - intros c e Hok. by apply found_upsert.
  - intros c e Hok He. by apply store_upsert.
  - intros e He. destruct (upsert_entry_marks t Ht _ _ _ _ e Hu Hi Hn Hq He) as [Hm Hr].
    apply sends_exec; [done |]. intros _ x l El. apply rbind_Ok in El as (m & Em & [= <-]).
    by rewrite ValuesFromMapping_length, (BindMapping_length _ _ _ Em).
Qed.
End Arguments.

(** C37: every statement of a method has an argument for each placeholder.  For each of the
    fifteen tables, from right caches, whatever the executor answers: the statements that
    [Insert], [Update], [Upsert], [Delete], [Reload], [Exists] and the methods of slices send
    hold as many question marks as they come with arguments; a statement from the cache too. *)
Theorem arguments_match t o x l cols upd ins set w :
  t ∈ tables -> (forall h c, caches_ok t c -> caches_ok t (others h c)) ->
  proper t cols -> proper t upd -> proper t ins ->
  range_columns set ≡ₚ map_to_list set -> (forall c, is_Some (set !! c) -> c ∈ t_AllColumns t) ->
  caches_ok t (cached w) -> Forall balanced (history w) ->
  Forall balanced (history (Insert t o cols w).2) /\
  Forall balanced (history (Update t x cols w).2) /\
  Forall balanced (history (Upsert t o upd ins w).2) /\
  Forall balanced (history (Delete t o w).2) /\
  Forall balanced (history (Reload t x w).2) /\
  Forall balanced (history (Exists_struct t x w).2) /\
  Forall balanced (history (UpdateAll t l set w).2) /\
  Forall balanced (history (DeleteAll t l w).2) /\
  Forall balanced (history (ReloadAll t (Some l) w).2).
Proof.
  intros Hin Ho Hc Hu Hi Hr Hset Hw Hh. pose proof (table_tags t Hin) as Htags.
  destruct (table_of t Hin) as [Ht _].
  assert (Hm : forall A (m : M session A), steps (keeps (all_balanced t)) m ->
    Forall balanced (history (m w).2)) by (intros A m Hm; by apply Hm).
  split_and!; apply Hm.
  - by apply sends_Insert.
  - by apply sends_Update.
  - by apply sends_Upsert.
  - by apply sends_Delete.
  - apply sends_Find; [done.. | by unfold primary_fields; rewrite length_map | apply list_subseteq_nil].
  - apply sends_Exists; [done.. |]. unfold primary_fields. by rewrite length_map.
  - by apply sends_UpdateAll.
  - by apply sends_DeleteAll.
  - by apply sends_ReloadAll.
Qed.

(** ** Which rows a slice names *)

(** The methods of a slice touch the rows of the slice.  On an empty slice nothing is sent:
    no statement without a condition.  Else [DeleteAll] and [ReloadAll] send one statement whose
    condition is repeated for each element and whose arguments are the keys of the elements, in
    order.  [UpdateAll] without columns, [Upsert] of a row that has no unique column set, and so
    every [Upsert] into [transaction_address], are errors that send nothing. *)
Theorem only_the_given_rows t o l upd ins set w :
  (UpdateAll t [] set w = (Ok tt, w) /\ DeleteAll t [] w = (Ok tt, w) /\
   ReloadAll t (Some []) w = (Ok (Some []), w) /\ ReloadAll t None w = (Ok None, w)) /\
  (l <> [] ->
   let where_ := WhereClauseRepeated (t_PrimaryKeyColumns t) (length l) in
   history (DeleteAll t l w).2 =
     history w ++ [("DELETE FROM `" +:+ t_table t +:+ "` WHERE " +:+ where_, flat_map (primary_args t) l)] /\
   history (ReloadAll t (Some l) w).2 =
     history w ++ [("SELECT `" +:+ t_table t +:+ "`.* FROM `" +:+ t_table t +:+ "` WHERE " +:+ where_,
                    flat_map (primary_args t) l)] /\
   exists e, UpdateAll t l ∅ w = (Err e, w)) /\
  (NonZeroDefaultSet (t_UniqueColumns t) o = [] ->
   exists e, Upsert t (Some o) upd ins w = (Ok (Some o, Some e), w)) /\
  (t = transactionAddress_table -> NonZeroDefaultSet (t_UniqueColumns t) o = []).
Proof.
  split; [done |]. split; [| split].
  - intros Hl. destruct l as [| x l]; [done |]. cbv zeta.
    assert (Hsent : forall {A} prefix (answer : list statement -> statement -> res A) s (k : A -> M session unit),
      (forall a w, history (k a w).2 = history w) ->
      history ((let* a := wrapped prefix (send answer s) in k a) w).2 = history w ++ [s]).
    { intros A prefix answer s k Hk. unfold wrapped, mbind, mtry, send.
      destruct (answer _ _); cbn; [| done..]. by rewrite Hk. }
    split; [| split].
    + unfold DeleteAll. rewrite Hsent by done. unfold quoted. by rewrite !string_app_assoc.
    + unfold ReloadAll, wrapped, mbind, mtry, send. destruct (BindAll _ _); cbn [fst snd history];
        unfold quoted; by rewrite !string_app_assoc.
    + by eexists.
  - intros Hno. unfold Upsert. rewrite Hno. by eexists.
  - intros ->. pose proof (NonZeroDefaultSet_incl [] o) as Hi. cbn.
    destruct (NonZeroDefaultSet [] o) as [| c q]; [done |].
    exfalso. apply (not_elem_of_nil c), Hi. by left.
Qed.
End Cache.

(** ** Worked example *)

Module ModelExamples.

Definition is_zero (v : value) : bool :=
  match v with
  | VNull | VBool false | VInt 0 | VString "" | VTime 0 => true
  | _ => false
  end.
Definition conditions (l : list string) : string :=
  String.concat " AND " (map (fun c => "`" +:+ c +:+ "`=?") l).
Fixpoint repeated (l : list string) (n : nat) : string :=
  match n with O => "" | S n' => "(" +:+ conditions l +:+ ") OR " +:+ repeated l n' end.
Fixpoint question_marks (n : nat) : string := match n with O => "" | S n' => "?" +:+ question_marks n' end.
Definition path (c : string) : Z := Zpos (encode c).
Definition column_at (z : Z) : string :=
  match z with Zpos p => default "" (decode p) | _ => "" end.
Fixpoint bind_columns (m : gmap string Z) (l : list string) : res (list Z) :=
  match l with
  | [] => Ok []
  | c :: l' =>
      match m !! c with
      | None => Err (ErrMsg "missing destination name")
      | Some z => let? zs := bind_columns m l' in Ok (z :: zs)
      end
  end.

(** The kinds: 1 infers the columns, 2 lists them, 0 is none. *)
#[export] Instance boiler : SqlBoiler := {|
  InsertColumnSet c all wd wod nz :=
    if Kind c =? 2 then (Cols c, filter (fun s => s ∉ Cols c) wd)
    else (wod ++ nz, filter (fun s => s ∉ nz) wd);
  UpdateColumnSet c all pk :=
    if Kind c =? 2 then Cols c else if Kind c =? 0 then [] else filter (fun s => s ∉ pk) all;
  IsNone c := Kind c =? 0;
  NonZeroDefaultSet l o := List.filter (fun s => negb (is_zero (field o s))) l;
  MakeStructMapping tags := list_to_map (map (fun c => (c, path c)) tags);
  BindMapping := bind_columns;
  ValuesFromMapping o m := map (fun z => field o (column_at z)) m;
  SetParamNames := conditions;
  WhereClause := conditions;
  WhereClauseRepeated := repeated;
  Placeholders := question_marks;
  IdentQuote s := s;
  IdentQuoteSlice l := l;
  SetComplement l1 l2 := filter (fun s => s ∉ l2) l1;
  SetIntersect l1 l2 := filter (fun s => s ∈ l2) l1;
  Query := statement; QueryMod := string; From s := " FROM " +:+ s;
  ApplyMods l := (String.concat " " l, []);
  GetSelect _ := []; SetSelect l q := ("SELECT " +:+ String.concat "," l +:+ q.1, q.2);
  SetCount q := q; SetLimit _ q := q; SetUpdate _ q := q; SetDelete q := q; BuildQuery q := q;
|}.

Lemma bind_length m l r : bind_columns m l = Ok r -> length r = length l.
Proof.
  revert r. induction l as [| c l IH]; intros r E; cbn in E; [by injection E as <- |].
  destruct (m !! c); [| done]. apply rbind_Ok in E as (zs & Ez & [= <-]). cbn. by rewrite (IH zs).
Qed.
Lemma bind_total tags l :
  l ⊆ tags -> exists r, bind_columns (list_to_map (map (fun c => (c, path c)) tags)) l = Ok r.
Proof.
  induction l as [| c l IH]; intros Hl; [by exists [] |]. cbn.
  destruct IH as [r Er]; [set_solver |].
  destruct (list_to_map _ !! c) as [z |] eqn:E; [by rewrite Er; eexists |]. exfalso.
  apply not_elem_of_list_to_map in E. apply E. apply list_elem_of_fmap. exists (c, path c).
  split; [done |]. apply list_elem_of_fmap. exists c. split; [done |]. apply Hl. by left.
Qed.
#[export] Instance boiler_laws : BoilerLaws.
Proof.
  split; cbn.
  - intros l o s Hs%list_elem_of_In. apply filter_In in Hs as [Hs _]. by apply list_elem_of_In.
  - intros c all wd wod nz. destruct (_ =? _); cbn; set_solver.
  - intros c all wd wod nz. destruct (_ =? _); cbn; intros s [_ Hs]%list_elem_of_filter; set_solver.
  - intros c all pk. destruct (_ =? _); [set_solver |]. destruct (_ =? _); [set_solver |].
    intros s [_ Hs]%list_elem_of_filter. set_solver.
  - apply bind_total.
  - apply bind_length.
  - intros o m. apply length_map.
  - apply marks_conditions.
  - apply marks_conditions.
  - intros l n Hl. induction n as [| n IH]; [cbn; lia |]. cbn [repeated].
    rewrite !marks_app, IH. unfold conditions. rewrite marks_conditions by done. cbn. lia.
  - intros n. induction n as [| n IH]; [done |]. cbn [question_marks]. rewrite marks_app, IH. done.
  - done.
  - done.
  - done.
  - intros l1 l2 s [_ Hs]%list_elem_of_filter. done.
Qed.
#[export] Instance executor : Executor := {|
  Exec _ _ := Ok (Ok 7);
  ScanRow _ _ _ o := Ok (o, None);
  ScanCount _ _ := Ok 1; ScanBool _ _ := Ok true;
  BindOne _ _ := Err ErrNoRows; BindAll _ _ := Ok [];
  others _ c := c; range_columns := map_to_list;
|}.

Definition a_tag : struct := <["id" := VInt 0]> (<["tag" := VString "art"]> ∅).
Definition infer : Columns := mkColumns 1 [].
Definition only (l : list string) : Columns := mkColumns 2 l.
Definition start : session := mkSession [] no_caches.
Definition inserted : session := (Insert tag_table (Some a_tag) infer start).2.

(** The key comes back from the database; the second insert finds its statement. *)
Example demo_insert :
  option_map (fun o => field o "id") (match (Insert tag_table (Some a_tag) infer start).1 with
    Ok (o, None) => o | _ => None end) = Some (VInt 7) /\
  map fst (history inserted) =
    ["INSERT INTO `tag` (`tag`) VALUES (?)";
     "SELECT `id`,`created_at`,`modified_at` FROM `tag` WHERE `id`=?"] /\
  map snd (history inserted) = [[VString "art"]; [VInt 7]] /\
  map fst (map_to_list (InsertCache (cached inserted))) = ["1"].
Proof. vm_compute. done. Qed.

Lemma tag_in : tag_table ∈ tables.
Proof. do 9 right. left. Qed.
Lemma infer_proper : proper tag_table infer.
Proof. split; [cbn; lia | apply list_subseteq_nil]. Qed.
Lemma only_proper : proper tag_table (only ["tag"]).
Proof. split; [cbn; lia | by apply subset_spec]. Qed.
Lemma others_right h c : caches_ok tag_table c -> caches_ok tag_table (others h c).
Proof. done. Qed.
Lemma inserted_right : caches_ok tag_table (cached inserted).
Proof.
  destruct (table_of tag_table tag_in) as [Ht _].
  apply (agree_fresh tag_table (Insert tag_table (Some a_tag) infer) start); [| apply no_caches_ok].
  apply agree_Insert; [done | done | apply infer_proper].
Qed.
End ModelExamples.
Import ModelExamples.

Lemma tables_consistent_witness :
  tag_table ∈ tables /\ NoDup (t_AllColumns tag_table).
Proof. split; [exact tag_in |]. apply (tables_consistent tag_table tag_in). Defined.

Lemma cache_transparent_witness :
  (Insert tag_table (Some a_tag) infer inserted).1 =
    (Insert tag_table (Some a_tag) infer (mkSession (history inserted) no_caches)).1 /\
  size (InsertCache (cached inserted)) = 1%nat /\
  caches_ok tag_table (cached (Upsert tag_table (Some a_tag) (only ["tag"]) infer inserted).2).
Proof.
  destruct (cache_transparent tag_table (Some a_tag) a_tag infer (only ["tag"]) infer inserted tag_in
    others_right infer_proper only_proper infer_proper inserted_right) as ([[Hi _] _] & _ & [_ Hu]).
  split; [exact Hi | split; [vm_compute; reflexivity | exact Hu]].
Defined.

Lemma arguments_match_witness :
  Forall balanced (history (Insert tag_table (Some a_tag) infer start).2) /\
  Forall balanced (history (DeleteAll tag_table [a_tag; a_tag] start).2) /\
  length (history (DeleteAll tag_table [a_tag; a_tag] start).2) = 1%nat.
Proof.
  destruct (arguments_match tag_table (Some a_tag) a_tag [a_tag; a_tag] infer (only ["tag"]) infer
    (<["tag" := VNull]> ∅) start tag_in others_right infer_proper only_proper infer_proper) as (Hi & _ & _ & _ & _ & _ & _ & Hd & _).
  - done.
  - intros c Hc. destruct (decide (c = "tag")) as [-> | Hne]; [by apply inb_spec |].
    rewrite lookup_insert_ne, lookup_empty in Hc by done. by destruct Hc.
  - apply no_caches_ok.
  - constructor.
  - split; [exact Hi | split; [exact Hd |]].
    vm_compute. reflexivity.
Defined.

Lemma only_the_given_rows_witness :
  map fst (history (DeleteAll tag_table [a_tag; a_tag] start).2) =
    ["DELETE FROM `tag` WHERE (`id`=?) OR (`id`=?) OR "] /\
  exists e, Upsert transactionAddress_table (Some ∅) infer infer start = (Ok (Some ∅, Some e), start).
Proof.
  split.
  - destruct (only_the_given_rows tag_table ∅ [a_tag; a_tag] infer infer ∅ start) as (_ & Hd & _).
    destruct Hd as [Hd _]; [done |]. rewrite Hd. vm_compute. reflexivity.
  - destruct (only_the_given_rows transactionAddress_table ∅ [] infer infer ∅ start) as (_ & _ & Hu & Hn).
    by apply Hu, Hn.
Defined.
