(* ===== verification/Relations.v ===== *)
(** * Related rows of the generated row code ([model/*.go])

    For each foreign key sqlboiler generates, on both sides, a query for the related rows, an
    eager loader, and methods that relate rows and undo it.  The twelve keys share the two
    templates below, over a [Relation].  The program calls one of them, the loader of a block's
    transactions, through [qm.Load].

    Structs are reached through pointers that the struct [R] of a row keeps, and the same row
    may be reached from several: they live in a heap.  [R] maps the names of the relations to
    the rows, at most one on the side of the child.  Slices of pointers are lists: two slices
    that share an array are not told apart.  The argument of a loader is a pointer or a slice
    of pointers; structs that embed a row are left out. *)
From S2P Require Import Prelude Bytes Lbrycrd Codes Boiler ModelTables.

#[export] Instance value_eq_dec : EqDecision value.
Proof. solve_decision. Defined.

Record Relation := {
  parent : Table;
  child : Table;
  parent_column : string;
  child_column : string;
  children_name : string;
  parent_name : string;
  nullable : bool;
}.

(** ** The heap *)

Record object := mkObject { o_fields : struct; o_R : option (gmap string (list nat)) }.

Record rstate := mkRstate {
  r_history : list statement;
  r_caches : gmap string caches;
  r_heap : gmap nat object;
  r_next : nat;
}.
#[export] Instance eta_rstate : Eta rstate := fun r =>
  mkRstate (r_history r) (r_caches r) (r_heap r) (r_next r).

Definition object_at (w : rstate) (l : nat) : object := default (mkObject ∅ None) (r_heap w !! l).
Definition field_at (w : rstate) (l : nat) (column : string) : value :=
  field (o_fields (object_at w l)) column.
Definition related_of (o : object) (name : string) : list nat :=
  match o_R o with Some r => default [] (r !! name) | None => [] end.
Definition related_at (w : rstate) (l : nat) (name : string) : list nat :=
  related_of (object_at w l) name.

Definition write (l : nat) (o : object) (w : rstate) : rstate :=
  w <| r_heap := <[l := o]> (r_heap w) |>.
Definition set_fields (l : nat) (f : struct) (w : rstate) : rstate :=
  write l (mkObject f (o_R (object_at w l))) w.
Definition assign (l : nat) (column : string) (v : value) (w : rstate) : rstate :=
  set_fields l (<[column := v]> (o_fields (object_at w l))) w.
(** [if o.R == nil { o.R = &blockR{} }] *)
Definition init_R (l : nat) (w : rstate) : rstate :=
  let o := object_at w l in write l (mkObject (o_fields o) (Some (default ∅ (o_R o)))) w.
Definition set_related (l : nat) (name : string) (ls : list nat) (w : rstate) : rstate :=
  let o := object_at w l in
  write l (mkObject (o_fields o) (Some (<[name := ls]> (default ∅ (o_R o))))) w.
Definition append_related (l : nat) (name : string) (ls : list nat) (w : rstate) : rstate :=
  set_related l name (related_at w l name ++ ls) w.
(** [if o.R != nil { o.R.Name = nil }] *)
Definition clear_related (l : nat) (name : string) (w : rstate) : rstate :=
  match o_R (object_at w l) with
  | None => w
  | Some _ => set_related l name [] w
  end.
Definition alloc (rows : list struct) (w : rstate) : list nat * rstate :=
  let ls := seq (r_next w) (length rows) in
  (ls, w <| r_heap := list_to_map (zip ls (map (fun s => mkObject s None) rows)) ∪ r_heap w |>
         <| r_next := (r_next w + length rows)%nat |>).

(** ** The rest of the libraries *)

(** What a query answers: the rows once they are bound, the errors of closing it and of the
    iteration. *)
Record rowset := { rs_rows : res (list struct); rs_Close : option error; rs_Err : option error }.

Class Loading `{SqlBoiler} := {
  Infer : Columns;
  Whitelist : list string -> Columns;
  Where : string -> value -> QueryMod;
  WhereIn : string -> list value -> QueryMod;
  Equal : value -> value -> bool;
  RunQuery : list statement -> statement -> res rowset;
  (* [range] over the set of the arguments *)
  range_args : list value -> list value;
}.

Section Relations.
Context `{SqlBoiler, Executor, !Loading}.

(** A method of [Boiler] on the session of its table. *)
Definition on_table {A} (t : Table) (m : M session A) : M rstate A := fun w =>
  let c := default no_caches (r_caches w !! t_table t) in
  let (r, s) := m (mkSession (r_history w) c) in
  (r, w <| r_history := history s |> <| r_caches := <[t_table t := cached s]> (r_caches w) |>).

(** [err = rel.Insert(...)], [rel.Update(...)] of a row of the heap. *)
Definition insert_at (t : Table) (prefix : string) (l : nat) : M rstate unit :=
  let* w := mget in
  let* (o, err) := on_table t (Insert t (Some (o_fields (object_at w l))) Infer) in
  let* _ := mmodify (set_fields l (default ∅ o)) in
  match err with Some e => mfail (ErrPrefix prefix e) | None => mret tt end.
Definition update_at (t : Table) (l : nat) (columns : Columns) : M rstate unit :=
  let* w := mget in
  let* (_, err) := on_table t (Update t (o_fields (object_at w l)) columns) in
  match err with Some e => mfail e | None => mret tt end.
Definition exec_on (t : Table) (prefix : string) (s : statement) : M rstate unit :=
  let* r := mtry (on_table t (send Exec s)) in
  match r with inl _ => mret tt | inr e => mfail (ErrPrefix prefix e) end.

Context (r : Relation).
Notation children := (children_name r).
Notation back := (parent_name r).

(** [queries.Equal] where the key may be NULL, else Go's equality. *)
Definition keys_equal (x y : value) : bool :=
  if nullable r then Equal x y else bool_decide (x = y).

(** ** Queries *)

Definition child_query (w : rstate) (o : nat) (mods : list QueryMod) : Query :=
  Query_of (child r) (mods ++
    [Where ("`" +:+ t_table (child r) +:+ "`.`" +:+ child_column r +:+ "`=?")
       (field_at w o (parent_column r))]).
Definition parent_query (w : rstate) (o : nat) (mods : list QueryMod) : Query :=
  Query_of (parent r)
    (Where ("`" +:+ parent_column r +:+ "` = ?") (field_at w o (child_column r)) :: mods).

(** ** Eager loading *)

Notation prefixed_by p m := (match m with
  | Ok a => Ok a | Err e => Err (ErrPrefix p e) | Panic e => Panic e end).
Definition no_error (p : string) (e : option error) : res unit :=
  match e with Some e => Err (ErrPrefix p e) | None => Ok tt end.

(** The rows that the query finds, as new objects.  [shown] is how the messages name the table. *)
Definition load_rows (t : Table) (shown close : string) (column : string) (args : list value)
  (mods : option (Query -> Query)) : M rstate (list nat) :=
  let q := ApplyMods [From (t_table t);
                      WhereIn (t_table t +:+ "." +:+ column +:+ " in ?") (range_args args)] in
  let q := match mods with Some apply => apply q | None => q end in
  let* rows := mtry (on_table t (send RunQuery (BuildQuery q))) in
  match rows with
  | inr e => mfail (ErrPrefix ("failed to eager load " +:+ shown) e)
  | inl rows =>
      let* structs := mlift (prefixed_by ("failed to bind eager loaded slice " +:+ shown) (rs_rows rows)) in
      let* _ := mlift (no_error (close +:+ t_table t) (rs_Close rows)) in
      let* _ := mlift (no_error ("error occurred during iteration of eager loaded relations for " +:+
                                 t_table t) (rs_Err rows)) in
      fun w => let (ls, w) := alloc structs w in (Ok ls, w)
  end.

(** [for _, foreign := range resultSlice { for _, local := range slice { if ... { ...; break }}}] *)
Definition first_match (w : rstate) (slice : list nat) (foreign : nat) : option nat :=
  List.find (fun l => keys_equal (field_at w l (parent_column r)) (field_at w foreign (child_column r)))
    slice.

Definition attach_child (slice : list nat) (foreign : nat) (w : rstate) : rstate :=
  match first_match w slice foreign with
  | Some l => set_related foreign back [l] (append_related l children [foreign] w)
  | None => w
  end.

(** On a pointer or on a slice of pointers. *)
Definition LoadChildren (objects : nat + list nat) (mods : option (Query -> Query))
  : M rstate unit :=
  let slice := match objects with inl o => [o] | inr l => l end in
  let* _ := mmodify (fun w => foldl (fun w l => init_R l w) w slice) in
  let* w := mget in
  let args := remove_dups (map (fun l => field_at w l (parent_column r)) slice) in
  match args with
  | [] => mret tt
  | _ =>
      let* result := load_rows (child r) (t_table (child r)) "failed to close results in eager load on "
                       (child_column r) args mods in
      match objects with
      | inl o =>
          let* _ := mmodify (set_related o children result) in
          mmodify (fun w => foldl (fun w foreign => set_related foreign back [o] w) w result)
      | inr slice =>
          mmodify (fun w => foldl (fun w foreign => attach_child slice foreign w) w result)
      end
  end.

Definition attach_parent (result : list nat) (local : nat) (w : rstate) : rstate :=
  match List.find (fun f => keys_equal (field_at w local (child_column r)) (field_at w f (parent_column r)))
          result with
  | Some foreign => append_related foreign children [local] (set_related local back [foreign] w)
  | None => w
  end.

Definition LoadParent (objects : nat + list nat) (mods : option (Query -> Query)) : M rstate unit :=
  let slice := match objects with inl o => [o] | inr l => l end in
  let* _ := mmodify (fun w => foldl (fun w l => init_R l w) w slice) in
  let* w := mget in
  (* [queries.IsNil] *)
  let keys := List.filter (fun v => negb (nullable r && bool_decide (v = VNull)))
                (map (fun l => field_at w l (child_column r)) slice) in
  match remove_dups keys with
  | [] => mret tt
  | args =>
      let* result := load_rows (parent r) (t_Type (parent r)) "failed to close results of eager load for "
                       (parent_column r) args mods in
      match result, objects with
      | [], _ => mret tt
      | foreign :: _, inl o =>
          mmodify (fun w => append_related foreign children [o] (set_related o back [foreign] w))
      | _, inr slice => mmodify (fun w => foldl (fun w local => attach_parent result local w) w slice)
      end
  end.

(** ** Relating rows *)

(** The statement that writes the foreign key of one child. *)
Definition key_statement (w : rstate) (o c : nat) : statement :=
  ("UPDATE " +:+ quoted (child r) +:+ " SET " +:+ SetParamNames [child_column r] +:+ " WHERE " +:+
   WhereClause (t_PrimaryKeyColumns (child r)),
   field_at w o (parent_column r) :: primary_fields (child r) (o_fields (object_at w c))).

Definition set_key (o c : nat) (w : rstate) : rstate :=
  assign c (child_column r) (field_at w o (parent_column r)) w.

Definition AddChildren (o : nat) (insert : bool) (related : list nat) : M rstate unit :=
  let* _ := mfor related (fun rel =>
    if insert then
      let* _ := mmodify (set_key o rel) in
      insert_at (child r) "failed to insert into foreign table" rel
    else
      let* w := mget in
      let* _ := exec_on (child r) "failed to update foreign table" (key_statement w o rel) in
      mmodify (set_key o rel)) in
  let* _ := mmodify (append_related o children related) in
  mmodify (fun w => foldl (fun w rel => set_related rel back [o] w) w related).

(** Where the key may be NULL. *)
Definition SetChildren (o : nat) (insert : bool) (related : list nat) : M rstate unit :=
  let* w := mget in
  let t := child r in
  let* _ := exec_on t "failed to remove relationships before set"
    ("update " +:+ quoted t +:+ " set `" +:+ child_column r +:+ "` = null where `" +:+
     child_column r +:+ "` = ?", [field_at w o (parent_column r)]) in
  let* _ := mmodify (fun w =>
    clear_related o children
      (foldl (fun w rel => clear_related rel back (assign rel (child_column r) VNull w)) w
         (related_at w o children))) in
  AddChildren o insert related.

(** [l[i] = l[ln-1]; l = l[:ln-1]] *)
Definition swap_remove (i : nat) (l : list nat) : list nat :=
  let ln := length l in
  take (ln - 1) (if (1 <? ln)%nat && (i <? ln - 1)%nat
                 then <[i := default 0%nat (last l)]> l else l).
(** [for i, ri := range l { if skip(ri) { continue }; ...; break }] *)
Fixpoint first_index (skip : nat -> bool) (l : list nat) : option nat :=
  match l with
  | [] => None
  | x :: l' => if skip x then S <$> first_index skip l' else Some 0%nat
  end.
Definition remove_first (skip : nat -> bool) (l : list nat) : list nat :=
  match first_index skip l with Some i => swap_remove i l | None => l end.

Definition RemoveChildren (o : nat) (related : list nat) : M rstate unit :=
  match related with
  | [] => mret tt
  | _ =>
      let* _ := mfor related (fun rel =>
        let* _ := mmodify (fun w => clear_related rel back (assign rel (child_column r) VNull w)) in
        update_at (child r) rel (Whitelist [child_column r])) in
      mmodify (fun w =>
        match o_R (object_at w o) with
        | None => w
        | Some _ =>
            foldl (fun w rel =>
              set_related o children
                (remove_first (fun ri => negb (rel =? ri)%nat) (related_at w o children)) w) w related
        end)
  end.

Definition SetParent (o : nat) (insert : bool) (related : nat) : M rstate unit :=
  let* _ := mwhen insert (insert_at (parent r) "failed to insert into foreign table" related) in
  let* w := mget in
  let* _ := exec_on (child r) "failed to update local table" (key_statement w related o) in
  mmodify (fun w => append_related related children [o] (set_related o back [related] (set_key related o w))).

Definition RemoveParent (o : nat) (related : option nat) : M rstate unit :=
  let* _ := mmodify (assign o (child_column r) VNull) in
  let* res := mtry (update_at (child r) o (Whitelist [child_column r])) in
  match res with
  | inr e => mfail (ErrPrefix "failed to update local table" e)
  | inl _ =>
      let* _ := mmodify (clear_related o back) in
      match related with
      | None => mret tt
      | Some p =>
          mmodify (fun w =>
            match o_R (object_at w p) with
            | None => w
            | Some _ =>
                set_related p children
                  (remove_first (fun ri => Equal (field_at w o (child_column r)) (field_at w ri (child_column r)))
                     (related_at w p children)) w
            end)
      end
  end.
End Relations.
