(* ===== verification/ModelRelations.v ===== *)
(** * The foreign keys of the generated row code ([model/*.go])

    For each foreign key the methods of [Relations] at both of its sides: [Tag_AddClaimTags] is
    [Tag.AddClaimTags], [claimTagL_LoadTag] is [claimTagL.LoadTag]. *)
From S2P Require Import Prelude Codes Boiler ModelTables Relations.

(** *** [block.hash] and [transaction.block_hash_id] *)

Definition block_BlockHashTransactions : Relation := {|
  parent := block_table; child := transaction_table;
  parent_column := "hash"; child_column := "block_hash_id";
  children_name := "BlockHashTransactions"; parent_name := "BlockHash";
  nullable := true;
|}.
Section block_BlockHashTransactions.
Context `{SqlBoiler, Executor, !Loading}.
Definition Block_BlockHashTransactions := child_query block_BlockHashTransactions.
Definition blockL_LoadBlockHashTransactions := LoadChildren block_BlockHashTransactions.
Definition Block_AddBlockHashTransactions := AddChildren block_BlockHashTransactions.
Definition Block_SetBlockHashTransactions := SetChildren block_BlockHashTransactions.
Definition Block_RemoveBlockHashTransactions := RemoveChildren block_BlockHashTransactions.
Definition Transaction_BlockHash := parent_query block_BlockHashTransactions.
Definition transactionL_LoadBlockHash := LoadParent block_BlockHashTransactions.
Definition Transaction_SetBlockHash := SetParent block_BlockHashTransactions.
Definition Transaction_RemoveBlockHash := RemoveParent block_BlockHashTransactions.
End block_BlockHashTransactions.

(** *** [transaction.hash] and [claim.transaction_hash_id] *)

Definition transaction_TransactionHashClaims : Relation := {|
  parent := transaction_table; child := claim_table;
  parent_column := "hash"; child_column := "transaction_hash_id";
  children_name := "TransactionHashClaims"; parent_name := "TransactionHash";
  nullable := true;
|}.
Section transaction_TransactionHashClaims.
Context `{SqlBoiler, Executor, !Loading}.
Definition Transaction_TransactionHashClaims := child_query transaction_TransactionHashClaims.
Definition transactionL_LoadTransactionHashClaims := LoadChildren transaction_TransactionHashClaims.
Definition Transaction_AddTransactionHashClaims := AddChildren transaction_TransactionHashClaims.
Definition Transaction_SetTransactionHashClaims := SetChildren transaction_TransactionHashClaims.
Definition Transaction_RemoveTransactionHashClaims := RemoveChildren transaction_TransactionHashClaims.
Definition Claim_TransactionHash := parent_query transaction_TransactionHashClaims.
Definition claimL_LoadTransactionHash := LoadParent transaction_TransactionHashClaims.
Definition Claim_SetTransactionHash := SetParent transaction_TransactionHashClaims.
Definition Claim_RemoveTransactionHash := RemoveParent transaction_TransactionHashClaims.
End transaction_TransactionHashClaims.

(** *** [transaction.id] and [input.transaction_id] *)

Definition transaction_Inputs : Relation := {|
  parent := transaction_table; child := input_table;
  parent_column := "id"; child_column := "transaction_id";
  children_name := "Inputs"; parent_name := "Transaction";
  nullable := false;
|}.
Section transaction_Inputs.
Context `{SqlBoiler, Executor, !Loading}.
Definition Transaction_Inputs := child_query transaction_Inputs.
Definition transactionL_LoadInputs := LoadChildren transaction_Inputs.
Definition Transaction_AddInputs := AddChildren transaction_Inputs.
Definition Input_Transaction := parent_query transaction_Inputs.
Definition inputL_LoadTransaction := LoadParent transaction_Inputs.
Definition Input_SetTransaction := SetParent transaction_Inputs.
End transaction_Inputs.

(** *** [transaction.id] and [output.transaction_id] *)

Definition transaction_Outputs : Relation := {|
  parent := transaction_table; child := output_table;
  parent_column := "id"; child_column := "transaction_id";
  children_name := "Outputs"; parent_name := "Transaction";
  nullable := false;
|}.
Section transaction_Outputs.
Context `{SqlBoiler, Executor, !Loading}.
Definition Transaction_Outputs := child_query transaction_Outputs.
Definition transactionL_LoadOutputs := LoadChildren transaction_Outputs.
Definition Transaction_AddOutputs := AddChildren transaction_Outputs.
Definition Output_Transaction := parent_query transaction_Outputs.
Definition outputL_LoadTransaction := LoadParent transaction_Outputs.
Definition Output_SetTransaction := SetParent transaction_Outputs.
End transaction_Outputs.

(** *** [transaction.hash] and [purchase.transaction_by_hash_id] *)

Definition transaction_TransactionByHashPurchases : Relation := {|
  parent := transaction_table; child := purchase_table;
  parent_column := "hash"; child_column := "transaction_by_hash_id";
  children_name := "TransactionByHashPurchases"; parent_name := "TransactionByHash";
  nullable := true;
|}.
Section transaction_TransactionByHashPurchases.
Context `{SqlBoiler, Executor, !Loading}.
Definition Transaction_TransactionByHashPurchases := child_query transaction_TransactionByHashPurchases.
Definition transactionL_LoadTransactionByHashPurchases := LoadChildren transaction_TransactionByHashPurchases.
Definition Transaction_AddTransactionByHashPurchases := AddChildren transaction_TransactionByHashPurchases.
Definition Transaction_SetTransactionByHashPurchases := SetChildren transaction_TransactionByHashPurchases.
Definition Transaction_RemoveTransactionByHashPurchases := RemoveChildren transaction_TransactionByHashPurchases.
Definition Purchase_TransactionByHash := parent_query transaction_TransactionByHashPurchases.
Definition purchaseL_LoadTransactionByHash := LoadParent transaction_TransactionByHashPurchases.
Definition Purchase_SetTransactionByHash := SetParent transaction_TransactionByHashPurchases.
Definition Purchase_RemoveTransactionByHash := RemoveParent transaction_TransactionByHashPurchases.
End transaction_TransactionByHashPurchases.

(** *** [transaction.hash] and [support.transaction_hash_id] *)

Definition transaction_TransactionHashSupports : Relation := {|
  parent := transaction_table; child := support_table;
  parent_column := "hash"; child_column := "transaction_hash_id";
  children_name := "TransactionHashSupports"; parent_name := "TransactionHash";
  nullable := true;
|}.
Section transaction_TransactionHashSupports.
Context `{SqlBoiler, Executor, !Loading}.
Definition Transaction_TransactionHashSupports := child_query transaction_TransactionHashSupports.
Definition transactionL_LoadTransactionHashSupports := LoadChildren transaction_TransactionHashSupports.
Definition Transaction_AddTransactionHashSupports := AddChildren transaction_TransactionHashSupports.
Definition Transaction_SetTransactionHashSupports := SetChildren transaction_TransactionHashSupports.
Definition Transaction_RemoveTransactionHashSupports := RemoveChildren transaction_TransactionHashSupports.
Definition Support_TransactionHash := parent_query transaction_TransactionHashSupports.
Definition supportL_LoadTransactionHash := LoadParent transaction_TransactionHashSupports.
Definition Support_SetTransactionHash := SetParent transaction_TransactionHashSupports.
Definition Support_RemoveTransactionHash := RemoveParent transaction_TransactionHashSupports.
End transaction_TransactionHashSupports.

(** *** [transaction.id] and [transaction_address.transaction_id] *)

Definition transaction_TransactionAddresses : Relation := {|
  parent := transaction_table; child := transactionAddress_table;
  parent_column := "id"; child_column := "transaction_id";
  children_name := "TransactionAddresses"; parent_name := "Transaction";
  nullable := false;
|}.
Section transaction_TransactionAddresses.
Context `{SqlBoiler, Executor, !Loading}.
Definition Transaction_TransactionAddresses := child_query transaction_TransactionAddresses.
Definition transactionL_LoadTransactionAddresses := LoadChildren transaction_TransactionAddresses.
Definition Transaction_AddTransactionAddresses := AddChildren transaction_TransactionAddresses.
Definition TransactionAddress_Transaction := parent_query transaction_TransactionAddresses.
Definition transactionAddressL_LoadTransaction := LoadParent transaction_TransactionAddresses.
Definition TransactionAddress_SetTransaction := SetParent transaction_TransactionAddresses.
End transaction_TransactionAddresses.

(** *** [output.id] and [abnormal_claim.output_id] *)

Definition output_AbnormalClaims : Relation := {|
  parent := output_table; child := abnormalClaim_table;
  parent_column := "id"; child_column := "output_id";
  children_name := "AbnormalClaims"; parent_name := "Output";
  nullable := false;
|}.
Section output_AbnormalClaims.
Context `{SqlBoiler, Executor, !Loading}.
Definition Output_AbnormalClaims := child_query output_AbnormalClaims.
Definition outputL_LoadAbnormalClaims := LoadChildren output_AbnormalClaims.
Definition Output_AddAbnormalClaims := AddChildren output_AbnormalClaims.
Definition AbnormalClaim_Output := parent_query output_AbnormalClaims.
Definition abnormalClaimL_LoadOutput := LoadParent output_AbnormalClaims.
Definition AbnormalClaim_SetOutput := SetParent output_AbnormalClaims.
End output_AbnormalClaims.

(** *** [address.id] and [transaction_address.address_id] *)

Definition address_TransactionAddresses : Relation := {|
  parent := address_table; child := transactionAddress_table;
  parent_column := "id"; child_column := "address_id";
  children_name := "TransactionAddresses"; parent_name := "Address";
  nullable := false;
|}.
Section address_TransactionAddresses.
Context `{SqlBoiler, Executor, !Loading}.
Definition Address_TransactionAddresses := child_query address_TransactionAddresses.
Definition addressL_LoadTransactionAddresses := LoadChildren address_TransactionAddresses.
Definition Address_AddTransactionAddresses := AddChildren address_TransactionAddresses.
Definition TransactionAddress_Address := parent_query address_TransactionAddresses.
Definition transactionAddressL_LoadAddress := LoadParent address_TransactionAddresses.
Definition TransactionAddress_SetAddress := SetParent address_TransactionAddresses.
End address_TransactionAddresses.

(** *** [claim.claim_id] and [claim_in_list.list_claim_id] *)

Definition claim_ListClaimClaimInLists : Relation := {|
  parent := claim_table; child := claimInList_table;
  parent_column := "claim_id"; child_column := "list_claim_id";
  children_name := "ListClaimClaimInLists"; parent_name := "ListClaim";
  nullable := false;
|}.
Section claim_ListClaimClaimInLists.
Context `{SqlBoiler, Executor, !Loading}.
Definition Claim_ListClaimClaimInLists := child_query claim_ListClaimClaimInLists.
Definition claimL_LoadListClaimClaimInLists := LoadChildren claim_ListClaimClaimInLists.
Definition Claim_AddListClaimClaimInLists := AddChildren claim_ListClaimClaimInLists.
Definition ClaimInList_ListClaim := parent_query claim_ListClaimClaimInLists.
Definition claimInListL_LoadListClaim := LoadParent claim_ListClaimClaimInLists.
Definition ClaimInList_SetListClaim := SetParent claim_ListClaimClaimInLists.
End claim_ListClaimClaimInLists.

(** *** [claim.claim_id] and [claim_tag.claim_id] *)

Definition claim_ClaimTags : Relation := {|
  parent := claim_table; child := claimTag_table;
  parent_column := "claim_id"; child_column := "claim_id";
  children_name := "ClaimTags"; parent_name := "Claim";
  nullable := false;
|}.
Section claim_ClaimTags.
Context `{SqlBoiler, Executor, !Loading}.
Definition Claim_ClaimTags := child_query claim_ClaimTags.
Definition claimL_LoadClaimTags := LoadChildren claim_ClaimTags.
Definition Claim_AddClaimTags := AddChildren claim_ClaimTags.
Definition ClaimTag_Claim := parent_query claim_ClaimTags.
Definition claimTagL_LoadClaim := LoadParent claim_ClaimTags.
Definition ClaimTag_SetClaim := SetParent claim_ClaimTags.
End claim_ClaimTags.

(** *** [tag.id] and [claim_tag.tag_id] *)

Definition tag_ClaimTags : Relation := {|
  parent := tag_table; child := claimTag_table;
  parent_column := "id"; child_column := "tag_id";
  children_name := "ClaimTags"; parent_name := "Tag";
  nullable := true;
|}.
Section tag_ClaimTags.
Context `{SqlBoiler, Executor, !Loading}.
Definition Tag_ClaimTags := child_query tag_ClaimTags.
Definition tagL_LoadClaimTags := LoadChildren tag_ClaimTags.
Definition Tag_AddClaimTags := AddChildren tag_ClaimTags.
Definition Tag_SetClaimTags := SetChildren tag_ClaimTags.
Definition Tag_RemoveClaimTags := RemoveChildren tag_ClaimTags.
Definition ClaimTag_Tag := parent_query tag_ClaimTags.
Definition claimTagL_LoadTag := LoadParent tag_ClaimTags.
Definition ClaimTag_SetTag := SetParent tag_ClaimTags.
Definition ClaimTag_RemoveTag := RemoveParent tag_ClaimTags.
End tag_ClaimTags.

(** ** All of them *)

Definition relations : list Relation :=
  [block_BlockHashTransactions;
   transaction_TransactionHashClaims;
   transaction_Inputs;
   transaction_Outputs;
   transaction_TransactionByHashPurchases;
   transaction_TransactionHashSupports;
   transaction_TransactionAddresses;
   output_AbnormalClaims;
   address_TransactionAddresses;
   claim_ListClaimClaimInLists;
   claim_ClaimTags;
   tag_ClaimTags].
