(* ===== verification/RelationTheorems.v ===== *)
(** * What the methods on related rows promise

    [LoadChildren_spec]: eager loading of the rows related to a row or to a slice of rows.
    [RemoveParent_keeps_row]: the removal of a row from its parent leaves it in the parent's
    list, from which it may drop another one. *)
From S2P Require Import Prelude Bytes Lbrycrd Codes Boiler ModelTables ModelFacts ModelTheorems Relations ModelRelations.

(** ** The heap *)

Lemma object_write l o w l' :
  object_at (write l o w) l' = if decide (l = l') then o else object_at w l'.
Proof.
  unfold object_at, write. cbn. destruct (decide (l = l')) as [<- |].
  - by rewrite lookup_insert_eq.
  - by rewrite lookup_insert_ne.
Qed.
Lemma object_set_related l n ls w l' :
  l <> l' -> object_at (set_related l n ls w) l' = object_at w l'.
Proof. intros Hl. unfold set_related. rewrite object_write. by rewrite decide_False. Qed.
Lemma field_insert (o : struct) c v : field (<[c := v]> o) c = v.
Proof. unfold field, struct in *. by rewrite lookup_insert_eq. Qed.
Lemma fields_set_related l n ls w l' :
  o_fields (object_at (set_related l n ls w) l') = o_fields (object_at w l').
Proof. unfold set_related. rewrite object_write. by destruct (decide _) as [<- |]. Qed.
Lemma related_set_related l n ls w l' n' :
  related_at (set_related l n ls w) l' n' =
  if decide (l = l' /\ n = n') then ls else related_at w l' n'.
Proof.
  unfold related_at, set_related. rewrite object_write.
  destruct (decide (l = l')) as [<- | Hl].
  - unfold related_of at 1. cbn. destruct (decide (n = n')) as [<- | Hn].
    + rewrite lookup_insert_eq. by rewrite decide_True.
    + rewrite lookup_insert_ne by done. rewrite decide_False by tauto.
      unfold related_of. by destruct (o_R _).
  - by rewrite decide_False by tauto.
Qed.
Lemma fields_init_R l w l' : o_fields (object_at (init_R l w) l') = o_fields (object_at w l').
Proof. unfold init_R. rewrite object_write. by destruct (decide _) as [<- |]. Qed.
Lemma related_init_R l w l' n : related_at (init_R l w) l' n = related_at w l' n.
Proof.
  unfold related_at, init_R. rewrite object_write. destruct (decide _) as [<- |]; [| done].
  unfold related_of. cbn. by destruct (o_R _).
Qed.
Lemma object_init_R l w l' : l <> l' -> object_at (init_R l w) l' = object_at w l'.
Proof. intros Hl. unfold init_R. rewrite object_write. by rewrite decide_False. Qed.
#[export] Hint Rewrite fields_set_related related_set_related fields_init_R related_init_R : heap.

(** [range slice { if obj.R == nil { obj.R = &blockR{} } }] *)
Lemma init_R_all slice w :
  let w' := foldl (fun w l => init_R l w) w slice in
  (forall l, o_fields (object_at w' l) = o_fields (object_at w l)) /\
  (forall l n, related_at w' l n = related_at w l n) /\
  (forall l, l ∉ slice -> object_at w' l = object_at w l) /\
  r_history w' = r_history w /\ r_next w' = r_next w /\ r_caches w' = r_caches w.
Proof.
  revert w. induction slice as [| x slice IH]; intros w; cbn; [done |].
  destruct (IH (init_R x w)) as (H1 & H2 & H3 & H4). split_and!; try apply H4.
  - intros l. by rewrite H1, fields_init_R.
  - intros l n. by rewrite H2, related_init_R.
  - intros l Hl. rewrite not_elem_of_cons in Hl. rewrite H3 by tauto. apply object_init_R. naive_solver.
Qed.

Lemma alloc_spec rows w :
  let w' := (alloc rows w).2 in
  (forall i row, rows !! i = Some row -> object_at w' (r_next w + i) = mkObject row None) /\
  (forall l, (l < r_next w)%nat -> object_at w' l = object_at w l) /\
  r_history w' = r_history w.
Proof.
  cbn. unfold object_at. cbn. split_and!; [| | done].
  - intros i row Hi.
    assert ((list_to_map (zip (seq (r_next w) (length rows)) (map (fun s => mkObject s None) rows))
              : gmap nat object) !! (r_next w + i)%nat = Some (mkObject row None)) as E.
    { apply elem_of_list_to_map_1.
      - rewrite fst_zip by (by rewrite length_seq, length_map). apply NoDup_seq.
      - apply list_elem_of_lookup. exists i. apply lookup_zip_Some. split.
        + apply lookup_seq. apply lookup_lt_Some in Hi. lia.
        + by rewrite list_lookup_fmap, Hi. }
    rewrite lookup_union. rewrite E. by destruct (r_heap w !! _).
  - intros l Hl. rewrite lookup_union_r; [done |].
    apply not_elem_of_list_to_map_1. rewrite fst_zip by (by rewrite length_seq, length_map).
    rewrite elem_of_seq. lia.
Qed.

Section Loading.
Context `{SqlBoiler, Executor, !Loading}.
Context (r : Relation).
Notation children := (children_name r).
Notation back := (parent_name r).

(** The row of a slice that a row with this key goes to: the first with an equal key. *)
Definition owner (w : rstate) (slice : list nat) (key : value) : option nat :=
  List.find (fun l => keys_equal r (field_at w l (parent_column r)) key) slice.

Lemma find_ext_in {A} (f g : A -> bool) l : (forall x, x ∈ l -> f x = g x) -> List.find f l = List.find g l.
Proof.
  induction l as [| x l IH]; intros Hfg; [done |]. cbn. rewrite Hfg by by left.
  destruct (g x); [done |]. apply IH. intros y Hy. apply Hfg. by right.
Qed.
Lemma owner_ext w w' slice key :
  (forall l, l ∈ slice -> o_fields (object_at w l) = o_fields (object_at w' l)) ->
  owner w slice key = owner w' slice key.
Proof. intros Hw. apply find_ext_in. intros l Hl. unfold field_at. by rewrite Hw. Qed.
Lemma owner_in w slice key l : owner w slice key = Some l -> l ∈ slice.
Proof. intros [Hl _]%find_some. by apply list_elem_of_In. Qed.

(** The loop that hands the loaded rows [fs] to their owners. *)
Lemma attach_all slice fs w :
  NoDup fs -> (forall f, f ∈ fs -> f ∉ slice) ->
  let w' := foldl (fun w f => attach_child r slice f w) w fs in
  let to f := owner w slice (field_at w f (child_column r)) in
  (forall l, o_fields (object_at w' l) = o_fields (object_at w l)) /\
  (forall l, l ∈ slice ->
     related_at w' l children = related_at w l children ++ filter (fun f => to f = Some l) fs) /\
  (forall l n, l ∉ fs -> l ∉ slice \/ n <> children -> related_at w' l n = related_at w l n) /\
  (forall f, f ∈ fs -> related_at w' f back = match to f with Some l => [l] | None => related_at w f back end) /\
  (forall l, l ∉ fs -> l ∉ slice -> object_at w' l = object_at w l) /\
  r_history w' = r_history w.
Proof.
  revert w. induction fs as [| f fs IH]; intros w Hnd Hout; cbn [foldl]; cbv zeta.
  { split_and!; try done; [by intros; rewrite app_nil_r | by intros f ?%not_elem_of_nil]. }
  apply NoDup_cons in Hnd as [Hf Hnd].
  set (w1 := attach_child r slice f w).
  assert (Hw1 : w1 = match owner w slice (field_at w f (child_column r)) with
    | Some l => set_related f back [l] (append_related l children [f] w) | None => w end) by done.
  assert (Hfields : forall l, o_fields (object_at w1 l) = o_fields (object_at w l)).
  { intros l. rewrite Hw1. destruct (owner _ _ _); [| done]. unfold append_related.
    by autorewrite with heap. }
  assert (Hrel : forall l n, l <> f -> related_at w1 l n = if decide (l ∈ slice /\ n = children /\
      owner w slice (field_at w f (child_column r)) = Some l) then related_at w l n ++ [f]
    else related_at w l n).
  { intros l n Hl. rewrite Hw1. destruct (owner _ _ _) as [l' |] eqn:E; [| by rewrite decide_False by naive_solver].
    apply owner_in in E. unfold append_related. autorewrite with heap.
    rewrite decide_False by naive_solver. repeat destruct (decide _); naive_solver. }
  assert (Hback : related_at w1 f back = match owner w slice (field_at w f (child_column r)) with
    | Some l => [l] | None => related_at w f back end).
  { rewrite Hw1. destruct (owner _ _ _); [| done]. autorewrite with heap. by rewrite decide_True. }
  assert (Hto : forall g, owner w1 slice (field_at w1 g (child_column r)) = owner w slice (field_at w g (child_column r))).
  { intros g. unfold field_at. rewrite Hfields. by apply owner_ext. }
  destruct (IH w1 Hnd) as (I1 & I2 & I3 & I4 & I5 & I6); [intros; apply Hout; by right |].
  cbv zeta in I2, I4. split_and!.
  - intros l. by rewrite I1.
  - intros l Hl. assert (l <> f) by (intros ->; apply (Hout f); [by left | done]).
    rewrite I2, Hrel by done. rewrite filter_cons.
    rewrite (list_filter_iff _ (fun g => owner w slice (field_at w g (child_column r)) = Some l))
      by (intros g; by rewrite Hto).
    destruct (decide (owner w slice _ = Some l)) as [E | E].
    + rewrite decide_True by done. by rewrite <- app_assoc.
    + by rewrite decide_False by tauto.
  - intros l n Hl Hor. apply not_elem_of_cons in Hl as [Hl Hl']. rewrite I3, Hrel by done.
    rewrite decide_False; naive_solver.
  - intros g [-> | Hg]%elem_of_cons.
    + rewrite I3; [by rewrite Hback | done |]. left. apply Hout. by left.
    + rewrite I4, Hto by done. destruct (owner w slice (field_at w g _)); [done |].
      rewrite Hrel by naive_solver.
      rewrite decide_False; [done |]. intros [Hs _]. apply (Hout g); [by right | done].
  - intros l [Hl Hl']%not_elem_of_cons Hs. rewrite I5 by done. rewrite Hw1.
    destruct (owner _ _ _) as [l' |] eqn:E; [| done]. apply owner_in in E.
    unfold append_related. rewrite !object_set_related; [done | by intros -> | by intros ->].
  - rewrite I6, Hw1. by destruct (owner _ _ _).
Qed.

(** The statement of an eager loader of the rows of [t] with one of the [keys]. *)
Definition eager_query (t : Table) (column : string) (keys : list value)
  (mods : option (Query -> Query)) : Query :=
  default id mods (ApplyMods [From (t_table t);
    WhereIn (t_table t +:+ "." +:+ column +:+ " in ?") (range_args (remove_dups keys))]).

Lemma apply_mods t column keys mods :
  (let q := ApplyMods [From (t_table t);
     WhereIn (t_table t +:+ "." +:+ column +:+ " in ?") (range_args (remove_dups keys))] in
   match mods with Some apply => apply q | None => q end) = eager_query t column keys mods.
Proof. by destruct mods. Qed.

Lemma load_rows_run t shown close column keys mods w rows :
  RunQuery (r_history w) (BuildQuery (eager_query t column keys mods)) =
    Ok {| rs_rows := Ok rows; rs_Close := None; rs_Err := None |} ->
  exists w', load_rows t shown close column (remove_dups keys) mods w =
      (Ok (seq (r_next w) (length rows)), w') /\
    r_history w' = r_history w ++ [BuildQuery (eager_query t column keys mods)] /\
    (forall i row, rows !! i = Some row -> object_at w' (r_next w + i) = mkObject row None) /\
    (forall l, (l < r_next w)%nat -> object_at w' l = object_at w l).
Proof.
  intros E. unfold load_rows. rewrite apply_mods.
  unfold mbind, mtry, on_table, send. cbn -[alloc]. rewrite E. cbn -[alloc].
  match goal with |- context [alloc rows ?w0] =>
    exists (alloc rows w0).2; destruct (alloc_spec rows w0) as (Ha1 & Ha2 & Ha3) end.
  split_and!; [done | done | exact Ha1 | exact Ha2].
Qed.

Lemma remove_dups_nil (l : list value) : remove_dups l = [] -> l = [].
Proof.
  intros E. destruct l as [| v l]; [done |]. exfalso.
  apply (not_elem_of_nil v). rewrite <- E. apply elem_of_remove_dups. by left.
Qed.

(** What the loader of the children does to a slice [os] of allocated rows when the query
    answers with [rows]. *)
Definition children_loaded (os : list nat) (rows : list struct) (w w' : rstate) : Prop :=
  let to row := owner w os (field row (child_column r)) in
  (* every loaded row is a new object, which leads to its owner *)
  (forall i row, rows !! i = Some row ->
     o_fields (object_at w' (r_next w + i)) = row /\
     related_at w' (r_next w + i) back = match to row with Some l => [l] | None => [] end) /\
  (* every row of the slice leads to the loaded rows that it owns, in their order *)
  (forall l, l ∈ os -> o_fields (object_at w' l) = o_fields (object_at w l) /\
     related_at w' l children = related_at w l children ++
       (filter (fun p => to p.2 = Some l) (zip (seq (r_next w) (length rows)) rows)).*1 /\
     forall n, n <> children -> related_at w' l n = related_at w l n) /\
  (* the rest of the heap is left *)
  (forall l, (l < r_next w)%nat -> l ∉ os -> object_at w' l = object_at w l).

Lemma filter_zip {A} (P : nat -> Prop) (Q : A -> Prop) `{!forall x, Decision (P x), !forall x, Decision (Q x)}
  (rows : list A) n :
  (forall i row, rows !! i = Some row -> P (n + i)%nat <-> Q row) ->
  filter P (seq n (length rows)) = (filter (fun p => Q p.2) (zip (seq n (length rows)) rows)).*1.
Proof.
  revert n. induction rows as [| row rows IH]; intros n HPQ; [done |].
  cbn [length seq zip zip_with]. rewrite !filter_cons. cbn [snd].
  pose proof (HPQ 0%nat row eq_refl) as Hrow. rewrite Nat.add_0_r in Hrow.
  rewrite (IH (S n)).
  2: { intros i row' Hi. rewrite <- (HPQ (S i) row') by done. by rewrite Nat.add_succ_r. }
  destruct (decide (P n)), (decide (Q row)); tauto || done.
Qed.

(** The query of an eager loader of the children of [os], and its answer. *)
Notation child_keys w os := (map (fun l => field_at w l (parent_column r)) os).
Definition children_query (w : rstate) (os : list nat) (mods : option (Query -> Query)) : statement :=
  BuildQuery (eager_query (child r) (child_column r) (child_keys w os) mods).
Definition answers (w : rstate) (q : statement) (rows : list struct) : Prop :=
  RunQuery (r_history w) q = Ok {| rs_rows := Ok rows; rs_Close := None; rs_Err := None |}.
Definition slice_of (objects : nat + list nat) : list nat :=
  match objects with inl o => [o] | inr slice => slice end.

(** Up to the point where the rows are loaded. *)
Lemma LoadChildren_start objects mods w :
  let os := slice_of objects in
  let w0 := foldl (fun w l => init_R l w) w os in
  os <> [] ->
  LoadChildren r objects mods w =
  (let* result := load_rows (child r) (t_table (child r)) "failed to close results in eager load on "
                    (child_column r) (remove_dups (child_keys w os)) mods in
   match objects with
   | inl o =>
       let* _ := mmodify (set_related o children result) in
       mmodify (fun w => foldl (fun w foreign => set_related foreign back [o] w) w result)
   | inr slice => mmodify (fun w => foldl (fun w foreign => attach_child r slice foreign w) w result)
   end) w0.
Proof.
  intros os w0 Hne. unfold LoadChildren. unfold mbind at 1, mmodify at 1, mbind at 1, mget at 1.
  fold (slice_of objects). fold os w0. destruct (init_R_all os w) as (Hf & _). fold w0 in Hf.
  assert (child_keys w0 os = child_keys w os) as ->
    by (apply map_ext; intros l; unfold field_at; by rewrite Hf).
  destruct (remove_dups _) eqn:E; [| done]. apply remove_dups_nil in E. by destruct os.
Qed.

(** The state [w1] in which the rows are loaded and lead nowhere yet. *)
Definition rows_loaded (os : list nat) (rows : list struct) (w w1 : rstate) : Prop :=
  (forall i row, rows !! i = Some row -> object_at w1 (r_next w + i)%nat = mkObject row None) /\
  (forall l, (l < r_next w)%nat ->
     o_fields (object_at w1 l) = o_fields (object_at w l) /\ forall n, related_at w1 l n = related_at w l n) /\
  (forall l, (l < r_next w)%nat -> l ∉ os -> object_at w1 l = object_at w l).

Lemma LoadChildren_rows objects mods w rows :
  let os := slice_of objects in
  let fs := seq (r_next w) (length rows) in
  os <> [] -> answers w (children_query w os mods) rows ->
  exists w1, r_history w1 = r_history w ++ [children_query w os mods] /\ rows_loaded os rows w w1 /\
    LoadChildren r objects mods w = (Ok tt, match objects with
      | inl o => foldl (fun w f => set_related f back [o] w) (set_related o children fs w1) fs
      | inr slice => foldl (fun w f => attach_child r slice f w) w1 fs
      end).
Proof.
  intros os fs Hne E. rewrite LoadChildren_start by done. fold os.
  destruct (init_R_all os w) as (Hf & Hr & Ho & Hh & Hn & _).
  set (w0 := foldl (fun w l => init_R l w) w os) in *. unfold answers in E. rewrite <- Hh in E.
  destruct (load_rows_run (child r) (t_table (child r)) "failed to close results in eager load on "
    _ _ mods w0 rows E) as (w1 & Erun & Hh1 & Hnew & Hold).
  exists w1. split; [by rewrite Hh1, Hh |]. rewrite Hn in Hold, Hnew. split.
  - split_and!; [exact Hnew | |].
    + intros l Hl. unfold related_at. rewrite Hold by done. split; [apply Hf | intros n; apply Hr].
    + intros l Hl Hnot. rewrite Hold by done. by apply Ho.
  - unfold mbind at 1. rewrite Erun, Hn. by destruct objects.
Qed.

Lemma LoadChildren_slice os mods w rows :
  os <> [] -> Forall (fun l => l < r_next w)%nat os -> answers w (children_query w os mods) rows ->
  exists w', LoadChildren r (inr os) mods w = (Ok tt, w') /\
    r_history w' = r_history w ++ [children_query w os mods] /\ children_loaded os rows w w'.
Proof.
  intros Hne Hos E. rewrite Forall_forall in Hos.
  destruct (LoadChildren_rows (inr os) mods w rows Hne E) as (w1 & Hh & (Hnew & Hold & Hrest) & Hrun).
  rewrite Hrun. clear Hrun. cbn [slice_of] in *. set (fs := seq (r_next w) (length rows)).
  assert (Hfs : forall f, f ∈ fs -> f ∉ os).
  { intros f [Hlo Hhi]%elem_of_seq Hin. apply Hos in Hin. lia. }
  assert (Hto : forall i row, rows !! i = Some row ->
    owner w1 os (field_at w1 (r_next w + i)%nat (child_column r)) = owner w os (field row (child_column r))).
  { intros i row Hi. unfold field_at. rewrite (Hnew i row Hi). cbn.
    apply owner_ext. intros l Hl. by apply Hold, Hos. }
  destruct (attach_all os fs w1) as (A1 & A2 & A3 & A4 & A5 & A6); [apply NoDup_seq | done |].
  eexists. split; [done |]. split; [by rewrite A6, Hh |]. split_and!.
  - intros i row Hi. assert (Hin : (r_next w + i)%nat ∈ fs).
    { apply elem_of_seq. apply lookup_lt_Some in Hi. lia. }
    rewrite A1, (Hnew i row Hi). split; [done |]. rewrite A4, (Hto i row Hi) by done.
    destruct (owner _ _ _); [done |]. unfold related_at. by rewrite (Hnew i row Hi).
  - intros l Hl. destruct (Hold l (Hos l Hl)) as [Hlf Hlr]. split_and!.
    + by rewrite A1.
    + rewrite A2, Hlr by done. f_equal.
      pose proof (filter_zip (fun f => owner w1 os (field_at w1 f (child_column r)) = Some l)
               (fun row => owner w os (field row (child_column r)) = Some l) rows (r_next w)) as Hz.
      apply Hz. intros i row Hi. by rewrite (Hto i row Hi).
    + intros n Hc. rewrite A3; [apply Hlr | by intros ?%Hfs | by right].
  - intros l Hl Hnot. rewrite A5; [by apply Hrest | | done]. intros [Hlo _]%elem_of_seq. lia.
Qed.

(** What the loader does to the row behind a pointer. *)
Definition children_of_one_loaded (o : nat) (rows : list struct) (w w' : rstate) : Prop :=
  (forall i row, rows !! i = Some row ->
     o_fields (object_at w' (r_next w + i)) = row /\ related_at w' (r_next w + i) back = [o]) /\
  (o_fields (object_at w' o) = o_fields (object_at w o) /\
   related_at w' o children = seq (r_next w) (length rows) /\
   forall n, n <> children -> related_at w' o n = related_at w o n) /\
  (forall l, (l < r_next w)%nat -> l <> o -> object_at w' l = object_at w l).

Lemma link_back_all o fs w :
  let w' := foldl (fun w f => set_related f back [o] w) w fs in
  (forall l, o_fields (object_at w' l) = o_fields (object_at w l)) /\
  (forall f, f ∈ fs -> related_at w' f back = [o]) /\
  (forall l, l ∉ fs -> object_at w' l = object_at w l) /\ r_history w' = r_history w.
Proof.
  revert w. induction fs as [| f fs IH]; intros w; cbn.
  { split_and!; try done. by intros f ?%not_elem_of_nil. }
  destruct (IH (set_related f back [o] w)) as (I1 & I2 & I3 & I4). split_and!.
  - intros l. by rewrite I1, fields_set_related.
  - intros g Hg. destruct (decide (g ∈ fs)) as [Hin | Hout]; [by apply I2 |].
    apply elem_of_cons in Hg as [-> | Hg]; [| done].
    unfold related_at. rewrite I3 by done. fold (related_at (set_related f back [o] w) f back).
    rewrite related_set_related. by rewrite decide_True.
  - intros l [Hl Hl']%not_elem_of_cons. rewrite I3 by done. apply object_set_related. done.
  - by rewrite I4.
Qed.

Lemma LoadChildren_pointer o mods w rows :
  (o < r_next w)%nat -> answers w (children_query w [o] mods) rows ->
  exists w', LoadChildren r (inl o) mods w = (Ok tt, w') /\
    r_history w' = r_history w ++ [children_query w [o] mods] /\ children_of_one_loaded o rows w w'.
Proof.
  intros Ho E.
  destruct (LoadChildren_rows (inl o) mods w rows ltac:(done) E) as (w1 & Hh & (Hnew & Hold & Hrest) & Hrun).
  rewrite Hrun. clear Hrun. cbn [slice_of] in *. set (fs := seq (r_next w) (length rows)).
  assert (Hfs : forall l, (l < r_next w)%nat -> l ∉ fs) by (intros l Hl [? _]%elem_of_seq; lia).
  destruct (link_back_all o fs (set_related o children fs w1)) as (L1 & L2 & L3 & L4).
  destruct (Hold o Ho) as [Hof Hor].
  eexists. split; [done |]. split; [by rewrite L4 |]. split_and!.
  - intros i row Hi. rewrite L1, fields_set_related, (Hnew i row Hi). split; [done |].
    apply L2, elem_of_seq. apply lookup_lt_Some in Hi. lia.
  - by rewrite L1, fields_set_related.
  - unfold related_at. rewrite L3 by auto. fold (related_at (set_related o children fs w1) o children).
    rewrite related_set_related. by rewrite decide_True.
  - intros n Hn. unfold related_at at 1. rewrite L3 by auto.
    fold (related_at (set_related o children fs w1) o n). rewrite related_set_related.
    by rewrite decide_False by naive_solver.
  - intros l Hl Hne. rewrite L3 by auto. rewrite object_set_related by done.
    apply Hrest; [done |]. by intros ?%list_elem_of_singleton.
Qed.

(** When the query fails. *)
Lemma LoadChildren_error objects mods w e :
  slice_of objects <> [] ->
  RunQuery (r_history w) (children_query w (slice_of objects) mods) = Err e ->
  exists w', LoadChildren r objects mods w =
      (Err (ErrPrefix ("failed to eager load " +:+ t_table (child r)) e), w') /\
    forall l, o_fields (object_at w' l) = o_fields (object_at w l) /\
              forall n, related_at w' l n = related_at w l n.
Proof.
  intros Hne E. rewrite LoadChildren_start by done.
  destruct (init_R_all (slice_of objects) w) as (Hf & Hr & _ & Hh & _).
  set (w0 := foldl (fun w l => init_R l w) w (slice_of objects)) in *. rewrite <- Hh in E.
  unfold mbind at 1, load_rows. rewrite apply_mods. unfold mbind at 1, mtry, on_table, send. cbn. unfold children_query in E.
  rewrite E. cbn. eexists. split; [done |]. intros l. split; [apply Hf | intros n; apply Hr].
Qed.

(** C38: eager loading.  The loader of the rows related to a slice of rows sends one query, for
    the children with one of the slice's keys.  When it answers, the loader succeeds: each
    loaded row leads to the first row of the slice with its key and to no other, each row of
    the slice leads to what it led to before and then to the loaded rows that it is the first
    to have the key of, in the order of the answer, and nothing else changes.  On a single row
    it leads to all the loaded rows instead of what it led to.  When the query fails no row
    leads anywhere else than before. *)
Theorem LoadChildren_spec objects mods w :
  slice_of objects <> [] -> Forall (fun l => l < r_next w)%nat (slice_of objects) ->
  let q := children_query w (slice_of objects) mods in
  (forall rows, answers w q rows ->
     exists w', LoadChildren r objects mods w = (Ok tt, w') /\ r_history w' = r_history w ++ [q] /\
       match objects with
       | inl o => children_of_one_loaded o rows w w'
       | inr os => children_loaded os rows w w'
       end) /\
  (forall e, RunQuery (r_history w) q = Err e ->
     exists w', LoadChildren r objects mods w =
         (Err (ErrPrefix ("failed to eager load " +:+ t_table (child r)) e), w') /\
       forall l, o_fields (object_at w' l) = o_fields (object_at w l) /\
                 forall n, related_at w' l n = related_at w l n).
Proof.
  intros Hne Hos q. split; [| intros e; by apply LoadChildren_error].
  intros rows E. destruct objects as [o | os].
  - apply LoadChildren_pointer; [by inversion Hos | done].
  - by apply LoadChildren_slice.
Qed.

(** ** Taking a row out of a list *)

Lemma last_index (l : list nat) : l <> [] -> l !! (length l - 1)%nat = Some (default 0%nat (last l)).
Proof.
  intros Hl. rewrite last_lookup, Nat.sub_1_r. destruct (l !! pred (length l)) eqn:E; [done |].
  apply lookup_ge_None in E. destruct l; cbn in *; [done | lia].
Qed.

Lemma swap_remove_lookup (l : list nat) i j x :
  (i < length l)%nat -> swap_remove i l !! j = Some x ->
  (j = i /\ (i < length l - 1)%nat /\ l !! (length l - 1)%nat = Some x) \/ (j <> i /\ l !! j = Some x).
Proof.
  intros Hi. unfold swap_remove.
  destruct (_ && _) eqn:E; rewrite lookup_take_Some; intros [Hx Hj].
  - apply andb_true_iff in E as [_ E%Nat.ltb_lt].
    destruct (decide (j = i)) as [-> | Hne]; [left | right; by rewrite list_lookup_insert_ne in Hx].
    rewrite list_lookup_insert_eq in Hx by done. rewrite last_index by (intros ->; cbn in Hi; lia). by split_and!.
  - right. split; [| done]. intros ->. apply andb_false_iff in E as [E%Nat.ltb_ge | E%Nat.ltb_ge]; lia.
Qed.
Lemma swap_remove_keeps (l : list nat) i j x :
  (i < length l)%nat -> j <> i -> l !! j = Some x -> x ∈ swap_remove i l.
Proof.
  intros Hi Hne Hx. pose proof (lookup_lt_Some _ _ _ Hx) as Hj. apply list_elem_of_lookup. unfold swap_remove.
  destruct (_ && _) eqn:E.
  - apply andb_true_iff in E as [_ E%Nat.ltb_lt].
    destruct (decide (j = (length l - 1)%nat)) as [-> | Hlast].
    + exists i. apply lookup_take_Some. split; [| done]. rewrite list_lookup_insert_eq by done.
      by rewrite last_index in Hx by (intros ->; cbn in Hi; lia).
    + exists j. apply lookup_take_Some. split; [by rewrite list_lookup_insert_ne | lia].
  - exists j. apply lookup_take_Some. split; [done |].
    apply andb_false_iff in E as [E%Nat.ltb_ge | E%Nat.ltb_ge]; lia.
Qed.

Lemma first_index_Some skip l i :
  first_index skip l = Some i -> exists x, l !! i = Some x /\ skip x = false.
Proof.
  revert i. induction l as [| x l IH]; intros i E; [done |]. cbn in E.
  destruct (skip x) eqn:Ex; [| injection E as <-; by exists x].
  apply fmap_Some in E as (i' & E & ->). apply IH, E.
Qed.
Lemma first_index_at skip pre x post :
  (forall y, y ∈ pre -> skip y = true) -> skip x = false ->
  first_index skip (pre ++ x :: post) = Some (length pre).
Proof.
  intros Hpre Hx. induction pre as [| y pre IH]; cbn; [by rewrite Hx |].
  rewrite Hpre by by left. rewrite IH; [done |]. intros z Hz. apply Hpre. by right.
Qed.

Lemma remove_first_ext f g l : (forall x, f x = g x) -> remove_first f l = remove_first g l.
Proof.
  intros Hfg. unfold remove_first. assert (first_index f l = first_index g l) as ->; [| done].
  induction l as [| x l IH]; [done |]. cbn. by rewrite Hfg, IH.
Qed.
Lemma remove_first_skipped skip l x : x ∈ l -> skip x = true -> x ∈ remove_first skip l.
Proof.
  intros [j Hj]%list_elem_of_lookup Hx. unfold remove_first.
  destruct (first_index skip l) as [i |] eqn:E; [| by eapply list_elem_of_lookup_2].
  apply first_index_Some in E as (y & Hy & Hskip).
  eapply swap_remove_keeps; [by eapply lookup_lt_Some | | done]. intros ->. congruence.
Qed.
Lemma remove_first_removed skip pre x post :
  NoDup (pre ++ x :: post) -> (forall y, y ∈ pre -> skip y = true) -> skip x = false ->
  x ∉ remove_first skip (pre ++ x :: post).
Proof.
  intros Hnd Hpre Hx. unfold remove_first. rewrite first_index_at by done.
  assert (Hi : (pre ++ x :: post) !! length pre = Some x) by by apply list_lookup_middle.
  intros [j Hj]%list_elem_of_lookup.
  apply swap_remove_lookup in Hj as [(-> & Hlt & Hl) | [Hne Hl]]; [| | by eapply lookup_lt_Some].
  - pose proof (proj1 (NoDup_alt _) Hnd _ _ _ Hi Hl). lia.
  - apply Hne. symmetry. by eapply (proj1 (NoDup_alt _) Hnd).
Qed.

(** ** Relating rows *)

Lemma steps_on_table {A} t (m : M session A) : steps (same r_heap) (on_table t m).
Proof. intros w. unfold on_table. by destruct (m _). Qed.
Lemma steps_update_at t l columns : steps (same r_heap) (update_at t l columns).
Proof.
  unfold update_at. apply steps_bind; [typeclasses eauto | auto with go | intros w].
  apply steps_bind; [typeclasses eauto | apply steps_on_table | intros [? [e |]]]; auto with go.
Qed.

Lemma object_at_heap w w' l : r_heap w = r_heap w' -> object_at w l = object_at w' l.
Proof. unfold object_at. by intros ->. Qed.

(** After the key of the row [o] is set to NULL and written, the row is taken out of the list of
    the row [p] that it led to by [remove_first]. *)
Lemma RemoveParent_run o p w w' :
  o <> p -> RemoveParent r o (Some p) w = (Ok tt, w') ->
  (forall l, o_fields (object_at w' l) =
     if decide (l = o) then <[child_column r := VNull]> (o_fields (object_at w o)) else o_fields (object_at w l)) /\
  (o_R (object_at w p) <> None -> related_at w' p children =
     remove_first (fun ri => Equal VNull (if decide (ri = o) then VNull else field_at w ri (child_column r)))
       (related_at w p children)).
Proof.
  intros Hop. unfold RemoveParent. unfold mbind at 1, mmodify at 1, mbind at 1, mtry at 1.
  set (w1 := assign o _ _ w). pose proof (steps_update_at (child r) o (Whitelist [child_column r]) w1) as Hheap.
  destruct (update_at _ _ _ w1) as [[[] | e | e] w2]; [| done..]. cbn in Hheap.
  unfold mbind at 1, mmodify at 1. set (w3 := clear_related o back w2).
  assert (Hf1 : forall l, o_fields (object_at w3 l) =
    if decide (l = o) then <[child_column r := VNull]> (o_fields (object_at w o)) else o_fields (object_at w l)).
  { intros l. assert (o_fields (object_at w3 l) = o_fields (object_at w2 l)) as ->.
    { subst w3. unfold clear_related. destruct (o_R _); [| done]. apply fields_set_related. }
    rewrite <- (object_at_heap _ _ l Hheap). subst w1. unfold assign, set_fields. rewrite object_write.
    destruct (decide (o = l)) as [<- |]; [by rewrite decide_True | by rewrite decide_False]. }
  assert (Hp : object_at w3 p = object_at w p).
  { trans (object_at w2 p).
    - subst w3. unfold clear_related. destruct (o_R _); [| done]. by apply object_set_related.
    - rewrite <- (object_at_heap _ _ p Hheap). subst w1. unfold assign, set_fields. rewrite object_write.
      by rewrite decide_False. }
  unfold mmodify. rewrite Hp. destruct (o_R (object_at w p)) eqn:ER; intros [= <-].
  - split; [intros l; by rewrite fields_set_related |]. intros _. rewrite related_set_related.
    rewrite decide_True by done. unfold related_at at 1. rewrite Hp. fold (related_at w p children).
    apply remove_first_ext. intros x. unfold field_at. rewrite !Hf1.
    rewrite (decide_True (P:=o = o)) by done.
    destruct (decide (x = o)); by rewrite ?field_insert.
  - done.
Qed.

(** Taking a row from its parent leaves the row in the parent's list: the loop that takes it out
    skips the rows whose key equals the key of the row, which is NULL by then.  It takes out the
    first row with another key instead. *)
Theorem RemoveParent_keeps_row o p w w' :
  Equal VNull VNull = true ->
  o <> p -> NoDup (related_at w p children) -> o ∈ related_at w p children ->
  RemoveParent r o (Some p) w = (Ok tt, w') ->
  o ∈ related_at w' p children /\
  forall pre c post, related_at w p children = pre ++ c :: post ->
    c <> o -> Equal VNull (field_at w c (child_column r)) = false ->
    (forall x, x ∈ pre -> x = o \/ Equal VNull (field_at w x (child_column r)) = true) ->
    c ∉ related_at w' p children.
Proof.
  intros Heq Hop Hnd Ho Hrun. apply RemoveParent_run in Hrun as [_ Hrun]; [| done].
  rewrite Hrun; clear Hrun.
  2: { intros E. unfold related_at, related_of in Ho. rewrite E in Ho. by apply not_elem_of_nil in Ho. }
  split.
  - apply remove_first_skipped; [done |]. by rewrite decide_True.
  - intros pre c post E Hc Hkey Hpre. rewrite E in Hnd |- *. apply remove_first_removed; [done | |].
    + intros y Hy. destruct (decide (y = o)); [done |]. by destruct (Hpre y Hy).
    + by rewrite decide_False.
Qed.
End Loading.

(** ** A library that answers *)

Module RelationExamples.
Import ModelExamples.

(** The query for the tags of some claims answers with three rows. *)
Definition tag_row (id tag : Z) : struct := {["id" := VInt id; "tag_id" := VInt tag]}.
Definition tag_rows : list struct := [tag_row 10 2; tag_row 11 1; tag_row 12 2].

#[export] Instance loading : Loading := {|
  Infer := mkColumns 1 [];
  Whitelist l := mkColumns 2 l;
  Where s v := s;
  WhereIn s l := s;
  Equal x y := bool_decide (x = y);
  RunQuery _ _ := Ok {| rs_rows := Ok tag_rows; rs_Close := None; rs_Err := None |};
  range_args l := l;
|}.

(** Two tags in the heap, one twice in the slice. *)
Definition heap0 : rstate := {|
  r_history := []; r_caches := ∅;
  r_heap := {[0%nat := mkObject {["id" := VInt 1]} None; 1%nat := mkObject {["id" := VInt 2]} None]};
  r_next := 2;
|}.
Definition loaded : rstate := (tagL_LoadClaimTags (inr [0; 1; 1]%nat) None heap0).2.

Example demo_load :
  related_at loaded 0 "ClaimTags" = [3%nat] /\ related_at loaded 1 "ClaimTags" = [2; 4]%nat /\
  map (fun l => related_at loaded l "Tag") [2; 3; 4]%nat = [[1]; [0]; [1]]%nat /\
  length (r_history loaded) = 1%nat.
Proof. vm_compute. done. Qed.

(** The second row of the tag takes the first one's place when that one is removed. *)
Definition removed : rstate := (ClaimTag_RemoveTag 2 (Some 1%nat) loaded).2.
Example demo_remove :
  related_at removed 1 "ClaimTags" = [2%nat] /\ related_at removed 2 "Tag" = [] /\
  field_at removed 2 "tag_id" = VNull /\ field_at removed 4 "tag_id" = VInt 2.
Proof. vm_compute. done. Qed.
End RelationExamples.
Import ModelExamples RelationExamples.

Lemma LoadChildren_spec_witness :
  (exists w', LoadChildren tag_ClaimTags (inr [0; 1; 1]%nat) None heap0 = (Ok tt, w') /\
    length (r_history w') = 1%nat /\ children_loaded tag_ClaimTags [0; 1; 1]%nat tag_rows heap0 w') /\
  (exists w', LoadChildren tag_ClaimTags (inl 1%nat) None heap0 = (Ok tt, w') /\
    length (r_history w') = 1%nat /\ children_of_one_loaded tag_ClaimTags 1%nat tag_rows heap0 w').
Proof.
  split.
  - destruct (LoadChildren_spec tag_ClaimTags (inr [0; 1; 1]%nat) None heap0) as [Hs _].
    + done.
    + repeat constructor.
    + destruct (Hs tag_rows) as (w' & Hrun & Hh & Hl); [reflexivity |].
      exists w'. rewrite Hh. split; [exact Hrun | split; [reflexivity | exact Hl]].
  - destruct (LoadChildren_spec tag_ClaimTags (inl 1%nat) None heap0) as [Hs _].
    + done.
    + repeat constructor.
    + destruct (Hs tag_rows) as (w' & Hrun & Hh & Hl); [reflexivity |].
      exists w'. rewrite Hh. split; [exact Hrun | split; [reflexivity | exact Hl]].
Defined.

Lemma RemoveParent_keeps_row_witness :
  RemoveParent tag_ClaimTags 2 (Some 1%nat) loaded = (Ok tt, removed) /\
  2%nat ∈ related_at removed 1 "ClaimTags" /\ 4%nat ∉ related_at removed 1 "ClaimTags".
Proof.
  assert (Hrun : RemoveParent tag_ClaimTags 2 (Some 1%nat) loaded = (Ok tt, removed)).
  { vm_compute. reflexivity. }
  assert (Hl : related_at loaded 1 "ClaimTags" = [2; 4]%nat) by (vm_compute; reflexivity).
  destruct (RemoveParent_keeps_row tag_ClaimTags 2 1 loaded removed) as [H1 H2].
  - reflexivity.
  - done.
  - cbn [children_name tag_ClaimTags]. rewrite Hl. by apply (bool_decide_unpack _).
  - cbn [children_name tag_ClaimTags]. rewrite Hl. by left.
  - exact Hrun.
  - split; [exact Hrun | split; [exact H1 |]].
    apply (H2 [2%nat] 4%nat []); [exact Hl | done | vm_compute; reflexivity |].
    intros x ->%list_elem_of_singleton. by left.
Defined.
